(* ===== verification/_CoqProject ===== *)
-Q . S2P
Prelude.v
CStr.v
Mem.v
KList.v
Rcu.v
Expect.v
Failtest.v
Csum.v
Endian.v
Skb.v
KernLib.v
Macros.v
Jhash.v
Refs.v
Timer.v
Notifier.v
Lock.v
Talloc.v
Forest.v
TallocFree.v
TallocSpec.v
Helpers.v
Field.v
Kmem.v
SeqFile.v
SeqOpen.v
Sysctl.v
Proc.v
Route.v
IpPath.v
Inet6.v
SkbOps.v
Frag.v
Modules.v
FakeSock.v
Fork.v
Log.v
Main.v
Program.v
Tui.v
GenIp.v
Headers.v
TcpSession.v
Describe.v
Hooks.v
Tools.v
Command.v
CmdParse.v
CmdDescribe.v
