(* ===== verification/Prelude.v ===== *)
(** * nfsim: a verification library for the netfilter simulation environment

    nfsim (src/) runs Linux netfilter code in user space: [kernelenv/] supplies
    the kernel services that code expects, [core/] the simulator itself (packet
    path, expectations, failure injection, logging, allocation), and [tools/]
    the script commands.  This file is the root of the development and its prelude.

    ** How the program works

    main (core/core.c) reads the options, runs the start-up functions the linker has
    collected, loads the modules of netfilter and then runs a script, a command per line
    (core/tui.c).  A command is run between hooks: expectations (core/expect.c) that were
    stated before it are compared with what it logs (core/log.c).  gen_ip builds a packet
    and hands it to the IPv4 path (core/ipv4/ipv4.c), which asks the netfilter hooks, looks
    for routes, puts fragments together and checks that the packet buffers of
    kernelenv/kernelenv.c were used properly.  iptables runs as a process of its own with a
    library (core/fakesockopt.c) in front of libc, which sends its system calls to the
    simulator (core/message.c).  Under --failtest (core/failtest.c) every service that can
    fail forks the simulator, so that both outcomes are tried.  All memory comes from
    talloc (core/talloc.c), whose tree tells at the end what was not given back.

    ** The model

    C integers are numbers with their wrap-around written out ([wrap], [signed]).  A function
    returns an [outcome]: [Ret], [Barf] where the program gives up (barf, panic, assert,
    BUG), [Fault] where the behaviour of C is undefined: outside an object, through a pointer
    to something that was freed.  A theorem that a function returns [Ret] therefore says
    that its accesses are valid.  State is passed explicitly.  Callbacks, and code that is
    not under src/, are parameters: the kernel's netfilter code, libc's getopt_long,
    inet_aton and malloc, the shell, dlopen.

    ** The files, from the bottom up

    - Prelude.v: integers, outcomes, lists, tactics.  CStr.v: the functions of string.h on
      text.  Mem.v: objects as lists of bytes.
    - KList.v (core/list.h): the pointer rings of the kernel on a heap of nodes.
      [list_ops_refine]: any sequence of operations is the one on lists.  Rcu.v: the same lists
      with a reader that comes in between the stores, [rcu_reader_sees_what_stays].
    - Talloc.v, Forest.v, TallocFree.v, TallocSpec.v (core/talloc.c): chunks at addresses; the
      forest they represent; what a free removes; the abstract specification.  What new
      memory holds is up to the C library ([Malloc]).
      [talloc_simulates] is the refinement the users of talloc build on: Field.v
      (core/field.c, [field_lifetime]) and Kmem.v (the kernel's allocators,
      [kmem_caches_own_objects]).
    - KernLib.v, Macros.v, Endian.v, Jhash.v, Notifier.v, Lock.v, Timer.v, Refs.v (kernelenv/): the
      services of the kernel, each with what it is meant to be: sets of bits, division,
      byte orders, a list by priority, readers and a writer, a queue by time, users.
    - Skb.v, SkbOps.v (kernelenv.c): packet buffers and any sequence of operations on them.
    - Csum.v (ipv4.c): checksums against RFC 1071, for both byte orders.  Route.v (ipv4.c,
      tools/route.c, tools/ifconfig.c): interfaces, routes, the cache.  Frag.v: fragments.
      IpPath.v: the way of a packet, [packet_way].  Inet6.v (core/ipv6/): the way through IPv6.
    - Expect.v, Log.v, Tui.v, Failtest.v (core/): the expectations, the log, scripts and
      failure injection.  [Logger] (Log.v) is the interface by which the others log; their
      theorems hold for every state with such an operation.
    - FakeSock.v, Program.v, Fork.v (message.c, fakesockopt.c, tools/iptables.c): the two
      processes of a program and the simulator as a step relation, with writes that arrive
      in pieces; the output of a program and the order of its lines and messages; the
      descriptors that connect a simulator with its program.
    - SeqFile.v, SeqOpen.v, Sysctl.v, Proc.v (core/seq_file.c, kernelenv/proc_stuff.c): /proc,
      from the reads of a file of records to the memory the open files own.
    - Modules.v, Hooks.v, TcpSession.v, Tools.v, Helpers.v (tools/, core/utils.c): modules, the
      hooks they register, the commands.
    - GenIp.v, Describe.v (tools/gen_ip.c, ipv4.c) parse and print packets; Command.v,
      CmdParse.v and CmdDescribe.v state and prove that the one is the inverse of the other.
      Headers.v (ipv4.h): the structs of the headers as the bytes on the wire.
    - Main.v (core/core.c): options, start and end of a run.  It joins the options to the
      functions of the other parts and the tables they start with.

    Components meet in interfaces: [Logger]; [Registry] and [Fields] (Hooks.v), what the hooks
    need of the kernel and of fields; [Conversions] with its laws [Order] (Endian.v).

    ** What the theorems show

    Safety and types: no access outside a buffer ([skb_ops_typed], [check_packet_detects],
    [strlcpy_strlcat_bounded]), no use of what was freed ([connections_live_while_used],
    [field_lifetime], [sysctl_taken_back], [seq_files_give_back], [rcu_reader_sees_what_stays]).  Refinements and equivalences: a component is an
    abstract object ([talloc_simulates], [timer_run_refines], [notifier_refines],
    [rwlock_refines], [list_ops_refine], [bitops_set]), a cache or a cut does not show
    ([route_cache_transparent], [do_csum_rfc1071], [loose_match_glob]).  Across processes:
    [syscall_refines], [run_command_any_schedule], [failtest_exhaustive].
    Round trips: [gen_ip_describe], [escape_roundtrip], [dointvec_roundtrip],
    [failpath_replays], [byte_orders].  Errors: [register_all_or_nothing].  Termination:
    [load_all_finds_order], [seq_file_text].  Behaviour: [packet_way], [defrag_any_order],
    [script_runs_words], [expect_run_spec], [cat_prints].

    ** Fuel and bounds

    Recursion that is not structural has a bound as its first argument, and running out of it
    is [Fault] or [None], so that a theorem with a result shows that the bound was enough.
    Loops over a list take its length, loops over a number the number, the operations of
    talloc the number of chunks, a run of a program the number of bytes and messages left.
    Sizes of buffers are those of the source: 20 fragments and 70000 bytes (Frag.v), 4096
    characters of a line of printk (Log.v), a page of /proc (Proc.v), 1023 bytes of output
    a read (Program.v).

    ** Not modelled

    What only prints: the texts of help, license and version.  The testsuite, the documentation and
    the build files.  Of netfilter there is only an empty module under src/; its hooks,
    connection tracking and tables are parameters.  readline's prompt, signals beside the
    result of select, and the moments at which a shared object is bound belong to libraries.
    Constants of system headers, declarations and memory barriers have no definition of
    their own.  A printed message is an argument where its text does not matter. *)

From Stdlib Require Import ZArith Lia.
From stdpp Require Export base tactics option list numbers strings gmap.
Open Scope Z_scope.

(** ** Machine integers *)

(** A [w]-bit unsigned integer is a [Z] in [0, 2^w); every C operation that can
    leave that range is followed by [wrap w]. *)
Definition wrap (w x : Z) : Z := x mod 2 ^ w.
Abbreviation u8 := (wrap 8).
Abbreviation u16 := (wrap 16).
Abbreviation u32 := (wrap 32).
Abbreviation u64 := (wrap 64).

(** Reinterpretation of the low [w] bits as a two's complement number. *)
Definition signed (w x : Z) : Z :=
  let y := wrap w x in if y <? 2 ^ (w - 1) then y else y - 2 ^ w.
Abbreviation s32 := (signed 32).
Abbreviation s64 := (signed 64).

(** [~x] at width [w]. *)
Definition cnot (w x : Z) : Z := wrap w (Z.lnot x).

(** C truth values. *)
Definition c_bool (b : bool) : Z := if b then 1 else 0.

(** ** Outcomes of C functions

    [Ret]: the function returned.  [Barf]: the simulator gave up ([barf],
    [panic], [assert], [BUG]).  [Fault]: the C code's behaviour is undefined at
    this point (access outside an object, poisoned pointer). *)
Inductive outcome (A : Type) : Type :=
| Ret (a : A)
| Barf (msg : string)
| Fault (msg : string).
Arguments Ret {A} a.
Arguments Barf {A} msg.
Arguments Fault {A} msg.

#[export] Instance outcome_ret : MRet outcome := @Ret.
#[export] Instance outcome_bind : MBind outcome := λ A B f m,
  match m with Ret a => f a | Barf s => Barf s | Fault s => Fault s end.
#[export] Instance outcome_fmap : FMap outcome := λ A B f m,
  match m with Ret a => Ret (f a) | Barf s => Barf s | Fault s => Fault s end.

Definition barf_if (b : bool) (msg : string) : outcome unit :=
  if b then Barf msg else Ret ().
Definition of_option {A} (msg : string) (o : option A) : outcome A :=
  match o with Some a => Ret a | None => Fault msg end.

Lemma bind_ret {A B} (a : A) (f : A → outcome B) : Ret a ≫= f = f a.
Proof. reflexivity. Qed.

Lemma bind_Ret_inv {A B} (m : outcome A) (f : A → outcome B) b :
  m ≫= f = Ret b → ∃ a, m = Ret a ∧ f a = Ret b.
Proof. destruct m; simpl; try discriminate. eauto. Qed.

Lemma of_option_Ret {A} msg (o : option A) a : (of_option msg o = Ret a) ↔ (o = Some a).
Proof. destruct o; simpl; split; congruence. Qed.

Create HintDb nfsim.
Create Rewrite HintDb nfsim.
#[export] Hint Rewrite @bind_ret : nfsim.

(** Case analysis on every [x ← m; k] of a hypothesis that returned. *)
Ltac inv_bind :=
  repeat match goal with
  | H : _ ≫= _ = Ret _ |- _ =>
      apply bind_Ret_inv in H; destruct H as (? & ? & H); simpl in H
  | H : @mret outcome _ _ ?a = Ret ?b |- _ => change (Ret a = Ret b) in H
  | H : Ret _ = Ret _ |- _ => injection H; clear H; intros; subst
  | H : of_option _ _ = Ret _ |- _ => rewrite of_option_Ret in H
  end.

(** [lia] with the Euclidean equations of [/] and [mod] added. *)
Ltac zlia := Z.div_mod_to_equations; lia.

(** ** Facts about machine integers *)

Section Wrap.
Context (w : Z) (Hw : 0 <= w).

Lemma wrap_range x : 0 <= wrap w x < 2 ^ w.
Proof using Hw. apply Z.mod_pos_bound; lia. Qed.

Lemma wrap_small x : 0 <= x < 2 ^ w → wrap w x = x.
Proof using Hw. apply Z.mod_small. Qed.

Lemma wrap_wrap x : wrap w (wrap w x) = wrap w x.
Proof using Hw. apply wrap_small, wrap_range. Qed.

Lemma wrap_add_l x y : wrap w (wrap w x + y) = wrap w (x + y).
Proof using Hw. unfold wrap. apply Zplus_mod_idemp_l. Qed.

Lemma wrap_add_r x y : wrap w (x + wrap w y) = wrap w (x + y).
Proof using Hw. unfold wrap. apply Zplus_mod_idemp_r. Qed.

Lemma wrap_sub_l x y : wrap w (wrap w x - y) = wrap w (x - y).
Proof using Hw. unfold wrap. apply Zminus_mod_idemp_l. Qed.

Lemma wrap_sub_r x y : wrap w (x - wrap w y) = wrap w (x - y).
Proof using Hw. unfold wrap. apply Zminus_mod_idemp_r. Qed.

Lemma wrap_land x : wrap w x = Z.land x (Z.ones w).
Proof using Hw. symmetry. by apply Z.land_ones. Qed.

Lemma testbit_wrap x i :
  Z.testbit (wrap w x) i = bool_decide (0 <= i < w) && Z.testbit x i.
Proof using Hw.
  rewrite wrap_land, Z.land_spec, andb_comm.
  case_bool_decide as Hi; simpl.
  - rewrite Z.ones_spec_low; [done|lia].
  - destruct (Z.neg_nonneg_cases i); [by rewrite (Z.testbit_neg_r (Z.ones w))|].
    rewrite Z.ones_spec_high; [done|lia].
Qed.

Lemma cnot_sub x : 0 <= x < 2 ^ w → cnot w x = 2 ^ w - 1 - x.
Proof using Hw.
  intros Hx. unfold cnot, wrap. rewrite <-(Z.mod_small (2 ^ w - 1 - x) (2 ^ w)) by lia.
  unfold Z.lnot. replace (Z.pred (- x)) with ((2 ^ w - 1 - x) + (-1) * 2 ^ w) by lia.
  apply Z_mod_plus_full.
Qed.
End Wrap.

(** The values [0 .. 2^w - 1], as a boolean and as a predicate on lists. *)
Definition in_width (w x : Z) : Prop := 0 <= x < 2 ^ w.
#[export] Instance in_width_dec w x : Decision (in_width w x).
Proof. unfold in_width. apply _. Defined.
Abbreviation is_byte := (in_width 8).

(** A non-negative int. *)
Lemma s32_small x : 0 <= x < 2 ^ 31 → s32 x = x.
Proof.
  intros. unfold signed. rewrite wrap_small by lia. change (2 ^ (32 - 1)) with (2 ^ 31).
  by rewrite (proj2 (Z.ltb_lt _ _)) by lia.
Qed.

(** ** Little-endian words *)

(** The memory image of an unsigned integer on the little-endian build
    (kernelenv_littleendian.h). *)
Fixpoint le_word (l : list Z) : Z :=
  match l with [] => 0 | b :: l => b + 256 * le_word l end.

Fixpoint le_bytes (n : nat) (x : Z) : list Z :=
  match n with O => [] | S n => u8 x :: le_bytes n (x / 256) end.

Lemma length_le_bytes n x : length (le_bytes n x) = n.
Proof. revert x; induction n; intros; simpl; auto. Qed.

Lemma le_word_bytes n x : le_word (le_bytes n x) = x mod 256 ^ Z.of_nat n.
Proof.
  revert x; induction n as [|n IH]; intros x; [simpl; by rewrite Z.mod_1_r|].
  simpl le_bytes. simpl le_word. rewrite IH, Nat2Z.inj_succ, Z.pow_succ_r by lia.
  unfold wrap. change (2 ^ 8) with 256.
  rewrite Z.rem_mul_r by (try apply Z.pow_nonzero; lia). lia.
Qed.

Lemma le_word_app l1 l2 :
  le_word (l1 ++ l2) = le_word l1 + 256 ^ Z.of_nat (length l1) * le_word l2.
Proof.
  induction l1 as [|b l1 IH]; simpl; [lia|].
  rewrite IH. replace (Z.of_nat (S (length l1))) with (Z.succ (Z.of_nat (length l1))) by lia.
  rewrite Z.pow_succ_r by lia. ring.
Qed.

Lemma le_word_range l :
  Forall is_byte l → 0 <= le_word l < 256 ^ Z.of_nat (length l).
Proof.
  induction 1 as [|b l Hb Hl IH]; simpl; [lia|].
  replace (Z.of_nat (S (length l))) with (Z.succ (Z.of_nat (length l))) by lia.
  rewrite Z.pow_succ_r by lia. unfold in_width in Hb. lia.
Qed.

Lemma le_bytes_are_bytes n x : Forall is_byte (le_bytes n x).
Proof.
  revert x; induction n as [|n IH]; intros x; simpl; constructor; auto.
  apply wrap_range; lia.
Qed.

(** ** Option and list helpers *)

Lemma list_split_at {A} (l : list A) n :
  (n <= length l)%nat → ∃ l1 l2, l = l1 ++ l2 ∧ length l1 = n.
Proof.
  intros Hn. exists (take n l), (drop n l). rewrite take_drop, length_take. split; [done|lia].
Qed.

Lemma not_elem_app {A} (x : A) l1 l2 : (x ∉ l1 ++ l2) ↔ (x ∉ l1 ∧ x ∉ l2).
Proof. rewrite elem_of_app. tauto. Qed.

#[export] Hint Rewrite @not_elem_app @not_elem_of_cons : nfsim.

Lemma existsb_ext_in {A} (f g : A → bool) l :
  (∀ x, In x l → f x = g x) → existsb f l = existsb g l.
Proof.
  induction l as [|x l IH]; intros H; simpl; [done|].
  rewrite (H x) by (by left). f_equal. apply IH. intros y Hy. apply H. by right.
Qed.

Lemma filter_all {A} (P : A → Prop) `{∀ x, Decision (P x)} l : Forall P l → filter P l = l.
Proof. induction 1 as [|a l Ha Hl IH]; [done|]. by rewrite filter_cons, decide_True, IH. Qed.

Lemma filter_nothing {A} (P : A → Prop) `{∀ x, Decision (P x)} l : Forall (λ x, ¬ P x) l → filter P l = [].
Proof. induction 1 as [|a l Ha Hl IH]; [done|]. by rewrite filter_cons, decide_False, IH. Qed.

(** Disjoint bits: [a | (b << k)] is an addition. *)
Lemma lor_shiftl_add a b k : 0 <= k → 0 <= a < 2 ^ k → Z.lor a (Z.shiftl b k) = a + b * 2 ^ k.
Proof.
  intros Hk Ha. assert (Hland : Z.land a (Z.shiftl b k) = 0).
  { apply Z.bits_inj'. intros i Hi. rewrite Z.land_spec, Z.bits_0, Z.shiftl_spec by lia.
    destruct (Z.lt_ge_cases i k).
    - rewrite (Z.testbit_neg_r b) by lia. apply andb_false_r.
    - rewrite <-(Z.mod_small a (2 ^ k)) by lia. rewrite Z.mod_pow2_bits_high by lia. done. }
  rewrite <-Z.lxor_lor, <-Z.add_nocarry_lxor by done. by rewrite Z.shiftl_mul_pow2.
Qed.

(** A number is below [2^w] when it has no bit from [w] on. *)
Lemma testbit_bound w x : 0 <= w → 0 <= x → (∀ i, w <= i → Z.testbit x i = false) → x < 2 ^ w.
Proof.
  intros Hw Hx Hb. assert (x = x mod 2 ^ w) as ->; [|apply Z.mod_pos_bound; lia].
  apply Z.bits_inj'. intros i Hi. destruct (Z.lt_ge_cases i w).
  - by rewrite Z.mod_pow2_bits_low.
  - rewrite Z.mod_pow2_bits_high by lia. by apply Hb.
Qed.

Lemma testbit_above w x i : 0 <= x < 2 ^ w → w <= i → Z.testbit x i = false.
Proof.
  intros Hx Hi. destruct (Z.eq_dec x 0) as [->|]; [apply Z.bits_0|].
  assert (0 <= w) by (destruct (Z.lt_ge_cases w 0); [rewrite Z.pow_neg_r in Hx; lia|done]).
  apply Z.bits_above_log2; [lia|]. assert (Z.log2 x < w) by (apply Z.log2_lt_pow2; lia). lia.
Qed.
