(* ===== verification/CStr.v ===== *)
(** * C strings

    A C string is the list of its characters before the terminating NUL.  The
    <string.h>/<stdlib.h> functions the source uses, on that representation, and
    the lemmas about them that the components share. *)

From Stdlib Require Import Lia.
From Stdlib Require Export Ascii.
From S2P Require Import Prelude.

Abbreviation text := (list ascii).
Definition NUL : ascii := "000".
Definition c_string (s : text) : Prop := NUL ∉ s.

(** A string literal. *)
Abbreviation tx := String.list_ascii_of_string.

(** [s[0]]: the NUL when the string is empty. *)
Definition hd0 (s : text) : ascii := match s with [] => NUL | c :: _ => c end.
(** [s[i]] for an index inside the string or at its NUL. *)
Definition char_at (s : text) (i : nat) : ascii := hd0 (drop i s).

Definition ascii_eqb (a b : ascii) : bool := bool_decide (a = b).
Definition streq (a b : text) : bool := bool_decide (a = b).

Definition mem (c : ascii) (set : text) : bool := bool_decide (c ∈ set).
Fixpoint strspn (s accept : text) : nat :=
  match s with
  | [] => O
  | c :: s => if mem c accept then S (strspn s accept) else O
  end.
Fixpoint strcspn (s reject : text) : nat :=
  match s with
  | [] => O
  | c :: s => if mem c reject then O else S (strcspn s reject)
  end.

(** [strncmp (s, prefix, strlen (prefix)) == 0] *)
Fixpoint strstarts (s prefix : text) : bool :=
  match prefix, s with
  | [], _ => true
  | c :: prefix, d :: s => ascii_eqb c d && strstarts s prefix
  | _ :: _, [] => false
  end.

(** Offset of the first occurrence. *)
Fixpoint strstr (hay needle : text) : option nat :=
  if strstarts hay needle then Some O else
  match hay with [] => None | _ :: hay => S <$> strstr hay needle end.

Fixpoint strchr (s : text) (c : ascii) : option nat :=
  match s with
  | [] => if ascii_eqb c NUL then Some O else None
  | d :: s => if ascii_eqb c d then Some O else S <$> strchr s c
  end.

(** ** Numbers *)

Definition code (c : ascii) : Z := Z.of_nat (nat_of_ascii c).
Definition chr (z : Z) : ascii := ascii_of_nat (Z.to_nat z).
Definition isdigit (c : ascii) : bool := (48 <=? code c) && (code c <=? 57).
Definition isspace (c : ascii) : bool := (code c =? 32) || ((9 <=? code c) && (code c <=? 13)).
Definition isupper (c : ascii) : bool := (65 <=? code c) && (code c <=? 90).
Definition islower (c : ascii) : bool := (97 <=? code c) && (code c <=? 122).
Definition isalpha (c : ascii) : bool := isupper c || islower c.
Definition isalnum (c : ascii) : bool := isalpha c || isdigit c.
Definition isprint (c : ascii) : bool := (32 <=? code c) && (code c <=? 126).
Definition tolower (c : ascii) : Z := if isupper c then code c + 32 else code c.

(** The value of a digit in bases up to 16. *)
Definition digit_val (c : ascii) : option Z :=
  if isdigit c then Some (code c - 48)
  else if isalpha c then Some (tolower c - 97 + 10)
  else None.

(** The digits strtoul converts: their value in [base] and how many there are. *)
Fixpoint digits (base : Z) (s : text) (acc : Z) (n : nat) : Z * nat :=
  match s with
  | [] => (acc, n)
  | c :: s' =>
      match digit_val c with
      | Some d => if d <? base then digits base s' (acc * base + d) (S n) else (acc, n)
      | None => (acc, n)
      end
  end.

(** [strtoul (s, &end, base)]: value and offset of [end].  A value over
    ULONG_MAX saturates; a minus sign negates at width 64; base 0 takes the base
    from the prefix; [end] is 0 when there are no digits. *)
Definition ULONG_MAX : Z := 2 ^ 64 - 1.
Definition hexprefix (s : text) : bool :=
  ascii_eqb (hd0 s) "0" && bool_decide (char_at s 1 ∈ tx "xX") &&
  match digit_val (char_at s 2) with Some d => d <? 16 | None => false end.

Definition strtoul (s : text) (base : Z) : Z * nat :=
  let ws := strspn s (tx " " ++ (chr <$> [9; 10; 11; 12; 13])) in
  let s1 := drop ws s in
  let neg := ascii_eqb (hd0 s1) "-" in
  let sign := if neg || ascii_eqb (hd0 s1) "+" then 1%nat else O in
  let s2 := drop sign s1 in
  let hex := ((base =? 0) || (base =? 16)) && hexprefix s2 in
  let b := if base =? 0 then (if hex then 16 else if ascii_eqb (hd0 s2) "0" then 8 else 10) else base in
  let pre := if hex then 2%nat else O in
  let '(v, n) := digits b (drop pre s2) 0 O in
  if (n =? 0)%nat then (0, O) else
  let v' := if ULONG_MAX <? v then ULONG_MAX else if neg then wrap 64 (- v) else v in
  (v', (ws + sign + pre + n)%nat).

(** [atoi]: the value truncated to [int]. *)
Definition atoi (s : text) : Z :=
  let ws := strspn s (tx " " ++ (chr <$> [9; 10; 11; 12; 13])) in
  let s1 := drop ws s in
  let neg := ascii_eqb (hd0 s1) "-" in
  let s2 := if neg || ascii_eqb (hd0 s1) "+" then drop 1 s1 else s1 in
  let '(v, _) := digits 10 s2 0 O in
  signed 32 (if neg then - v else v).

(** [%u]/[%d]: the decimal digits of a number, most significant first; every
    round divides by ten, so the number's bit length is fuel enough. *)
Fixpoint dec_digits (fuel : nat) (n : Z) (acc : text) : text :=
  let acc := chr (48 + n mod 10) :: acc in
  match fuel with
  | O => acc
  | S fuel => if n <? 10 then acc else dec_digits fuel (n / 10) acc
  end.
Definition print_u (n : Z) : text := dec_digits (Z.to_nat (Z.log2 n + 1)) n [].
Definition print_d (n : Z) : text := if n <? 0 then "-"%char :: print_u (- n) else print_u n.

(** ** Lemmas *)

Lemma c_string_drop n s : c_string s → c_string (drop n s).
Proof. intros H Hin. apply H. rewrite <-(take_drop n s). set_solver. Qed.
Lemma c_string_take n s : c_string s → c_string (take n s).
Proof. intros H Hin. apply H. rewrite <-(take_drop n s). set_solver. Qed.
Lemma c_string_app a b : c_string (a ++ b) ↔ (c_string a ∧ c_string b).
Proof. unfold c_string. set_solver. Qed.
Lemma c_string_hd0 s : c_string s → hd0 s = NUL → s = [].
Proof. destruct s; [done|]. simpl. intros H ->. exfalso. apply H. set_solver. Qed.
Lemma char_at_drop n s i : char_at (drop n s) i = char_at s (n + i).
Proof. unfold char_at. by rewrite drop_drop. Qed.

Lemma ascii_eqb_spec a b : (ascii_eqb a b = true) ↔ (a = b).
Proof. unfold ascii_eqb. by rewrite bool_decide_eq_true. Qed.

Lemma streq_spec a b : (streq a b = true) ↔ (a = b).
Proof. unfold streq. by rewrite bool_decide_eq_true. Qed.

Lemma mem_spec c s : (mem c s = true) ↔ (c ∈ s).
Proof. unfold mem. by rewrite bool_decide_eq_true. Qed.
Lemma mem_false c s : (mem c s = false) ↔ (c ∉ s).
Proof. unfold mem. by rewrite bool_decide_eq_false. Qed.

Lemma strspn_le s a : (strspn s a <= length s)%nat.
Proof. induction s; simpl; [lia|]. destruct mem; lia. Qed.

Lemma strspn_take s a i : (i <= strspn s a)%nat → Forall (.∈ a) (take i s).
Proof.
  revert i; induction s as [|c s IH]; intros [|i] Hi; simpl in *; try by constructor.
  destruct (mem c a) eqn:E; [|lia]. apply mem_spec in E. constructor; [done|apply IH; lia].
Qed.

Lemma strspn_app b s a : Forall (.∈ a) b → strspn (b ++ s) a = (length b + strspn s a)%nat.
Proof.
  induction 1 as [|c b Hc Hb IH]; simpl; [done|]. apply mem_spec in Hc. by rewrite Hc, IH.
Qed.

Lemma strspn_drop s a : hd0 (drop (strspn s a) s) ∉ a ∨ drop (strspn s a) s = [].
Proof.
  induction s as [|c s IH]; simpl; [by right|]. destruct (mem c a) eqn:E; simpl; [done|].
  left. by apply mem_false.
Qed.

Lemma strspn_0 s a : hd0 s ∉ a → strspn s a = O.
Proof. destruct s; simpl; [done|]. intros E%mem_false. by rewrite E. Qed.

Lemma strcspn_le s r : (strcspn s r <= length s)%nat.
Proof. induction s; simpl; [lia|]. destruct mem; lia. Qed.

Lemma strcspn_take s r : Forall (.∉ r) (take (strcspn s r) s).
Proof.
  induction s as [|c s IH]; simpl; [by constructor|].
  destruct (mem c r) eqn:E; [by constructor|]. apply mem_false in E. by constructor.
Qed.

Lemma strcspn_before s r i : (i < strcspn s r)%nat → char_at s i ∉ r.
Proof.
  revert i; induction s as [|c s IH]; intros i Hi; simpl in *; [lia|].
  destruct (mem c r) eqn:E; [lia|]. apply mem_false in E.
  destruct i as [|i]; [done|]. unfold char_at. simpl. apply IH. lia.
Qed.

Lemma strcspn_app b c s r : Forall (.∉ r) b → c ∈ r → strcspn (b ++ c :: s) r = length b.
Proof.
  intros Hb Hc. induction Hb as [|x b Hx Hb IH]; simpl.
  - apply mem_spec in Hc. by rewrite Hc.
  - apply mem_false in Hx. by rewrite Hx, IH.
Qed.

Lemma strstarts_spec s p : (strstarts s p = true) ↔ (∃ s', s = p ++ s').
Proof.
  revert s; induction p as [|c p IH]; intros s; [split; [by exists s|by destruct s]|].
  destruct s as [|d s]; cbn [strstarts]; [split; [done|by intros [s' [=]]]|].
  rewrite andb_true_iff, ascii_eqb_spec, IH. split.
  - intros [-> [s' ->]]. by exists s'.
  - intros [s' [= -> ->]]. eauto.
Qed.

Lemma strstr_spec h n k : strstr h n = Some k →
  strstarts (drop k h) n = true ∧ ∀ j, (j < k)%nat → strstarts (drop j h) n = false.
Proof.
  revert k; induction h as [|c h IH]; intros k; cbn [strstr].
  - destruct (strstarts [] n) eqn:E; [|done]. intros [= <-]. split; [done|lia].
  - destruct (strstarts (c :: h) n) eqn:E.
    + intros [= <-]. split; [done|lia].
    + intros (k' & Hk & ->)%fmap_Some. destruct (IH k' Hk) as [H1 H2].
      split; [done|]. intros [|j] Hj; simpl; [done|]. apply H2; lia.
Qed.

Lemma strstr_None h n : strstr h n = None → ∀ j, (j <= length h)%nat → strstarts (drop j h) n = false.
Proof.
  induction h as [|c h IH]; cbn [strstr].
  - destruct (strstarts [] n) eqn:E; [done|]. intros _ j Hj. by rewrite drop_nil.
  - destruct (strstarts (c :: h) n) eqn:E; [done|]. intros H%fmap_None [|j] Hj; simpl; [done|].
    simpl in Hj. apply IH; [done|lia].
Qed.

Lemma code_range c : 0 <= code c < 256.
Proof. unfold code. pose proof (nat_ascii_bounded c). lia. Qed.

Lemma code_chr z : 0 <= z < 256 → code (chr z) = z.
Proof. intros Hz. unfold code, chr. rewrite nat_ascii_embedding; lia. Qed.

Lemma chr_code c : chr (code c) = c.
Proof. unfold code, chr. by rewrite Nat2Z.id, ascii_nat_embedding. Qed.

Lemma code_inj a b : code a = code b → a = b.
Proof. intros H. by rewrite <-(chr_code a), <-(chr_code b), H. Qed.

Lemma digit_val_chr d : 0 <= d < 10 → digit_val (chr (48 + d)) = Some d.
Proof.
  intros Hd. unfold digit_val, isdigit. rewrite code_chr by lia.
  rewrite (proj2 (Z.leb_le _ _)), (proj2 (Z.leb_le _ _)) by lia. simpl. f_equal. lia.
Qed.

Lemma digits_app base s d rest acc n :
  digit_val d = None ∨ (∃ v, digit_val d = Some v ∧ base <= v) →
  Forall (λ c, ∃ v, digit_val c = Some v ∧ v < base) s →
  digits base (s ++ d :: rest) acc n =
    (fold_left (λ a c, a * base + default 0 (digit_val c)) s acc, (n + length s)%nat).
Proof.
  intros Hd Hs. revert acc n. induction Hs as [|c s (v & Hv & Hlt) Hs IH]; intros acc n; simpl.
  - destruct Hd as [->|(v & -> & Hv)]; [|rewrite (proj2 (Z.ltb_ge _ _)) by lia];
      f_equal; lia.
  - rewrite Hv, (proj2 (Z.ltb_lt _ _)) by lia. rewrite IH. simpl. f_equal. lia.
Qed.

Lemma dec_digits_spec fuel n acc : 0 <= n < 2 ^ Z.of_nat fuel * 10 →
  ∃ s, dec_digits fuel n acc = s ++ acc ∧ s ≠ [] ∧
    Forall (λ c, isdigit c = true ∧ digit_val c = Some (code c - 48)) s ∧
    (∀ a, fold_left (λ a c, a * 10 + default 0 (digit_val c)) s a =
      a * 10 ^ Z.of_nat (length s) + n).
Proof.
  revert n acc; induction fuel as [|fuel IH]; intros n acc Hn.
  - simpl in Hn. exists [chr (48 + n)]. unfold dec_digits. rewrite (Z.mod_small n 10) by lia.
    assert (Hd := digit_val_chr n ltac:(lia)). split_and!; [done..| |].
    + constructor; [|constructor]. rewrite Hd. unfold isdigit. rewrite code_chr by lia.
      split; [lia|f_equal; lia].
    + intros a. cbn [fold_left length]. rewrite Hd. cbn [default]. unfold id. lia.
  - rewrite Nat2Z.inj_succ, Z.pow_succ_r in Hn by lia. cbn [dec_digits].
    assert (Hm : 0 <= n mod 10 < 10) by (apply Z.mod_pos_bound; lia).
    assert (Hd := digit_val_chr (n mod 10) Hm).
    assert (HF : isdigit (chr (48 + n mod 10)) = true ∧
       digit_val (chr (48 + n mod 10)) = Some (code (chr (48 + n mod 10)) - 48)).
    { rewrite Hd. unfold isdigit. rewrite code_chr by lia. split; [lia|f_equal; lia]. }
    destruct (n <? 10) eqn:E.
    + exists [chr (48 + n mod 10)]. split_and!; [done..|by apply Forall_singleton|].
      intros a. cbn [fold_left length]. rewrite Hd. cbn [default]. unfold id. rewrite Z.mod_small by lia. lia.
    + destruct (IH (n / 10) (chr (48 + n mod 10) :: acc)) as (s & -> & Hne & HFs & Hv).
      { split; [apply Z.div_pos; lia|]. apply Z.div_lt_upper_bound; lia. }
      exists (s ++ [chr (48 + n mod 10)]). rewrite <-app_assoc. split_and!; [done| | |].
      * by destruct s.
      * apply Forall_app. split; [done|by apply Forall_singleton].
      * intros a. rewrite fold_left_app, Hv. cbn [fold_left]. rewrite Hd. cbn [default]. unfold id.
        rewrite length_app, Nat2Z.inj_add, Z.pow_add_r by lia. simpl length.
        pose proof (Z.div_mod n 10 ltac:(lia)). change (10 ^ Z.of_nat 1) with 10.
        set (X := 10 ^ Z.of_nat (length s)) in *. nia.
Qed.

Lemma print_u_spec n : 0 <= n →
  print_u n ≠ [] ∧ Forall (λ c, isdigit c = true ∧ digit_val c = Some (code c - 48)) (print_u n) ∧
  (∀ a, fold_left (λ a c, a * 10 + default 0 (digit_val c)) (print_u n) a =
      a * 10 ^ Z.of_nat (length (print_u n)) + n).
Proof.
  intros Hn. unfold print_u.
  destruct (dec_digits_spec (Z.to_nat (Z.log2 n + 1)) n []) as (s & -> & H).
  - pose proof (Z.log2_nonneg n). rewrite Z2Nat.id by lia. split; [done|].
    destruct (Z.eq_dec n 0) as [->|Hn0]; [simpl; lia|].
    pose proof (Z.log2_spec n ltac:(lia)). rewrite <-Z.add_1_r in H0. lia.
  - rewrite app_nil_r. exact H.
Qed.

Lemma isdigit_plain c : isdigit c = true →
  c ∉ (tx " " ++ (chr <$> [9; 10; 11; 12; 13])) ∧ c ≠ "-"%char ∧ c ≠ "+"%char.
Proof.
  unfold isdigit. intros Hc.
  split_and!; [|intros ->; by vm_compute in Hc..].
  intros Hin. repeat (apply elem_of_cons in Hin as [->|Hin]; [by vm_compute in Hc|]).
  by apply not_elem_of_nil in Hin.
Qed.

(** What the scanner reads back from a printed decimal followed by a
    non-digit: the number, and the offset of the character after it. *)
Lemma strtoul_print_u n d rest : 0 <= n <= ULONG_MAX →
  digit_val d = None → strtoul (print_u n ++ d :: rest) 10 = (n, length (print_u n)).
Proof.
  intros Hn Hd. destruct (print_u_spec n ltac:(lia)) as (Hne & HF & Hv).
  destruct (print_u n) as [|c s] eqn:E; [done|]. rewrite <-app_comm_cons.
  pose proof (Forall_inv HF) as [Hc _]. destruct (isdigit_plain c Hc) as (Hsp & Hm & Hp).
  unfold strtoul. rewrite strspn_0 by exact Hsp. rewrite drop_0. simpl hd0.
  assert (ascii_eqb c "-" = false) as -> by (unfold ascii_eqb; by apply bool_decide_eq_false).
  assert (ascii_eqb c "+" = false) as -> by (unfold ascii_eqb; by apply bool_decide_eq_false).
  simpl orb. cbv iota. rewrite drop_0. change (10 =? 0) with false. change (10 =? 16) with false.
  simpl andb. cbv iota. rewrite drop_0.
  rewrite (app_comm_cons s (d :: rest) c), (digits_app 10 (c :: s) d rest 0 0) by
    (first [by left | eapply Forall_impl; [exact HF|]; intros x [Hx ->]; eexists; split;
       [done|unfold isdigit in Hx; lia]]).
  rewrite Hv. simpl length. cbn [Nat.eqb Nat.add]. rewrite Z.mul_0_l, Z.add_0_l.
  rewrite (proj2 (Z.ltb_ge _ _)) by lia. done.
Qed.

Lemma digits_all base s acc n :
  Forall (λ c, ∃ v, digit_val c = Some v ∧ v < base) s →
  digits base s acc n = (fold_left (λ a c, a * base + default 0 (digit_val c)) s acc, (n + length s)%nat).
Proof.
  intros Hs. revert acc n. induction Hs as [|c s (v & Hv & Hlt) Hs IH]; intros acc n; simpl; [f_equal; lia|].
  rewrite Hv, (proj2 (Z.ltb_lt _ _)) by lia. rewrite IH. simpl. f_equal. lia.
Qed.

Lemma dec_digits_hd fuel n acc : 0 < n < 2 ^ Z.of_nat fuel * 10 → hd0 (dec_digits fuel n acc) ≠ "0"%char.
Proof.
  assert (Hd : ∀ d, 0 < d < 10 → chr (48 + d) ≠ "0"%char).
  { intros d Hd E. apply (f_equal code) in E. rewrite code_chr in E by lia. change (code "0") with 48 in E. lia. }
  revert n acc. induction fuel as [|fuel IH]; intros n acc Hn; cbn [dec_digits].
  - simpl in Hn. rewrite Z.mod_small by lia. apply Hd. lia.
  - destruct (Z.ltb_spec n 10); [rewrite Z.mod_small by lia; apply Hd; lia|].
    apply IH. rewrite Nat2Z.inj_succ, Z.pow_succ_r in Hn by lia.
    split; [apply Z.div_str_pos; lia|]. apply Z.div_lt_upper_bound; lia.
Qed.

Lemma print_u_hd n : 0 < n → hd0 (print_u n) ≠ "0"%char.
Proof.
  intros Hn. unfold print_u. apply dec_digits_hd. pose proof (Z.log2_spec n Hn). pose proof (Z.log2_nonneg n).
  rewrite Z2Nat.id by lia. rewrite <-Z.add_1_r in *. lia.
Qed.

(** Every character of a printed number is a digit. *)
Lemma print_u_digits n : 0 <= n → Forall (λ c, isdigit c = true) (print_u n).
Proof. intros Hn. destruct (print_u_spec n Hn) as (_ & HF & _). eapply Forall_impl; [exact HF|]. by intros c [Hc _]. Qed.

(** Reading a printed number to its end, in the base its first digit selects. *)
Lemma strtoul_print_u_end n base : 0 <= n <= ULONG_MAX → base = 0 ∨ base = 10 →
  strtoul (print_u n) base = (n, length (print_u n)).
Proof.
  intros Hn Hb. destruct (print_u_spec n ltac:(lia)) as (Hne & HF & Hv).
  destruct (Z.eq_dec n 0) as [->|Hn0]; [destruct Hb as [-> | ->]; by vm_compute|].
  pose proof (print_u_hd n ltac:(lia)) as Hhd.
  destruct (print_u n) as [|c s] eqn:E; [done|]. pose proof (Forall_inv HF) as [Hc _].
  destruct (isdigit_plain c Hc) as (Hsp & Hm & Hp).
  unfold strtoul. rewrite strspn_0 by exact Hsp. rewrite drop_0. cbn [hd0] in *.
  assert (ascii_eqb c "-" = false) as -> by (unfold ascii_eqb; by apply bool_decide_eq_false).
  assert (ascii_eqb c "+" = false) as -> by (unfold ascii_eqb; by apply bool_decide_eq_false).
  cbn [orb]. rewrite drop_0.
  assert (hexprefix (c :: s) = false) as -> by (unfold hexprefix; cbn [hd0]; unfold ascii_eqb; by rewrite bool_decide_eq_false_2).
  rewrite andb_false_r, drop_0. assert (ascii_eqb (hd0 (c :: s)) "0" = false) as -> by (unfold ascii_eqb; by apply bool_decide_eq_false).
  assert ((if base =? 0 then 10 else base) = 10) as -> by (by destruct Hb as [-> | ->]).
  rewrite digits_all by (eapply Forall_impl; [exact HF|]; intros x [Hx ->]; eexists; split; [done|unfold isdigit in Hx; lia]).
  rewrite Hv, Z.mul_0_l, Z.add_0_l. cbn [Nat.add length Nat.eqb]. rewrite (proj2 (Z.ltb_ge _ _)) by lia. done.
Qed.

Lemma atoi_print_u n : 0 <= n < 2 ^ 31 → atoi (print_u n) = n.
Proof.
  intros Hn. destruct (print_u_spec n ltac:(lia)) as (Hne & HF & Hv).
  destruct (print_u n) as [|c s] eqn:E; [done|]. pose proof (Forall_inv HF) as [Hc _].
  destruct (isdigit_plain c Hc) as (Hsp & Hm & Hp).
  unfold atoi. rewrite strspn_0 by exact Hsp. rewrite drop_0. cbn [hd0] in *.
  assert (ascii_eqb c "-" = false) as -> by (unfold ascii_eqb; by apply bool_decide_eq_false).
  assert (ascii_eqb c "+" = false) as -> by (unfold ascii_eqb; by apply bool_decide_eq_false).
  cbn [orb]. rewrite digits_all by (eapply Forall_impl; [exact HF|]; intros x [Hx ->]; eexists; split; [done|unfold isdigit in Hx; lia]).
  rewrite Hv, Z.mul_0_l, Z.add_0_l. unfold signed. rewrite wrap_small by lia. by rewrite (proj2 (Z.ltb_lt _ _)) by lia.
Qed.

Lemma dec_digits_length fuel n k acc : 0 <= n < 10 ^ Z.of_nat k → (1 <= k)%nat → (length (dec_digits fuel n acc) <= k + length acc)%nat.
Proof.
  revert n k acc. induction fuel as [|fuel IH]; intros n k acc Hn Hk; cbn [dec_digits]; [cbn [length]; lia|].
  destruct (Z.ltb_spec n 10) as [Hs|Hs]; [cbn [length]; lia|]. destruct k as [|[|k]]; [lia|cbn in Hn; lia|].
  assert (H10 : 0 <= n / 10 < 10 ^ Z.of_nat (S k)).
  { rewrite Nat2Z.inj_succ, Z.pow_succ_r in Hn by lia. split; [apply Z.div_pos; lia|apply Z.div_lt_upper_bound; lia]. }
  specialize (IH (n / 10) (S k) (chr (48 + n mod 10) :: acc) H10 ltac:(lia)). cbn [length] in IH. lia.
Qed.
Lemma print_u_length n k : 0 <= n < 10 ^ Z.of_nat k → (1 <= k)%nat → (length (print_u n) <= k)%nat.
Proof. intros Hn Hk. pose proof (dec_digits_length (Z.to_nat (Z.log2 n + 1)) n k [] Hn Hk) as H. cbn [length] in H. unfold print_u. lia. Qed.

(** Base 0: a printed number is decimal, and 0 is 0. *)
Lemma strtoul_print_u_0 n d rest : 0 <= n <= ULONG_MAX → digit_val d = None → strtoul (print_u n ++ d :: rest) 0 = (n, length (print_u n)).
Proof.
  intros Hn Hd. assert (Hx : d ∉ tx "xX") by (intros H; repeat (apply elem_of_cons in H as [->|H]; [done|]); by apply not_elem_of_nil in H).
  destruct (Z.eq_dec n 0) as [->|Hn0].
  - change (print_u 0) with (tx "0"). cbn [app String.list_ascii_of_string]. unfold strtoul. rewrite strspn_0 by exact (proj1 (isdigit_plain "0"%char eq_refl)).
    rewrite drop_0. cbn [hd0]. change (ascii_eqb "0" "-") with false. change (ascii_eqb "0" "+") with false. cbn [orb]. rewrite drop_0.
    assert (hexprefix ("0"%char :: d :: rest) = false) as ->.
    { unfold hexprefix. change (char_at ("0"%char :: d :: rest) 1) with d. rewrite (bool_decide_eq_false_2 (d ∈ _)) by done. by rewrite andb_false_r. }
    rewrite andb_false_r, drop_0. cbn [Z.eqb hd0]. change (ascii_eqb "0" "0") with true. cbn [digits]. change (digit_val "0") with (Some 0).
    cbn [Z.ltb Z.compare]. cbn [digits]. rewrite Hd. done.
  - pose proof (strtoul_print_u n d rest Hn Hd) as H10. revert H10. pose proof (print_u_hd n ltac:(lia)) as Hhd.
    destruct (print_u_spec n ltac:(lia)) as (Hne & HF & _). destruct (print_u n) as [|c s] eqn:E; [done|]. pose proof (Forall_inv HF) as [Hc _].
    destruct (isdigit_plain c Hc) as (Hsp & Hm & Hp). cbn [hd0] in Hhd. unfold strtoul. cbn [app]. rewrite strspn_0 by exact Hsp. rewrite drop_0. cbn [hd0].
    assert (ascii_eqb c "-" = false) as -> by (unfold ascii_eqb; by apply bool_decide_eq_false). assert (ascii_eqb c "+" = false) as -> by (unfold ascii_eqb; by apply bool_decide_eq_false).
    cbn [orb]. rewrite drop_0. assert (hexprefix (c :: s ++ d :: rest) = false) as -> by (unfold hexprefix; cbn [hd0]; unfold ascii_eqb; by rewrite bool_decide_eq_false_2).
    rewrite !andb_false_r, !drop_0. cbn [hd0]. assert (ascii_eqb c "0" = false) as -> by (unfold ascii_eqb; by apply bool_decide_eq_false). done.
Qed.
