(* ===== verification/Mem.v ===== *)
(** * Bounded memory

    Objects as lists of bytes: reading and writing [n] bytes at an offset is
    undefined outside the object. *)

From Stdlib Require Import ZArith Lia.
From S2P Require Import Prelude.

Definition zlen {A} (m : list A) : Z := Z.of_nat (length m).

(** The [n] elements at [off]. *)
Definition ztake {A} (n : Z) (m : list A) : list A := take (Z.to_nat n) m.
Definition zdrop {A} (n : Z) (m : list A) : list A := drop (Z.to_nat n) m.

Definition in_object {A} (off n : Z) (m : list A) : bool :=
  (0 <=? off) && (0 <=? n) && (off + n <=? zlen m).

Definition slice {A} (off n : Z) (m : list A) : outcome (list A) :=
  if in_object off n m then mret (ztake n (zdrop off m)) else Fault "read outside the object".

Definition store {A} (off : Z) (bs m : list A) : outcome (list A) :=
  if in_object off (zlen bs) m then mret (ztake off m ++ bs ++ zdrop (off + zlen bs) m)
  else Fault "write outside the object".

Lemma in_object_spec {A} off n (m : list A) :
  (in_object off n m = true) ↔ (0 <= off ∧ 0 <= n ∧ off + n <= zlen m).
Proof. unfold in_object. rewrite !andb_true_iff, !Z.leb_le. tauto. Qed.

Lemma zlen_nonneg {A} (m : list A) : 0 <= zlen m.
Proof. unfold zlen. lia. Qed.
Lemma zlen_app {A} (l1 l2 : list A) : zlen (l1 ++ l2) = zlen l1 + zlen l2.
Proof. unfold zlen. rewrite length_app. lia. Qed.
Lemma zlen_ztake {A} n (m : list A) : 0 <= n <= zlen m → zlen (ztake n m) = n.
Proof. unfold zlen, ztake. rewrite length_take. lia. Qed.
Lemma zlen_zdrop {A} n (m : list A) : 0 <= n <= zlen m → zlen (zdrop n m) = zlen m - n.
Proof. unfold zlen, zdrop. rewrite length_drop. lia. Qed.
Lemma ztake_zdrop {A} n (m : list A) : ztake n m ++ zdrop n m = m.
Proof. apply take_drop. Qed.
Lemma ztake_all {A} n (m : list A) : zlen m <= n → ztake n m = m.
Proof. unfold zlen, ztake. intros. apply take_ge. lia. Qed.
Lemma zdrop_all {A} n (m : list A) : zlen m <= n → zdrop n m = [].
Proof. unfold zlen, zdrop. intros. apply drop_ge. lia. Qed.
Lemma ztake_0 {A} n (m : list A) : n <= 0 → ztake n m = [].
Proof. unfold ztake. intros. replace (Z.to_nat n) with O by lia. done. Qed.
Lemma zdrop_0 {A} n (m : list A) : n <= 0 → zdrop n m = m.
Proof. unfold zdrop. intros. replace (Z.to_nat n) with O by lia. done. Qed.
Lemma zdrop_zdrop {A} a b (m : list A) : 0 <= a → 0 <= b → zdrop b (zdrop a m) = zdrop (a + b) m.
Proof. unfold zdrop. intros. rewrite drop_drop. f_equal. lia. Qed.
Lemma ztake_ztake {A} a b (m : list A) : 0 <= a <= b → ztake a (ztake b m) = ztake a m.
Proof. unfold ztake. intros. rewrite take_take. f_equal. lia. Qed.
Lemma ztake_app_le {A} n (l1 l2 : list A) : n <= zlen l1 → ztake n (l1 ++ l2) = ztake n l1.
Proof. unfold zlen, ztake. intros. apply take_app_le. lia. Qed.
Lemma ztake_app_ge {A} n (l1 l2 : list A) : zlen l1 <= n → ztake n (l1 ++ l2) = l1 ++ ztake (n - zlen l1) l2.
Proof.
  unfold zlen, ztake. intros. rewrite take_app, take_ge by lia. do 2 f_equal. lia.
Qed.
Lemma zdrop_app_le {A} n (l1 l2 : list A) : n <= zlen l1 → zdrop n (l1 ++ l2) = zdrop n l1 ++ l2.
Proof. unfold zlen, zdrop. intros. apply drop_app_le. lia. Qed.
Lemma zdrop_app_ge {A} n (l1 l2 : list A) : zlen l1 <= n → zdrop n (l1 ++ l2) = zdrop (n - zlen l1) l2.
Proof. unfold zlen, zdrop. intros. rewrite drop_app_ge by lia. f_equal. lia. Qed.
Lemma zdrop_ztake {A} a n (m : list A) : 0 <= a → 0 <= n → zdrop a (ztake n m) = ztake (n - a) (zdrop a m).
Proof.
  unfold zdrop, ztake. intros. rewrite skipn_firstn_comm. f_equal. lia.
Qed.

(** A window split at an inner position. *)
Lemma ztake_split {A} a b (m : list A) : 0 <= a → 0 <= b → ztake (a + b) m = ztake a m ++ ztake b (zdrop a m).
Proof.
  unfold ztake, zdrop. intros. replace (Z.to_nat (a + b)) with (Z.to_nat a + Z.to_nat b)%nat by lia.
  by rewrite take_take_drop.
Qed.

Lemma slice_ret {A} off n (m : list A) : 0 <= off → 0 <= n → off + n <= zlen m →
  slice off n m = Ret (ztake n (zdrop off m)).
Proof. intros. unfold slice. by rewrite (proj2 (in_object_spec off n m)). Qed.

Lemma slice_inv {A} off n (m bs : list A) : slice off n m = Ret bs →
  bs = ztake n (zdrop off m) ∧ zlen bs = n ∧ 0 <= off ∧ 0 <= n ∧ off + n <= zlen m.
Proof.
  unfold slice. destruct (in_object off n m) eqn:E; [|done]. intros [= <-].
  apply in_object_spec in E as (? & ? & ?). split_and!; try done.
  apply zlen_ztake. rewrite zlen_zdrop; lia.
Qed.

Lemma store_ret {A} off (bs m : list A) : 0 <= off → off + zlen bs <= zlen m →
  ∃ m', store off bs m = Ret m' ∧ zlen m' = zlen m ∧
    ztake off m' = ztake off m ∧ ztake (zlen bs) (zdrop off m') = bs ∧
    zdrop (off + zlen bs) m' = zdrop (off + zlen bs) m.
Proof.
  intros Ho Hl. pose proof (zlen_nonneg bs). unfold store. rewrite (proj2 (in_object_spec off (zlen bs) m)) by lia.
  eexists. split; [reflexivity|].
  assert (Ht : zlen (ztake off m) = off) by (apply zlen_ztake; lia). split_and!.
  - rewrite !zlen_app, Ht, zlen_zdrop; lia.
  - rewrite ztake_app_le by lia. apply ztake_all. lia.
  - rewrite zdrop_app_ge by lia. rewrite Ht, Z.sub_diag, zdrop_0 by lia.
    rewrite ztake_app_le by lia. apply ztake_all. lia.
  - rewrite zdrop_app_ge by lia. rewrite Ht. rewrite zdrop_app_ge by lia. apply zdrop_0. lia.
Qed.

(** *** Overwriting a part of a list *)

Definition splice {A} (off : Z) (bs m : list A) : list A := ztake off m ++ bs ++ zdrop (off + zlen bs) m.

Lemma store_splice {A} off (bs m : list A) : 0 <= off → off + zlen bs <= zlen m → store off bs m = Ret (splice off bs m).
Proof. intros. pose proof (zlen_nonneg bs). unfold store. by rewrite (proj2 (in_object_spec off (zlen bs) m)). Qed.

Lemma lookup_splice {A} off (bs m : list A) i : 0 <= off → off + zlen bs <= zlen m →
  splice off bs m !! i = if decide (off <= Z.of_nat i < off + zlen bs) then bs !! (i - Z.to_nat off)%nat else m !! i.
Proof.
  intros Ho Hl. unfold splice, ztake, zdrop, zlen in *. rewrite lookup_app. case_decide as Hd.
  - rewrite lookup_take_ge by lia. rewrite length_take, lookup_app_l by lia. f_equal. lia.
  - destruct (decide (Z.of_nat i < off)).
    + rewrite lookup_take_lt by lia. destruct (lookup_lt_is_Some_2 m i) as [x Hx]; [lia|]. by rewrite Hx.
    + rewrite lookup_take_ge by lia. rewrite length_take, lookup_app_r by lia. rewrite lookup_drop. f_equal. lia.
Qed.
Lemma zlen_splice {A} off (bs m : list A) : 0 <= off → off + zlen bs <= zlen m → zlen (splice off bs m) = zlen m.
Proof. intros. pose proof (zlen_nonneg bs). unfold splice. rewrite !zlen_app, zlen_ztake, zlen_zdrop; lia. Qed.

Lemma lookup_zdrop {A} n (m : list A) i : 0 <= n → zdrop n m !! i = m !! (Z.to_nat n + i)%nat.
Proof. intros. apply lookup_drop. Qed.
Lemma lookup_ztake {A} n (m : list A) i : ztake n m !! i = if decide (Z.of_nat i < n) then m !! i else None.
Proof. unfold ztake. case_decide; [by rewrite lookup_take_lt by lia|by rewrite lookup_take_ge by lia]. Qed.

(** A window of the overwritten list. *)
Lemma window_splice {A} d n off (bs m : list A) : 0 <= d <= off → off + zlen bs <= d + n → 0 <= n → d + n <= zlen m →
  ztake n (zdrop d (splice off bs m)) = splice (off - d) bs (ztake n (zdrop d m)).
Proof.
  intros Hd Ho Hn Hl. pose proof (zlen_nonneg bs). apply list_eq. intros i.
  assert (zlen (ztake n (zdrop d m)) = n) by (apply zlen_ztake; rewrite zlen_zdrop; lia).
  rewrite lookup_splice, !lookup_ztake, !lookup_zdrop, lookup_splice by lia. repeat case_decide; try lia; try done. f_equal. lia.
Qed.
Lemma splice_app_l {A} off (bs a b : list A) : 0 <= off → off + zlen bs <= zlen a → splice off bs (a ++ b) = splice off bs a ++ b.
Proof.
  intros Ho Hl. pose proof (zlen_nonneg bs). unfold splice. rewrite ztake_app_le, zdrop_app_le by lia. by rewrite <-!app_assoc.
Qed.
Lemma zdrop_splice_ge {A} k off (bs m : list A) : 0 <= off → off + zlen bs <= zlen m → off + zlen bs <= k → zdrop k (splice off bs m) = zdrop k m.
Proof.
  intros Ho Hl Hk. pose proof (zlen_nonneg bs). apply list_eq. intros i. rewrite !lookup_zdrop, lookup_splice by lia. by case_decide; [lia|].
Qed.
