(* ===== verification/KList.v ===== *)
(** * core/list.h: circular doubly linked lists and hash lists

    The pointer-level model of the kernel's [struct list_head] and
    [struct hlist_node]: a heap of nodes, one definition per inline function,
    in the order the C code performs its stores.  [is_list h head l] says that
    the ring starting at [head] links exactly the entries [l]; the theorems
    show that every operation on the heap refines the operation on [l]. *)

From S2P Require Import Prelude.

(** ** struct list_head *)

Record list_head := ListHead { next : Z; prev : Z }.
Abbreviation heap := (gmap Z list_head).

Definition LIST_POISON1 : Z := 0x00100100.
Definition LIST_POISON2 : Z := 0x00200200.

(** Dereferencing an address that holds no node is a page fault. *)
Definition load (h : heap) (p : Z) : outcome list_head :=
  of_option "list_head: bad pointer" (h !! p).
Definition set_next (p v : Z) (h : heap) : outcome heap :=
  n ← load h p; mret (<[p := ListHead v (prev n)]> h).
Definition set_prev (p v : Z) (h : heap) : outcome heap :=
  n ← load h p; mret (<[p := ListHead (next n) v]> h).

Definition INIT_LIST_HEAD (ptr : Z) (h : heap) : outcome heap :=
  h ← set_next ptr ptr h; set_prev ptr ptr h.

Definition __list_add (new prv nxt : Z) (h : heap) : outcome heap :=
  h ← set_prev nxt new h;
  h ← set_next new nxt h;
  h ← set_prev new prv h;
  set_next prv new h.

Definition list_add (new head : Z) (h : heap) : outcome heap :=
  n ← load h head; __list_add new head (next n) h.

Definition list_add_tail (new head : Z) (h : heap) : outcome heap :=
  n ← load h head; __list_add new (prev n) head h.

Definition __list_del (prv nxt : Z) (h : heap) : outcome heap :=
  h ← set_prev nxt prv h; set_next prv nxt h.

Definition list_del (entry : Z) (h : heap) : outcome heap :=
  e ← load h entry;
  h ← __list_del (prev e) (next e) h;
  h ← set_next entry LIST_POISON1 h;
  set_prev entry LIST_POISON2 h.

Definition list_del_init (entry : Z) (h : heap) : outcome heap :=
  e ← load h entry;
  h ← __list_del (prev e) (next e) h;
  INIT_LIST_HEAD entry h.

Definition list_move (entry head : Z) (h : heap) : outcome heap :=
  e ← load h entry;
  h ← __list_del (prev e) (next e) h;
  list_add entry head h.

Definition list_move_tail (entry head : Z) (h : heap) : outcome heap :=
  e ← load h entry;
  h ← __list_del (prev e) (next e) h;
  list_add_tail entry head h.

Definition list_empty (head : Z) (h : heap) : outcome bool :=
  n ← load h head; mret (bool_decide (next n = head)).

Definition __list_splice (list head : Z) (h : heap) : outcome heap :=
  nl ← load h list;
  nh ← load h head;
  let first := next nl in
  let last := prev nl in
  let at_ := next nh in
  h ← set_prev first head h;
  h ← set_next head first h;
  h ← set_next last at_ h;
  set_prev at_ last h.

Definition list_splice (list head : Z) (h : heap) : outcome heap :=
  b ← list_empty list h;
  if b : bool then mret h else __list_splice list head h.

Definition list_splice_init (list head : Z) (h : heap) : outcome heap :=
  b ← list_empty list h;
  if b : bool then mret h else
  h ← __list_splice list head h; INIT_LIST_HEAD list h.

(** [list_for_each (pos, head)]: the positions visited from [pos] on.  The loop
    has no bound of its own; [None] is running out of fuel. *)
Fixpoint list_for_each_from (fuel : nat) (pos head : Z) (h : heap) : outcome (option (list Z)) :=
  if bool_decide (pos = head) then mret (Some []) else
  match fuel with
  | O => mret None
  | S fuel =>
      n ← load h pos;
      r ← list_for_each_from fuel (next n) head h;
      mret (option_map (cons pos) r)
  end.
Definition list_for_each (fuel : nat) (head : Z) (h : heap) : outcome (option (list Z)) :=
  n ← load h head; list_for_each_from fuel (next n) head h.

(** [list_for_each_prev]: the same loop along [prev]. *)
Fixpoint list_for_each_prev_from (fuel : nat) (pos head : Z) (h : heap) : outcome (option (list Z)) :=
  if bool_decide (pos = head) then mret (Some []) else
  match fuel with
  | O => mret None
  | S fuel =>
      n ← load h pos;
      r ← list_for_each_prev_from fuel (prev n) head h;
      mret (option_map (cons pos) r)
  end.
Definition list_for_each_prev (fuel : nat) (head : Z) (h : heap) : outcome (option (list Z)) :=
  n ← load h head; list_for_each_prev_from fuel (prev n) head h.

(** [list_for_each_entry_safe] with a loop body that may unlink [pos]: the
    successor [n] is read before the body runs. *)
Fixpoint list_for_each_safe_from (fuel : nat) (body : Z → heap → outcome heap)
    (pos n head : Z) (h : heap) : outcome (option heap) :=
  if bool_decide (pos = head) then mret (Some h) else
  match fuel with
  | O => mret None
  | S fuel =>
      h ← body pos h;
      nn ← load h n;
      list_for_each_safe_from fuel body n (next nn) head h
  end.
Definition list_for_each_safe (fuel : nat) (body : Z → heap → outcome heap)
    (head : Z) (h : heap) : outcome (option heap) :=
  a ← load h head;
  b ← load h (next a);
  list_for_each_safe_from fuel body (next a) (next b) head h.

(** ** struct hlist_head, struct hlist_node *)

(** [pprev] is the address of the pointer that points here: a list head's
    [first] field or another node's [next] field. *)
Inductive pprev_t :=
| PNull
| PFirst (head : Z)
| PNext (node : Z)
| PPoison.
#[export] Instance pprev_t_eq_dec : EqDecision pprev_t.
Proof. solve_decision. Defined.

Record hlist_node := HNode { hnext : Z; pprev : pprev_t }.
Record hheap := HHeap { hheads : gmap Z Z; hnodes : gmap Z hlist_node }.
Definition NULL : Z := 0.

Definition hload (h : hheap) (n : Z) : outcome hlist_node :=
  of_option "hlist_node: bad pointer" (hnodes h !! n).
Definition set_node (n : Z) (v : hlist_node) (h : hheap) : hheap :=
  HHeap (hheads h) (<[n := v]> (hnodes h)).
Definition set_hnext (n v : Z) (h : hheap) : outcome hheap :=
  x ← hload h n; mret (set_node n (HNode v (pprev x)) h).
Definition set_pprev (n : Z) (v : pprev_t) (h : hheap) : outcome hheap :=
  x ← hload h n; mret (set_node n (HNode (hnext x) v) h).
Definition get_first (hd : Z) (h : hheap) : outcome Z :=
  of_option "hlist_head: bad pointer" (hheads h !! hd).
Definition set_first (hd v : Z) (h : hheap) : outcome hheap :=
  _ ← get_first hd h; mret (HHeap (<[hd := v]> (hheads h)) (hnodes h)).

(** [*pp = v] *)
Definition store_pprev (pp : pprev_t) (v : Z) (h : hheap) : outcome hheap :=
  match pp with
  | PFirst hd => set_first hd v h
  | PNext n => set_hnext n v h
  | PNull | PPoison => Fault "hlist: store through a bad pprev"
  end.

Definition INIT_HLIST_HEAD (hd : Z) (h : hheap) : outcome hheap := set_first hd NULL h.
Definition INIT_HLIST_NODE (n : Z) (h : hheap) : outcome hheap :=
  h ← set_hnext n NULL h; set_pprev n PNull h.
Definition hlist_unhashed (n : Z) (h : hheap) : outcome bool :=
  x ← hload h n; mret (bool_decide (pprev x = PNull)).
Definition hlist_empty (hd : Z) (h : hheap) : outcome bool :=
  f ← get_first hd h; mret (f =? NULL).

Definition __hlist_del (n : Z) (h : hheap) : outcome hheap :=
  x ← hload h n;
  let nxt := hnext x in
  let pp := pprev x in
  h ← store_pprev pp nxt h;
  if nxt =? NULL then mret h else set_pprev nxt pp h.

Definition hlist_del (n : Z) (h : hheap) : outcome hheap :=
  h ← __hlist_del n h;
  h ← set_hnext n LIST_POISON1 h;
  set_pprev n PPoison h.

Definition hlist_del_init (n : Z) (h : hheap) : outcome hheap :=
  x ← hload h n;
  if bool_decide (pprev x = PNull) then mret h else
  h ← __hlist_del n h; INIT_HLIST_NODE n h.

Definition hlist_add_head (n hd : Z) (h : hheap) : outcome hheap :=
  first ← get_first hd h;
  h ← set_hnext n first h;
  h ← (if first =? NULL then mret h else set_pprev first (PNext n) h);
  h ← set_first hd n h;
  set_pprev n (PFirst hd) h.

Definition hlist_add_before (n nxt : Z) (h : hheap) : outcome hheap :=
  y ← hload h nxt;
  h ← set_pprev n (pprev y) h;
  h ← set_hnext n nxt h;
  h ← set_pprev nxt (PNext n) h;
  store_pprev (pprev y) n h.

Definition hlist_add_after (n nxt : Z) (h : hheap) : outcome hheap :=
  x ← hload h n;
  h ← set_hnext nxt (hnext x) h;
  y ← hload h nxt;
  h ← store_pprev (pprev y) n h;
  set_hnext n nxt h.

(** ** The abstract list a ring represents *)

Definition nxt (h : heap) (p : Z) : option Z := next <$> h !! p.
Definition prv (h : heap) (p : Z) : option Z := prev <$> h !! p.

Fixpoint path (h : heap) (p : Z) (l : list Z) : Prop :=
  match l with
  | [] => True
  | x :: l => nxt h p = Some x ∧ prv h x = Some p ∧ path h x l
  end.

Definition is_list (h : heap) (head : Z) (l : list Z) : Prop :=
  NoDup (head :: l) ∧ path h head (l ++ [head]).

Definition lastd (p : Z) (l : list Z) : Z := default p (last l).

(** Hash lists: [deref h pp] is [*pp]; the chain from a pointer location [pp]
    to NULL, every node's [pprev] naming the location that points to it. *)
Definition deref (h : hheap) (pp : pprev_t) : option Z :=
  match pp with
  | PFirst hd => hheads h !! hd
  | PNext n => hnext <$> hnodes h !! n
  | PNull | PPoison => None
  end.
Definition back (h : hheap) (n : Z) : option pprev_t := pprev <$> hnodes h !! n.

Fixpoint hpath (h : hheap) (pp : pprev_t) (l : list Z) : Prop :=
  match l with
  | [] => True
  | x :: l => deref h pp = Some x ∧ x ≠ NULL ∧ back h x = Some pp ∧ hpath h (PNext x) l
  end.
Definition lastpp (pp : pprev_t) (l : list Z) : pprev_t :=
  match last l with Some x => PNext x | None => pp end.
Definition is_hlist (h : hheap) (hd : Z) (l : list Z) : Prop :=
  NoDup l ∧ hpath h (PFirst hd) l ∧ deref h (lastpp (PFirst hd) l) = Some NULL.

(** One operation on a ring, and what it does to the list the ring stands for. *)
Inductive list_op :=
| Add (n : Z) | AddTail (n : Z) | Del (e : Z) | Move (e : Z) | MoveTail (e : Z).

Definition remove_entry (e : Z) (l : list Z) : list Z := filter (λ x, x ≠ e) l.

Definition run_op (head : Z) (o : list_op) (h : heap) : outcome heap :=
  match o with
  | Add n => list_add n head h
  | AddTail n => list_add_tail n head h
  | Del e => list_del e h
  | Move e => list_move e head h
  | MoveTail e => list_move_tail e head h
  end.
Definition spec_op (o : list_op) (l : list Z) : list Z :=
  match o with
  | Add n => n :: l
  | AddTail n => l ++ [n]
  | Del e => remove_entry e l
  | Move e => e :: remove_entry e l
  | MoveTail e => remove_entry e l ++ [e]
  end.
(** The caller's obligation: add only unlinked nodes, unlink only entries. *)
Definition legal_op (head : Z) (o : list_op) (h : heap) (l : list Z) : Prop :=
  match o with
  | Add n | AddTail n => n ∉ head :: l ∧ is_Some (h !! n)
  | Del e | Move e | MoveTail e => e ∈ l
  end.

(** Removing from inside a safe traversal the entries [p] selects. *)
Definition del_if (p : Z → bool) (pos : Z) (h : heap) : outcome heap :=
  if p pos then list_del pos h else mret h.

(** ** Lemmas: reading back a store *)

Lemma lookup_nxt h p n : h !! p = Some n → nxt h p = Some (next n) ∧ prv h p = Some (prev n).
Proof. unfold nxt, prv. by intros ->. Qed.

Lemma nxt_Some h p x : nxt h p = Some x → is_Some (h !! p).
Proof. unfold nxt. destruct (h !! p); simpl; [eauto|discriminate]. Qed.
Lemma prv_Some h p x : prv h p = Some x → is_Some (h !! p).
Proof. unfold prv. destruct (h !! p); simpl; [eauto|discriminate]. Qed.
#[local] Hint Resolve nxt_Some prv_Some : core.

(** What one store does, for a live node: [live h' h] keeps the domain. *)
Definition live (h h' : heap) : Prop := ∀ x, is_Some (h !! x) → is_Some (h' !! x).

Lemma live_refl h : live h h. Proof. by intros x. Qed.
Lemma live_trans h1 h2 h3 : live h1 h2 → live h2 h3 → live h1 h3.
Proof. unfold live. eauto. Qed.
Lemma live_insert h p n : live h (<[p := n]> h).
Proof. intros x Hx. rewrite lookup_insert. case_decide; eauto. Qed.

Lemma set_next_spec p v h :
  is_Some (h !! p) → ∃ h', set_next p v h = Ret h' ∧ live h h' ∧
    (∀ x, nxt h' x = if decide (x = p) then Some v else nxt h x) ∧
    (∀ x, prv h' x = prv h x) ∧ (∀ x, x ≠ p → h' !! x = h !! x).
Proof.
  intros [n Hn]. unfold set_next, load. rewrite Hn. simpl.
  eexists; split; [reflexivity|]. split; [apply live_insert|]. unfold nxt, prv.
  split_and!; intros x; rewrite lookup_insert; repeat case_decide; subst; try done.
  by rewrite Hn.
Qed.

Lemma set_prev_spec p v h :
  is_Some (h !! p) → ∃ h', set_prev p v h = Ret h' ∧ live h h' ∧
    (∀ x, prv h' x = if decide (x = p) then Some v else prv h x) ∧
    (∀ x, nxt h' x = nxt h x) ∧ (∀ x, x ≠ p → h' !! x = h !! x).
Proof.
  intros [n Hn]. unfold set_prev, load. rewrite Hn. simpl.
  eexists; split; [reflexivity|]. split; [apply live_insert|]. unfold nxt, prv.
  split_and!; intros x; rewrite lookup_insert; repeat case_decide; subst; try done.
  by rewrite Hn.
Qed.

(** Run the next store of the goal's program and keep what it did. *)
Ltac store_step L p v h :=
  let h' := fresh "h" in let E := fresh "E" in
  let Hl := fresh "Hl" in let H1 := fresh "Hs" in let H2 := fresh "Ho" in let H3 := fresh "Hf" in
  destruct (L p v h) as (h' & E & Hl & H1 & H2 & H3);
  [solve [eauto 8]|]; rewrite E; clear E; simpl.

(** Two stores that relink [a] and [b]: a path that avoids the changed ends
    survives. *)
Lemma lastd_cons p x l : lastd p (x :: l) = lastd x l.
Proof. unfold lastd. rewrite last_cons. by destruct (last l). Qed.

Lemma path_app h p l1 l2 : path h p (l1 ++ l2) ↔ path h p l1 ∧ path h (lastd p l1) l2.
Proof.
  revert p; induction l1 as [|x l1 IH]; intros p; simpl; [unfold lastd; simpl; tauto|].
  rewrite IH, lastd_cons. tauto.
Qed.

Lemma path_ext h h' p l :
  (∀ x, x ∈ removelast (p :: l) → nxt h' x = nxt h x) →
  (∀ x, x ∈ l → prv h' x = prv h x) →
  path h p l → path h' p l.
Proof.
  revert p; induction l as [|x l IH]; intros p Hn Hp; [done|].
  change (removelast (p :: x :: l)) with (p :: removelast (x :: l)) in Hn.
  intros (H1 & H2 & H3). split_and!.
  - rewrite Hn; [done|set_solver].
  - rewrite Hp; [done|set_solver].
  - apply IH; [..|done]; intros; [apply Hn|apply Hp]; set_solver.
Qed.

Lemma elem_removelast {A} (x : A) l : x ∈ removelast l → x ∈ l.
Proof.
  induction l as [|y [|z l] IH]; simpl; [set_solver..|].
  simpl in IH. rewrite !elem_of_cons in *. tauto.
Qed.

Lemma lastd_elem p l : lastd p l ∈ p :: l.
Proof.
  unfold lastd. destruct (last l) eqn:E; simpl; [|set_solver].
  apply last_Some in E as [l' ->]. set_solver.
Qed.

Lemma lastd_not_removelast p l : NoDup (p :: l) → lastd p l ∉ removelast (p :: l).
Proof.
  revert p; induction l as [|x l IH]; intros p Hnd; [simpl; apply not_elem_of_nil|].
  change (removelast (p :: x :: l)) with (p :: removelast (x :: l)).
  apply NoDup_cons in Hnd as [Hp Hnd].
  rewrite lastd_cons, not_elem_of_cons. split; [|auto].
  intros Heq. apply Hp. rewrite <-Heq. apply lastd_elem.
Qed.

(** The ring seen from the gap between [l1] and [l2]. *)
Lemma is_list_gap h head l1 l2 :
  is_list h head (l1 ++ l2) →
  ∃ n rest, l2 ++ [head] = n :: rest ∧ path h head l1 ∧
    nxt h (lastd head l1) = Some n ∧ prv h n = Some (lastd head l1) ∧ path h n rest.
Proof.
  intros [Hnd Hp]. rewrite <-app_assoc in Hp. apply path_app in Hp as [Hp1 Hp2].
  destruct l2 as [|n l2]; simpl in *; [exists head, []|exists n, (l2 ++ [head])]; tauto.
Qed.

Lemma lastd_default h head l1 l2 :
  is_list h head (l1 ++ l2) → prv h head = Some (lastd head (l1 ++ l2)).
Proof. intros [_ Hp]. apply path_app in Hp. simpl in Hp. tauto. Qed.

(** Gluing a ring back together after the nodes around a gap were relinked. *)
Lemma is_list_glue h h' head l1 l2 mid n rest :
  NoDup (head :: l1 ++ mid ++ l2) →
  l2 ++ [head] = n :: rest →
  path h head l1 → path h n rest →
  (∀ x, x ∈ head :: l1 ++ l2 → x ≠ lastd head l1 → nxt h' x = nxt h x) →
  (∀ x, x ∈ head :: l1 ++ l2 → x ≠ n → prv h' x = prv h x) →
  path h' (lastd head l1) (mid ++ [n]) →
  is_list h' head (l1 ++ mid ++ l2).
Proof.
  intros Hnd Hn Hp1 Hp2 Hx Hv Hmid. split; [done|].
  assert (Hnd1 : NoDup (head :: l1)) by (apply (NoDup_app (head :: l1)) in Hnd; tauto).
  assert (Hnr : n ∈ l2 ++ [head]) by (rewrite Hn; set_solver).
  assert (Hnd2 : NoDup (n :: rest)).
  { rewrite <-Hn. apply NoDup_cons in Hnd as [Hh Hnd].
    apply NoDup_app in Hnd as (_ & _ & Hnd). apply NoDup_app in Hnd as (_ & _ & Hnd).
    apply NoDup_app. split_and!; [done|set_solver|apply NoDup_singleton]. }
  assert (Hdis : ∀ x, x ∈ head :: l1 → x ∈ l2 → False).
  { intros x Hx1 Hx2. change (head :: l1 ++ mid ++ l2) with ((head :: l1) ++ (mid ++ l2)) in Hnd.
    apply NoDup_app in Hnd as (_ & Hd & _). apply (Hd x); set_solver. }
  rewrite <-!app_assoc, Hn. apply path_app. split.
  - eapply path_ext; [..|exact Hp1].
    + intros x Hxr. pose proof (elem_removelast _ _ Hxr). apply Hx; [set_solver|].
      intros ->. by apply (lastd_not_removelast head l1).
    + intros x Hx1. apply Hv; [set_solver|]. intros ->.
      apply NoDup_cons in Hnd1 as [Hh1 _].
      apply elem_of_app in Hnr as [Hl2|Hh]; [apply (Hdis n); set_solver|set_solver].
  - rewrite cons_middle, app_assoc. apply path_app. split; [done|].
    assert (lastd (lastd head l1) (mid ++ [n]) = n) as -> by (unfold lastd; by rewrite last_snoc).
    eapply path_ext; [..|exact Hp2].
    + intros x Hxr. assert (Hl2 : x ∈ l2).
      { rewrite <-Hn, removelast_last in Hxr. done. }
      apply Hx; [set_solver|]. intros ->. apply (Hdis (lastd head l1)); [apply lastd_elem|done].
    + intros x Hxr. apply Hv.
      * assert (x ∈ l2 ++ [head]) by (rewrite Hn; set_solver). set_solver.
      * intros ->. apply NoDup_cons in Hnd2. tauto.
Qed.

(** Evaluate [nxt]/[prv] of a heap obtained by a chain of stores. *)
Ltac heap_eval :=
  repeat match goal with
  | H : ∀ x, nxt ?h x = _ |- context [nxt ?h _] => rewrite H
  | H : ∀ x, prv ?h x = _ |- context [prv ?h _] => rewrite H
  | H : ∀ x, x ≠ ?p → ?h !! x = _ |- context [?h !! ?y] => rewrite (H y) by congruence
  end; repeat case_decide; subst; try congruence; try done.

Definition same_outside (h h' : heap) (l : list Z) : Prop :=
  ∀ x, x ∉ l → h' !! x = h !! x.

Lemma gap_nodup (head : Z) l1 l2 new :
  NoDup (head :: l1 ++ l2) → new ∉ head :: l1 ++ l2 → NoDup (head :: l1 ++ [new] ++ l2).
Proof.
  intros Hnd Hn. apply (NoDup_Permutation_proper _ (new :: head :: l1 ++ l2)); [solve_Permutation|].
  by constructor.
Qed.

Lemma gap_outside (head : Z) l1 l2 x :
  x ∉ head :: l1 ++ l2 → x ≠ lastd head l1 ∧ x ∉ l2 ++ [head].
Proof.
  intros Hx. split; [|set_solver]. intros ->. apply Hx. pose proof (lastd_elem head l1). set_solver.
Qed.

Lemma __list_add_spec h head l1 l2 new n :
  is_list h head (l1 ++ l2) → new ∉ head :: l1 ++ l2 → is_Some (h !! new) →
  nxt h (lastd head l1) = Some n →
  ∃ h', __list_add new (lastd head l1) n h = Ret h' ∧ is_list h' head (l1 ++ new :: l2) ∧
    live h h' ∧ same_outside h h' (new :: head :: l1 ++ l2).
Proof.
  intros Hl Hnew Hs Hn.
  destruct (is_list_gap _ _ _ _ Hl) as (n' & rest & Hr & Hp1 & Hnx & Hpv & Hp2).
  assert (n' = n) as -> by congruence. clear Hnx.
  assert (Hnn : new ≠ n) by (intros ->; eapply (proj2 (gap_outside _ _ _ _ Hnew)); rewrite Hr; set_solver).
  assert (Hnp : new ≠ lastd head l1) by apply (gap_outside _ _ _ _ Hnew).
  set (p := lastd head l1) in *.
  assert (Hln : is_Some (h !! n)) by eauto. assert (Hlp : is_Some (h !! p)) by eauto.
  unfold __list_add.
  store_step set_prev_spec n new h. store_step set_next_spec new n h0.
  store_step set_prev_spec new p h1. store_step set_next_spec p new h2.
  eexists; split; [reflexivity|]. split_and!.
  - change (new :: l2) with ([new] ++ l2).
    eapply (is_list_glue h); [apply gap_nodup; [apply Hl|done]|done..| | |].
    + intros x Hx Hxp. fold p in Hxp. heap_eval.
    + intros x Hx Hxp. heap_eval.
    + fold p. simpl. split_and!; try done; heap_eval.
  - unfold live in *. eauto.
  - intros x Hx. assert (x ≠ n ∧ x ≠ new ∧ x ≠ p) as (? & ? & ?).
    { apply not_elem_of_cons in Hx as [? Hx]. pose proof (gap_outside _ _ _ _ Hx) as [? Hx2].
      rewrite Hr in Hx2. set_solver. }
    heap_eval.
Qed.

Lemma __list_del_spec h head l1 e l2 n :
  is_list h head (l1 ++ e :: l2) → nxt h e = Some n →
  prv h e = Some (lastd head l1) ∧
  ∃ h', __list_del (lastd head l1) n h = Ret h' ∧ is_list h' head (l1 ++ l2) ∧
    live h h' ∧ same_outside h h' (head :: l1 ++ l2) ∧ h' !! e = h !! e.
Proof.
  intros Hl Hn. pose proof Hl as [Hnd _].
  destruct (is_list_gap _ _ _ _ Hl) as (e' & rest & [= <- Hr] & Hp1 & Hpx & Hpe & Hp2).
  split; [done|]. destruct rest as [|n' rest]; [by destruct l2|].
  destruct Hp2 as (Hn' & Hpn & Hp2). assert (n' = n) as -> by congruence.
  set (p := lastd head l1) in *.
  assert (Hln : is_Some (h !! n)) by eauto. assert (Hlp : is_Some (h !! p)) by eauto.
  assert (He : e ∉ head :: l1 ++ l2).
  { apply (NoDup_Permutation_proper _ (e :: head :: l1 ++ l2)) in Hnd; [|solve_Permutation].
    apply NoDup_cons in Hnd; tauto. }
  pose proof (gap_outside _ _ _ _ He) as [Hep Hen]. rewrite Hr in Hen. fold p in Hep.
  unfold __list_del. store_step set_prev_spec n p h. store_step set_next_spec p n h0.
  eexists; split; [reflexivity|]. split_and!.
  - eapply (is_list_glue h _ head l1 l2 []); [|exact Hr|done|done| | |].
    + simpl. apply (NoDup_Permutation_proper _ (e :: head :: l1 ++ l2)) in Hnd; [|solve_Permutation].
      apply NoDup_cons in Hnd; tauto.
    + intros x Hx Hxp. fold p in Hxp. heap_eval.
    + intros x Hx Hxp. heap_eval.
    + fold p. simpl. split_and!; try done; heap_eval.
  - unfold live in *. eauto.
  - intros x Hx. pose proof (gap_outside _ _ _ _ Hx) as [? Hx2]. rewrite Hr in Hx2.
    assert (x ≠ n ∧ x ≠ p) as [??] by (split; [set_solver|done]). heap_eval.
  - assert (e ≠ n) by set_solver. heap_eval.
Qed.

(** A ring that none of the stored-to nodes belongs to is untouched. *)
Lemma is_list_frame h h' head l :
  (∀ x, x ∈ head :: l → h' !! x = h !! x) → is_list h head l → is_list h' head l.
Proof.
  intros Hx [Hnd Hp]. split; [done|]. eapply path_ext; [..|exact Hp].
  - intros x Hr. change (head :: l ++ [head]) with ((head :: l) ++ [head]) in Hr.
    rewrite removelast_last in Hr. unfold nxt. by rewrite Hx.
  - intros x Hr. unfold prv. rewrite Hx; [done|]. set_solver.
Qed.

Lemma is_list_head_next h head l :
  is_list h head l → ∃ nd, h !! head = Some nd ∧ next nd = default head (hd_error l) ∧
    prev nd = lastd head l.
Proof.
  intros [Hnd Hp]. assert (Hpr : prv h head = Some (lastd head l)).
  { apply path_app in Hp. simpl in Hp. tauto. }
  destruct (prv_Some _ _ _ Hpr) as [nd Hnd']. exists nd. split; [done|].
  apply lookup_nxt in Hnd' as [Hn Hv]. split; [|congruence].
  destruct l; simpl in Hp; simpl; destruct Hp as [H _]; congruence.
Qed.

Lemma is_list_next_hd h head l :
  is_list h head l → nxt h head = Some (default head (hd_error l)).
Proof. intros (nd & Hnd & <- & _)%is_list_head_next. apply lookup_nxt in Hnd; tauto. Qed.

(** ** The operations refine the operations on the represented list *)

Lemma remove_entry_notin (e : Z) l : e ∉ l → remove_entry e l = l.
Proof.
  intros He. unfold remove_entry. induction l as [|x l IH]; [done|].
  rewrite filter_cons. case_decide as Hx; [f_equal; apply IH; set_solver|].
  exfalso. apply He. set_solver.
Qed.

Lemma remove_entry_mid (e : Z) l1 l2 :
  NoDup (l1 ++ e :: l2) → remove_entry e (l1 ++ e :: l2) = l1 ++ l2.
Proof.
  intros Hnd. unfold remove_entry. rewrite filter_app, filter_cons.
  rewrite decide_False by tauto. fold (remove_entry e l1) (remove_entry e l2).
  apply NoDup_app in Hnd as (_ & Hd & Hnd). apply NoDup_cons in Hnd as [He _].
  rewrite !remove_entry_notin; [done|done|]. intros H. apply (Hd e); set_solver.
Qed.

Lemma list_add_ring h head l new :
  is_list h head l → new ∉ head :: l → is_Some (h !! new) →
  ∃ h', list_add new head h = Ret h' ∧ is_list h' head (new :: l) ∧ live h h' ∧
    same_outside h h' (new :: head :: l).
Proof.
  intros Hl Hn Hs. destruct (is_list_head_next _ _ _ Hl) as (nd & Hnd & _).
  unfold list_add, load. rewrite Hnd. simpl.
  apply (__list_add_spec h head [] l new); auto. by destruct (lookup_nxt _ _ _ Hnd).
Qed.

Lemma list_add_tail_ring h head l new :
  is_list h head l → new ∉ head :: l → is_Some (h !! new) →
  ∃ h', list_add_tail new head h = Ret h' ∧ is_list h' head (l ++ [new]) ∧ live h h' ∧
    same_outside h h' (new :: head :: l).
Proof.
  intros Hl Hn Hs. destruct (is_list_head_next _ _ _ Hl) as (nd & Hnd & _ & Hpv).
  unfold list_add_tail, load. rewrite Hnd. simpl. rewrite Hpv.
  rewrite <-(app_nil_r l) in Hl, Hn.
  destruct (__list_add_spec h head l [] new head) as (h' & ? & ? & ? & ?); auto.
  - destruct (is_list_gap _ _ _ _ Hl) as (n & rest & [= <- _] & ? & ? & ?). done.
  - exists h'. by rewrite app_nil_r in *.
Qed.

Lemma list_unlink_ring h head l e :
  is_list h head l → e ∈ l →
  ∃ nd h', h !! e = Some nd ∧ __list_del (prev nd) (next nd) h = Ret h' ∧
    is_list h' head (remove_entry e l) ∧ live h h' ∧ same_outside h h' (e :: head :: l) ∧
    h' !! e = Some nd ∧ e ∉ head :: remove_entry e l.
Proof.
  intros Hl He. apply list_elem_of_split in He as (l1 & l2 & ->).
  destruct (is_list_gap _ _ _ _ Hl) as (e' & rest & [= <- Hr] & _ & _ & Hpe & Hp2).
  destruct (prv_Some _ _ _ Hpe) as [nd Hnd]. destruct (lookup_nxt _ _ _ Hnd) as [Hn Hp].
  destruct (__list_del_spec _ _ _ _ _ _ Hl Hn) as (Hpv & h' & Hd & Hl' & Hlive & Hs & He').
  assert (prev nd = lastd head l1) as Hpn by congruence.
  pose proof Hl as [Hnd2 _]. assert (Hnd3 := Hnd2). apply NoDup_cons in Hnd3 as [Hh Hnd3].
  rewrite remove_entry_mid by done. exists nd, h'. rewrite Hpn. split_and!; try done.
  - intros x Hx. apply Hs. set_solver.
  - congruence.
  - apply (NoDup_Permutation_proper _ (e :: head :: l1 ++ l2)) in Hnd2; [|solve_Permutation].
    apply NoDup_cons in Hnd2; tauto.
Qed.

Lemma list_del_ring h head l e :
  is_list h head l → e ∈ l →
  ∃ h', list_del e h = Ret h' ∧ is_list h' head (remove_entry e l) ∧ live h h' ∧
    same_outside h h' (e :: head :: l) ∧ h' !! e = Some (ListHead LIST_POISON1 LIST_POISON2).
Proof.
  intros Hl He. destruct (list_unlink_ring _ _ _ _ Hl He) as (nd & h1 & Hnd & Hd & Hl1 & Hlv & Hs & He1 & Hni).
  unfold list_del, load. rewrite Hnd. simpl. rewrite Hd. simpl.
  unfold set_next, set_prev, load. rewrite He1. simpl. rewrite lookup_insert_eq. simpl.
  eexists; split; [reflexivity|]. rewrite insert_insert_eq. split_and!.
  - eapply is_list_frame; [|exact Hl1]. intros x Hx. rewrite lookup_insert_ne; [done|]. by intros ->.
  - eapply live_trans; [exact Hlv|apply live_insert].
  - intros x Hx. rewrite lookup_insert_ne by set_solver. apply Hs. set_solver.
  - apply lookup_insert_eq.
Qed.

Lemma list_move_ring h head l e :
  is_list h head l → e ∈ l →
  ∃ h', list_move e head h = Ret h' ∧ is_list h' head (e :: remove_entry e l) ∧ live h h'.
Proof.
  intros Hl He. destruct (list_unlink_ring _ _ _ _ Hl He) as (nd & h1 & Hnd & Hd & Hl1 & Hlv & Hs & He1 & Hni).
  unfold list_move, load. rewrite Hnd. simpl. rewrite Hd. simpl.
  destruct (list_add_ring h1 head (remove_entry e l) e) as (h2 & ? & ? & ? & ?); eauto.
  exists h2. eauto using live_trans.
Qed.

Lemma list_move_tail_ring h head l e :
  is_list h head l → e ∈ l →
  ∃ h', list_move_tail e head h = Ret h' ∧ is_list h' head (remove_entry e l ++ [e]) ∧ live h h'.
Proof.
  intros Hl He. destruct (list_unlink_ring _ _ _ _ Hl He) as (nd & h1 & Hnd & Hd & Hl1 & Hlv & Hs & He1 & Hni).
  unfold list_move_tail, load. rewrite Hnd. simpl. rewrite Hd. simpl.
  destruct (list_add_tail_ring h1 head (remove_entry e l) e) as (h2 & ? & ? & ? & ?); eauto.
  exists h2. eauto using live_trans.
Qed.

Lemma INIT_LIST_HEAD_ring h head : is_Some (h !! head) →
  ∃ h', INIT_LIST_HEAD head h = Ret h' ∧ is_list h' head [] ∧ live h h' ∧ same_outside h h' [head].
Proof.
  intros [nd Hnd]. unfold INIT_LIST_HEAD, set_next, set_prev, load. rewrite Hnd. simpl.
  rewrite lookup_insert_eq. simpl. rewrite insert_insert_eq. eexists; split; [reflexivity|].
  unfold is_list, nxt, prv; simpl. split_and!.
  - apply NoDup_singleton.
  - unfold nxt. by rewrite lookup_insert_eq.
  - unfold prv. by rewrite lookup_insert_eq.
  - done.
  - apply live_insert.
  - intros x Hx. rewrite lookup_insert_ne; [done|set_solver].
Qed.

(** Walking the ring. *)
Lemma list_for_each_from_seg h head p l : ∀ fuel,
  path h p (l ++ [head]) → head ∉ l → (length l <= fuel)%nat →
  ∀ x, nxt h p = Some x → list_for_each_from fuel x head h = Ret (Some l).
Proof.
  revert p; induction l as [|y l IH]; intros p fuel Hp Hh Hf x Hx; simpl in Hp.
  - assert (x = head) as -> by (destruct Hp; congruence).
    destruct fuel; simpl; by rewrite bool_decide_eq_true_2.
  - destruct Hp as (Hy & _ & Hp). assert (x = y) as -> by congruence.
    destruct fuel as [|fuel]; simpl in Hf; [lia|]. simpl.
    rewrite bool_decide_eq_false_2 by set_solver.
    assert (∃ z, nxt h y = Some z) as [z Hz] by (destruct l; simpl in Hp; destruct Hp; eauto).
    pose proof Hz as Hz'. unfold nxt in Hz. unfold load. destruct (h !! y) as [nd|] eqn:E; [|done].
    simpl. simpl in Hz. injection Hz as Hz. rewrite Hz.
    rewrite (IH y fuel Hp ltac:(set_solver) ltac:(lia) z Hz'). done.
Qed.

Lemma list_for_each_ring h head l fuel :
  is_list h head l → (length l <= fuel)%nat → list_for_each fuel head h = Ret (Some l).
Proof.
  intros Hl Hf. destruct (is_list_head_next _ _ _ Hl) as (nd & Hnd & _).
  unfold list_for_each, load. rewrite Hnd. simpl. destruct Hl as [Hdup Hp].
  apply NoDup_cons in Hdup as [Hh _].
  eapply list_for_each_from_seg; eauto. by apply lookup_nxt in Hnd as [-> _].
Qed.

Lemma list_for_each_prev_seg h head l : ∀ q fuel,
  path h head (l ++ [q]) → head ∉ l → (length l <= fuel)%nat →
  ∀ x, prv h q = Some x → list_for_each_prev_from fuel x head h = Ret (Some (rev l)).
Proof.
  induction l as [|y l IH] using rev_ind; intros q fuel Hp Hh Hf x Hx.
  - simpl in Hp. assert (x = head) as -> by (destruct Hp as (_ & ? & _); congruence).
    destruct fuel; simpl; by rewrite bool_decide_eq_true_2.
  - rewrite length_app in Hf; simpl in Hf.
    apply path_app in Hp as [Hp Hq]. unfold lastd in Hq. rewrite last_snoc in Hq. simpl in Hq.
    destruct Hq as (_ & Hq & _). assert (x = y) as -> by congruence.
    destruct fuel as [|fuel]; [lia|]. simpl.
    rewrite bool_decide_eq_false_2 by set_solver.
    assert (∃ z, prv h y = Some z) as [z Hz] by (apply path_app in Hp as [_ Hp]; simpl in Hp; destruct Hp as (_ & ? & _); eauto).
    destruct (prv_Some _ _ _ Hz) as [nd Hnd]. unfold load. rewrite Hnd. simpl.
    destruct (lookup_nxt _ _ _ Hnd) as [_ Hpv]. assert (prev nd = z) as -> by congruence.
    rewrite (IH y fuel Hp ltac:(set_solver) ltac:(lia) z Hz). by rewrite rev_app_distr.
Qed.

Lemma list_for_each_prev_ring h head l fuel :
  is_list h head l → (length l <= fuel)%nat → list_for_each_prev fuel head h = Ret (Some (rev l)).
Proof.
  intros Hl Hf. destruct (is_list_head_next _ _ _ Hl) as (nd & Hnd & _ & Hpv).
  unfold list_for_each_prev, load. rewrite Hnd. simpl. destruct Hl as [Hdup Hp].
  apply NoDup_cons in Hdup as [Hh _].
  eapply list_for_each_prev_seg; eauto. by destruct (lookup_nxt _ _ _ Hnd) as [_ ->].
Qed.

Lemma list_empty_ring h head l :
  is_list h head l → list_empty head h = Ret (bool_decide (l = [])).
Proof.
  intros Hl. destruct (is_list_head_next _ _ _ Hl) as (nd & Hnd & Hn & _).
  unfold list_empty, load. rewrite Hnd. simpl. f_equal. rewrite Hn.
  apply bool_decide_ext. destruct l as [|x l]; simpl; [done|].
  split; [|done]. intros ->. destruct Hl as [Hnd' _]. apply NoDup_cons in Hnd'. set_solver.
Qed.

(** The safe traversal: [l1] has been visited and filtered, [l2] is to come. *)
Lemma list_for_each_safe_seg p head l2 : ∀ fuel h l1,
  is_list h head (l1 ++ l2) → (length l2 <= fuel)%nat →
  ∀ pos n, l2 ++ [head] = pos :: tail (l2 ++ [head]) →
  n = default head (hd_error (tail l2)) ∨ l2 = [] →
  ∃ h', list_for_each_safe_from fuel (del_if p) pos n head h = Ret (Some h') ∧
    is_list h' head (l1 ++ filter (λ x, p x = false) l2).
Proof.
  induction l2 as [|x l2 IH]; intros fuel h l1 Hl Hf pos n Hpos Hn; simpl in *.
  - injection Hpos as ->. exists h. split; [|done].
    destruct fuel; simpl; by rewrite bool_decide_eq_true_2.
  - injection Hpos as ->. destruct Hn as [->|?]; [|done].
    destruct fuel as [|fuel]; [simpl in Hf; lia|]. simpl.
    pose proof Hl as [Hnd _]. apply NoDup_cons in Hnd as [Hh Hnd].
    rewrite bool_decide_eq_false_2 by set_solver.
    assert (∃ h1 l1', del_if p pos h = Ret h1 ∧ is_list h1 head (l1' ++ l2) ∧
      l1' ++ filter (λ x, p x = false) l2 = l1 ++ filter (λ x, p x = false) (pos :: l2)) as (h1 & l1' & -> & Hl1 & Heq).
    { unfold del_if. rewrite filter_cons. destruct (p pos) eqn:E.
      - destruct (list_del_ring h head (l1 ++ pos :: l2) pos Hl) as (h1 & ? & Hl1 & _); [set_solver|].
        rewrite remove_entry_mid in Hl1 by done. exists h1, l1.
        by rewrite decide_False by congruence.
      - exists h, (l1 ++ [pos]). rewrite decide_True by done. rewrite <-!app_assoc. done. }
    simpl. set (n := default head (hd_error l2)).
    assert (∃ nn, load h1 n = Ret nn ∧ (next nn = default head (hd_error (tail l2)) ∨ l2 = [])) as (nn & -> & Hnn).
    { destruct (is_list_gap _ _ _ _ Hl1) as (n' & rest & Hr & _ & _ & Hp1 & Hp2).
      assert (n' = n) as -> by (unfold n; destruct l2; simpl in *; congruence).
      destruct (prv_Some _ _ _ Hp1) as [nn E]. exists nn. unfold load. rewrite E. split; [done|].
      destruct l2 as [|y l2]; [by right|]. left. simpl in Hr. injection Hr as <-.
      destruct (lookup_nxt _ _ _ E) as [Hx _]. simpl.
      destruct l2; simpl in *; destruct Hp2; congruence. }
    simpl. rewrite <-Heq. eapply IH; [done|simpl in Hf; lia| |done].
    unfold n. by destruct l2.
Qed.

Lemma list_for_each_safe_ring p head l fuel h :
  is_list h head l → (length l <= fuel)%nat →
  ∃ h', list_for_each_safe fuel (del_if p) head h = Ret (Some h') ∧
    is_list h' head (filter (λ x, p x = false) l).
Proof.
  intros Hl Hf. destruct (is_list_head_next _ _ _ Hl) as (nd & Hnd & Hn & _).
  unfold list_for_each_safe, load. rewrite Hnd. simpl. rewrite Hn.
  destruct (is_list_gap h head [] l Hl) as (n' & rest & Hr & _ & _ & Hp1 & Hp2).
  assert (n' = default head (hd_error l)) as -> by (destruct l; simpl in *; congruence).
  destruct (prv_Some _ _ _ Hp1) as [nn E]. rewrite E. simpl.
  eapply (list_for_each_safe_seg p head l fuel h []); try done.
  - by destruct l.
  - destruct l as [|y l]; [by right|left]. simpl in Hr. injection Hr as <-. simpl in *.
    destruct (lookup_nxt _ _ _ E) as [Hx _]. destruct l; simpl in *; destruct Hp2; congruence.
Qed.

(** Splicing the entries of one ring in front of another's. *)
Lemma list_splice_ring h lst head la lb :
  is_list h lst la → is_list h head lb → NoDup ((lst :: la) ++ head :: lb) → la ≠ [] →
  ∃ h', __list_splice lst head h = Ret h' ∧ is_list h' head (la ++ lb) ∧ live h h' ∧
    h' !! lst = h !! lst.
Proof.
  intros Ha Hb Hnd Hne. destruct la as [|first la]; [done|].
  destruct (is_list_head_next _ _ _ Ha) as (nl & Hnl & Hfirst & Hlast). simpl in Hfirst.
  rewrite lastd_cons in Hlast.
  destruct (is_list_head_next _ _ _ Hb) as (nh & Hnh & Hat & _).
  destruct (is_list_gap h head [] lb Hb) as (at_ & rest & Hr & _ & Hnx & Hpv & Hp2). simpl in Hnx, Hpv.
  assert (next nh = at_) as Hat'. { rewrite Hat. destruct lb; simpl in *; congruence. }
  unfold __list_splice, load. rewrite Hnl, Hnh. simpl. rewrite Hfirst, Hlast, Hat'.
  destruct Ha as [_ Hpa]. simpl in Hpa. destruct Hpa as (Hlf & Hfl & Hpa).
  apply path_app in Hpa as [Hpa Hlst]. simpl in Hlst.
  assert (Hll : lastd first la ∈ first :: la) by apply lastd_elem.
  set (last := lastd first la) in *. destruct Hlst as (Hlastn & _ & _).
  assert (Hdis : ∀ x, x ∈ lst :: first :: la → x ∈ lb ++ [head] → False).
  { intros x H1 H2. apply NoDup_app in Hnd as (_ & Hd & _). apply (Hd x); set_solver. }
  assert (Hat2 : at_ ∈ lb ++ [head]) by (rewrite Hr; set_solver).
  assert (first ≠ at_) by (intros ->; eapply Hdis; [|exact Hat2]; set_solver).
  assert (last ≠ head) by (intros E; apply (Hdis last); set_solver).
  assert (first ≠ head) by (intros E; apply (Hdis first); set_solver).
  assert (Hndb : NoDup (head :: lb)) by apply Hb.
  store_step set_prev_spec first head h. store_step set_next_spec head first h0.
  store_step set_next_spec last at_ h1. store_step set_prev_spec at_ last h2.
  eexists; split; [reflexivity|]. split_and!.
  - eapply (is_list_glue h _ head [] lb (first :: la)); [|exact Hr|done|done|..]; simpl.
    + simpl in Hnd. apply NoDup_cons in Hnd as [_ Hnd].
      apply (NoDup_Permutation_proper _ (first :: la ++ head :: lb)); [solve_Permutation|done].
    + intros x Hx Hxh. assert (x ≠ last) by (intros ->; apply (Hdis last); set_solver). heap_eval.
    + intros x Hx Hxa. assert (x ≠ first) by (intros ->; apply (Hdis first); set_solver). heap_eval.
    + split_and!; [heap_eval|heap_eval|]. apply path_app. fold last. simpl. split.
      * eapply path_ext; [..|exact Hpa]; intros x Hx.
        -- assert (x ≠ last) by (intros ->; eapply lastd_not_removelast; [|exact Hx];
             apply NoDup_app in Hnd as [Hnd _]; by apply NoDup_cons in Hnd as [_ ?]).
           assert (x ≠ head) by (intros ->; apply elem_removelast in Hx; apply (Hdis head); set_solver).
           heap_eval.
        -- assert (x ≠ first) by (intros ->; apply NoDup_app in Hnd as [Hnd' _];
             apply NoDup_cons in Hnd' as [_ Hnd']; by apply NoDup_cons in Hnd' as [? _]).
           assert (x ≠ at_) by (intros ->; eapply Hdis; [|exact Hat2]; set_solver).
           heap_eval.
      * split_and!; heap_eval.
  - unfold live in *. eauto.
  - assert (lst ≠ first) by (intros ->; simpl in Hnd; apply NoDup_cons in Hnd; set_solver).
    assert (lst ≠ head) by (intros ->; apply (Hdis head); set_solver).
    assert (lst ≠ last) by (intros ->; apply NoDup_app in Hnd as [Hnd' _]; by apply NoDup_cons in Hnd' as [? _]).
    assert (lst ≠ at_) by (intros ->; eapply Hdis; [|exact Hat2]; set_solver).
    heap_eval.
Qed.

Lemma list_op_ring head o h l :
  is_list h head l → legal_op head o h l →
  ∃ h', run_op head o h = Ret h' ∧ is_list h' head (spec_op o l) ∧ live h h'.
Proof.
  intros Hl Hlegal. destruct o; simpl in *.
  - destruct (list_add_ring h head l n) as (h' & ? & ? & ? & _); naive_solver.
  - destruct (list_add_tail_ring h head l n) as (h' & ? & ? & ? & _); naive_solver.
  - destruct (list_del_ring h head l e) as (h' & ? & ? & ? & _); naive_solver.
  - destruct (list_move_ring h head l e) as (h' & ? & ? & ?); naive_solver.
  - destruct (list_move_tail_ring h head l e) as (h' & ? & ? & ?); naive_solver.
Qed.

(** Hash lists. *)
Lemma hpath_app h pp l1 l2 : hpath h pp (l1 ++ l2) ↔ hpath h pp l1 ∧ hpath h (lastpp pp l1) l2.
Proof.
  revert pp; induction l1 as [|x l1 IH]; intros pp; simpl; [tauto|].
  rewrite IH. replace (lastpp pp (x :: l1)) with (lastpp (PNext x) l1); [tauto|].
  unfold lastpp. rewrite last_cons. by destruct (last l1).
Qed.

Lemma lastpp_app pp l1 l2 : lastpp pp (l1 ++ l2) = lastpp (lastpp pp l1) l2.
Proof. unfold lastpp. rewrite last_app. by destruct (last l2). Qed.

Lemma hpath_ext h h' pp l :
  deref h' pp = deref h pp ∨ l = [] →
  (∀ x, x ∈ removelast l → deref h' (PNext x) = deref h (PNext x)) →
  (∀ x, x ∈ l → back h' x = back h x) →
  hpath h pp l → hpath h' pp l.
Proof.
  revert pp; induction l as [|x l IH]; intros pp [Hd|?] Hr Hb; try done.
  intros (H1 & H2 & H3 & H4). simpl. rewrite Hd, Hb by set_solver. split_and!; try done.
  destruct l as [|y l]; [done|].
  change (removelast (x :: y :: l)) with (x :: removelast (y :: l)) in Hr.
  apply IH; [left; apply Hr; set_solver|..|done]; intros; [apply Hr|apply Hb]; set_solver.
Qed.

Lemma back_node h n : is_Some (back h n) ↔ is_Some (hnodes h !! n).
Proof. unfold back. by rewrite fmap_is_Some. Qed.

Lemma set_hnext_spec n v h : is_Some (back h n) →
  ∃ h', set_hnext n v h = Ret h' ∧
    (∀ pp, deref h' pp = if decide (pp = PNext n) then Some v else deref h pp) ∧
    (∀ x, back h' x = back h x).
Proof.
  intros [nd Hnd]%back_node. unfold set_hnext, hload. rewrite Hnd. simpl.
  eexists; split; [reflexivity|].
  assert (H1 : ∀ pp, deref (set_node n (HNode v (pprev nd)) h) pp =
    if decide (pp = PNext n) then Some v else deref h pp).
  { intros [| |m|]; simpl; try done.
    rewrite lookup_insert. repeat case_decide; simplify_eq; try done. }
  assert (H2 : ∀ x, back (set_node n (HNode v (pprev nd)) h) x = back h x).
  { intros x. unfold back. simpl. rewrite lookup_insert. case_decide; subst; [by rewrite Hnd|done]. }
  done.
Qed.

Lemma set_pprev_spec n v h : is_Some (back h n) →
  ∃ h', set_pprev n v h = Ret h' ∧
    (∀ x, back h' x = if decide (x = n) then Some v else back h x) ∧
    (∀ pp, deref h' pp = deref h pp).
Proof.
  intros [nd Hnd]%back_node. unfold set_pprev, hload. rewrite Hnd. simpl.
  eexists; split; [reflexivity|].
  assert (H1 : ∀ x, back (set_node n (HNode (hnext nd) v) h) x =
    if decide (x = n) then Some v else back h x).
  { intros x. unfold back. simpl. rewrite lookup_insert. repeat case_decide; subst; done. }
  assert (H2 : ∀ pp, deref (set_node n (HNode (hnext nd) v) h) pp = deref h pp).
  { intros [| |m|]; simpl; try done. rewrite lookup_insert. case_decide; subst; [by rewrite Hnd|done]. }
  done.
Qed.

Lemma store_pprev_spec pp v h : is_Some (deref h pp) →
  ∃ h', store_pprev pp v h = Ret h' ∧
    (∀ q, deref h' q = if decide (q = pp) then Some v else deref h q) ∧
    (∀ x, back h' x = back h x).
Proof.
  destruct pp as [|hd|n|]; simpl; intros Hs; try (by destruct Hs).
  - destruct Hs as [f Hf]. unfold set_first, get_first. rewrite Hf. simpl.
    eexists; split; [reflexivity|].
    assert (H1 : ∀ q, deref (HHeap (<[hd:=v]> (hheads h)) (hnodes h)) q =
      if decide (q = PFirst hd) then Some v else deref h q).
    { intros [|m| |]; simpl; try done.
      rewrite lookup_insert. repeat case_decide; simplify_eq; done. }
    done.
  - apply set_hnext_spec. rewrite back_node. by rewrite fmap_is_Some in Hs.
Qed.

Ltac hheap_eval :=
  repeat match goal with
  | H : ∀ x, deref ?h x = _ |- context [deref ?h _] => rewrite H
  | H : ∀ x, back ?h x = _ |- context [back ?h _] => rewrite H
  end; repeat case_decide; simplify_eq; try done.

Ltac hstore_step L p v h :=
  let h' := fresh "h" in let E := fresh "E" in
  let H1 := fresh "Hs" in let H2 := fresh "Ho" in
  destruct (L p v h) as (h' & E & H1 & H2);
  [solve [hheap_eval; eauto]|]; rewrite E; clear E; simpl.

Lemma deref_back h n : is_Some (deref h (PNext n)) ↔ is_Some (back h n).
Proof. unfold back. simpl. by rewrite !fmap_is_Some. Qed.

Lemma hlist_add_head_chain h hd l n :
  is_hlist h hd l → n ∉ l → n ≠ NULL → is_Some (back h n) →
  ∃ h', hlist_add_head n hd h = Ret h' ∧ is_hlist h' hd (n :: l).
Proof.
  intros (Hnd & Hp & Hl) Hn Hnull Hnd'.
  assert (∃ f, deref h (PFirst hd) = Some f ∧ f = default NULL (hd_error l)) as (f & Hf & Hfl).
  { destruct l as [|x l]; cbn [hpath] in Hp; [eauto|]. destruct Hp; eauto. }
  unfold hlist_add_head. unfold get_first at 1. change (hheads h !! hd) with (deref h (PFirst hd)). rewrite Hf. simpl.
  assert (Hd : is_Some (deref h (PFirst hd))) by (rewrite Hf; eauto).
  hstore_step set_hnext_spec n f h.
  assert (∃ h2, (if f =? NULL then mret h0 else set_pprev f (PNext n) h0) = Ret h2 ∧
    (∀ x, back h2 x = if decide (x = f ∧ f ≠ NULL) then Some (PNext n) else back h0 x) ∧
    (∀ pp, deref h2 pp = deref h0 pp)) as (h2 & -> & Hb2 & Hd2).
  { destruct l as [|x l]; simpl in Hfl; subst f.
    - exists h0. split_and!; try done. intros x. by rewrite decide_False by tauto.
    - cbn [hpath] in Hp. destruct Hp as (_ & Hx & Hbx & _). rewrite (proj2 (Z.eqb_neq _ _) Hx).
      destruct (set_pprev_spec x (PNext n) h0) as (h2 & -> & Hb & ?); [rewrite Ho; eauto|].
      exists h2. split_and!; try done. intros y. rewrite Hb. repeat case_decide; tauto. }
  simpl. change (set_first hd n h2) with (store_pprev (PFirst hd) n h2).
  hstore_step store_pprev_spec (PFirst hd) n h2. hstore_step set_pprev_spec n (PFirst hd) h1.
  eexists; split; [reflexivity|].
  assert (Hlast : lastpp (PFirst hd) (n :: l) = lastpp (PNext n) l).
  { unfold lastpp. rewrite last_cons. by destruct (last l). }
  split; [by constructor|]. cbn [hpath]. rewrite Hlast. split; [split_and!; [hheap_eval|done|hheap_eval|]|].
  - destruct l as [|x l]; [done|]. cbn [hpath] in Hp. cbn [hd_error from_option id] in *. destruct Hp as (_ & Hx & Hbx & Hp).
    assert (x ≠ n) by set_solver.
    cbn [hpath]. split_and!; [hheap_eval|done|hheap_eval; naive_solver|].
    apply NoDup_cons in Hnd as [Hxl Hnd].
    eapply hpath_ext; [..|exact Hp].
    + left. hheap_eval.
    + intros y Hy%elem_removelast. assert (y ≠ n) by set_solver. hheap_eval.
    + intros y Hy. assert (y ≠ n ∧ y ≠ x) as [??] by set_solver. hheap_eval; tauto.
  - assert (Hpl : lastpp (PNext n) l = PNext n ∧ l = [] ∨
      lastpp (PNext n) l = lastpp (PFirst hd) l ∧ lastpp (PFirst hd) l ≠ PNext n ∧ l ≠ [] ∧ lastpp (PFirst hd) l ≠ PFirst hd).
    { destruct l as [|x l]; [by left|right]. pose proof (lastd_elem x l) as Hle.
      assert (∀ pp, lastpp pp (x :: l) = PNext (lastd x l)) as E.
      { intros pp. unfold lastpp, lastd. rewrite last_cons. by destruct (last l). }
      rewrite !E. split_and!; try done. intros [= Hx]. apply Hn. by rewrite <-Hx. }
    destruct Hpl as [[-> ->]|(-> & H1 & H2 & H3)]; hheap_eval.
Qed.


Lemma lastpp_snoc pp l x : lastpp pp (l ++ [x]) = PNext x.
Proof. unfold lastpp. by rewrite last_snoc. Qed.

Lemma lastpp_cons pp x l : lastpp pp (x :: l) = lastpp (PNext x) l.
Proof. unfold lastpp. rewrite last_cons. by destruct (last l). Qed.

(** The location [lastpp] names is the head or one of the entries. *)
Lemma lastpp_cases pp l : (lastpp pp l = pp ∧ l = []) ∨ ∃ x, x ∈ l ∧ lastpp pp l = PNext x.
Proof.
  unfold lastpp. destruct (last l) as [x|] eqn:E.
  - right. exists x. apply last_Some in E as [l' ->]. set_solver.
  - left. by apply last_None in E.
Qed.

Lemma hpath_deref h pp l : hpath h pp l → deref h (lastpp pp l) = Some NULL →
  deref h pp = Some (default NULL (hd_error l)).
Proof. destruct l; cbn [hpath]; [done|]. by intros [? _]. Qed.

Lemma hlist_del_chain h hd l1 n l2 :
  is_hlist h hd (l1 ++ n :: l2) →
  ∃ h', hlist_del n h = Ret h' ∧ is_hlist h' hd (l1 ++ l2).
Proof.
  intros (Hnd & Hp & Hl). rewrite lastpp_app, lastpp_cons in Hl.
  apply hpath_app in Hp as [Hp1 Hp2]. cbn [hpath] in Hp2. destruct Hp2 as (Hdn & Hnn & Hbn & Hp2).
  set (pp := lastpp (PFirst hd) l1) in *.
  assert (Hpp : pp ≠ PNext n ∧ (∀ x, x ∈ l2 → pp ≠ PNext x)).
  { apply NoDup_app in Hnd as (_ & Hnd & Hnd2). unfold pp.
    destruct (lastpp_cases (PFirst hd) l1) as [[-> _]|(y & Hy & ->)]; [done|].
    split; intros; intros [= ->]; eapply Hnd; eauto; set_solver. }
  pose proof (hpath_deref _ _ _ Hp2 Hl) as Hnx.
  assert (Hnode : ∃ nd, hnodes h !! n = Some nd ∧ pprev nd = pp ∧ hnext nd = default NULL (hd_error l2)).
  { unfold back in Hbn. cbn [deref] in Hnx. destruct (hnodes h !! n) as [nd|]; [|done].
    simpl in Hbn, Hnx. exists nd. split_and!; congruence. }
  destruct Hnode as (nd & End & Epp & Enx).
  unfold hlist_del, __hlist_del. unfold hload at 1. rewrite End. simpl. rewrite Epp, Enx.
  remember (default NULL (hd_error l2)) as nx eqn:Enxt.
  hstore_step store_pprev_spec pp nx h.
  assert (∃ h2, (if nx =? NULL then mret h0 else set_pprev nx pp h0) = Ret h2 ∧
    (∀ x, back h2 x = if decide (x = nx ∧ nx ≠ NULL) then Some pp else back h0 x) ∧
    (∀ q, deref h2 q = deref h0 q)) as (h2 & -> & Hb2 & Hd2).
  { destruct l2 as [|x l2]; simpl in Enxt; subst nx; simpl.
    - exists h0. split_and!; try done. intros x. by rewrite decide_False by tauto.
    - cbn [hpath] in Hp2. destruct Hp2 as (_ & Hx & Hbx & _). rewrite (proj2 (Z.eqb_neq _ _) Hx).
      destruct (set_pprev_spec x pp h0) as (h2 & -> & Hb & ?); [rewrite Ho; eauto|].
      exists h2. split_and!; try done. intros y. rewrite Hb. repeat case_decide; tauto. }
  simpl.
  hstore_step set_hnext_spec n LIST_POISON1 h2. hstore_step set_pprev_spec n PPoison h1.
  eexists; split; [reflexivity|]. apply NoDup_app in Hnd as (Hnd1 & Hd12 & Hnd2).
  apply NoDup_cons in Hnd2 as [Hn2 Hnd2]. assert (Hn1 : n ∉ l1) by (intros ?; eapply Hd12; eauto; set_solver).
  assert (Hnx1 : ∀ x, x ∈ l1 → ¬ (x = nx ∧ nx ≠ NULL)).
  { intros x Hx [-> Hz]. destruct l2 as [|y l2]; [done|]. simpl in Enxt. subst. eapply Hd12; eauto; set_solver. }
  split; [|split].
  - apply NoDup_app. split_and!; try done. intros x Hx Hx2. eapply Hd12; eauto; set_solver.
  - apply hpath_app. fold pp. split.
    + eapply hpath_ext; [..|exact Hp1].
      * destruct l1 as [|y l1 _] using rev_ind; [by right|left]. unfold pp in *. rewrite lastpp_snoc in *. hheap_eval.
      * intros x Hx. assert (x ≠ n) by (intros ->; by apply elem_removelast in Hx).
        assert (PNext x ≠ pp).
        { destruct l1 as [|y l1 _] using rev_ind; [by apply not_elem_of_nil in Hx|]. unfold pp. rewrite lastpp_snoc.
          intros [= ->]. rewrite removelast_last in Hx. apply NoDup_app in Hnd1. set_solver. }
        hheap_eval.
      * intros x Hx. assert (x ≠ n) by congruence. specialize (Hnx1 x Hx). hheap_eval; tauto.
    + destruct l2 as [|x l2]; [done|]. cbn [hpath] in Hp2 |- *. simpl in Enxt. destruct Hp2 as (_ & Hx & Hbx & Hp2).
      assert (x ≠ n) by set_solver. apply NoDup_cons in Hnd2 as [Hx2 Hnd2].
      destruct Hpp as [Hpn Hpp]. split_and!; [hheap_eval; by destruct Hpn|done|hheap_eval; tauto|].
      eapply hpath_ext; [..|exact Hp2].
      * left. assert (pp ≠ PNext x) by (apply Hpp; set_solver). hheap_eval.
      * intros y Hy%elem_removelast. assert (y ≠ n) by set_solver.
        assert (pp ≠ PNext y) by (apply Hpp; set_solver). hheap_eval.
      * intros y Hy. assert (y ≠ n ∧ y ≠ x) as [??] by set_solver. hheap_eval; tauto.
  - rewrite lastpp_app. fold pp. destruct (lastpp_cases pp l2) as [[-> ->]|(y & Hy & E)].
    + destruct Hpp as [Hpn _]. hheap_eval; by destruct Hpn.
    + destruct (lastpp_cases (PNext n) l2) as [[_ ->]|(y' & Hy' & E')]; [set_solver|].
      assert (PNext y = PNext y') as Eyy.
      { rewrite <-E, <-E'. unfold lastpp. destruct (last l2) eqn:EE; [done|]. apply last_None in EE. set_solver. }
      rewrite E' in Hl. rewrite E, Eyy. assert (y' ≠ n) by set_solver.
      assert (pp ≠ PNext y') by (by apply Hpp). hheap_eval.
Qed.

(** ** Properties *)

(** A sequence of operations on one ring, each legal where it is applied. *)
Fixpoint run_ops (head : Z) (os : list list_op) (h : heap) : outcome heap :=
  match os with [] => mret h | o :: os => h ← run_op head o h; run_ops head os h end.
Fixpoint legal_ops (head : Z) (os : list list_op) (h : heap) (l : list Z) : Prop :=
  match os with
  | [] => True
  | o :: os => legal_op head o h l ∧ legal_ops head os h (spec_op o l)
  end.

Lemma legal_op_live head o h h' l : live h h' → legal_op head o h l → legal_op head o h' l.
Proof. unfold live. destruct o; simpl; naive_solver. Qed.

Lemma legal_ops_live head os h h' l : live h h' → legal_ops head os h l → legal_ops head os h' l.
Proof.
  revert l; induction os as [|o os IH]; intros l Hl; [done|].
  intros [H1 H2]. split; [by eapply legal_op_live|auto].
Qed.

(** C34: any legal sequence of list_add, list_add_tail, list_del, list_move and
    list_move_tail on a ring returns, and the forward and backward traversals
    of the result visit exactly what the same sequence computes on lists. *)
Theorem list_ops_refine (head : Z) (os : list list_op) (h : heap) (l : list Z) (fuel : nat) :
  is_list h head l → legal_ops head os h l →
  let l' := fold_left (λ l o, spec_op o l) os l in
  (length l' <= fuel)%nat →
  ∃ h', run_ops head os h = Ret h' ∧ is_list h' head l' ∧
    list_for_each fuel head h' = Ret (Some l') ∧
    list_for_each_prev fuel head h' = Ret (Some (rev l')) ∧
    list_empty head h' = Ret (bool_decide (l' = [])).
Proof.
  revert h l; induction os as [|o os IH]; intros h l Hl Hos l' Hf; simpl in *.
  - exists h. split_and!; [done..| | |].
    + by apply list_for_each_ring.
    + by apply list_for_each_prev_ring.
    + by apply list_empty_ring.
  - destruct Hos as [Ho Hos].
    destruct (list_op_ring head o h l Hl Ho) as (h1 & -> & Hl1 & Hlive). simpl.
    apply IH; [done| |done]. by eapply legal_ops_live.
Qed.

(** Nodes 1..4 allocated, 100 the list's head. *)
Definition ring0 : heap :=
  <[100 := ListHead 100 100]> (list_to_map ((λ p, (p, ListHead 0 0)) <$> [1; 2; 3; 4])).

Lemma ring0_empty : is_list ring0 100 [].
Proof. split; [repeat constructor; set_solver|]. by vm_compute. Qed.

Lemma list_ops_refine_witness :
  legal_ops 100 [Add 1; AddTail 2; Add 3; Move 2; Del 1; AddTail 4; MoveTail 2] ring0 [] ∧
  ∃ h', run_ops 100 [Add 1; AddTail 2; Add 3; Move 2; Del 1; AddTail 4; MoveTail 2] ring0 = Ret h' ∧
    is_list h' 100 [3; 4; 2] ∧
    list_for_each 3 100 h' = Ret (Some [3; 4; 2]) ∧
    list_for_each_prev 3 100 h' = Ret (Some [2; 4; 3]) ∧
    list_empty 100 h' = Ret false.
Proof.
  assert (H : legal_ops 100 [Add 1; AddTail 2; Add 3; Move 2; Del 1; AddTail 4; MoveTail 2] ring0 []).
  { cbn. split_and!; try (by eexists; vm_compute); try done;
      by apply (bool_decide_unpack _); vm_compute. }
  split; [exact H|].
  exact (list_ops_refine 100 _ ring0 [] 3 ring0_empty H ltac:(vm_compute; lia)).
Defined.

(** list_for_each_entry_safe may unlink the entry it visits: with a body
    that list_del()s the selected entries the loop terminates and leaves exactly
    the others, in order. *)
Theorem list_for_each_safe_del (p : Z → bool) (head : Z) (l : list Z) (fuel : nat) (h : heap) :
  is_list h head l → (length l <= fuel)%nat →
  ∃ h', list_for_each_safe fuel (del_if p) head h = Ret (Some h') ∧
    list_for_each fuel head h' = Ret (Some (filter (λ x, p x = false) l)).
Proof.
  intros Hl Hf. destruct (list_for_each_safe_ring p head l fuel h Hl Hf) as (h' & E & Hl').
  exists h'. split; [done|]. apply list_for_each_ring; [done|].
  etransitivity; [apply length_filter|done].
Qed.

Definition ring1 : heap := list_to_map
  [(100, ListHead 1 3); (1, ListHead 2 100); (2, ListHead 3 1); (3, ListHead 100 2)].

Lemma list_for_each_safe_del_witness :
  ∃ h', list_for_each_safe 3 (del_if Z.odd) 100 ring1 = Ret (Some h') ∧
    list_for_each 3 100 h' = Ret (Some [2]).
Proof.
  apply (list_for_each_safe_del Z.odd 100 [1; 2; 3] 3 ring1).
  - split; [apply (bool_decide_unpack _); by vm_compute|]. by vm_compute.
  - simpl; lia.
Defined.

(** List_splice_init moves all entries of one ring, in order, to the front of
    another and leaves the first ring empty. *)
Theorem list_splice_init_refines (h : heap) (lst head : Z) (la lb : list Z) (fuel : nat) :
  is_list h lst la → is_list h head lb → NoDup ((lst :: la) ++ head :: lb) →
  (length (la ++ lb) <= fuel)%nat →
  ∃ h', list_splice_init lst head h = Ret h' ∧
    list_for_each fuel head h' = Ret (Some (la ++ lb)) ∧
    list_for_each_prev fuel head h' = Ret (Some (rev (la ++ lb))) ∧
    list_empty lst h' = Ret true.
Proof.
  intros Ha Hb Hnd Hf. unfold list_splice_init. rewrite (list_empty_ring _ _ _ Ha). simpl.
  case_bool_decide as Hla.
  - subst la. exists h. split_and!; [done| | |].
    + by apply list_for_each_ring.
    + by apply list_for_each_prev_ring.
    + by rewrite (list_empty_ring _ _ _ Ha).
  - destruct (list_splice_ring h lst head la lb Ha Hb Hnd Hla) as (h1 & -> & Hl1 & Hlive & _). simpl.
    destruct (is_list_head_next _ _ _ Ha) as (nd & Hnd' & _).
    destruct (INIT_LIST_HEAD_ring h1 lst) as (h2 & -> & Hl2 & _ & Hoth); [by apply Hlive|].
    exists h2. assert (is_list h2 head (la ++ lb)) as Hl2'.
    { eapply is_list_frame; [|exact Hl1]. intros x Hx. apply Hoth. intros ->%list_elem_of_singleton.
      apply NoDup_app in Hnd as (Hnd1 & Hd & _). apply NoDup_cons in Hnd1 as [Hn1 _].
      specialize (Hd lst). set_solver. }
    split_and!; [done| | |].
    + by apply list_for_each_ring.
    + by apply list_for_each_prev_ring.
    + by rewrite (list_empty_ring _ _ _ Hl2).
Qed.

Lemma list_splice_init_refines_witness :
  ∃ h', list_splice_init 200 100
      (<[200 := ListHead 8 9]> (<[8 := ListHead 9 200]> (<[9 := ListHead 200 8]> ring1))) = Ret h' ∧
    list_for_each 5 100 h' = Ret (Some [8; 9; 1; 2; 3]) ∧
    list_for_each_prev 5 100 h' = Ret (Some [3; 2; 1; 9; 8]) ∧
    list_empty 200 h' = Ret true.
Proof.
  apply (list_splice_init_refines _ 200 100 [8; 9] [1; 2; 3] 5).
  - split; [apply (bool_decide_unpack _); by vm_compute|]. by vm_compute.
  - split; [apply (bool_decide_unpack _); by vm_compute|]. by vm_compute.
  - apply (bool_decide_unpack _); by vm_compute.
  - simpl; lia.
Defined.

(** Operations on one hash chain. *)
Inductive hlist_op := HAddHead (n : Z) | HDel (n : Z).
Definition run_hop (hd : Z) (o : hlist_op) (h : hheap) : outcome hheap :=
  match o with HAddHead n => hlist_add_head n hd h | HDel n => hlist_del n h end.
Fixpoint run_hops (hd : Z) (os : list hlist_op) (h : hheap) : outcome hheap :=
  match os with [] => mret h | o :: os => h ← run_hop hd o h; run_hops hd os h end.
Definition spec_hop (o : hlist_op) (l : list Z) : list Z :=
  match o with HAddHead n => n :: l | HDel n => remove_entry n l end.
Fixpoint legal_hops (os : list hlist_op) (dom : list Z) (l : list Z) : Prop :=
  match os with
  | [] => True
  | o :: os =>
      match o with HAddHead n => n ∉ l ∧ n ∈ dom | HDel n => n ∈ l end ∧
      legal_hops os dom (spec_hop o l)
  end.

(** No store makes a node disappear. *)
Definition hlive (h h' : hheap) : Prop := ∀ x, is_Some (back h x) → is_Some (back h' x).

Lemma hlive_trans h1 h2 h3 : hlive h1 h2 → hlive h2 h3 → hlive h1 h3.
Proof. unfold hlive. auto. Qed.

Lemma set_node_live n v h : hlive h (set_node n v h).
Proof.
  intros x Hx. unfold back in *. simpl. rewrite lookup_insert. case_decide; simpl; [eauto|done].
Qed.

Lemma set_hnext_live n v h h' : set_hnext n v h = Ret h' → hlive h h'.
Proof. unfold set_hnext. intros H. inv_bind. apply set_node_live. Qed.
Lemma set_pprev_live n v h h' : set_pprev n v h = Ret h' → hlive h h'.
Proof. unfold set_pprev. intros H. inv_bind. apply set_node_live. Qed.
Lemma set_first_live n v h h' : set_first n v h = Ret h' → hlive h h'.
Proof. unfold set_first. intros H. inv_bind. by intros y. Qed.
Lemma store_pprev_live pp v h h' : store_pprev pp v h = Ret h' → hlive h h'.
Proof. destruct pp; simpl; try discriminate; [apply set_first_live|apply set_hnext_live]. Qed.

Ltac hlive_steps :=
  repeat match goal with
  | H : (if _ then _ else _) = Ret _ |- _ => destruct Z.eqb in H
  | H : set_hnext _ _ _ = Ret _ |- _ => apply set_hnext_live in H
  | H : set_pprev _ _ _ = Ret _ |- _ => apply set_pprev_live in H
  | H : set_first _ _ _ = Ret _ |- _ => apply set_first_live in H
  | H : store_pprev _ _ _ = Ret _ |- _ => apply store_pprev_live in H
  | _ => progress inv_bind
  end; eauto 8 using hlive_trans.

Lemma run_hop_live hd o h h' : run_hop hd o h = Ret h' → hlive h h'.
Proof.
  destruct o; simpl; unfold hlist_add_head, hlist_del, __hlist_del; intros H; inv_bind; hlive_steps.
Qed.

(** any sequence of hlist_add_head and hlist_del that adds only unhashed live
    nodes and deletes only hashed ones returns, and the chain then holds exactly
    what the same sequence computes on lists (every [pprev] included). *)
Theorem hlist_ops_refine (hd : Z) (dom : list Z) (os : list hlist_op) (h : hheap) (l : list Z) :
  is_hlist h hd l → legal_hops os dom l →
  (∀ x, x ∈ dom → x ≠ NULL ∧ is_Some (back h x)) →
  ∃ h', run_hops hd os h = Ret h' ∧ is_hlist h' hd (fold_left (λ l o, spec_hop o l) os l).
Proof.
  revert h l; induction os as [|o os IH]; intros h l Hl Hos Hdom; simpl in *; [eauto|].
  destruct Hos as [Ho Hos].
  assert (∃ h1, run_hop hd o h = Ret h1 ∧ is_hlist h1 hd (spec_hop o l)) as (h1 & E & Hl1).
  { destruct o as [n|n]; simpl in *.
    - destruct Ho as [Hn Hd]. destruct (Hdom n Hd). by apply hlist_add_head_chain.
    - apply list_elem_of_split in Ho as (l1 & l2 & ->).
      rewrite remove_entry_mid by apply Hl. by apply hlist_del_chain. }
  rewrite E. simpl. apply IH; [done..|]. intros x Hx. destruct (Hdom x Hx).
  split; [done|]. by eapply run_hop_live.
Qed.

Definition hheap0 : hheap :=
  HHeap {[7 := 0]} (list_to_map ((λ p, (p, HNode 0 PNull)) <$> [1; 2; 3])).

Lemma hlist_ops_refine_witness :
  ∃ h', run_hops 7 [HAddHead 1; HAddHead 2; HAddHead 3; HDel 2; HDel 1; HAddHead 2] hheap0 = Ret h' ∧
    is_hlist h' 7 [2; 3].
Proof.
  apply (hlist_ops_refine 7 [1; 2; 3] [HAddHead 1; HAddHead 2; HAddHead 3; HDel 2; HDel 1; HAddHead 2] hheap0 []).
  - split_and!; [by apply NoDup_nil|done|by vm_compute].
  - cbn. split_and!; try done; by apply (bool_decide_unpack _); vm_compute.
  - intros x Hx. repeat (apply elem_of_cons in Hx as [->|Hx]; [split; [done|by vm_compute; eexists]|]).
    by apply not_elem_of_nil in Hx.
Defined.

(** hlist_add_after: the new node's own [pprev], which nothing has set, is the
    location written; a fresh node (INIT_HLIST_NODE: NULL) makes it a wild store. *)
Lemma hlist_add_after_faults (h : hheap) (n nxt : Z) :
  is_Some (back h n) → back h nxt = Some PNull → n ≠ nxt →
  hlist_add_after n nxt h = Fault "hlist: store through a bad pprev".
Proof.
  intros [nd Hn]%back_node Hx Hne. unfold hlist_add_after.
  assert (hload h n = Ret nd) as -> by (unfold hload; by rewrite Hn). simpl.
  destruct (set_hnext_spec nxt (hnext nd) h) as (h1 & -> & _ & Hb); [rewrite Hx; eauto|]. simpl.
  specialize (Hb nxt). rewrite Hx in Hb. unfold back in Hb. unfold hload.
  destruct (hnodes h1 !! nxt) as [y|]; [|done]. simpl in *. injection Hb as ->. done.
Qed.
