(* ===== verification/Rcu.v ===== *)
(** * core/list.h: lists that are read while they are changed

    The variants of the list operations for readers without a lock.  Memory barriers expand
    to nothing, so what counts is the order of the stores: a reader that follows the next
    pointers may run between any two of them.  The hash list's traversals and its RCU variant
    are here too. *)

From S2P Require Import Prelude KList.

Definition __list_add_rcu (new prv nxt : Z) (h : heap) : outcome heap :=
  h ← set_next new nxt h;
  h ← set_prev new prv h;
  h ← set_prev nxt new h;
  set_next prv new h.
Definition list_add_rcu (new head : Z) (h : heap) : outcome heap :=
  n ← load h head; __list_add_rcu new head (next n) h.
Definition list_add_tail_rcu (new head : Z) (h : heap) : outcome heap :=
  n ← load h head; __list_add_rcu new (prev n) head h.
(** The next pointer stays. *)
Definition list_del_rcu (entry : Z) (h : heap) : outcome heap :=
  e ← load h entry;
  h ← __list_del (prev e) (next e) h;
  set_prev entry LIST_POISON2 h.

(** The loops are those of the other lists. *)
Definition list_for_each_rcu : nat → Z → heap → outcome (option (list Z)) := list_for_each.
Definition __list_for_each_rcu : nat → Z → heap → outcome (option (list Z)) := list_for_each.
Definition list_for_each_safe_rcu : nat → (Z → heap → outcome heap) → Z → heap → outcome (option heap) := list_for_each_safe.
(** From the structure at the first link on: [member] is the offset of the link in it. *)
Definition list_for_each_entry_rcu (member : Z) (fuel : nat) (head : Z) (h : heap) : outcome (option (list Z)) :=
  r ← list_for_each fuel head h; mret (option_map (map (λ pos, pos - member)) r).
Definition list_for_each_continue_rcu (fuel : nat) (pos head : Z) (h : heap) : outcome (option (list Z)) :=
  n ← load h pos; list_for_each_from fuel (next n) head h.

(** ** A writer and a reader *)

Inductive store := SNext (p v : Z) | SPrev (p v : Z).
Definition run_store (s : store) (h : heap) : outcome heap :=
  match s with SNext p v => set_next p v h | SPrev p v => set_prev p v h end.
Fixpoint run_stores (ss : list store) (h : heap) : outcome heap :=
  match ss with [] => mret h | s :: ss => h ← run_store s h; run_stores ss h end.

Inductive wop := Put (n : Z) | PutTail (n : Z) | Take (e : Z).
Definition run_wop (head : Z) (o : wop) : heap → outcome heap :=
  match o with Put n => list_add_rcu n head | PutTail n => list_add_tail_rcu n head | Take e => list_del_rcu e end.
Definition add_stores (new prv nxt : Z) : list store := [SNext new nxt; SPrev new prv; SPrev nxt new; SNext prv new].
Definition stores (head : Z) (o : wop) (h : heap) : outcome (list store) :=
  match o with
  | Put n => x ← load h head; mret (add_stores n head (next x))
  | PutTail n => x ← load h head; mret (add_stores n (prev x) head)
  | Take e => x ← load h e; mret [SPrev (next x) (prev x); SNext (prev x) (next x); SPrev e LIST_POISON2]
  end.
Lemma run_wop_stores head o h : run_wop head o h = (ss ← stores head o h; run_stores ss h).
Proof.
  assert (Hid : ∀ m : outcome heap, (h ← m; mret h) = m) by (by intros []).
  destruct o; cbn [run_wop stores]; unfold list_add_rcu, list_add_tail_rcu, list_del_rcu, __list_add_rcu, __list_del;
    [destruct (load h head) as [x| |]; try done|destruct (load h head) as [x| |]; try done|destruct (load h e) as [x| |]; try done];
    cbn [mbind]; rewrite !bind_ret; cbn [add_stores run_stores run_store].
  all: repeat (match goal with |- context [(_ ← ?m; _)] => destruct m; [rewrite ?bind_ret; cbn [run_stores]|done|done] end); by rewrite ?Hid.
Qed.

(** The heap, the stores the writer still has to do, the entries of the list when they are
    done and everything that was ever on it; the entry the reader stands on (the head
    before the first), whether it has come to the head again, and where it has been. *)
Record state := State { mem : heap; todo : list store; ring : list Z; used : list Z; cur : Z; fin : bool; seen : list Z }.
Inductive event := Begin (o : wop) | Write | Read.
#[export] Instance wop_eq_dec : EqDecision wop.
Proof. solve_decision. Defined.
#[export] Instance event_eq_dec : EqDecision event.
Proof. solve_decision. Defined.

Definition wspec (o : wop) (l : list Z) : list Z :=
  match o with Put n => n :: l | PutTail n => l ++ [n] | Take e => remove_entry e l end.
Definition start (head : Z) (h : heap) (l : list Z) : state := State h [] l l head false [].

(** An entry that was taken off is not put on again while the reader may stand on it. *)
Definition enabled (head : Z) (e : event) (s : state) : Prop :=
  match e with
  | Begin (Put n) | Begin (PutTail n) => todo s = [] ∧ n ∉ head :: used s ∧ is_Some (mem s !! n)
  | Begin (Take x) => todo s = [] ∧ x ∈ ring s
  | Write => todo s ≠ []
  | Read => fin s = false
  end.
Definition news (o : wop) : list Z := match o with Put n | PutTail n => [n] | Take _ => [] end.
Definition exec (head : Z) (e : event) (s : state) : outcome state :=
  match e with
  | Begin o => ss ← stores head o (mem s); mret (State (mem s) ss (wspec o (ring s)) (news o ++ used s) (cur s) (fin s) (seen s))
  | Write =>
      match todo s with
      | [] => mret s
      | x :: ss => h ← run_store x (mem s); mret (State h ss (ring s) (used s) (cur s) (fin s) (seen s))
      end
  | Read =>
      n ← load (mem s) (cur s);
      if bool_decide (next n = head) then mret (State (mem s) (todo s) (ring s) (used s) (cur s) true (seen s))
      else mret (State (mem s) (todo s) (ring s) (used s) (next n) false (seen s ++ [next n]))
  end.
Inductive trace (head : Z) (s : state) : list event → state → Prop :=
| trace_nil : trace head s [] s
| trace_snoc es e s1 s2 : trace head s es s1 → enabled head e s1 → exec head e s1 = Ret s2 → trace head s (es ++ [e]) s2.

(** ** The way ahead of a reader *)

Fixpoint chain (h : heap) (head c : Z) (q : list Z) : Prop :=
  match q with [] => nxt h c = Some head | x :: q => nxt h c = Some x ∧ x ≠ head ∧ chain h head x q end.

Lemma chain_some h head c q : chain h head c q → ∃ x, nxt h c = Some x.
Proof. destruct q; [by eexists|]. intros [? _]. by eexists. Qed.
Lemma chain_ext h h' head c q : (∀ x, x ∈ c :: q → nxt h' x = nxt h x) → chain h head c q → chain h' head c q.
Proof.
  revert c. induction q as [|x q IH]; intros c Hx; cbn [chain]; [by rewrite Hx by left|].
  intros (Hc & Hh & Hq). rewrite Hx by left. split_and!; [done..|]. apply IH; [|done]. intros y Hy. apply Hx. by right.
Qed.

Section Stable.
Context (S : Z → bool).
Abbreviation stable := (filter (λ x, S x = true)).

(** The store that publishes a new entry ... *)
Lemma chain_publish h h' head p v new c q :
  (∀ x, nxt h' x = if decide (x = p) then Some new else nxt h x) → nxt h p = Some v → nxt h new = Some v → new ≠ head → S new = false →
  new ∉ c :: q → new ≠ p → chain h head c q → ∃ q', chain h' head c q' ∧ stable q' = stable q ∧ ∀ x, x ∈ q' → x = new ∨ x ∈ q.
Proof.
  intros Hn Hp Hv Hh HS. revert c. induction q as [|x q IH]; intros c Hc Hnp; cbn [chain].
  - intros E. destruct (decide (c = p)) as [->|Hcp].
    + exists [new]. cbn [chain]. rewrite !Hn, decide_True, decide_False by done. rewrite filter_cons, decide_False by (by rewrite HS).
      split_and!; [done..|congruence|done|set_solver].
    + exists []. cbn [chain]. rewrite Hn, decide_False by done. split_and!; [done..|by intros y ?%not_elem_of_nil].
  - intros (E & Hxh & Hq). apply not_elem_of_cons in Hc as [Hnc Hc].
    destruct (IH x Hc Hnp Hq) as (q' & H' & Hs & Hin). destruct (decide (c = p)) as [->|Hcp].
    + exists (new :: x :: q'). cbn [chain]. rewrite !Hn, decide_True, decide_False by done. rewrite filter_cons, decide_False by (by rewrite HS).
      rewrite !filter_cons, Hs. split_and!; [done..|congruence|done|done|done|set_solver].
    + exists (x :: q'). cbn [chain]. rewrite Hn, decide_False, !filter_cons, Hs by done. split_and!; [done..|set_solver].
Qed.
(** ... and the one that takes one off: who stands on it still finds the rest. *)
Lemma chain_unlink h h' head p e n c q :
  (∀ x, nxt h' x = if decide (x = p) then Some n else nxt h x) → nxt h p = Some e → nxt h e = Some n → e ≠ head → e ≠ p → S e = false →
  chain h head c q → ∃ q', chain h' head c q' ∧ stable q' = stable q ∧ ∀ x, x ∈ q' → x ∈ q.
Proof.
  intros Hn Hp He Heh Hep HS. revert c. induction q as [|x q IH]; intros c; cbn [chain].
  - intros E. exists []. cbn [chain]. rewrite Hn, decide_False by (intros ->; congruence). split_and!; done.
  - intros (E & Hxh & Hq). destruct (IH x Hq) as (q' & H' & Hs & Hin). destruct (decide (c = p)) as [->|Hcp].
    + assert (x = e) as -> by congruence. exists q'. rewrite filter_cons, decide_False by (by rewrite HS). split_and!; [|done|set_solver].
      assert (Hnn : nxt h' e = nxt h' p) by (rewrite (Hn e), decide_False, (Hn p), decide_True by done; done).
      destruct q'; cbn [chain] in *; by rewrite <-Hnn.
    + exists (x :: q'). cbn [chain]. rewrite Hn, decide_False, !filter_cons, Hs by done. split_and!; [done..|set_solver].
Qed.
End Stable.

(** ** The stores of an operation *)

Definition legal (head : Z) (o : wop) (h : heap) (l : list Z) : Prop :=
  match o with Put n | PutTail n => n ∉ head :: l ∧ is_Some (h !! n) | Take e => e ∈ l end.

Lemma __list_add_rcu_same new prv nxt h : new ≠ nxt → is_Some (h !! new) → is_Some (h !! nxt) →
  __list_add_rcu new prv nxt h = __list_add new prv nxt h.
Proof.
  intros Hne [a Ha] [b Hb]. unfold __list_add_rcu, __list_add, set_next, set_prev, load. rewrite Ha, Hb. cbn [of_option]. rewrite !bind_ret.
  rewrite lookup_insert_eq, (lookup_insert_ne h nxt new) by done. rewrite Ha. cbn [of_option next prev]. rewrite !bind_ret, insert_insert_eq, lookup_insert_ne by done.
  rewrite Hb, lookup_insert_eq. cbn [of_option next prev]. rewrite !bind_ret, insert_insert_eq. by rewrite insert_insert_ne.
Qed.

(** All the stores of an operation do to the ring what it is for. *)
Lemma wop_ring head o h l : is_list h head l → legal head o h l → ∃ ss h',
  stores head o h = Ret ss ∧ ss ≠ [] ∧ run_stores ss h = Ret h' ∧ is_list h' head (wspec o l) ∧ live h h'.
Proof.
  intros Hl Ho. destruct (is_list_head_next _ _ _ Hl) as (nd & Hnd & Hn & Hp). pose proof (run_wop_stores head o h) as E.
  destruct o as [n|n|e]; cbn [legal run_wop stores wspec] in *.
  - destruct Ho as [Hn1 Hs]. destruct (list_add_ring _ _ _ _ Hl Hn1 Hs) as (h' & E' & Hl' & Hlv & _).
    unfold load in *. rewrite Hnd in *. cbn [of_option] in *. rewrite !bind_ret in *. do 2 eexists. split; [done|]. split; [done|]. rewrite <-E. split; [|by split].
    rewrite <-E'. unfold list_add_rcu, list_add, load. rewrite Hnd. cbn [of_option]. rewrite !bind_ret.
    destruct (is_list_gap h head [] l Hl) as (m & rest & Hm & _ & Hnx & Hpv & _). unfold lastd in Hnx. cbn in Hnx. apply lookup_nxt in Hnd as [Hnd _].
    assert (next nd = m) as -> by congruence. apply __list_add_rcu_same; [|done|by eapply prv_Some].
    intros ->. apply Hn1. assert (m ∈ l ++ [head]) by (rewrite Hm; left). set_solver.
  - destruct Ho as [Hn1 Hs]. destruct (list_add_tail_ring _ _ _ _ Hl Hn1 Hs) as (h' & E' & Hl' & Hlv & _).
    unfold load in *. rewrite Hnd in *. cbn [of_option] in *. rewrite !bind_ret in *. do 2 eexists. split; [done|]. split; [done|]. rewrite <-E. split; [|by split].
    rewrite <-E'. unfold list_add_tail_rcu, list_add_tail, load. rewrite Hnd. cbn [of_option]. rewrite !bind_ret.
    apply __list_add_rcu_same; [|done|by eexists]. intros ->. apply Hn1. by left.
  - destruct (list_unlink_ring _ _ _ _ Hl Ho) as (x & h1 & Hx & Hd & Hl1 & Hlv & _ & He1 & Hni).
    unfold list_del_rcu, load in *. rewrite Hx in *. cbn [of_option] in *. rewrite !bind_ret in *. do 2 eexists. split; [done|]. split; [done|]. rewrite <-E, Hd, bind_ret.
    unfold set_prev, load. rewrite He1. cbn [of_option]. rewrite bind_ret. split; [done|]. split.
    + eapply is_list_frame; [|exact Hl1]. intros y Hy. rewrite lookup_insert_ne; [done|]. by intros ->.
    + eapply live_trans; [exact Hlv|apply live_insert].
Qed.

Lemma run_store_next p v h h' : run_store (SNext p v) h = Ret h' → ∀ x, nxt h' x = if decide (x = p) then Some v else nxt h x.
Proof.
  cbn [run_store]. unfold set_next, load. destruct (h !! p) eqn:Ep; [|done]. cbn [of_option]. rewrite bind_ret. intros [= <-] x. unfold nxt.
  rewrite lookup_insert. repeat case_decide; congruence || done.
Qed.
Lemma run_store_prev p v h h' : run_store (SPrev p v) h = Ret h' → ∀ x, nxt h' x = nxt h x.
Proof.
  cbn [run_store]. unfold set_prev, load. destruct (h !! p) as [n|] eqn:Ep; [|done]. cbn [of_option]. rewrite bind_ret. intros [= <-] x. unfold nxt.
  rewrite lookup_insert. case_decide; [subst; by rewrite Ep|done].
Qed.
Lemma run_stores_app ss ss' h h' : run_stores (ss ++ ss') h = Ret h' ↔ ∃ h1, run_stores ss h = Ret h1 ∧ run_stores ss' h1 = Ret h'.
Proof.
  revert h. induction ss as [|s ss IH]; intros h; cbn [app run_stores].
  - split; [intros E; by exists h|by intros (? & [= <-] & ?)].
  - destruct (run_store s h) as [h1| |]; [rewrite !bind_ret; apply IH|split; [done|by intros (? & ? & _)]..].
Qed.

(** Where the stores of an addition put the new entry, and those of a removal point. *)
Lemma add_place head o h l n : is_list h head l → legal head o h l → o = Put n ∨ o = PutTail n →
  ∃ p v, stores head o h = Ret (add_stores n p v) ∧ nxt h p = Some v ∧ p ≠ n ∧ n ≠ head ∧ p ∈ head :: l.
Proof.
  intros Hl Ho Hn. destruct (is_list_head_next _ _ _ Hl) as (nd & Hnd & E1 & E2).
  destruct Hn as [-> | ->]; cbn [legal stores] in *; destruct Ho as [Hnl _]; unfold load; rewrite Hnd; cbn [of_option]; rewrite bind_ret.
  - exists head, (next nd). split; [done|]. apply lookup_nxt in Hnd as [Hnd _]. split_and!; [done|..|by left]; intros E; subst; apply Hnl; by left.
  - exists (prev nd), head. split; [done|]. rewrite E2. pose proof (lastd_elem head l) as Hin.
    pose proof Hl as Hl'. rewrite <-(app_nil_r l) in Hl'. destruct (is_list_gap _ _ _ _ Hl') as (m & rest & [= <- _] & _ & Hm & _ & _).
    split_and!; [done|intros E; by rewrite E in Hin|intros ->; apply Hnl; by left|done].
Qed.
Lemma take_place head h l e : is_list h head l → e ∈ l → ∃ nd,
  stores head (Take e) h = Ret [SPrev (next nd) (prev nd); SNext (prev nd) (next nd); SPrev e LIST_POISON2] ∧
  nxt h (prev nd) = Some e ∧ nxt h e = Some (next nd) ∧ e ≠ head ∧ e ≠ prev nd.
Proof.
  intros Hl He. pose proof Hl as [Hnd _]. apply list_elem_of_split in He as (l1 & l2 & ->).
  destruct (is_list_gap _ _ _ _ Hl) as (e' & rest & [= <- Hr] & _ & Hpx & Hpe & _).
  destruct (prv_Some _ _ _ Hpe) as [nd E]. destruct (lookup_nxt _ _ _ E) as [En Ep]. exists nd. cbn [stores]. unfold load. rewrite E. cbn [of_option]. rewrite bind_ret.
  assert (prev nd = lastd head l1) as Hp by congruence. rewrite Hp. split_and!; [done..| |].
  - intros ->. apply NoDup_cons in Hnd as [Hnd _]. apply Hnd. set_solver.
  - intros Heq. pose proof (lastd_elem head l1) as Hin. rewrite <-Heq in Hin.
    change (head :: l1 ++ e :: l2) with ((head :: l1) ++ e :: l2) in Hnd. apply NoDup_app in Hnd as (_ & Hd & _). apply (Hd e); [done|by left].
Qed.

Lemma write_chain S head o h0 l pre x rest h h' c q : is_list h0 head l → legal head o h0 l →
  stores head o h0 = Ret (pre ++ x :: rest) → run_stores pre h0 = Ret h → run_store x h = Ret h' →
  (∀ n, n ∈ news o ∨ o = Take n → S n = false) → (∀ n, n ∈ news o → n ∉ c :: q) → chain h head c q →
  ∃ q', chain h' head c q' ∧ filter (λ x, S x = true) q' = filter (λ x, S x = true) q ∧ (∀ y, y ∈ q' → y ∈ news o ∨ y ∈ q) ∧
    (rest ≠ [] → ∀ y, y ∈ q' → y ∈ q).
Proof.
  intros Hl Ho Es Epre Ex HS Hnew Hc.
  assert (Hsame : (∀ y, y ∈ c :: q → nxt h' y = nxt h y) → ∃ q', chain h' head c q' ∧ filter (λ x, S x = true) q' = filter (λ x, S x = true) q ∧
    (∀ y, y ∈ q' → y ∈ news o ∨ y ∈ q) ∧ (rest ≠ [] → ∀ y, y ∈ q' → y ∈ q)).
  { intros Hs. exists q. split_and!; [by eapply chain_ext|done|auto|auto]. }
  assert (Hcase : (∃ n, o = Put n ∨ o = PutTail n) ∨ ∃ e, o = Take e) by (destruct o; eauto). destruct Hcase as [[n Hn]|[e ->]].
  - assert (En : news o = [n]) by (by destruct Hn as [-> | ->]). rewrite En in *.
    destruct (add_place head o h0 l n Hl Ho Hn) as (p & v & E & Hp & Hpn & Hnh & _). rewrite E in Es. unfold add_stores in Es.
    assert (Hni : n ∉ c :: q) by (apply Hnew; by left).
    destruct pre as [|s1 [|s2 [|s3 [|s4 pre]]]]; cbn [app] in Es; try (by destruct pre); injection Es as; subst.
    + apply Hsame. intros y Hy. rewrite (run_store_next _ _ _ _ Ex), decide_False; [done|]. by intros ->.
    + apply Hsame. intros y _. by apply (run_store_prev _ _ _ _ Ex).
    + apply Hsame. intros y _. by apply (run_store_prev _ _ _ _ Ex).
    + cbn [run_stores] in Epre. destruct (run_store (SNext n v) h0) as [h1| |] eqn:E1; [|done..]. rewrite bind_ret in Epre.
      destruct (run_store (SPrev n p) h1) as [h2| |] eqn:E2; [|done..]. rewrite bind_ret in Epre.
      destruct (run_store (SPrev v n) h2) as [h3| |] eqn:E3; [|done..]. rewrite bind_ret in Epre. injection Epre as ->.
      assert (Hh : ∀ y, nxt h y = if decide (y = n) then Some v else nxt h0 y).
      { intros y. by rewrite (run_store_prev _ _ _ _ E3), (run_store_prev _ _ _ _ E2), (run_store_next _ _ _ _ E1). }
      destruct (chain_publish S h h' head p v n c q) as (q' & Hq' & Hs & Hin); [by apply run_store_next|by rewrite Hh, decide_False|by rewrite Hh, decide_True|
        done|apply HS; left; by left|done|done|done|].
      exists q'. split_and!; [done|done| |done]. intros y Hy. destruct (Hin y Hy) as [->|]; [left; by left|by right].
  - cbn [legal news] in *. destruct (take_place head h0 l e Hl Ho) as (nd & E & Hp & He & Heh & Hep).
    rewrite E in Es. destruct pre as [|s1 [|s2 [|s3 pre]]]; cbn [app] in Es; try (by destruct pre); injection Es as; subst.
    + apply Hsame. intros y _. by apply (run_store_prev _ _ _ _ Ex).
    + cbn [run_stores] in Epre. destruct (run_store (SPrev (next nd) (prev nd)) h0) as [h1| |] eqn:E1; [|done..]. rewrite bind_ret in Epre. injection Epre as ->.
      destruct (chain_unlink S h h' head (prev nd) e (next nd) c q) as (q' & Hq' & Hs & Hin);
        [by apply run_store_next|by rewrite (run_store_prev _ _ _ _ E1)|by rewrite (run_store_prev _ _ _ _ E1)|done|done|apply HS; by right|done|].
      exists q'. split_and!; auto.
    + apply Hsame. intros y _. by apply (run_store_prev _ _ _ _ Ex).
Qed.

(** ** What holds between any two steps *)

Lemma ring_chain h head l : is_list h head l → chain h head head l.
Proof.
  intros [[Hh _]%NoDup_cons Hp]. assert (∀ c, path h c (l ++ [head]) → chain h head c l) as Hc; [|by apply Hc]. clear Hp.
  induction l as [|x l IH]; intros c; cbn [app path chain]; [tauto|]. intros (E & _ & Hp). apply not_elem_of_cons in Hh as [? ?].
  split_and!; [done|congruence|by apply IH].
Qed.

Section Reader.
Context (head : Z) (l0 : list Z) (S : Z → bool).
Abbreviation stable := (filter (λ x, S x = true)).

(** The writer is between operations, or has done the stores [pre] of one. *)
Definition midway (s : state) (q : list Z) : Prop := ∃ o h0 l pre,
  is_list h0 head l ∧ legal head o h0 l ∧ stores head o h0 = Ret (pre ++ todo s) ∧ run_stores pre h0 = Ret (mem s) ∧ todo s ≠ [] ∧
  ring s = wspec o l ∧ (∀ n, n ∈ news o → n ∉ cur s :: q) ∧ (∀ n, n ∈ news o ∨ o = Take n → S n = false) ∧ (∀ n, n ∈ news o → n ∈ used s).
Record inv (s : state) (q : list Z) : Prop := Inv {
  i_chain : chain (mem s) head (cur s) q;
  i_stable : stable (seen s) ++ stable q = stable l0;
  i_fin : fin s = true → stable q = [];
  i_used : (∀ y, y ∈ cur s :: q → y ∈ head :: used s) ∧ (∀ y, y ∈ seen s → y ∈ used s);
  i_known : (∀ y, S y = true → y ∈ used s) ∧ (∀ y, y ∈ ring s → y ∈ used s);
  i_writer : (todo s = [] ∧ is_list (mem s) head (ring s)) ∨ midway s q;
}.

Lemma start_inv h : is_list h head l0 → (∀ y, S y = true → y ∈ l0) → inv (start head h l0) l0.
Proof.
  intros Hl HS. split; cbn [start mem todo ring used cur fin seen]; try done; [by apply ring_chain| |by left].
  split; [done|]. by intros y ?%not_elem_of_nil.
Qed.

Lemma inv_read s q : inv s q → fin s = false → ∃ s' q', exec head Read s = Ret s' ∧ inv s' q' ∧ (fin s' = false → (length q' < length q)%nat).
Proof.
  intros [Hc Hs Hf [Hu1 Hu2] Hk Hw] Hfin. destruct (chain_some _ _ _ _ Hc) as [x Hx]. destruct (nxt_Some _ _ _ Hx) as [n Hn].
  apply lookup_nxt in Hn as Hn'. assert (x = next n) as -> by (destruct Hn'; congruence). clear Hn'.
  cbn [exec]. unfold load. rewrite Hn. cbn [of_option]. rewrite bind_ret. destruct q as [|y q]; cbn [chain] in Hc.
  - assert (next n = head) as Hnh by congruence. rewrite bool_decide_eq_true_2 by done. eexists _, []. split; [reflexivity|]. split; [|done].
    split; cbn [mem todo ring used cur fin seen]; try done.
  - destruct Hc as (E & Hyh & Hc). assert (next n = y) as -> by congruence. rewrite bool_decide_eq_false_2 by done. eexists _, q. split; [reflexivity|].
    split; [|by intros _; cbn; apply Nat.lt_succ_diag_r]. split; cbn [mem todo ring used cur fin seen]; [done| |done| |done|].
    + rewrite filter_app, <-(assoc_L (++)). change ([y] ++ q) with (y :: q) in *. rewrite <-Hs. f_equal. rewrite !filter_cons. by case_decide.
    + assert (Hy : y ∈ used s). { assert (y ∈ head :: used s) as Hy by (apply Hu1; right; by left). by apply elem_of_cons in Hy as [->|]. }
      split; [intros z Hz; apply Hu1; by right|]. intros z [Hz| ->%list_elem_of_singleton]%elem_of_app; auto.
    + destruct Hw as [Hw|(o & h0 & l & pre & ? & ? & ? & ? & ? & ? & Hq & ? & ?)]; [by left|right]. exists o, h0, l, pre. split_and!; try done.
      intros m Hm. specialize (Hq m Hm). by apply not_elem_of_cons in Hq as [_ Hq].
Qed.

Lemma inv_begin s q o : inv s q → enabled head (Begin o) s → (∀ e, o = Take e → S e = false) → ∃ s', exec head (Begin o) s = Ret s' ∧ inv s' q.
Proof.
  intros [Hc Hs Hf [Hu1 Hu2] [Hk1 Hk2] Hw] He HS. assert (Htodo : todo s = []) by (destruct o; apply He).
  destruct Hw as [[_ Hl]|(o' & h0 & l & pre & _ & _ & _ & _ & Hne & _)]; [|done].
  assert (Ho : legal head o (mem s) (ring s)).
  { destruct o; cbn [enabled legal] in *; [destruct He as (_ & Hn & ?); split; [|done]..|by destruct He]; set_solver. }
  destruct (wop_ring head o _ _ Hl Ho) as (ss & h' & E & Hss & _). cbn [exec]. rewrite E, bind_ret. eexists. split; [reflexivity|].
  split; cbn [mem todo ring used cur fin seen]; try done.
  - split; intros y Hy; [apply Hu1 in Hy|apply Hu2 in Hy]; set_solver.
  - split; intros y Hy; [apply Hk1 in Hy; set_solver|]. destruct o; cbn [wspec news] in *; [set_solver|set_solver|].
    unfold remove_entry in Hy. apply list_elem_of_filter in Hy as [_ Hy]. set_solver.
  - right. exists o, (mem s), (ring s), []. split_and!; try done.
    + intros n Hn Hq. apply Hu1 in Hq. destruct o; cbn [enabled news] in *; [apply list_elem_of_singleton in Hn as ->; tauto..|by apply not_elem_of_nil in Hn].
    + intros n [Hn| ->]; [|by apply HS]. destruct (S n) eqn:E1; [|done]. apply Hk1 in E1.
      destruct o; cbn [enabled news] in *; [apply list_elem_of_singleton in Hn as ->; set_solver..|by apply not_elem_of_nil in Hn].
    + set_solver.
Qed.

Lemma inv_write s q : inv s q → todo s ≠ [] → ∃ s' q', exec head Write s = Ret s' ∧ inv s' q'.
Proof.
  intros [Hc Hs Hf [Hu1 Hu2] [Hk1 Hk2] Hw] Hne. destruct Hw as [[? _]|(o & h0 & l & pre & Hl & Ho & E & Epre & _ & Hr & Hq & HS & Hnu)]; [done|].
  cbn [exec]. destruct (todo s) as [|x ss] eqn:Et; [done|]. destruct (wop_ring head o _ _ Hl Ho) as (ss' & h' & E' & _ & Er & Hl' & _).
  rewrite E in E'. injection E' as <-. apply run_stores_app in Er as (h1 & E1 & Er). rewrite Epre in E1. injection E1 as <-.
  cbn [run_stores] in Er. destruct (run_store x (mem s)) as [h2| |] eqn:Ex; [|done..]. rewrite bind_ret in Er. rewrite bind_ret.
  destruct (write_chain S head o h0 l pre x ss (mem s) h2 (cur s) q Hl Ho E Epre Ex HS Hq Hc) as (q' & Hc' & Hs' & Hin & Hrest).
  eexists _, q'. split; [reflexivity|]. split; cbn [mem todo ring used cur fin seen]; [exact Hc'|by rewrite Hs'|by rewrite Hs'| |done|].
  - split; [|done]. intros y [->|Hy]%elem_of_cons; [apply Hu1; by left|]. destruct (Hin y Hy) as [Hn|Hn]; [right; auto|apply Hu1; by right].
  - destruct ss as [|x2 ss]; [left; split; [done|]; cbn in Er; injection Er as ->; by rewrite Hr|]. right. exists o, h0, l, (pre ++ [x]).
    split_and!; try done.
    + by rewrite <-(assoc_L (++)).
    + apply run_stores_app. exists (mem s). split; [done|]. cbn [run_stores]. by rewrite Ex.
    + intros n Hn. specialize (Hq n Hn). apply not_elem_of_cons in Hq as [? Hq]. apply not_elem_of_cons. split; [done|]. intros Hy. by apply Hq, Hrest.
Qed.
Lemma inv_fin s q : inv s q → fin s = true → stable (seen s) = stable l0.
Proof. intros I Hf. rewrite <-(i_stable _ _ I), (i_fin _ _ I Hf). by rewrite app_nil_r. Qed.
End Reader.

Section Traces.
Context (head : Z).

Lemma exec_inv l0 S e s q : inv head l0 S s q → enabled head e s → (∀ x, e = Begin (Take x) → S x = false) →
  ∃ s' q', exec head e s = Ret s' ∧ inv head l0 S s' q'.
Proof.
  intros I He HS. destruct e as [o| |]; cbn [enabled] in He.
  - destruct (inv_begin head l0 S s q o I He) as (s' & E & I'); [intros x ->; by apply HS|]. by exists s', q.
  - by apply (inv_write head l0 S s q).
  - destruct (inv_read head l0 S s q I He) as (s' & q' & E & I' & _). by exists s', q'.
Qed.
Lemma trace_inv l0 S h s es s' q : s = start head h l0 → inv head l0 S s q → trace head s es s' → (∀ x, Begin (Take x) ∈ es → S x = false) → ∃ q', inv head l0 S s' q'.
Proof.
  intros -> I. induction 1 as [|es e s1 s2 _ IH He E]; intros HS; [by exists q|].
  destruct IH as [q1 I1]; [intros x Hx; apply HS, elem_of_app; by left|].
  destruct (exec_inv l0 S e s1 q1 I1 He) as (s' & q' & E' & I'); [intros x ->; apply HS, elem_of_app; right; by left|].
  rewrite E in E'. injection E' as ->. eauto.
Qed.
(** Left alone, the reader arrives. *)
Lemma reader_arrives l0 S n s q : inv head l0 S s q → (length q < n)%nat → ∃ es s', trace head s es s' ∧ fin s' = true ∧ ∀ e, e ∈ es → e = Read.
Proof.
  assert (Htr : ∀ s1 es s2 es' s3, trace head s1 es s2 → trace head s2 es' s3 → trace head s1 (es ++ es') s3).
  { intros s1 es s2 es' s3 H1. induction 1; [by rewrite app_nil_r|]. rewrite (assoc_L (++)). by eapply trace_snoc. }
  revert s q. induction n as [|n IH]; intros s q I Hn; [lia|]. destruct (fin s) eqn:Ef.
  - exists [], s. split_and!; [constructor|done|by intros e ?%not_elem_of_nil].
  - destruct (inv_read head l0 S s q I Ef) as (s1 & q1 & E & I1 & Hlt). destruct (fin s1) eqn:Ef1.
    + exists [Read], s1. split_and!; [by apply (trace_snoc head s [] Read s s1); [constructor|..]|done|by intros e ->%list_elem_of_singleton].
    + destruct (IH s1 q1 I1 ltac:(specialize (Hlt eq_refl); lia)) as (es & s' & Ht & Hf & Hes). exists ([Read] ++ es), s'. split_and!; [|done|].
      * eapply Htr; [|exact Ht]. by apply (trace_snoc head s [] Read s s1); [constructor|..].
      * intros e [->%list_elem_of_singleton|He]%elem_of_app; auto.
Qed.
End Traces.

Lemma filter_elem {A} (P Q : A → Prop) `{∀ x, Decision (P x), ∀ x, Decision (Q x)} (l : list A) : (∀ x, x ∈ l → P x ↔ Q x) → filter P l = filter Q l.
Proof.
  induction l as [|x l IH]; intros Hx; [done|]. rewrite !filter_cons, IH by (intros y Hy; apply Hx; by right).
  specialize (Hx x ltac:(by left)). repeat case_decide; tauto.
Qed.

(** C18: a reader of a list that is changed with the RCU operations misses nothing.  While a
    writer adds entries at the front and at the end and takes entries off, one after the
    other, none of them used again, and a reader goes from entry to entry between any two
    stores of the writer: no access goes wrong; the stores of an operation are those of
    list_add_rcu, list_add_tail_rcu or list_del_rcu; when the writer is between operations the
    list is what its operations made of it; the reader stands on entries that were on the
    list; left alone it comes to the end; and when it has come to the end it has seen the
    entries that were there at the beginning and were not taken off, each once and in their
    order. *)
Theorem rcu_reader_sees_what_stays head l0 h es s : is_list h head l0 → trace head (start head h l0) es s →
  (∀ e, enabled head e s → ∃ s', exec head e s = Ret s') ∧
  (∀ o s', exec head (Begin o) s = Ret s' → run_stores (todo s') (mem s') = run_wop head o (mem s)) ∧
  (todo s = [] → is_list (mem s) head (ring s)) ∧
  (∀ x, x ∈ seen s → x ∈ used s) ∧
  (∃ es' s', trace head s es' s' ∧ fin s' = true ∧ ∀ e, e ∈ es' → e = Read) ∧
  (fin s = true → filter (λ x, x ∈ l0 ∧ Begin (Take x) ∉ es) (seen s) = filter (λ x, Begin (Take x) ∉ es) l0).
Proof.
  intros Hl Ht. assert (Hall : ∀ S, (∀ x, S x = true → x ∈ l0) → (∀ x, Begin (Take x) ∈ es → S x = false) → ∃ q, inv head l0 S s q).
  { intros S HS HS'. eapply trace_inv; [done|by apply start_inv|done|done]. }
  destruct (Hall (λ _, false)) as [q I]; [done|done|]. split_and!.
  - intros e He. destruct (exec_inv head l0 _ e s q I He) as (s' & q' & E & _); [done|by exists s'].
  - intros o s'. cbn [exec]. rewrite run_wop_stores. destruct (stores head o (mem s)) as [ss| |]; [|done..]. rewrite !bind_ret. by intros [= <-].
  - intros Htodo. destruct (i_writer _ _ _ _ _ I) as [[_ ?]|(? & ? & ? & ? & _ & _ & _ & _ & Hne & _)]; [done|by rewrite Htodo in Hne].
  - apply (i_used _ _ _ _ _ I).
  - by apply (reader_arrives head l0 _ (S (length q)) s q I), Nat.lt_succ_diag_r.
  - intros Hf. set (P x := x ∈ l0 ∧ Begin (Take x) ∉ es). destruct (Hall (λ x, bool_decide (P x))) as [q' I'].
    + intros x Hx%bool_decide_eq_true. apply Hx.
    + intros x Hx. apply bool_decide_eq_false. intros [_ ?]. done.
    + pose proof (inv_fin _ _ _ _ _ I' Hf) as E.
      etrans; [|etrans; [exact E|]]; apply filter_elem; intros x Hx; [by rewrite bool_decide_eq_true|]. rewrite bool_decide_eq_true. unfold P. tauto.
Qed.

(** The ring 1, 2, 3 with head 100, and 4. *)
Definition ring123 : heap := list_to_map [(100, ListHead 1 3); (1, ListHead 2 100); (2, ListHead 3 1); (3, ListHead 100 2); (4, ListHead 0 0)].
Fixpoint run (head : Z) (es : list event) (s : state) : outcome state :=
  match es with [] => mret s | e :: es => s ← exec head e s; run head es s end.
Definition all_enabled (head : Z) := fix go (es : list event) (s : state) : Prop :=
  match es with [] => True | e :: es => enabled head e s ∧ match exec head e s with Ret s' => go es s' | _ => False end end.
Lemma run_trace head s0 es0 s es s' : trace head s0 es0 s → all_enabled head es s → run head es s = Ret s' → trace head s0 (es0 ++ es) s'.
Proof.
  revert es0 s. induction es as [|e es IH]; intros es0 s Ht; cbn [run all_enabled].
  - intros _ [= <-]. by rewrite app_nil_r.
  - intros [He Hes]. destruct (exec head e s) as [s1| |] eqn:E; [|done..]. rewrite bind_ret. intros Hr. change (e :: es) with ([e] ++ es). rewrite (assoc_L (++)).
    eapply IH; [|done|done]. by eapply trace_snoc.
Qed.
(** The reader stands on 2 when 2 is taken off and 4 is added at the end: it goes on to 3, and
    sees 4 though it was added behind its back. *)
Definition meanwhile : list event := [Read; Read; Begin (Take 2); Write; Write; Write; Begin (PutTail 4); Write; Write; Write; Write; Read; Read; Read].
Lemma rcu_reader_sees_what_stays_witness :
  (seen <$> run 100 meanwhile (start 100 ring123 [1; 2; 3])) = Ret [1; 2; 3; 4] ∧
  ∃ s, run 100 meanwhile (start 100 ring123 [1; 2; 3]) = Ret s ∧
    filter (λ x, x ∈ [1; 2; 3] ∧ Begin (Take x) ∉ meanwhile) (seen s) = filter (λ x, Begin (Take x) ∉ meanwhile) [1; 2; 3].
Proof.
  split; [by vm_compute|]. eexists. split; [vm_compute; reflexivity|].
  eapply (rcu_reader_sees_what_stays 100 [1; 2; 3] ring123); [| |reflexivity].
  - split; [repeat constructor; set_solver|by vm_compute].
  - apply (run_trace 100 (start 100 ring123 [1; 2; 3]) [] (start 100 ring123 [1; 2; 3]) meanwhile); [constructor| |by vm_compute].
    vm_compute. repeat split; try done; try (by eexists); set_solver.
Defined.

(** list_del instead: the reader on 2 follows the poison. *)
Lemma list_del_poisons : (h ← list_del 2 ring123; n ← load h 2; load h (next n)) = Fault "list_head: bad pointer".
Proof. by vm_compute. Qed.

(** ** Hash lists *)

Definition hlist_add_head_rcu (n hd : Z) (h : hheap) : outcome hheap :=
  first ← get_first hd h;
  h ← set_hnext n first h;
  h ← set_pprev n (PFirst hd) h;
  h ← (if first =? NULL then mret h else set_pprev first (PNext n) h);
  set_first hd n h.

(** The next pointer stays here too. *)
Definition hlist_del_rcu (n : Z) (h : hheap) : outcome hheap := h ← __hlist_del n h; set_pprev n PPoison h.
Definition hlist_del_rcu_init : Z → hheap → outcome hheap := hlist_del_init.

(** The nodes a loop visits from [pos] on. *)
Fixpoint hlist_for_each_from (fuel : nat) (pos : Z) (h : hheap) : outcome (option (list Z)) :=
  if pos =? NULL then mret (Some []) else
  match fuel with
  | O => mret None
  | S fuel => x ← hload h pos; r ← hlist_for_each_from fuel (hnext x) h; mret (option_map (cons pos) r)
  end.
Definition hlist_for_each (fuel : nat) (head : Z) (h : hheap) : outcome (option (list Z)) :=
  first ← get_first head h; hlist_for_each_from fuel first h.
(** The next node is read before the body runs. *)
Fixpoint hlist_for_each_safe_from (fuel : nat) (body : Z → hheap → outcome hheap) (pos : Z) (h : hheap) : outcome (option hheap) :=
  if pos =? NULL then mret (Some h) else
  match fuel with
  | O => mret None
  | S fuel => x ← hload h pos; h ← body pos h; hlist_for_each_safe_from fuel body (hnext x) h
  end.
Definition hlist_for_each_safe (fuel : nat) (body : Z → hheap → outcome hheap) (head : Z) (h : hheap) : outcome (option hheap) :=
  first ← get_first head h; hlist_for_each_safe_from fuel body first h.

(** The structures around the nodes. *)
Definition entries (member : Z) (r : option (list Z)) : option (list Z) := option_map (map (λ pos, pos - member)) r.
Definition hlist_for_each_entry (member : Z) (fuel : nat) (head : Z) (h : hheap) : outcome (option (list Z)) :=
  r ← hlist_for_each fuel head h; mret (entries member r).
Definition hlist_for_each_entry_from (member : Z) (fuel : nat) (pos : Z) (h : hheap) : outcome (option (list Z)) :=
  r ← hlist_for_each_from fuel pos h; mret (entries member r).
Definition hlist_for_each_entry_continue (member : Z) (fuel : nat) (pos : Z) (h : hheap) : outcome (option (list Z)) :=
  x ← hload h pos; hlist_for_each_entry_from member fuel (hnext x) h.
Definition hlist_for_each_entry_safe (member : Z) (fuel : nat) (body : Z → hheap → outcome hheap) (head : Z) (h : hheap) : outcome (option hheap) :=
  hlist_for_each_safe fuel (λ pos, body (pos - member)) head h.

(** The loops visit the nodes of the chain. *)
Lemma hlist_from_chain h pp l fuel : hpath h pp l → deref h (lastpp pp l) = Some NULL → (length l <= fuel)%nat →
  ∀ first, deref h pp = Some first → hlist_for_each_from fuel first h = Ret (Some l).
Proof.
  revert pp fuel. induction l as [|x l IH]; intros pp fuel Hp He Hf first Hd; cbn [hpath] in Hp.
  - assert (first = NULL) as -> by (unfold lastpp in He; cbn in He; congruence). by destruct fuel.
  - destruct Hp as (Hx & Hn & Hb & Hp). assert (first = x) as -> by congruence. destruct fuel as [|fuel]; cbn [length] in Hf; [lia|].
    cbn [hlist_for_each_from]. rewrite (proj2 (Z.eqb_neq x NULL)) by done. rewrite lastpp_cons in He.
    destruct (proj1 (back_node h x) ltac:(by eexists)) as [nd E]. unfold hload. rewrite E. cbn [of_option]. rewrite bind_ret.
    rewrite (IH (PNext x) fuel Hp He ltac:(lia)); [done|]. cbn [deref]. by rewrite E.
Qed.
Lemma hlist_for_each_chain h hd l fuel : is_hlist h hd l → (length l <= fuel)%nat → hlist_for_each fuel hd h = Ret (Some l).
Proof.
  intros (_ & Hp & He) Hf. unfold hlist_for_each, get_first. assert (∃ first, deref h (PFirst hd) = Some first) as [first Hd].
  { destruct l; [by eexists|]. destruct Hp as [? _]. by eexists. }
  pose proof Hd as Hd'. cbn [deref] in Hd'. rewrite Hd'. cbn [of_option]. rewrite bind_ret. by eapply hlist_from_chain.
Qed.
(** The entries are published last, and the result is that of hlist_add_head. *)
Lemma hlist_add_head_rcu_chain h hd l n : is_hlist h hd l → n ∉ l → n ≠ NULL → is_Some (back h n) →
  ∃ h', hlist_add_head_rcu n hd h = Ret h' ∧ is_hlist h' hd (n :: l).
Proof.
  intros Hl Hn Hn0 Hb. destruct (hlist_add_head_chain h hd l n Hl Hn Hn0 Hb) as (h' & E & Hl'). exists h'. split; [|done]. rewrite <-E.
  apply back_node in Hb as [nd Hnd]. destruct Hl as (_ & Hp & He). unfold hlist_add_head_rcu, hlist_add_head.
  destruct (get_first hd h) as [first| |] eqn:Ef; [|done..]. rewrite !bind_ret. unfold set_hnext, set_pprev, hload, set_node. rewrite Hnd. cbn [of_option].
  rewrite !bind_ret. cbn [hnodes hheads]. rewrite lookup_insert_eq. cbn [of_option]. rewrite bind_ret, insert_insert_eq. cbn [hnext pprev].
  destruct (Z.eqb_spec first NULL) as [->|Hf]; unfold set_first, get_first in *; cbn [hheads hnodes] in *.
  - rewrite !bind_ret. cbn [hheads hnodes]. destruct (hheads h !! hd) eqn:Eh; [|done]. cbn [of_option]. rewrite !bind_ret. cbn [hnodes].
    rewrite lookup_insert_eq. cbn [of_option]. by rewrite bind_ret, insert_insert_eq.
  - destruct (hheads h !! hd) eqn:Eh; [|done]. cbn [of_option] in *. injection Ef as ->.
    assert (first ≠ n ∧ is_Some (hnodes h !! first)) as [Hne [fd Efd]].
    { destruct l as [|x l]; cbn [hpath] in Hp; [unfold lastpp in He; cbn in He; congruence|]. destruct Hp as (Hx & _ & Hb & _). cbn [deref] in Hx.
      assert (x = first) as -> by congruence. split; [intros ->; apply Hn; by left|]. apply back_node. by eexists. }
    rewrite !lookup_insert_ne by done. rewrite Efd. cbn [of_option]. rewrite !bind_ret. cbn [hheads hnodes].
    rewrite Eh. cbn [of_option]. rewrite !bind_ret. cbn [hnodes hheads]. rewrite !(lookup_insert_ne _ n first), Efd by done. cbn [of_option].
    rewrite !bind_ret. cbn [hheads hnodes]. rewrite Eh. cbn [of_option]. rewrite bind_ret, lookup_insert_ne, lookup_insert_eq by done. cbn [of_option].
    rewrite bind_ret. cbn [hnext]. do 2 f_equal. apply map_eq. intros y. rewrite !lookup_insert. repeat case_decide; congruence.
Qed.
