(* ===== verification/Expect.v ===== *)
(** * core/expect.c: expectations on the log output of a command

    The loose glob matcher with its skipping optimisation, the list of
    expectations, and the pre/post command hooks.  [glob] is the declarative
    meaning of a pattern, [expect_run] what the hooks do around one command. *)

From Stdlib Require Import Lia.
From S2P Require Import Prelude CStr.

(** ** struct expect, struct cmdstack *)

Record expect := Expect {
  invert : bool;
  matched : bool;
  command : text;
  pattern : text;
}.

(** [expects]: the list from the static [expect] along [next];
    [current_command]: the stack of commands being run, innermost first. *)
Record expect_state := ExpectState {
  expects : list expect;
  current_command : list text;
}.

Definition blanks : text := [chr 9; " "%char].
Definition is_blank (c : ascii) : bool := mem c blanks.

(** ** The matcher *)

Definition maybe_skip (next_char : ascii) (line : text) : nat :=
  if ascii_eqb next_char "*" then 1%nat
  else if ascii_eqb (hd0 line) NUL then 1%nat
  else if is_blank next_char then S (strcspn (drop 1 line) blanks)
  else S (strcspn (drop 1 line) (if ascii_eqb next_char NUL then [] else [next_char])).

(** [for (i = i0; i <= len; i += maybe_skip (pattern[1], line + i))]: every
    step advances, so [len + 1] rounds are enough. *)
Fixpoint star_loop (rec : text → text → bool) (fuel : nat) (pattern1 line : text) (i len : nat) : bool :=
  match fuel with
  | O => false
  | S fuel =>
      if (i <=? len)%nat then
        if rec pattern1 (drop i line) then true
        else star_loop rec fuel pattern1 line (i + maybe_skip (hd0 pattern1) (drop i line)) len
      else false
  end.

(** One activation of loose_match; [rec] stands for the recursive calls. *)
Definition loose_match_body (rec : text → text → bool) (pattern line : text) : bool :=
  if is_blank (hd0 pattern) then
    let pat_space := strspn pattern blanks in
    let line_space := strspn line blanks in
    existsb (λ i, existsb (λ j, rec (drop i pattern) (drop j line)) (seq 1 line_space))
      (seq 1 pat_space)
  else if ascii_eqb (hd0 pattern) "*" then
    let len := length line in
    star_loop rec (S len) (drop 1 pattern) line O len
  else if ascii_eqb (hd0 pattern) (hd0 line) then
    if ascii_eqb (hd0 pattern) NUL then true
    else rec (drop 1 pattern) (drop 1 line)
  else false.

(** Every recursive call shortens the pattern. *)
Fixpoint loose_match_fuel (fuel : nat) (pattern line : text) : bool :=
  match fuel with
  | O => false
  | S fuel => loose_match_body (loose_match_fuel fuel) pattern line
  end.
Definition loose_match (pattern line : text) : bool :=
  loose_match_fuel (S (length pattern)) pattern line.

(** [while (blank (trimmed[len-1])) { if (len == 1) break; len--; }] *)
Fixpoint trim_len (trimmed : text) (len : nat) : nat :=
  match len with
  | S (S len' as l1) => if is_blank (char_at trimmed l1) then trim_len trimmed l1 else len
  | _ => len
  end.

(** [char trimmed[len]]: the terminator is stored at index [len'], which must be
    inside the array. *)
Definition matches (pattern line : text) : outcome bool :=
  let line := drop (strspn line blanks) line in
  let len := length line in
  if (0 <? len)%nat && is_blank (char_at line (len - 1)) then
    let len' := trim_len line len in
    if (len' <? len)%nat then mret (loose_match pattern (take len' line))
    else Fault "matches: trimmed[len] out of bounds"
  else mret (loose_match pattern line).

(** ** The hooks *)

(** The loop over all expectations; it does not stop at the first match. *)
Fixpoint log_hook_loop (cmd line : text) (es : list expect) : outcome (bool * list expect) :=
  match es with
  | [] => mret (false, [])
  | e :: es =>
      hit ← (if negb (matched e) && streq cmd (command e) then matches (pattern e) line
             else mret false);
      '(r, es') ← log_hook_loop cmd line es;
      mret (if hit : bool then (true, Expect (invert e) true (command e) (pattern e) :: es')
            else (r, e :: es'))
  end.

Definition expect_log_hook (line : text) (s : expect_state) : outcome (bool * expect_state) :=
  match current_command s with
  | [] => mret (false, s)
  | cmd :: _ =>
      '(r, es) ← log_hook_loop cmd line (expects s);
      mret (r, ExpectState es (current_command s))
  end.

Definition expects_remaining (s : expect_state) : bool := negb (bool_decide (length (expects s) = O)).

Definition expect_pre_command (cmd : text) (s : expect_state) : expect_state :=
  ExpectState (expects s) (cmd :: current_command s).

(** The loop of expect_post_command: the log lines it writes, its result, and
    the expectations that stay.  [abort] is tui_abort_on_fail: script_fail() does
    not return. *)
Fixpoint post_loop (abort : bool) (cmd : text) (es : list expect) :
    outcome (list text * bool * list expect) :=
  match es with
  | [] => mret ([], true, [])
  | e :: es =>
      if negb (streq cmd (command e)) then
        '(log, r, es') ← post_loop abort cmd es; mret (log, r, e :: es')
      else if negb (invert e) && negb (matched e) then
        if abort then Barf "script_fail: Pattern did not match" else
        '(log, _, es') ← post_loop abort cmd es;
        mret ((tx "Pattern '" ++ pattern e ++ tx "' did not match") :: log, false, es')
      else if invert e && matched e then
        if abort then Barf "script_fail: Pattern matched" else
        '(log, _, es') ← post_loop abort cmd es;
        mret ((tx "Pattern '" ++ pattern e ++ tx "' matched") :: log, false, es')
      else post_loop abort cmd es
  end.

Definition expect_post_command (abort : bool) (s : expect_state) :
    outcome (list text * bool * expect_state) :=
  match current_command s with
  | [] => Fault "expect_post_command: current_command is NULL"
  | cmd :: below =>
      '(log, r, es) ← post_loop abort cmd (expects s);
      mret (log, r, ExpectState es below)
  end.

(** ** The expect command *)

(** The pattern buffer: the words joined with single spaces, [len + 1] bytes. *)
Fixpoint join_words (ws : list text) : text :=
  match ws with
  | [] => []
  | [w] => w
  | w :: ws => w ++ " "%char :: join_words ws
  end.
Definition pattern_space (ws : list text) : nat := S (sum_list_with (λ w, S (length w)) ws).

Definition show_expect (e : expect) : text :=
  command e ++ tx ": " ++ (if invert e then tx "! " else []) ++ [chr 34] ++ pattern e ++ [chr 34].

(** [argv] includes the command's own name; [tui_is_command] is the TUI's. *)
Definition expect_cmd (tui_is_command : text → bool) (argv : list text) (s : expect_state) :
    outcome (list text * bool * expect_state) :=
  match argv with
  | [] => Fault "expect_cmd: argc is 0"
  | [_] => mret (show_expect <$> expects s, true, s)
  | _ :: a1 :: rest =>
      let '(inv, args) := if streq a1 (tx "!") then (true, rest) else (false, a1 :: rest) in
      match args with
      | cmd :: ((_ :: _) as words) =>
          if negb (tui_is_command cmd) then
            mret ([tx "expect: " ++ cmd ++ tx " is not a command"], false, s)
          else if (length (join_words words) <? pattern_space words)%nat then
            mret ([], true,
              ExpectState (Expect inv false cmd (join_words words) :: expects s) (current_command s))
          else Fault "expect_cmd: pattern buffer overrun"
      | _ => mret ([], false, s)
      end
  end.

(** A command as tui_do_command runs it: the pre hook, the log lines it prints,
    the post hook. *)
Fixpoint log_lines (lines : list text) (s : expect_state) : outcome expect_state :=
  match lines with
  | [] => mret s
  | l :: lines => '(_, s) ← expect_log_hook l s; log_lines lines s
  end.
Definition expect_run (abort : bool) (cmd : text) (lines : list text) (s : expect_state) :
    outcome (list text * bool * expect_state) :=
  s ← log_lines lines (expect_pre_command cmd s);
  expect_post_command abort s.

(** ** What a pattern means *)

Inductive glob : text → text → Prop :=
| glob_nil : glob [] []
| glob_char c p l : is_blank c = false → c ≠ "*"%char → glob p l → glob (c :: p) (c :: l)
| glob_star p l1 l2 : glob p l2 → glob ("*"%char :: p) (l1 ++ l2)
| glob_blank b1 b2 p l : b1 ≠ [] → b2 ≠ [] →
    Forall (.∈ blanks) b1 → Forall (.∈ blanks) b2 → glob p l → glob (b1 ++ p) (b2 ++ l).

(** The line without the blanks around it. *)
Definition strip (l : text) : text :=
  let l := drop (strspn l blanks) l in
  reverse (drop (strspn (reverse l) blanks) (reverse l)).

(** ** Lemmas *)

Lemma is_blank_spec c : (is_blank c = true) ↔ (c ∈ blanks).
Proof. apply mem_spec. Qed.
Lemma is_blank_false c : (is_blank c = false) ↔ (c ∉ blanks).
Proof. apply mem_false. Qed.

Lemma maybe_skip_pos c l : (0 < maybe_skip c l)%nat.
Proof. unfold maybe_skip. repeat case_match; lia. Qed.

Lemma star_loop_ext rec1 rec2 fuel p l i len :
  (∀ l', rec1 p l' = rec2 p l') → star_loop rec1 fuel p l i len = star_loop rec2 fuel p l i len.
Proof.
  intros Hr. revert i; induction fuel as [|fuel IH]; intros i; simpl; [done|].
  by rewrite Hr, IH.
Qed.

Lemma loose_match_body_ext rec1 rec2 p l :
  (∀ p' l', (length p' < length p)%nat → rec1 p' l' = rec2 p' l') →
  loose_match_body rec1 p l = loose_match_body rec2 p l.
Proof.
  intros Hr. unfold loose_match_body. destruct (is_blank (hd0 p)) eqn:Eb.
  - apply existsb_ext_in. intros i Hi. apply existsb_ext_in. intros j Hj. apply Hr.
    apply in_seq in Hi. pose proof (strspn_le p blanks). rewrite length_drop. lia.
  - destruct (ascii_eqb (hd0 p) "*") eqn:Es.
    + apply star_loop_ext. intros l'. apply Hr. destruct p; [done|simpl; rewrite ?drop_0; lia].
    + case_match; [|done]. case_match; [done|]. apply Hr. destruct p; [done|simpl; rewrite ?drop_0; lia].
Qed.

Lemma loose_match_fuel_enough fuel1 fuel2 p l :
  (length p < fuel1)%nat → (length p < fuel2)%nat →
  loose_match_fuel fuel1 p l = loose_match_fuel fuel2 p l.
Proof.
  revert fuel2 p l; induction fuel1 as [|f1 IH]; intros [|f2] p l H1 H2; try lia.
  simpl. apply loose_match_body_ext. intros p' l' Hp. apply IH; lia.
Qed.

(** The matcher's recursive equation, without fuel. *)
Lemma loose_match_eq p l : loose_match p l = loose_match_body loose_match p l.
Proof.
  unfold loose_match at 1. cbn [loose_match_fuel]. apply loose_match_body_ext.
  intros p' l' Hp. apply loose_match_fuel_enough; lia.
Qed.

(** The first characters of a pattern and of a line it matches. *)
Definition compat (c d : ascii) : Prop :=
  c = "*"%char ∨ (is_blank c = true ∧ is_blank d = true) ∨ c = d.

Lemma loose_match_compat p l : loose_match p l = true → compat (hd0 p) (hd0 l).
Proof.
  rewrite loose_match_eq. unfold loose_match_body, compat. destruct (is_blank (hd0 p)) eqn:Eb.
  - intros H. right; left. split; [done|]. apply existsb_exists in H as (i & _ & H).
    apply existsb_exists in H as (j & Hj & _). apply in_seq in Hj.
    destruct l as [|d l]; simpl in Hj; [lia|]. simpl. unfold is_blank. destruct (mem d blanks); [done|lia].
  - destruct (ascii_eqb (hd0 p) "*") eqn:Es; [intros _; left; by apply ascii_eqb_spec|].
    destruct (ascii_eqb (hd0 p) (hd0 l)) eqn:E; [|done]. intros _. right; right. by apply ascii_eqb_spec.
Qed.

(** The lengths maybe_skip leaves out cannot match. *)
Lemma maybe_skip_sound c line i j :
  c_string line → (i < j < i + maybe_skip c (drop i line))%nat → (j <= length line)%nat →
  ¬ compat c (char_at line j).
Proof.
  intros Hs Hj Hlen. unfold maybe_skip in Hj.
  destruct (ascii_eqb c "*") eqn:E1; [lia|].
  destruct (ascii_eqb (hd0 (drop i line)) NUL) eqn:E2; [lia|].
  assert (Hc : c ≠ "*"%char) by (intros ->; discriminate).
  assert (Hne : ∀ r, (j < i + S (strcspn (drop 1 (drop i line)) r))%nat → char_at line j ∉ r ∧ (j < length line)%nat).
  { intros r Hr. pose proof (strcspn_le (drop 1 (drop i line)) r) as Hle.
    rewrite !length_drop in Hle. split; [|lia].
    replace (char_at line j) with (char_at (drop 1 (drop i line)) (j - S i)).
    - apply strcspn_before. lia.
    - rewrite !char_at_drop. f_equal. lia. }
  destruct (is_blank c) eqn:E3.
  - destruct (Hne blanks) as [Hb _]; [lia|]. intros [?|[[_ Hx]|Hx]]; [done| |].
    + by apply Hb, is_blank_spec.
    + apply Hb, is_blank_spec. congruence.
  - destruct (ascii_eqb c NUL) eqn:E4.
    + destruct (Hne []) as [_ Hb]; [lia|]. apply ascii_eqb_spec in E4. subst c.
      intros [?|[[Hx _]|Hx]]; [done..|]. unfold char_at in Hx. symmetry in Hx.
      apply c_string_hd0 in Hx; [|by apply c_string_drop]. apply (f_equal length) in Hx.
      rewrite length_drop in Hx. simpl in Hx. lia.
    + destruct (Hne [c]) as [Hb _]; [lia|]. intros [?|[[Hx _]|Hx]]; [congruence..|]. set_solver.
Qed.

Lemma star_loop_spec rec fuel p1 line i :
  c_string line → (∀ l, rec p1 l = true → compat (hd0 p1) (hd0 l)) →
  (length line < i + fuel)%nat →
  (star_loop rec fuel p1 line i (length line) = true) ↔
    (∃ k, (i <= k <= length line)%nat ∧ rec p1 (drop k line) = true).
Proof.
  intros Hs Hrec. revert i; induction fuel as [|fuel IH]; intros i Hf; cbn [star_loop].
  - split; [done|]. intros (k & ? & _). lia.
  - destruct (i <=? length line)%nat eqn:Ei.
    2: { split; [done|]. intros (k & ? & _). apply Nat.leb_gt in Ei. lia. }
    apply Nat.leb_le in Ei. destruct (rec p1 (drop i line)) eqn:Er.
    + split; [|done]. intros _. exists i. split; [lia|done].
    + pose proof (maybe_skip_pos (hd0 p1) (drop i line)). rewrite IH by lia. split.
      * intros (k & Hk & ?). exists k. split; [lia|done].
      * intros (k & Hk & Hr). exists k. split; [|done].
        destruct (decide (k = i)) as [->|]; [congruence|]. split; [|lia].
        destruct (decide (i + maybe_skip (hd0 p1) (drop i line) <= k)%nat); [done|].
        exfalso. eapply (maybe_skip_sound (hd0 p1) line i k); [done|lia|lia|]. by apply Hrec.
Qed.

Lemma loose_match_sound n p l : (length p < n)%nat → c_string p → c_string l →
  loose_match p l = true → glob p l.
Proof.
  revert p l; induction n as [|n IH]; intros p l Hn Hp Hl; [lia|].
  rewrite loose_match_eq. unfold loose_match_body. destruct (is_blank (hd0 p)) eqn:Eb.
  - intros H. apply existsb_exists in H as (i & Hi & H). apply existsb_exists in H as (j & Hj & H).
    apply in_seq in Hi, Hj. pose proof (strspn_le p blanks). pose proof (strspn_le l blanks).
    rewrite <-(take_drop i p), <-(take_drop j l). constructor.
    + intros E%(f_equal length). rewrite length_take in E. simpl in E. lia.
    + intros E%(f_equal length). rewrite length_take in E. simpl in E. lia.
    + apply strspn_take. lia.
    + apply strspn_take. lia.
    + apply IH; [rewrite length_drop; lia|by apply c_string_drop..|done].
  - destruct (ascii_eqb (hd0 p) "*") eqn:Es.
    + destruct p as [|c p]; [done|]. apply ascii_eqb_spec in Es. simpl in Es, Hn. subst c.
      rewrite star_loop_spec; [|done|by intros; apply loose_match_compat|lia].
      intros (k & _ & H). rewrite <-(take_drop k l). constructor.
      apply IH; [simpl; lia|by apply (c_string_drop 1 ("*"%char :: p))|by apply c_string_drop|done].
    + destruct (ascii_eqb (hd0 p) (hd0 l)) eqn:E; [|done]. apply ascii_eqb_spec in E.
      destruct (ascii_eqb (hd0 p) NUL) eqn:En.
      * apply ascii_eqb_spec in En. intros _. rewrite (c_string_hd0 p), (c_string_hd0 l); [constructor|congruence..].
      * intros H. destruct p as [|c p]; [done|]. destruct l as [|d l]; simpl in E; [subst; done|].
        subst d. simpl in *. constructor; [done|intros ->; discriminate|].
        apply IH; [lia|by apply (c_string_drop 1 (c :: p))|by apply (c_string_drop 1 (c :: l))|].
        by rewrite !drop_0 in H.
Qed.

Lemma loose_match_complete p l : glob p l → c_string p → c_string l → loose_match p l = true.
Proof.
  induction 1 as [|c p l Hb Hc _ IH|p l1 l2 _ IH|b1 b2 p l Hb1 Hb2 HF1 HF2 _ IH]; intros Hp Hl;
    rewrite loose_match_eq; unfold loose_match_body.
  - done.
  - simpl hd0. rewrite Hb.
    assert (ascii_eqb c "*" = false) as -> by (by apply bool_decide_eq_false).
    assert (ascii_eqb c c = true) as -> by (by apply ascii_eqb_spec).
    case_match; [done|]. simpl. rewrite !drop_0.
    apply IH; [by apply (c_string_drop 1 (c :: p))|by apply (c_string_drop 1 (c :: l))].
  - change (is_blank (hd0 ("*"%char :: p))) with false. cbv iota.
    change (ascii_eqb (hd0 ("*"%char :: p)) "*") with true. cbv iota.
    apply (c_string_drop 1) in Hp. change (drop 1 ("*"%char :: p)) with p in *.
    rewrite star_loop_spec; [|done|by intros; apply loose_match_compat|lia].
    exists (length l1). rewrite length_app, drop_app_length. split; [lia|].
    apply c_string_app in Hl as [_ Hl]. auto.
  - destruct b1 as [|c b1]; [done|]. simpl hd0. pose proof (Forall_inv HF1) as Hc. simpl in Hc.
    rewrite (proj2 (is_blank_spec c) Hc).
    apply c_string_app in Hp as [_ Hp]. apply c_string_app in Hl as [_ Hl].
    apply existsb_exists. exists (length (c :: b1)).
    rewrite !strspn_app by done. split; [apply in_seq; simpl; lia|].
    apply existsb_exists. exists (length b2). split.
    + apply in_seq. destruct b2; [done|simpl; lia].
    + rewrite !drop_app_length. auto.
Qed.

(** C35: the matcher, with its position skipping and its recursion on raw
    pointers, terminates and accepts exactly the lines the pattern denotes:
    star is any string, a run of blanks any non-empty run of blanks, anything
    else itself. *)
Theorem loose_match_glob (p l : text) :
  c_string p → c_string l → (loose_match p l = true) ↔ glob p l.
Proof.
  intros Hp Hl. split; [|by intros; apply loose_match_complete].
  by apply (loose_match_sound (S (length p))); [lia|..].
Qed.

Lemma loose_match_glob_witness :
  (loose_match (tx "a* c *") (tx "ax b   c ") = true) ↔ glob (tx "a* c *") (tx "ax b   c ").
Proof. apply loose_match_glob; apply (bool_decide_unpack _); by vm_compute. Defined.

(** *** Stripping *)

Definition strip_r (l : text) : text := reverse (drop (strspn (reverse l) blanks) (reverse l)).

Lemma strip_r_snoc l c :
  strip_r (l ++ [c]) = if is_blank c then strip_r l else l ++ [c].
Proof.
  unfold strip_r. rewrite reverse_snoc. simpl. unfold is_blank. destruct (mem c blanks); [done|].
  rewrite drop_0, reverse_cons, reverse_involutive. done.
Qed.

Lemma trim_len_SS L n :
  trim_len L (S (S n)) = if is_blank (char_at L (S n)) then trim_len L (S n) else S (S n).
Proof. reflexivity. Qed.

Lemma trim_len_spec L n : (n <= length L)%nat → is_blank (hd0 L) = false →
  (trim_len L n <= n)%nat ∧ take (trim_len L n) L = strip_r (take n L).
Proof.
  intros Hn Hb. induction n as [|[|n] IH]; [done|..].
  - split; [done|]. destruct L as [|c L]; [done|]. simpl in *. rewrite take_0.
    change [c] with ([] ++ [c]). rewrite strip_r_snoc. by rewrite Hb.
  - rewrite trim_len_SS. destruct IH as [IH1 IH2]; [lia|].
    assert (take (S (S n)) L = take (S n) L ++ [char_at L (S n)]) as E.
    { destruct (lookup_lt_is_Some_2 L (S n)) as [c Hc]; [lia|].
      rewrite (take_S_r _ _ c Hc). do 2 f_equal. unfold char_at.
      by rewrite (drop_S _ _ _ Hc). }
    rewrite E, strip_r_snoc. destruct (is_blank (char_at L (S n))); [split; [lia|done]|].
    split; [done|]. by rewrite E.
Qed.

Lemma matches_strip p l : matches p l = Ret (loose_match p (strip l)).
Proof.
  unfold matches, strip. set (L := drop (strspn l blanks) l). fold (strip_r L).
  destruct (0 <? length L)%nat eqn:E0; simpl.
  2: { apply Nat.ltb_ge in E0. destruct L; [done|simpl in E0; lia]. }
  apply Nat.ltb_lt in E0.
  assert (Hb : is_blank (hd0 L) = false).
  { destruct (strspn_drop l blanks) as [H|H]; fold L in H; [by apply is_blank_false|].
    rewrite H in E0. simpl in E0. lia. }
  assert (HL : L = take (length L - 1) L ++ [char_at L (length L - 1)]).
  { destruct L as [|c L' _] using rev_ind; [simpl in E0; lia|].
    rewrite length_app. simpl. rewrite Nat.add_sub, take_app_length. f_equal.
    unfold char_at. by rewrite drop_app_length. }
  destruct (is_blank (char_at L (length L - 1))) eqn:E1.
  - destruct (trim_len_spec L (length L)) as [H1 H2]; [lia|done|].
    rewrite firstn_all in H2. rewrite H2.
    destruct (decide (trim_len L (length L) = length L)) as [Heq|Hne].
    + exfalso. assert (H3 : strip_r L = L) by (rewrite <-H2, Heq; apply firstn_all).
      rewrite HL in H3 at 1. rewrite strip_r_snoc, E1 in H3.
      destruct (decide (length L = 1%nat)) as [H4|H4].
      * rewrite H4 in E1. unfold char_at in E1. simpl in E1. rewrite drop_0 in E1. congruence.
      * destruct (length L) as [|[|n]] eqn:El; try lia. rewrite trim_len_SS in Heq.
        replace (S (S n) - 1)%nat with (S n) in * by lia. rewrite E1 in Heq.
        destruct (trim_len_spec L (S n)) as [H5 _]; [lia|done|lia].
    + rewrite (proj2 (Nat.ltb_lt _ _)) by lia. done.
  - rewrite HL at 2. rewrite strip_r_snoc, E1, <-HL. done.
Qed.

(** *** One command *)

Definition hits (lines : list text) (e : expect) : bool :=
  existsb (λ l, loose_match (pattern e) (strip l)) lines.
(** What the expectation asks for: some line matches, or none does. *)
Definition satisfied (lines : list text) (e : expect) : bool := xorb (invert e) (hits lines e).

Definition mark (cmd : text) (lines : list text) (e : expect) : expect :=
  if streq cmd (command e) then Expect (invert e) (matched e || hits lines e) (command e) (pattern e)
  else e.

Lemma log_hook_loop_mark cmd line es :
  ∃ r, log_hook_loop cmd line es = Ret (r, mark cmd [line] <$> es).
Proof.
  induction es as [|e es [r IH]]; [by exists false|]. cbn [log_hook_loop]. rewrite IH, fmap_cons.
  assert (mark cmd [line] e = if streq cmd (command e)
    then Expect (invert e) (matched e || loose_match (pattern e) (strip line)) (command e) (pattern e)
    else e) as -> by (unfold mark, hits; simpl; by rewrite orb_false_r).
  destruct e as [i m c p]; simpl. destruct (streq cmd c) eqn:Ec.
  - destruct m; simpl; [eauto|]. rewrite matches_strip. simpl. destruct loose_match; eauto.
  - rewrite andb_false_r. simpl. eauto.
Qed.

Lemma mark_app cmd l1 l2 e : mark cmd l2 (mark cmd l1 e) = mark cmd (l1 ++ l2) e.
Proof.
  unfold mark. destruct (streq cmd (command e)) eqn:E; simpl; rewrite ?E; [|done].
  unfold hits. simpl. by rewrite existsb_app, orb_assoc.
Qed.

Lemma mark_nil cmd e : mark cmd [] e = e.
Proof. unfold mark, hits. destruct e; simpl. rewrite orb_false_r. by case_match. Qed.

Lemma log_lines_mark cmd below lines es :
  log_lines lines (ExpectState es (cmd :: below)) =
  Ret (ExpectState (mark cmd lines <$> es) (cmd :: below)).
Proof.
  revert es; induction lines as [|l lines IH]; intros es; simpl.
  - unfold mret. simpl. do 2 f_equal. symmetry. rewrite <-(list_fmap_id es) at 2.
    apply list_fmap_ext. intros. apply mark_nil.
  - unfold expect_log_hook. simpl. destruct (log_hook_loop_mark cmd l es) as [r ->]. simpl.
    rewrite IH. do 2 f_equal. rewrite <-list_fmap_compose. apply list_fmap_ext.
    intros. simpl. apply mark_app.
Qed.

Lemma post_loop_spec abort cmd es :
  let ok := forallb (λ e, xorb (invert e) (matched e)) (filter (λ e, command e = cmd) es) in
  let rest := filter (λ e, command e ≠ cmd) es in
  if ok then post_loop abort cmd es = Ret ([], true, rest)
  else if abort then ∃ m, post_loop abort cmd es = Barf m
  else ∃ log, log ≠ [] ∧ post_loop abort cmd es = Ret (log, false, rest).
Proof.
  cbv zeta. induction es as [|e es IH]; [done|]. cbn [post_loop].
  rewrite !filter_cons. destruct (streq cmd (command e)) eqn:Ec; simpl negb; cbv iota.
  - apply streq_spec in Ec. rewrite decide_True, decide_False by (subst; tauto). cbn [forallb].
    destruct (invert e), (matched e); simpl; try exact IH.
    all: destruct abort; [by eexists|].
    all: destruct (forallb _ _); [rewrite IH|destruct IH as (log & _ & ->)]; simpl;
      (eexists; split; [|reflexivity]; done).
  - assert (command e ≠ cmd) as Hne by (intros E; rewrite E in Ec; by apply bool_decide_eq_false in Ec).
    rewrite decide_False, decide_True by done.
    destruct (forallb _ _); [by rewrite IH|].
    destruct abort; [destruct IH as [m ->]; by eexists|destruct IH as (log & ? & ->)]; simpl; eauto.
Qed.

Lemma mark_satisfied cmd lines es :
  Forall (λ e, command e = cmd → matched e = false) es →
  forallb (λ e, xorb (invert e) (matched e)) (filter (λ e, command e = cmd) (mark cmd lines <$> es)) =
    forallb (satisfied lines) (filter (λ e, command e = cmd) es) ∧
  filter (λ e, command e ≠ cmd) (mark cmd lines <$> es) = filter (λ e, command e ≠ cmd) es.
Proof.
  induction 1 as [|e es He _ [IH1 IH2]]; [done|]. rewrite fmap_cons.
  assert (mark cmd lines e = if streq cmd (command e)
    then Expect (invert e) (matched e || hits lines e) (command e) (pattern e) else e) as -> by done.
  destruct (streq cmd (command e)) eqn:Ec; rewrite !filter_cons.
  - apply streq_spec in Ec. simpl command. rewrite !decide_True by done.
    rewrite !decide_False by congruence. cbn [forallb]. rewrite IH1, IH2. simpl.
    by rewrite He.
  - assert (command e ≠ cmd) as Hne by (intros E; rewrite E in Ec; by apply bool_decide_eq_false in Ec).
    rewrite !decide_False by done. rewrite !decide_True by done. by rewrite IH2.
Qed.

(** The hooks see whether a line matches, one expectation at a time. *)
Lemma expect_run_marks (abort : bool) (cmd : text) (lines : list text) (s : expect_state) :
  Forall (λ e, command e = cmd → matched e = false) (expects s) →
  let mine := filter (λ e, command e = cmd) (expects s) in
  let s' := ExpectState (filter (λ e, command e ≠ cmd) (expects s)) (current_command s) in
  if forallb (satisfied lines) mine then expect_run abort cmd lines s = Ret ([], true, s')
  else if abort then ∃ m, expect_run abort cmd lines s = Barf m
  else ∃ log, log ≠ [] ∧ expect_run abort cmd lines s = Ret (log, false, s').
Proof.
  intros Hun mine s'. unfold expect_run, expect_pre_command.
  destruct s as [es below]; simpl in *. rewrite log_lines_mark. simpl.
  unfold expect_post_command. simpl.
  destruct (mark_satisfied cmd lines es Hun) as [E1 E2].
  pose proof (post_loop_spec abort cmd (mark cmd lines <$> es)) as H. cbv zeta in H.
  rewrite E1, E2 in H. fold mine in H.
  destruct (forallb (satisfied lines) mine); [by rewrite H|].
  destruct abort; [destruct H as [m ->]; by eexists|].
  destruct H as (log & Hlog & ->). eauto.
Qed.

(** What the expectations on a command ask of the lines it logs: every plain one a line of its
    own that its pattern denotes, every inverted one that there is no such line. *)
Definition plain (es : list expect) : list expect := filter (λ e, invert e = false) es.
Definition own_line (lines : list text) (e : expect) (n : nat) : Prop :=
  ∃ l, lines !! n = Some l ∧ loose_match (pattern e) (strip l) = true.
Definition met (lines : list text) (es : list expect) : Prop :=
  (∀ e, e ∈ es → invert e = true → hits lines e = false) ∧ ∃ own, NoDup own ∧ Forall2 (own_line lines) (plain es) own.
(** No line fits two of them. *)
Definition apart (lines : list text) (es : list expect) : Prop := ∀ n i j e e',
  plain es !! i = Some e → plain es !! j = Some e' → own_line lines e n → own_line lines e' n → i = j.

Lemma hits_own lines e : hits lines e = true ↔ ∃ n, own_line lines e n.
Proof.
  unfold hits. rewrite existsb_exists. split.
  - intros (l & [n Hn]%list_elem_of_In%list_elem_of_lookup & Hm). by exists n, l.
  - intros (n & l & Hn & Hm). exists l. split; [|done]. apply list_elem_of_In. by eapply list_elem_of_lookup_2.
Qed.
Lemma met_satisfied lines es : met lines es → forallb (satisfied lines) es = true.
Proof.
  intros [Hi (own & _ & Ho)]. apply forallb_forall. intros e He%list_elem_of_In. unfold satisfied. destruct (invert e) eqn:Ei; [by rewrite Hi|].
  assert (He' : e ∈ plain es) by (by apply list_elem_of_filter). apply list_elem_of_lookup in He' as [n Hn].
  destruct (Forall2_lookup_l _ _ _ _ _ Ho Hn) as (m & _ & Hm). cbn. apply hits_own. eauto.
Qed.
Lemma satisfied_met lines es : apart lines es → forallb (satisfied lines) es = true → met lines es.
Proof.
  intros Ha Hs. rewrite forallb_forall in Hs. setoid_rewrite <-list_elem_of_In in Hs. split.
  { intros e He Ei. specialize (Hs e He). unfold satisfied in Hs. rewrite Ei in Hs. by destruct (hits lines e). }
  assert (Hp : Forall (λ e, ∃ n, own_line lines e n) (plain es)).
  { apply Forall_forall. intros e [Ei He]%list_elem_of_filter. apply hits_own. specialize (Hs e He). unfold satisfied in Hs. by rewrite Ei in Hs. }
  assert (∃ own, Forall2 (own_line lines) (plain es) own) as [own Ho].
  { clear Ha. induction Hp as [|e l [n Hn] _ [own IH]]; [by exists []|]. exists (n :: own). by constructor. }
  exists own. split; [|done]. apply NoDup_alt. intros i j n Hi Hj.
  destruct (Forall2_lookup_r _ _ _ _ _ Ho Hi) as (e & Ee & He), (Forall2_lookup_r _ _ _ _ _ Ho Hj) as (e' & Ee' & He'). by eapply Ha.
Qed.

(** C20: a command does what its expectations ask: if there is a line of its own for every
    plain expectation set on it, and none for the inverted ones, the hooks accept; if not, and
    no line fits two of them, the run fails, or ends with script_fail under --exit.  The
    expectations of that command, and no others, are removed, and the command stack is
    restored.  (When one line fits two expectations the hooks take it for both, against the
    comment in expect_log_hook: [expect_same_twice].) *)
Theorem expect_run_spec (abort : bool) (cmd : text) (lines : list text) (s : expect_state) :
  Forall (λ e, command e = cmd → matched e = false) (expects s) →
  let mine := filter (λ e, command e = cmd) (expects s) in
  let s' := ExpectState (filter (λ e, command e ≠ cmd) (expects s)) (current_command s) in
  (met lines mine → expect_run abort cmd lines s = Ret ([], true, s')) ∧
  (apart lines mine → ¬ met lines mine →
     if abort then ∃ m, expect_run abort cmd lines s = Barf m
     else ∃ log, log ≠ [] ∧ expect_run abort cmd lines s = Ret (log, false, s')) ∧
  (abort = false → ∃ log ok, expect_run abort cmd lines s = Ret (log, ok, s')).
Proof.
  intros Hun mine s'. pose proof (expect_run_marks abort cmd lines s Hun) as H. cbv zeta in H. fold mine s' in H. split_and!.
  - intros Hm%met_satisfied. by rewrite Hm in H.
  - intros Ha Hn. destruct (forallb (satisfied lines) mine) eqn:E; [by apply satisfied_met in E|done].
  - intros ->. destruct (forallb (satisfied lines) mine); [by do 2 eexists|]. destruct H as (log & _ & ->). by do 2 eexists.
Qed.

Definition two_expects : expect_state := ExpectState
  [Expect false false (tx "gen_ip") (tx "rcv:* DROP");
   Expect true false (tx "gen_ip") (tx "send:*");
   Expect false false (tx "echo") (tx "rcv:*")] [].

Lemma expect_run_spec_witness :
  expect_run true (tx "gen_ip") [tx "  rcv:eth0   DROP "] two_expects =
    Ret ([], true, ExpectState [Expect false false (tx "echo") (tx "rcv:*")] []) ∧
  ∃ log, log ≠ [] ∧ expect_run false (tx "gen_ip") [tx "rcv:eth0"] two_expects = Ret (log, false, ExpectState [Expect false false (tx "echo") (tx "rcv:*")] []).
Proof.
  assert (Hu : Forall (λ e, command e = tx "gen_ip" → matched e = false) (expects two_expects)) by (repeat constructor). split.
  - apply (expect_run_spec true (tx "gen_ip") [tx "  rcv:eth0   DROP "] two_expects Hu). split.
    + intros e He. vm_compute in He. repeat (apply elem_of_cons in He as [->|He]; [by vm_compute|]). by apply not_elem_of_nil in He.
    + exists [0%nat]. split; [repeat constructor; by intros ?%not_elem_of_nil|]. repeat constructor. eexists. split; [reflexivity|]. by vm_compute.
  - apply (expect_run_spec false (tx "gen_ip") [tx "rcv:eth0"] two_expects Hu).
    + intros n i j e e' Hi Hj _ _. vm_compute in Hi, Hj. destruct i as [|[|]]; [|done..]. by destruct j as [|[|]].
    + intros Hm%met_satisfied. by vm_compute in Hm.
Defined.

(** The comment in expect_log_hook ("only allow each pattern to match once, so
    we can easily expect something to happen twice") does not describe the loop:
    one line satisfies two expectations with the same pattern. *)
Lemma expect_same_twice (p line : text) (cmd : text) : loose_match p (strip line) = true →
  expect_run true cmd [line] (ExpectState [Expect false false cmd p; Expect false false cmd p] []) =
  Ret ([], true, ExpectState [] []).
Proof.
  intros Hm. unfold expect_run, expect_pre_command. simpl expects.
  rewrite log_lines_mark. simpl. unfold mark, hits. simpl.
  rewrite Hm. assert (streq cmd cmd = true) as -> by (by apply streq_spec). simpl.
  unfold expect_post_command. simpl. assert (streq cmd cmd = true) as -> by (by apply streq_spec). done.
Qed.

(** *** The command *)

Lemma join_words_length ws : ws ≠ [] → S (length (join_words ws)) = sum_list_with (λ w, S (length w)) ws.
Proof.
  induction ws as [|w [|v ws] IH]; intros Hne; [done|simpl; lia|].
  change (join_words (w :: v :: ws)) with (w ++ " "%char :: join_words (v :: ws)).
  rewrite length_app. cbn [length sum_list_with]. cbn [sum_list_with] in IH.
  rewrite <-IH by done. lia.
Qed.

Lemma expect_cmd_add is_cmd a0 cmd words (inv : bool) s :
  words ≠ [] → is_cmd cmd = true → cmd ≠ tx "!" →
  expect_cmd is_cmd (a0 :: (if inv then [tx "!"] else []) ++ cmd :: words) s =
  Ret ([], true, ExpectState (Expect inv false cmd (join_words words) :: expects s) (current_command s)).
Proof.
  intros Hw Hc Hn. pose proof (join_words_length words Hw) as Hj.
  destruct words as [|w ws]; [done|].
  assert (Hlt : (length (join_words (w :: ws)) <? pattern_space (w :: ws))%nat = true).
  { apply Nat.ltb_lt. unfold pattern_space. lia. }
  destruct inv; cbn [app]; unfold expect_cmd.
  - assert (streq (tx "!") (tx "!") = true) as -> by (by apply streq_spec).
    cbv beta iota zeta. by rewrite Hc, Hlt.
  - assert (streq cmd (tx "!") = false) as -> by (by apply bool_decide_eq_false).
    cbv beta iota zeta. by rewrite Hc, Hlt.
Qed.
