(* ===== verification/Failtest.v ===== *)
(** * core/failtest.c: failure injection

    Every fallible kernel service asks should_i_fail(); under --failtest the
    process forks there, the child fails and the parent, once the child's fate is
    known, succeeds.  fork() is explicit: [should_i_fail] either decides at once
    or hands back the child's and the parent's state, and [explore] runs a whole
    script that way.  --failpath replays one reported path. *)

From Stdlib Require Import Lia.
From S2P Require Import Prelude CStr.

Record fail_decision := FailDecision {
  location : text;
  tui_line : Z;
  failed : bool;
}.

(** The file's static variables.  [failpath] is the offset into
    [orig_failpath] it points to. *)
Record ft_state := FtState {
  failtest : bool;
  suppress_failtest : Z;
  fails : Z;
  excessive_fails : Z;
  failpoints : Z;
  failtest_no_report : option text;
  decisions : list fail_decision;
  orig_failpath : text;
  failpath : option nat;
  tui_linenum : Z;
  warned : bool;
}.

Definition set_failpath (o : option nat) (s : ft_state) : ft_state :=
  FtState (failtest s) (suppress_failtest s) (fails s) (excessive_fails s) (failpoints s)
    (failtest_no_report s) (decisions s) (orig_failpath s) o (tui_linenum s) (warned s).
Definition set_decisions (ds : list fail_decision) (s : ft_state) : ft_state :=
  FtState (failtest s) (suppress_failtest s) (fails s) (excessive_fails s) (failpoints s)
    (failtest_no_report s) ds (orig_failpath s) (failpath s) (tui_linenum s) (warned s).
Definition set_counts (f e p : Z) (s : ft_state) : ft_state :=
  FtState (failtest s) (suppress_failtest s) f e p
    (failtest_no_report s) (decisions s) (orig_failpath s) (failpath s) (tui_linenum s) (warned s).
Definition set_warned (b : bool) (s : ft_state) : ft_state :=
  FtState (failtest s) (suppress_failtest s) (fails s) (excessive_fails s) (failpoints s)
    (failtest_no_report s) (decisions s) (orig_failpath s) (failpath s) (tui_linenum s) b.
Definition set_linenum (l : Z) (s : ft_state) : ft_state :=
  FtState (failtest s) (suppress_failtest s) (fails s) (excessive_fails s) (failpoints s)
    (failtest_no_report s) (decisions s) (orig_failpath s) (failpath s) l (warned s).

(** The statics as initialised, and after --failtest or --failpath. *)
Definition ft_init : ft_state := FtState false 0 0 2 0 None [] [] None 0 false.
Definition cmdline_failtest (s : ft_state) : ft_state :=
  FtState true (suppress_failtest s) (fails s) (excessive_fails s) (failpoints s)
    (failtest_no_report s) (decisions s) (orig_failpath s) (failpath s) (tui_linenum s) (warned s).
Definition cmdline_failpath (optarg : text) (s : ft_state) : ft_state :=
  FtState (failtest s) (suppress_failtest s) (fails s) (excessive_fails s) (failpoints s)
    (failtest_no_report s) (decisions s) optarg (Some O) (tui_linenum s) (warned s).
Definition cmdline_failtest_no_report (optarg : text) (s : ft_state) : ft_state :=
  FtState (failtest s) (suppress_failtest s) (fails s) (excessive_fails s) (failpoints s)
    (Some optarg) (decisions s) (orig_failpath s) (failpath s) (tui_linenum s) (warned s).

(** ** Replaying a path *)

Definition failpath_fail : bool := true.

(** The three steps of do_failpath on the rest of the path [fp]; each returns how
    far it advances. *)
Definition match_location (func fp : text) : outcome nat :=
  if ascii_eqb (hd0 fp) "[" then
    let fp1 := drop 1 fp in
    if negb (strstarts fp1 func) || negb (ascii_eqb (char_at fp1 (length func)) "]")
    then Barf "Failpath expected another location"
    else mret (length func + 2)%nat
  else mret O.

Definition match_line (linenum : Z) (fp : text) : outcome nat :=
  if ascii_eqb (hd0 fp) ":" then
    let fp1 := drop 1 fp in
    let '(line, after) := strtoul fp1 10 in
    if negb (ascii_eqb (char_at fp1 after) ":") then Barf "Bad failure path line number"
    else if negb (line =? linenum) then Barf "Unexpected line number"
    else mret (after + 2)%nat
  else mret O.

Definition do_failpath (func : text) (s : ft_state) : outcome (bool * ft_state) :=
  match failpath s with
  | None => Fault "do_failpath: failpath is NULL"
  | Some off =>
      n1 ← match_location func (drop off (orig_failpath s));
      let off := (off + n1)%nat in
      n2 ← match_line (tui_linenum s) (drop off (orig_failpath s));
      let off := (off + n2)%nat in
      let c := char_at (orig_failpath s) off in
      let s' := set_failpath (Some (S off)) s in
      if mem c (tx "Ff") then mret (failpath_fail, s')
      else if mem c (tx "Ss") then mret (false, s')
      else if ascii_eqb c NUL then mret (false, set_failpath None s)
      else Barf "Failpath failed to path"
  end.

(** ** Reporting a path *)

Definition show_failed (b : bool) : text := if b then tx "F" else tx "S".

Fixpoint failpath_string (ds : list fail_decision) : text :=
  match ds with
  | [] => []
  | d :: ds =>
      tx "[" ++ location d ++ tx "]:" ++ print_d (signed 32 (tui_line d)) ++ tx ":" ++
        show_failed (failed d) ++ failpath_string ds
  end.

(** What a compiler puts behind the list head [decisions] is not determined by
    the source: [past_head] is the [unsigned int] found where the head, taken for
    a fail_decision, would have its tui_line. *)
Section Failtest.
Context (past_head : Z).

(** failpath_string_for_line: [before] is the list before [dec] reversed, [from]
    the decisions from [dec] on.  The reverse loop stops at the list head or at
    an entry of another line; the forward loop ends when it is back at that
    place, so past the last entry it takes the head for an entry unless the
    reverse loop had stopped there. *)
Fixpoint line_start (linenum : Z) (before : list fail_decision) (run : list fail_decision) :
    list fail_decision * bool :=
  match before with
  | [] => (run, true)
  | d :: before => if negb (tui_line d =? linenum) then (run, false)
                   else line_start linenum before (d :: run)
  end.
Fixpoint line_run (linenum : Z) (at_head : bool) (ds : list fail_decision) : outcome text :=
  match ds with
  | [] =>
      if at_head then mret []
      else if negb (past_head =? linenum) then mret []
      else Fault "failpath_string_for_line: list head printed as an entry"
  | i :: ds =>
      if negb (tui_line i =? linenum) then mret []
      else rest ← line_run linenum at_head ds;
           mret (tx "[" ++ location i ++ tx "]" ++ show_failed (failed i) ++ rest)
  end.
Definition failpath_string_for_line (before from : list fail_decision) : outcome text :=
  match from with
  | [] => Fault "failpath_string_for_line: no decision"
  | dec :: _ =>
      let '(run, at_head) := line_start (tui_line dec) before from in
      line_run (tui_line dec) at_head run
  end.

(** warn_failure: the log lines. *)
Fixpoint warn_lines (last_warning : Z) (before from : list fail_decision) : outcome (list text) :=
  match from with
  | [] => mret []
  | i :: from' =>
      if failed i && (last_warning <? tui_line i) then
        w ← failpath_string_for_line before from;
        rest ← warn_lines (tui_line i) (i :: before) from';
        mret ((tx " Line " ++ print_d (tui_line i) ++ tx ": " ++ w) :: rest)
      else warn_lines last_warning (i :: before) from'
  end.
Definition warn_failure (testname : text) (s : ft_state) : outcome (list text) :=
  ls ← warn_lines 0 [] (decisions s);
  mret ((tx "WARNING: test " ++ testname ++ tx " ignores failures at " ++
    failpath_string (decisions s)) :: ls).

(** ** Deciding *)

Inductive wstatus := Exited (code : Z) | Signalled (sig : Z).
#[export] Instance wstatus_eq_dec : EqDecision wstatus.
Proof. solve_decision. Defined.

Definition EXIT_SUCCESS : Z := 0.
Definition EXIT_FAILURE : Z := 1.
Definition EXIT_SCRIPTFAIL : Z := EXIT_FAILURE + 1.
Definition EXIT_SILENT : Z := EXIT_SCRIPTFAIL + 1.

(** What should_i_fail does up to fork(): a decision, or the two processes. *)
Inductive sif_result :=
| Decided (fail : bool) (s : ft_state)
| Fork (child parent : ft_state).

Definition set_last_failed (b : bool) (ds : list fail_decision) : list fail_decision :=
  match last ds with
  | Some d => removelast ds ++ [FailDecision (location d) (tui_line d) b]
  | None => ds
  end.

Definition should_i_fail (func : text) (s : ft_state) : outcome sif_result :=
  if negb (suppress_failtest s =? 0) then mret (Decided false s) else
  match failpath s with
  | Some _ => '(b, s) ← do_failpath func s; mret (Decided b s)
  | None =>
      let s := set_counts (fails s) (excessive_fails s) (u32 (failpoints s + 1)) s in
      if negb (failtest s) then mret (Decided false s) else
      s ← (if excessive_fails s <? fails s then
             if warned s then mret s
             else _ ← warn_failure [] s; mret (set_warned true s)
           else mret s);
      let dec := FailDecision func (tui_linenum s) false in
      let s := set_decisions (decisions s ++ [dec]) s in
      let child := set_decisions (set_last_failed true (decisions s)) s in
      let quiet := match failtest_no_report s with
                   | Some pat => bool_decide (is_Some (strstr func pat)) | None => false end in
      let child := if quiet then child
                   else set_counts (u32 (fails child + 1)) (excessive_fails child) (failpoints child) child in
      mret (Fork child s)
  end.

(** The parent after waitpid(): it goes on, or reports the child's path and
    exits with EXIT_SILENT. *)
Inductive parent_result :=
| Continue (s : ft_state)
| Quit (report : option (wstatus * text)).

Definition parent_after_wait (status : wstatus) (s : ft_state) : parent_result :=
  match status with
  | Exited code =>
      if (code =? EXIT_SUCCESS) || (code =? EXIT_SCRIPTFAIL) then Continue s
      else if negb (code =? EXIT_SILENT) then
        Quit (Some (status, failpath_string (set_last_failed true (decisions s))))
      else Quit None
  | Signalled _ => Quit (Some (status, failpath_string (set_last_failed true (decisions s))))
  end.

(** should_i_fail_once; [p] is the first occurrence of the location anywhere in
    the path. *)
Definition should_i_fail_once (loc : text) (s : ft_state) : outcome sif_result :=
  if negb (suppress_failtest s =? 0) then mret (Decided false s) else
  match failpath s with
  | Some off =>
      let path := orig_failpath s in
      seen ← match strstr path loc with
             | Some p =>
                 if (p <=? off)%nat then
                   match p with
                   | O => Fault "should_i_fail_once: p[-1] before the path"
                   | S p' => mret (ascii_eqb (char_at path p') "[" &&
                                   ascii_eqb (char_at path (p + length loc)) "]")
                   end
                 else mret false
             | None => mret false
             end;
      if seen : bool then mret (Decided false s)
      else '(b, s) ← do_failpath loc s; mret (Decided b s)
  | None =>
      if existsb (λ i, streq loc (location i)) (decisions s) then mret (Decided false s)
      else
        r ← should_i_fail loc s;
        mret match r with
        | Fork child parent =>
            Fork (set_counts (fails child) (u32 (excessive_fails child + 1)) (failpoints child) child) parent
        | Decided true s => Decided true (set_counts (fails s) (u32 (excessive_fails s + 1)) (failpoints s) s)
        | Decided false s => Decided false s
        end
  end.

(** ** Running a script *)

(** A script seen from here: it ends with an exit status, or reaches a failure
    point at a script line and goes on as decided; [once]: it asks
    should_i_fail_once. *)
Inductive script :=
| Done (st : wstatus)
| FailPoint (once : bool) (loc : text) (line : Z) (k : bool → script).

(** The process tree: the reports printed and the exit status of the process
    (barf() exits with EXIT_FAILURE; a fault is a segmentation fault). *)
Definition report := (wstatus * text)%type.
Fixpoint explore (c : script) (s : ft_state) : list report * wstatus :=
  match c with
  | Done st => ([], st)
  | FailPoint once loc line k =>
      match (if once then should_i_fail_once else should_i_fail) loc (set_linenum line s) with
      | Ret (Decided b s) => explore (k b) s
      | Ret (Fork child parent) =>
          let '(reports, status) := explore (k true) child in
          match parent_after_wait status parent with
          | Continue parent =>
              let '(reports', status') := explore (k false) parent in
              (reports ++ reports', status')
          | Quit r => (reports ++ match r with Some r => [r] | None => [] end, Exited EXIT_SILENT)
          end
      | Barf _ => ([], Exited EXIT_FAILURE)
      | Fault _ => ([], Signalled 11)
      end
  end.

(** Following one list of decisions, then succeeding at every further point.  A point that
    asks once is not asked where a decision was made before, one of [seen]. *)
Definition known (loc : text) (seen : list text) : bool := existsb (streq loc) seen.
Fixpoint follow (seen : list text) (c : script) (ds : list bool) : wstatus :=
  match c with
  | Done st => st
  | FailPoint once loc _ k =>
      if once && known loc seen then follow seen (k false) ds
      else follow (seen ++ [loc]) (k (default false (hd_error ds))) (tail ds)
  end.

Definition benign (st : wstatus) : bool :=
  bool_decide (st = Exited EXIT_SUCCESS) || bool_decide (st = Exited EXIT_SCRIPTFAIL).

(** Every failure point reports a positive [int] line; no run of the script by
    itself exits with EXIT_SILENT. *)
Fixpoint script_ok (c : script) : Prop :=
  match c with
  | Done st => st ≠ Exited EXIT_SILENT
  | FailPoint _ _ line k => 0 <= line < 2 ^ 31 ∧ line ≠ past_head ∧ ∀ b, script_ok (k b)
  end.

(** ** Lemmas *)

Definition line_ok (d : fail_decision) : Prop := 0 <= tui_line d < 2 ^ 31 ∧ tui_line d ≠ past_head.

(** The state of a process under --failtest. *)
Definition testing (s : ft_state) : Prop :=
  suppress_failtest s = 0 ∧ failpath s = None ∧ failtest s = true ∧ Forall line_ok (decisions s).

Lemma line_run_ret linenum at_head ds : linenum ≠ past_head → ∃ t, line_run linenum at_head ds = Ret t.
Proof.
  intros Hne. induction ds as [|d ds [t IH]]; simpl.
  - destruct at_head; [by eexists|]. rewrite (proj2 (Z.eqb_neq _ _)) by auto. by eexists.
  - case_match; [by eexists|]. rewrite IH. by eexists.
Qed.

Lemma warn_lines_ret last before from : Forall line_ok from → ∃ t, warn_lines last before from = Ret t.
Proof.
  intros HF. revert last before. induction HF as [|d ds [Hd1 Hd2] HF IH]; intros last before; cbn [warn_lines]; [by eexists|].
  case_match; [|apply IH]. unfold failpath_string_for_line.
  destruct (line_start _ _ _) as [run ah].
  destruct (line_run_ret (tui_line d) ah run Hd2) as [t ->]. simpl.
  destruct (IH (tui_line d) (d :: before)) as [t' ->]. by eexists.
Qed.

Lemma set_last_failed_snoc b ds d :
  set_last_failed b (ds ++ [d]) = ds ++ [FailDecision (location d) (tui_line d) b].
Proof. unfold set_last_failed. by rewrite last_snoc, removelast_last. Qed.

Lemma should_i_fail_testing loc line s :
  testing s → 0 <= line < 2 ^ 31 → line ≠ past_head →
  ∃ child parent, should_i_fail loc (set_linenum line s) = Ret (Fork child parent) ∧
    testing child ∧ testing parent ∧
    decisions child = decisions s ++ [FailDecision loc line true] ∧
    decisions parent = decisions s ++ [FailDecision loc line false].
Proof.
  intros (H1 & H2 & H3 & H4) Hl Hp. unfold should_i_fail.
  cbn [set_linenum suppress_failtest failpath]. rewrite H1, H2. cbn [Z.eqb negb].
  cbn [set_linenum set_counts failtest fails excessive_fails failpoints warned]. rewrite H3. cbn [negb].
  set (s1 := set_counts _ _ _ _).
  assert (∃ s2, (if excessive_fails s <? fails s then
      if warned s then mret s1 else _ ← warn_failure [] s1; mret (set_warned true s1)
    else mret s1) = Ret s2 ∧ testing s2 ∧ decisions s2 = decisions s ∧ tui_linenum s2 = line) as (s2 & Hs2 & Ht & Hd & Hln).
  { case_match; [case_match|]; try by exists s1.
    unfold warn_failure. destruct (warn_lines_ret 0 [] (decisions s1)) as [t ->]; [done|]. by eexists. }
  change (warned s1) with (warned s). rewrite Hs2. simpl.
  destruct Ht as (T1 & T2 & T3 & T4). rewrite Hln, Hd.
  assert (Hall : ∀ b, Forall line_ok (decisions s ++ [FailDecision loc line b])).
  { intros b. apply Forall_app. split; [done|]. by apply Forall_singleton. }
  eexists _, _. split; [reflexivity|].
  rewrite set_last_failed_snoc. unfold testing. destruct (match failtest_no_report s2 with Some _ => _ | None => _ end);
    simpl; split_and!; eauto.
Qed.

(** The same for a point that asks once, unless the location is known. *)
Definition locs (s : ft_state) : list text := map location (decisions s).
Definition ask (once : bool) : text → ft_state → outcome sif_result := if once then should_i_fail_once else should_i_fail.
Lemma known_locs loc s : existsb (λ i, streq loc (location i)) (decisions s) = known loc (locs s).
Proof. unfold known, locs. induction (decisions s) as [|d ds IH]; [done|]. cbn [existsb map]. by rewrite IH. Qed.
Lemma ask_known loc line s : testing s → known loc (locs s) = true →
  ask true loc (set_linenum line s) = Ret (Decided false (set_linenum line s)) ∧ testing (set_linenum line s) ∧ locs (set_linenum line s) = locs s.
Proof.
  intros (H1 & H2 & H3 & H4) Hk. split_and!; [|done|done]. unfold ask, should_i_fail_once. cbn [set_linenum suppress_failtest failpath decisions].
  rewrite H1, H2, known_locs, Hk. done.
Qed.
Lemma ask_testing once loc line s :
  testing s → 0 <= line < 2 ^ 31 → line ≠ past_head → once && known loc (locs s) = false →
  ∃ child parent, ask once loc (set_linenum line s) = Ret (Fork child parent) ∧
    testing child ∧ testing parent ∧
    decisions child = decisions s ++ [FailDecision loc line true] ∧
    decisions parent = decisions s ++ [FailDecision loc line false].
Proof.
  intros Hs Hl Hp Hk. destruct (should_i_fail_testing loc line s Hs Hl Hp) as (ch & pa & E & Hch & Hpa & Hd1 & Hd2).
  destruct once; [|by exists ch, pa]. cbn [andb] in Hk. pose proof Hs as (H1 & H2 & _). unfold ask, should_i_fail_once.
  cbn [set_linenum suppress_failtest failpath decisions]. rewrite H1, H2, known_locs, Hk. cbn [Z.eqb negb]. change (FtState _ _ _ _ _ _ _ _ _ _ _) with (set_linenum line s).
  rewrite E, bind_ret. eexists _, pa. split; [reflexivity|]. by split_and!.
Qed.
Lemma locs_next s s' d : decisions s' = decisions s ++ [d] → locs s' = locs s ++ [location d].
Proof. intros E. unfold locs. by rewrite E, map_app. Qed.

Lemma follow_nil seen seen' c : follow seen c [] = follow seen' c [].
Proof.
  revert seen seen'; induction c as [st|once loc line k IH]; intros seen seen'; cbn [follow]; [done|].
  destruct (once && known loc seen), (once && known loc seen'); apply IH.
Qed.

(** A process that neither tests nor replays just runs. *)
Lemma explore_off c s seen :
  suppress_failtest s = 0 → failpath s = None → failtest s = false → decisions s = [] → explore c s = ([], follow seen c []).
Proof.
  revert s seen; induction c as [st|once loc line k IH]; intros s seen H1 H2 H3 H4; [done|]. cbn [explore follow].
  assert (E : ask once loc (set_linenum line s) = Ret (Decided false (set_counts (fails s) (excessive_fails s) (u32 (failpoints s + 1)) (set_linenum line s)))).
  { destruct once; cbn [ask]; unfold should_i_fail_once, should_i_fail; cbn [set_linenum set_counts suppress_failtest failpath decisions failtest]; by rewrite H1, H2, ?H4, H3. }
  unfold ask in E. rewrite E. rewrite (IH false _ seen) by done. f_equal. destruct (once && known loc seen); [done|apply follow_nil].
Qed.

Lemma explore_status c s : testing s → script_ok c →
  (snd (explore c s) = Exited EXIT_SILENT ∧ fst (explore c s) ≠ []) ∨
  (snd (explore c s) = follow [] c [] ∧ follow [] c [] ≠ Exited EXIT_SILENT).
Proof.
  revert s; induction c as [st|once loc line k IH]; intros s Hs Hc; [by right|].
  destruct Hc as (Hl & Hp & Hk). cbn [explore follow]. fold (ask once). unfold known at 1 2. cbn [existsb]. rewrite andb_false_r.
  rewrite (follow_nil ([] ++ [loc]) []). change (default false (hd_error [])) with false. change (tail (@nil bool)) with (@nil bool).
  destruct (once && known loc (locs s)) eqn:Ek.
  { apply andb_true_iff in Ek as [-> Ek]. destruct (ask_known loc line s Hs Ek) as (E & Hs' & _). rewrite E. by apply IH. }
  destruct (ask_testing once loc line s Hs Hl Hp Ek) as (ch & pa & E & Hch & Hpa & _ & Hd). rewrite E. clear E.
  pose proof (IH true ch Hch (Hk true)) as I1. destruct (explore (k true) ch) as [r1 st1]. simpl in I1.
  pose proof (IH false pa Hpa (Hk false)) as I2. destruct (explore (k false) pa) as [r2 st2] eqn:Epa. simpl in I2.
  unfold parent_after_wait. destruct st1 as [code|sig]; [|left; simpl; split; [done|by destruct r1]].
  destruct ((code =? EXIT_SUCCESS) || (code =? EXIT_SCRIPTFAIL)) eqn:E.
  - rewrite Epa. simpl. destruct I2 as [[-> ?]|?]; [left|by right]. split; [done|]. by destruct r1.
  - destruct (code =? EXIT_SILENT) eqn:E2; simpl; left; split; try done; [|by destruct r1].
    apply Z.eqb_eq in E2. subst code. destruct I1 as [[_ ?]|[E1 ?]]; [|congruence]. by destruct r1.
Qed.

Lemma benign_exited code : benign (Exited code) = (code =? EXIT_SUCCESS) || (code =? EXIT_SCRIPTFAIL).
Proof.
  unfold benign. apply eq_true_iff_eq.
  rewrite !orb_true_iff, !bool_decide_eq_true, !Z.eqb_eq. split.
  - intros [H|H]; [left|right]; congruence.
  - intros [H|H]; [left|right]; congruence.
Qed.

Lemma explore_benign c s : testing s → script_ok c →
  (benign (snd (explore c s)) = true) ↔ (∀ ds, benign (follow (locs s) c ds) = true).
Proof.
  revert s; induction c as [st|once loc line k IH]; intros s Hs Hc; [split; [done|intros H; apply (H [])]|].
  destruct Hc as (Hl & Hp & Hk). cbn [explore follow]. fold (ask once). destruct (once && known loc (locs s)) eqn:Ek.
  { apply andb_true_iff in Ek as [-> Ek]. destruct (ask_known loc line s Hs Ek) as (E & Hs' & <-). rewrite E. by apply IH. }
  destruct (ask_testing once loc line s Hs Hl Hp Ek) as (ch & pa & E & Hch & Hpa & Hd1 & Hd2). rewrite E. clear E.
  pose proof (IH true ch Hch (Hk true)) as I1. destruct (explore (k true) ch) as [r1 st1]. simpl in I1.
  pose proof (IH false pa Hpa (Hk false)) as I2. destruct (explore (k false) pa) as [r2 st2] eqn:Epa. simpl in I2.
  rewrite (locs_next _ _ _ Hd1) in I1. rewrite (locs_next _ _ _ Hd2) in I2. cbn [location] in I1, I2.
  assert (Hsplit : (∀ ds, benign (follow (locs s ++ [loc]) (k (default false (head ds))) (tail ds)) = true) ↔
    ((∀ ds, benign (follow (locs s ++ [loc]) (k true) ds) = true) ∧ (∀ ds, benign (follow (locs s ++ [loc]) (k false) ds) = true))).
  { split.
    - intros H. split; intros ds; [apply (H (true :: ds))|apply (H (false :: ds))].
    - intros [Ht Hf] [|[] ds]; simpl; [apply (Hf [])|apply Ht|apply Hf]. }
  rewrite Hsplit, <-I1, <-I2. unfold parent_after_wait.
  destruct st1 as [code|sig]; [|split; [done|intros [? _]; done]]. rewrite <-benign_exited.
  destruct (benign (Exited code)) eqn:E; [rewrite Epa; simpl; tauto|].
  destruct (code =? EXIT_SILENT); (split; [done|intros [? _]; congruence]).
Qed.

Lemma explore_quiet c s : benign (snd (explore c s)) = true → fst (explore c s) = [].
Proof.
  revert s; induction c as [st|once loc line k IH]; intros s; [done|]. cbn [explore].
  destruct ((if once then should_i_fail_once else should_i_fail) loc (set_linenum line s)) as [[b s'|ch pa]| |]; [apply IH| |done..].
  pose proof (IH true ch) as I1. destruct (explore (k true) ch) as [r1 st1]. cbn in I1. unfold parent_after_wait.
  destruct st1 as [code|sig]; [|done]. rewrite <-benign_exited. destruct (benign (Exited code)) eqn:E; [|by destruct (negb _)].
  pose proof (IH false pa) as I2. destruct (explore (k false) pa) as [r2 st2]. cbn in *. intros Hb. by rewrite I1, I2.
Qed.

(** *** Replay *)

Lemma mem_lit c l : mem c l = bool_decide (c ∈ l).
Proof. reflexivity. Qed.

Lemma match_location_printed func rest :
  match_location func (tx "[" ++ func ++ tx "]" ++ rest) = Ret (length func + 2)%nat.
Proof.
  unfold match_location. simpl. rewrite drop_0.
  assert (strstarts (func ++ "]"%char :: rest) func = true) as -> by (apply strstarts_spec; eauto).
  unfold char_at. rewrite drop_app_length. simpl. done.
Qed.

Lemma match_line_printed line rest : 0 <= line < 2 ^ 31 →
  match_line line (tx ":" ++ print_u line ++ tx ":" ++ rest) = Ret (length (print_u line) + 2)%nat.
Proof.
  intros Hl. unfold match_line. change (hd0 (tx ":" ++ print_u line ++ tx ":" ++ rest)) with ":"%char.
  change (ascii_eqb ":" ":") with true. cbv iota.
  change (drop 1 (tx ":" ++ print_u line ++ tx ":" ++ rest)) with (print_u line ++ ":"%char :: rest).
  rewrite strtoul_print_u by (done || (unfold ULONG_MAX; lia)).
  unfold char_at. rewrite drop_app_length. simpl. rewrite Z.eqb_refl. done.
Qed.

Lemma print_d_line line : 0 <= line < 2 ^ 31 → print_d (signed 32 line) = print_u line.
Proof.
  intros Hl. unfold signed. rewrite wrap_small by lia. simpl.
  rewrite (proj2 (Z.ltb_lt _ _)) by lia. unfold print_d. by rewrite (proj2 (Z.ltb_ge _ _)) by lia.
Qed.

Lemma failpath_string_cons d ds : 0 <= tui_line d < 2 ^ 31 →
  failpath_string (d :: ds) = (tx "[" ++ location d ++ tx "]") ++ (tx ":" ++ print_u (tui_line d) ++ tx ":") ++
    show_failed (failed d) ++ failpath_string ds.
Proof.
  intros Hd. cbn [failpath_string]. rewrite print_d_line by done. simpl.
  repeat (rewrite <-app_assoc; simpl). done.
Qed.

(** Reading one printed decision. *)
Lemma do_failpath_printed pre d rest s :
  0 <= tui_line d < 2 ^ 31 → tui_linenum s = tui_line d →
  failpath s = Some (length pre) → orig_failpath s = pre ++ failpath_string [d] ++ rest →
  do_failpath (location d) s =
    Ret (failed d, set_failpath (Some (length (pre ++ failpath_string [d]))) s).
Proof.
  intros Hd Hln Hf Ho. unfold do_failpath. rewrite Hf, Ho, Hln.
  rewrite failpath_string_cons by done. cbn [failpath_string]. rewrite app_nil_r.
  set (A := tx "[" ++ location d ++ tx "]"). set (B := tx ":" ++ print_u (tui_line d) ++ tx ":").
  rewrite drop_app_length.
  assert (HA : length A = (length (location d) + 2)%nat) by (unfold A; rewrite !length_app; simpl; lia).
  assert (HB : length B = (length (print_u (tui_line d)) + 2)%nat) by (unfold B; rewrite !length_app; simpl; lia).
  assert (E1 : ∀ r, match_location (location d) (A ++ r) = Ret (length A)).
  { intros r. rewrite HA. unfold A. rewrite <-!app_assoc. apply match_location_printed. }
  assert (E2 : ∀ r, match_line (tui_line d) (B ++ r) = Ret (length B)).
  { intros r. rewrite HB. unfold B. rewrite <-!app_assoc. by apply match_line_printed. }
  clearbody A B. rewrite <-!app_assoc, E1. simpl. rewrite drop_app. rewrite (drop_ge pre) by lia.
  replace (length pre + length A - length pre)%nat with (length A) by lia. rewrite app_nil_l.
  rewrite drop_app_length, E2. simpl. unfold char_at.
  replace (length pre + length A + length B)%nat with (length (pre ++ A ++ B)) by (rewrite !length_app; lia).
  replace (pre ++ A ++ B ++ show_failed (failed d) ++ rest) with ((pre ++ A ++ B) ++ show_failed (failed d) ++ rest)
    by (by rewrite <-!app_assoc).
  rewrite drop_app_length.
  assert (Hlen : S (length (pre ++ A ++ B)) = length (pre ++ A ++ B ++ show_failed (failed d))).
  { rewrite !length_app. destruct (failed d); simpl; lia. }
  rewrite Hlen. by destruct (failed d).
Qed.

(** The state of a process that replays [p] and has read the decisions [ds] of it. *)
Definition replaying (p : text) (ds : list fail_decision) (s : ft_state) : Prop :=
  suppress_failtest s = 0 ∧ failtest s = false ∧ failpath s = Some (length (failpath_string ds)) ∧ orig_failpath s = p ∧ decisions s = [].

(** A point that asks once looks in the path for its own location in brackets. *)
Definition no_brackets (loc : text) : Prop := "["%char ∉ loc ∧ "]"%char ∉ loc.
Definition in_brackets (path loc : text) : bool :=
  forallb (λ n, negb (strstarts (drop n path) loc) ||
    match n with O => false | S n' => ascii_eqb (char_at path n') "[" && ascii_eqb (char_at path (n + length loc)) "]" end) (seq 0 (S (length path))).
Lemma in_brackets_spec path loc n : in_brackets path loc = true → (n <= length path)%nat → strstarts (drop n path) loc = true →
  ∃ n', n = S n' ∧ char_at path n' = "["%char ∧ char_at path (n + length loc) = "]"%char.
Proof.
  unfold in_brackets. rewrite forallb_forall. intros H Hn Hs. specialize (H n). rewrite Hs in H. cbn [negb orb] in H.
  specialize (H ltac:(apply in_seq; lia)). destruct n as [|n']; [done|]. apply andb_true_iff in H as [H1%ascii_eqb_spec H2%ascii_eqb_spec]. by exists n'.
Qed.

Definition entry_ok (d : fail_decision) : Prop := 0 <= tui_line d < 2 ^ 31 ∧ no_brackets (location d).
Definition inside (d : fail_decision) : text := location d ++ tx "]:" ++ print_u (tui_line d) ++ tx ":" ++ show_failed (failed d).
Lemma failpath_string_entry d ds : 0 <= tui_line d < 2 ^ 31 → failpath_string (d :: ds) = "["%char :: inside d ++ failpath_string ds.
Proof. intros Hd. rewrite failpath_string_cons by done. unfold inside. cbn. rewrite <-!app_assoc. cbn. by rewrite <-!app_assoc. Qed.
Lemma inside_no_bracket d : entry_ok d → "["%char ∉ inside d.
Proof.
  intros [Hl [Hb _]]. unfold inside. rewrite !not_elem_of_app. assert (E : ∀ l : text, bool_decide ("["%char ∈ l) = false → "["%char ∉ l) by (by intros l; rewrite bool_decide_eq_false).
  split; [done|]. split; [by apply E|]. split; [|split; [by apply E|by destruct (failed d); apply E]].
  - intros Hin. pose proof (print_u_digits (tui_line d) ltac:(lia)) as HF. eapply Forall_forall in HF; [|exact Hin]. done.
Qed.
Lemma failpath_string_app a b : Forall entry_ok a → failpath_string (a ++ b) = failpath_string a ++ failpath_string b.
Proof.
  induction 1 as [|d a [Hd _] _ IH]; [done|]. cbn [app]. rewrite !failpath_string_entry by done. rewrite IH. cbn. by rewrite <-app_assoc.
Qed.
Lemma char_at_app_l (a b : text) k : (k < length a)%nat → char_at (a ++ b) k = char_at a k.
Proof. intros Hk. unfold char_at. rewrite drop_app_le by lia. destruct (drop k a) eqn:E; [|done]. apply (f_equal length) in E. rewrite length_drop in E. cbn in E. lia. Qed.
Lemma char_at_elem (a : text) k : (k < length a)%nat → char_at a k ∈ a.
Proof.
  intros Hk. destruct (lookup_lt_is_Some_2 a k Hk) as [c Hc]. unfold char_at. rewrite (drop_S _ _ _ Hc). by eapply list_elem_of_lookup_2.
Qed.
Lemma char_at_app_r (a b : text) k : (length a <= k)%nat → char_at (a ++ b) k = char_at b (k - length a).
Proof. intros Hk. unfold char_at. by rewrite drop_app, (drop_ge a) by lia. Qed.

Lemma drop_past (a b : text) c : drop (S (length a)) (a ++ c :: b) = b.
Proof. by induction a. Qed.
Lemma drop_add_past n (a b : text) c : drop (S (length a) + n) (a ++ c :: b) = drop n b.
Proof. by induction a. Qed.

(** A bracket opens only at an entry. *)
Lemma bracket_entry ds k : Forall entry_ok ds → char_at (failpath_string ds) k = "["%char →
  ∃ ds1 d ds2, ds = ds1 ++ d :: ds2 ∧ k = length (failpath_string ds1).
Proof.
  intros HF. revert k. induction HF as [|d ds Hd HF IH]; intros k.
  { cbn [failpath_string]. unfold char_at. by rewrite drop_nil. }
  rewrite failpath_string_entry by apply Hd. destruct k as [|k]; [by exists [], d, ds|]. change (char_at ("["%char :: ?x) (S k)) with (char_at x k).
  destruct (Nat.lt_ge_cases k (length (inside d))) as [Hk|Hk].
  - rewrite char_at_app_l by done. intros E. exfalso. apply (inside_no_bracket d Hd). rewrite <-E. by apply char_at_elem.
  - rewrite char_at_app_r by done. intros (ds1 & d1 & ds2 & -> & E)%IH. exists (d :: ds1), d1, ds2. split; [done|].
    rewrite failpath_string_entry by apply Hd. cbn [length]. rewrite length_app. lia.
Qed.
Lemma same_name (a b x y : text) : "]"%char ∉ a → "]"%char ∉ b → a ++ "]"%char :: x = b ++ "]"%char :: y → a = b.
Proof.
  intros Ha. revert b; induction a as [|c a IH]; intros [|c' b] Hb; cbn; [done|..].
  - intros [= <- _]. exfalso. apply Hb. by left.
  - intros [= -> _]. exfalso. apply Ha. by left.
  - apply not_elem_of_cons in Ha as [_ Ha]. apply not_elem_of_cons in Hb as [_ Hb]. intros [= -> E]. f_equal. by apply (IH Ha b).
Qed.
Lemma failpath_string_length_pos d ds : 0 <= tui_line d < 2 ^ 31 → (0 < length (failpath_string (d :: ds)))%nat.
Proof. intros Hd. rewrite failpath_string_entry by done. cbn. lia. Qed.

Lemma known_spec loc ds : known loc (map location ds) = true ↔ ∃ d, d ∈ ds ∧ location d = loc.
Proof.
  unfold known. rewrite existsb_exists. split.
  - intros (l & Hin & E%streq_spec). subst l. apply list_elem_of_In, list_elem_of_fmap in Hin as (d & -> & Hd). by exists d.
  - intros (d & Hd & <-). exists (location d). split; [|by apply streq_spec]. by apply list_elem_of_In, list_elem_of_fmap_2.
Qed.

(** Whether should_i_fail_once finds the location among the decisions that were read. *)
Lemma finds_known loc ds ds' : Forall entry_ok (ds ++ ds') → no_brackets loc →
  let path := failpath_string (ds ++ ds') in let off := length (failpath_string ds) in in_brackets path loc = true →
  match strstr path loc with
  | Some p => if (p <=? off)%nat then known loc (map location ds) = true ∧ ∃ p', p = S p' ∧ char_at path p' = "["%char ∧ char_at path (p + length loc) = "]"%char
              else known loc (map location ds) = false
  | None => known loc (map location ds) = false
  end.
Proof.
  intros HF Hn path off Hin. pose proof (proj1 (Forall_app _ _ _) HF) as [HF1 HF2].
  assert (Hpath : path = failpath_string ds ++ failpath_string ds') by by apply failpath_string_app.
  assert (Hat : ∀ d, d ∈ ds → location d = loc → ∃ j, (j <= off)%nat ∧ strstarts (drop j path) loc = true).
  { intros d (a & b & ->)%list_elem_of_split El. exists (S (length (failpath_string a))). apply Forall_app in HF1 as [Ha Hb].
    apply Forall_cons in Hb as [Hd Hb]. unfold off. rewrite failpath_string_app, failpath_string_entry by (done || apply Hd).
    split; [rewrite length_app; cbn; lia|]. rewrite Hpath.
    rewrite failpath_string_app, failpath_string_entry by (done || apply Hd). rewrite <-app_assoc. cbn [app]. rewrite drop_past. apply strstarts_spec. unfold inside. rewrite El, <-!app_assoc. by eexists. }
  assert (Hno : (∀ j, (j <= off)%nat → strstarts (drop j path) loc = false) → known loc (map location ds) = false).
  { intros Hj. destruct (known loc (map location ds)) eqn:E; [|done]. apply known_spec in E as (d & Hd & El). destruct (Hat d Hd El) as (j & Hjo & Hs). by rewrite Hj in Hs. }
  assert (Hoff : (off <= length path)%nat) by (rewrite Hpath, length_app; unfold off; lia).
  destruct (strstr path loc) as [p|] eqn:Es; [|apply Hno; intros j Hj; apply (strstr_None _ _ Es); lia].
  apply strstr_spec in Es as [Hp Hmin]. destruct (Nat.leb_spec p off) as [Hle|Hlt]; [|apply Hno; intros j Hj; apply Hmin; lia].
  destruct (in_brackets_spec path loc p Hin ltac:(lia) Hp) as (p' & -> & Hb1 & Hb2). split; [|by exists p'].
  destruct (bracket_entry (ds ++ ds') p' HF Hb1) as (a & d & b & E & Ep). apply known_spec. exists d.
  assert (Ha : Forall entry_ok a ∧ entry_ok d) by (rewrite E in HF; apply Forall_app in HF as [? [? ?]%Forall_cons]; done). destruct Ha as [Ha Hd]. split.
  - apply app_eq_inv in E as [(l & E1 & E2)|(l & E1 & E2)].
    + destruct l as [|x l]; [|by injection E2 as <- _; rewrite E1; apply elem_of_app; right; left].
      exfalso. rewrite app_nil_r in E1. subst a. unfold off in Hle. lia.
    + exfalso. rewrite E1, failpath_string_app in Ep by done. rewrite length_app in Ep. unfold off in Hle. lia.
  - apply strstarts_spec in Hp as [r Hr]. unfold path in Hr, Hb2. rewrite E, failpath_string_app, failpath_string_entry in Hr by (done || apply Hd).
    rewrite Ep, drop_past in Hr. unfold inside in Hr.
    unfold char_at in Hb2. rewrite E, failpath_string_app, failpath_string_entry, Ep, drop_add_past in Hb2 by (done || apply Hd).
    unfold inside in Hb2. rewrite Hr, drop_app_length in Hb2. destruct r as [|c r]; [done|]. cbn in Hb2. subst c.
    rewrite <-!app_assoc in Hr. cbn [app String.list_ascii_of_string] in Hr. symmetry. eapply same_name; [apply Hn|apply Hd|]. symmetry. exact Hr.
Qed.

(** Two ways through a point in the replay, and its end. *)
Lemma replay_known p ds ds' s loc line : replaying p ds s → p = failpath_string (ds ++ ds') → Forall entry_ok (ds ++ ds') →
  no_brackets loc → in_brackets p loc = true → known loc (map location ds) = true →
  ask true loc (set_linenum line s) = Ret (Decided false (set_linenum line s)).
Proof.
  intros (R1 & R2 & R3 & R4 & R5) -> HF Hn Hin Hk. pose proof (finds_known loc ds ds' HF Hn Hin) as H. unfold ask, should_i_fail_once.
  cbn [set_linenum suppress_failtest failpath orig_failpath]. rewrite R1, R3, R4. cbn [Z.eqb negb]. destruct (strstr _ loc) as [q|]; [|congruence].
  destruct (q <=? _)%nat; [|congruence]. destruct H as (_ & q' & -> & E1 & E2). rewrite E1, E2. done.
Qed.
Lemma replay_asks p ds ds' s once loc line : replaying p ds s → p = failpath_string (ds ++ ds') → Forall entry_ok (ds ++ ds') →
  no_brackets loc → (once = true → in_brackets p loc = true) → once && known loc (map location ds) = false →
  ask once loc (set_linenum line s) = ('(b, s) ← do_failpath loc (set_linenum line s); mret (Decided b s)).
Proof.
  intros (R1 & R2 & R3 & R4 & R5) -> HF Hn Hin Hk. destruct once; cbn [ask andb] in *.
  - pose proof (finds_known loc ds ds' HF Hn (Hin eq_refl)) as H. unfold should_i_fail_once.
    cbn [set_linenum suppress_failtest failpath orig_failpath]. rewrite R1, R3, R4. cbn [Z.eqb negb]. destruct (strstr _ loc) as [q|]; [|done].
    destruct (q <=? _)%nat; [destruct H; congruence|done].
  - unfold should_i_fail. cbn [set_linenum suppress_failtest failpath]. by rewrite R1, R3.
Qed.
Lemma replay_next p ds d ds' s : replaying p ds s → p = failpath_string (ds ++ d :: ds') → Forall entry_ok (ds ++ d :: ds') →
  do_failpath (location d) (set_linenum (tui_line d) s) =
    Ret (failed d, set_failpath (Some (length (failpath_string (ds ++ [d])))) (set_linenum (tui_line d) s)).
Proof.
  intros (R1 & R2 & R3 & R4 & R5) -> HF. apply Forall_app in HF as [HF [Hd HF']%Forall_cons]. rewrite failpath_string_app by done.
  apply (do_failpath_printed (failpath_string ds) d (failpath_string ds')); cbn [set_linenum tui_linenum failpath orig_failpath]; [apply Hd|done|done|].
  rewrite R4, failpath_string_app by done. rewrite failpath_string_entry by apply Hd. change (d :: ds') with ([d] ++ ds'). by rewrite failpath_string_entry, app_nil_r by apply Hd.
Qed.

(** The points of a script. *)
Fixpoint points (P : bool → text → Prop) (c : script) : Prop :=
  match c with Done _ => True | FailPoint once loc _ k => P once loc ∧ ∀ b, points P (k b) end.
Definition names (p : text) (once : bool) (loc : text) : Prop := no_brackets loc ∧ (once = true → in_brackets p loc = true).

Lemma replay_end p ds c s : replaying p ds s → p = failpath_string ds → Forall entry_ok ds → points (names p) c →
  explore c s = ([], follow (map location ds) c []).
Proof.
  intros R Hp HF. revert s R; induction c as [st|once loc line k IH]; intros s R Hc; [done|]. cbn [explore follow]. fold (ask once). destruct Hc as [[Hn Hin] Hk].
  assert (Hp' : p = failpath_string (ds ++ [])) by (by rewrite app_nil_r). assert (HF' : Forall entry_ok (ds ++ [])) by (by rewrite app_nil_r).
  destruct (once && known loc (map location ds)) eqn:Ek.
  - apply andb_true_iff in Ek as [-> Ek]. rewrite (replay_known p ds [] s loc line) by auto. by apply IH.
  - rewrite (replay_asks p ds [] s once loc line) by auto. destruct R as (R1 & R2 & R3 & R4 & R5). unfold do_failpath.
    cbn [set_linenum failpath orig_failpath]. rewrite R3, R4, Hp, drop_all. simpl. unfold char_at. repeat (rewrite ?Nat.add_0_r, ?drop_all; simpl).
    by apply explore_off.
Qed.

(** What a script has come to under --failtest, with the decisions that were made. *)
Inductive reached (c0 : script) : list fail_decision → script → Prop :=
| reached_start : reached c0 [] c0
| reached_asked ds once loc line k b : reached c0 ds (FailPoint once loc line k) → once && known loc (map location ds) = false →
    reached c0 (ds ++ [FailDecision loc line b]) (k b)
| reached_known ds loc line k : reached c0 ds (FailPoint true loc line k) → known loc (map location ds) = true → reached c0 ds (k false).

Lemma reached_points P c0 ds c : points P c0 → reached c0 ds c → points P c.
Proof. intros Hc. induction 1 as [|? ? ? ? ? ? _ IH _|? ? ? ? _ IH _]; [done|apply IH|apply IH]. Qed.

Lemma reached_entries p c0 ds c : points (names p) c0 → reached c0 ds c → Forall line_ok ds → Forall entry_ok ds.
Proof.
  intros Hc. induction 1 as [|ds once loc line k b Hr IH Hk|ds loc line k Hr IH Hk]; intros HF; [done| |by apply IH].
  apply Forall_app in HF as [HF [[Hl _] _]%Forall_cons]. apply Forall_app. split; [by apply IH|]. apply Forall_singleton. split; [done|].
  by destruct (reached_points _ _ _ _ Hc Hr) as [[Hn _] _].
Qed.

(** The replay comes to the same point. *)
Lemma replay_reaches p c0 s0 ds c : replaying p [] s0 → points (names p) c0 → reached c0 ds c →
  ∀ ds', p = failpath_string (ds ++ ds') → Forall entry_ok (ds ++ ds') → ∃ s, replaying p ds s ∧ explore c0 s0 = explore c s.
Proof.
  intros R0 Hc. induction 1 as [|ds once loc line k b Hr IH Hk|ds loc line k Hr IH Hk]; intros ds' Hp HF; [by exists s0| |];
    destruct (reached_points _ _ _ _ Hc Hr) as [[Hn Hin] _].
  - rewrite <-app_assoc in Hp, HF. cbn [app] in Hp, HF. destruct (IH _ Hp HF) as (s & R & E).
    eexists. split; [|rewrite E; cbn [explore]; fold (ask once); rewrite (replay_asks p ds (FailDecision loc line b :: ds')) by done;
      pose proof (replay_next p ds (FailDecision loc line b) ds' s R Hp HF) as N; cbn [location tui_line failed] in N; rewrite N; reflexivity].
    by destruct R as (R1 & R2 & R3 & R4 & R5).
  - destruct (IH _ Hp HF) as (s & R & E). exists (set_linenum line s). split; [by destruct R as (? & ? & ? & ? & ?)|].
    rewrite E. cbn [explore]. fold (ask true). rewrite (replay_known p ds ds') by auto. done.
Qed.

(** A report names the decisions that led there, and its status is what
    succeeding from there on ends in. *)
Lemma explore_report c0 c s w p :
  testing s → script_ok c → reached c0 (decisions s) c → (w, p) ∈ fst (explore c s) →
  ∃ ds c', Forall line_ok ds ∧ reached c0 ds c' ∧ p = failpath_string ds ∧
    follow [] c' [] = w ∧ benign w = false.
Proof.
  revert s; induction c as [st|once loc line k IH]; intros s Hs Hc Hr Hin; [by apply not_elem_of_nil in Hin|].
  destruct Hc as (Hl & Hp & Hk). cbn [explore] in Hin. fold (ask once) in Hin. destruct (once && known loc (locs s)) eqn:Ek.
  { apply andb_true_iff in Ek as [-> Ek]. destruct (ask_known loc line s Hs Ek) as (E & Hs' & _). rewrite E in Hin.
    eapply (IH false (set_linenum line s)); [done|apply Hk| |exact Hin]. by eapply reached_known. }
  destruct (ask_testing once loc line s Hs Hl Hp Ek) as (ch & pa & E & Hch & Hpa & Hd1 & Hd2).
  assert (Hnext : ∀ b, reached c0 (decisions s ++ [FailDecision loc line b]) (k b)) by (intros b; by eapply reached_asked).
  rewrite E in Hin. pose proof (explore_status (k true) ch Hch (Hk true)) as Hst.
  pose proof (IH true ch Hch (Hk true)) as I1. rewrite Hd1 in I1.
  specialize (I1 (Hnext true)). destruct (explore (k true) ch) as [r1 st1]. simpl in *.
  pose proof (IH false pa Hpa (Hk false)) as I2. rewrite Hd2 in I2.
  specialize (I2 (Hnext false)). destruct (explore (k false) pa) as [r2 st2] eqn:Epa. simpl in *.
  assert (Hnew : st1 ≠ Exited EXIT_SILENT → benign st1 = false →
    (w, p) = (st1, failpath_string (set_last_failed true (decisions pa))) →
    ∃ ds c', Forall line_ok ds ∧ reached c0 ds c' ∧ p = failpath_string ds ∧ follow [] c' [] = w ∧ benign w = false).
  { intros Hns Hb [= -> ->]. rewrite Hd2, set_last_failed_snoc.
    exists (decisions s ++ [FailDecision loc line true]), (k true). split_and!; try done.
    - rewrite <-Hd1. apply Hch.
    - destruct Hst as [[? _]|[-> _]]; done. }
  unfold parent_after_wait in Hin. destruct st1 as [code|sig].
  - rewrite <-benign_exited in Hin. destruct (benign (Exited code)) eqn:Eb.
    + rewrite Epa in Hin. simpl in Hin. apply elem_of_app in Hin as [?|?]; auto.
    + destruct (code =? EXIT_SILENT) eqn:Ec; simpl in Hin; apply elem_of_app in Hin as [?|Hin]; auto.
      * by apply not_elem_of_nil in Hin.
      * apply list_elem_of_singleton in Hin. apply Hnew; [|done..]. apply Z.eqb_neq in Ec. congruence.
  - simpl in Hin. apply elem_of_app in Hin as [?|Hin]; auto.
    apply list_elem_of_singleton in Hin. by apply Hnew.
Qed.

(** C9: --failtest is exhaustive: the run ends benignly (success or a mere
    script failure) iff every combination of failures and successes does, and
    then nothing is reported and the status is the all-success run's.  A point
    that asks should_i_fail_once is one of the combination where its location is
    met the first time; from then on it succeeds. *)
Theorem failtest_exhaustive (c : script) :
  script_ok c →
  let '(reports, status) := explore c (cmdline_failtest ft_init) in
  ((benign status = true) ↔ (∀ ds, benign (follow [] c ds) = true)) ∧
  ((∀ ds, benign (follow [] c ds) = true) → reports = [] ∧ status = follow [] c []) ∧
  (status ≠ follow [] c [] → status = Exited EXIT_SILENT ∧ reports ≠ []).
Proof.
  intros Hc. assert (Ht : testing (cmdline_failtest ft_init)) by (by repeat split).
  pose proof (explore_benign c _ Ht Hc) as H1. pose proof (explore_status c _ Ht Hc) as H2. pose proof (explore_quiet c (cmdline_failtest ft_init)) as H3.
  destruct (explore c _) as [reports status]. simpl in *. split_and!; [done| |].
  - intros Hall. apply H1 in Hall. split; [by apply H3|]. destruct H2 as [[-> _]|[? _]]; [done|done].
  - intros Hne. by destruct H2 as [[? ?]|[? _]].
Qed.

(** C30: every failure path --failtest reports is reproducible: the same script
    run with that string as --failpath takes exactly that path and ends with the
    reported, non-benign status.  The script's points ask should_i_fail or
    should_i_fail_once, in any mixture; locations hold no brackets (they are
    function names and file:line), and the location of a point that asks once
    stands in the reported string only in brackets, never inside a longer one
    (without that the replay may abort: once_replay_barfs). *)
Theorem failpath_replays (c : script) (w : wstatus) (p : text) :
  script_ok c → points (names p) c → (w, p) ∈ fst (explore c (cmdline_failtest ft_init)) →
  benign w = false ∧ explore c (cmdline_failpath p ft_init) = ([], w).
Proof.
  intros Hc Hn Hin. assert (Ht : testing (cmdline_failtest ft_init)) by (by repeat split).
  destruct (explore_report c c _ w p Ht Hc (reached_start c) Hin) as (ds & c' & HF & Hr & Hp & <- & Hb). split; [done|].
  pose proof (reached_entries p c ds c' Hn Hr HF) as HE.
  destruct (replay_reaches p c (cmdline_failpath p ft_init) ds c' ltac:(done) Hn Hr [] ltac:(by rewrite app_nil_r) ltac:(by rewrite app_nil_r)) as (s & R & ->).
  rewrite (replay_end p ds c' s R Hp HE (reached_points _ _ _ _ Hn Hr)). by rewrite (follow_nil _ []).
Qed.

End Failtest.

(** A script that reads a header (skb_header_pointer asks once), allocates a
    packet, reads a header again and crashes when the copy to user space fails
    after the allocation succeeded. *)
Definition crashing : script :=
  FailPoint true (tx "skb_header_pointer") 2 (λ b0, FailPoint false (tx "alloc_skb") 3 (λ b1,
    FailPoint true (tx "skb_header_pointer") 7 (λ b2, FailPoint false (tx "copy_to_user") 12 (λ b3,
      Done (if negb b1 && b3 then Signalled 11 else if b0 || b1 || b2 || b3 then Exited EXIT_SCRIPTFAIL else Exited 0))))).

Lemma crashing_ok : script_ok 0 crashing.
Proof.
  simpl. split_and!; try lia. intros b0. split_and!; try lia. intros b1. split_and!; try lia. intros b2. split_and!; try lia.
  intros b3. by destruct (negb b1 && b3), (b0 || b1 || b2 || b3).
Qed.

Lemma failtest_exhaustive_witness :
  let '(reports, status) := explore 0 crashing (cmdline_failtest ft_init) in
  reports = [(Signalled 11, tx "[skb_header_pointer]:2:F[alloc_skb]:3:S[copy_to_user]:12:F")] ∧
  status = Exited EXIT_SILENT ∧
  ((benign status = true) ↔ (∀ ds, benign (follow [] crashing ds) = true)).
Proof.
  pose proof (failtest_exhaustive 0 crashing crashing_ok) as T.
  destruct (explore 0 crashing (cmdline_failtest ft_init)) as [r st] eqn:E.
  vm_compute in E. injection E as <- <-. split_and!; [done|done|apply T].
Defined.

Lemma failpath_replays_witness :
  benign (Signalled 11) = false ∧
  explore 0 crashing (cmdline_failpath (tx "[skb_header_pointer]:2:F[alloc_skb]:3:S[copy_to_user]:12:F") ft_init) = ([], Signalled 11).
Proof.
  apply failpath_replays; [exact crashing_ok| |].
  - repeat (split; [split; [split; by apply (bool_decide_unpack _)|vm_compute; done]|intros ?]). exact I.
  - apply (bool_decide_unpack _). by vm_compute.
Defined.

(** should_i_fail_once looks a location up as a substring of the whole path, so
    a location that is part of an earlier one is not recognised: the run below
    decided [b] once, its path holds no second decision for it, and the replay
    gives up. *)
Lemma once_replay_barfs :
  let s := set_failpath (Some 12%nat) (cmdline_failpath (tx "[ab]:1:S[b]:1:S[c]:1:F") ft_init) in
  let at_c := set_failpath (Some 15%nat) (set_linenum 1 s) in
  should_i_fail_once 0 (tx "b") at_c = Barf "Failpath expected another location".
Proof. vm_compute. reflexivity. Qed.

(** When the run of decisions on a line reaches the end of the list, the
    forward loop of failpath_string_for_line takes the list head for an entry. *)
Lemma failpath_string_for_line_head :
  let d l b := FailDecision (tx "f") l b in
  failpath_string_for_line 7 [d 3 false] [d 7 true] =
    Fault "failpath_string_for_line: list head printed as an entry".
Proof. vm_compute. reflexivity. Qed.
