(* ===== verification/Csum.v ===== *)
(** * core/ipv4/ipv4.c: Internet checksums

    do_csum and the functions on top of it, on the bytes of the buffer and the
    address they are at (the code branches on its alignment).  [big] selects the
    byte order of the build.  The reference is the one's complement sum of RFC
    1071, [ref_sum], folded by [fold16]. *)

From Stdlib Require Import ZArith Lia.
From S2P Require Import Prelude.

(** ** Memory words *)

Definition word (big : bool) (l : list Z) : Z := if big then le_word (rev l) else le_word l.
Definition bytes (big : bool) (n : nat) (x : Z) : list Z :=
  if big then rev (le_bytes n x) else le_bytes n x.

(** Reading [n] bytes at the front of what is left of the buffer. *)
Definition rd (big : bool) (n : nat) (buff : list Z) : outcome Z :=
  if (n <=? length buff)%nat then mret (word big (take n buff)) else Fault "read past the buffer".

Definition swab16 (x : Z) : Z := Z.lor (Z.shiftl (Z.land x 0xff) 8) (Z.shiftr (Z.land x 0xff00) 8).
Definition htons (big : bool) (x : Z) : Z := if big then x else swab16 x.

(** ** The checksum functions *)

(** [unsigned long] argument, [unsigned short] result. *)
Definition from32to16 (x : Z) : Z :=
  let x := u64 (Z.land x 0xffff + Z.shiftr x 16) in
  let x := u64 (Z.land x 0xffff + Z.shiftr x 16) in
  u16 x.

(** [do { w = *(unsigned int * ) buff; ... } while (count)] *)
Fixpoint csum_loop (big : bool) (count : nat) (result carry : Z) (buff : list Z) :
    outcome (Z * Z * list Z) :=
  match count with
  | O => mret (result, carry, buff)
  | S count =>
      w ← rd big 4 buff;
      let result := u64 (u64 (result + carry) + w) in
      csum_loop big count result (c_bool (result <? w)) (drop 4 buff)
  end.

(** One 16-bit word first when the address is not 4-aligned. *)
Definition csum_align (big : bool) (addr result count len : Z) (buff : list Z) :
    outcome (Z * Z * Z * list Z) :=
  if Z.testbit addr 1 then
    w ← rd big 2 buff; mret (u64 (result + w), count - 1, len - 2, drop 2 buff)
  else mret (result, count, len, buff).

(** The 32-bit words, their carries, and the first fold. *)
Definition csum_dwords (big : bool) (count result : Z) (buff : list Z) : outcome (Z * list Z) :=
  if count =? 0 then mret (result, buff) else
  '(result, carry, buff) ← csum_loop big (Z.to_nat count) result 0 buff;
  let result := u64 (result + carry) in
  mret (u64 (Z.land result 0xffff + Z.shiftr result 16), buff).

(** The middle of the buffer: [addr] and [len] after the odd byte. *)
Definition csum_words (big : bool) (addr len result : Z) (buff : list Z) : outcome (Z * Z * list Z) :=
  let count := Z.shiftr len 1 in
  if count =? 0 then mret (result, len, buff) else
  '(result, count, len, buff) ← csum_align big addr result count len buff;
  '(result, buff) ← csum_dwords big (Z.shiftr count 1) result buff;
  if Z.testbit len 1 then
    w ← rd big 2 buff; mret (u64 (result + w), len, drop 2 buff)
  else mret (result, len, buff).

Definition do_csum (big : bool) (addr : Z) (buff : list Z) (len : Z) : outcome Z :=
  if len <=? 0 then mret 0 else
  let odd := Z.testbit addr 0 in
  '(result, len, addr, buff) ←
    (if odd then b ← rd big 1 buff; mret (b, len - 1, addr + 1, drop 1 buff)
     else mret (0, len, addr, buff));
  '(result, len, buff) ← csum_words big addr len result buff;
  result ← (if Z.testbit len 0 then
              b ← rd big 1 buff; mret (u64 (result + Z.shiftl b 8))
            else mret result);
  let result := from32to16 result in
  mret (if odd then Z.lor (Z.land (Z.shiftr result 8) 0xff) (Z.shiftl (Z.land result 0xff) 8)
        else result).

Definition ip_fast_csum (big : bool) (addr : Z) (iph : list Z) (ihl : Z) : outcome Z :=
  s ← do_csum big addr iph (ihl * 4); mret (cnot 16 s).

(** The complement is taken at [int] width: the result's upper half is 0xffff. *)
Definition csum_fold (sum : Z) : Z := cnot 32 (from32to16 sum).

Definition csum_partial (big : bool) (addr : Z) (buff : list Z) (len sum : Z) : outcome Z :=
  s ← do_csum big addr buff len;
  let result := u32 (s + sum) in
  mret (if result <? sum then u32 (result + 1) else result).

Definition ip_compute_csum (big : bool) (addr : Z) (buff : list Z) (len : Z) : outcome Z :=
  s ← csum_partial big addr buff len 0; mret (u16 (csum_fold s)).

(** The pseudo header is a local variable, aligned to 4. *)
Definition pseudo_header (big : bool) (saddr daddr len proto : Z) : list Z :=
  bytes big 4 (u32 saddr) ++ bytes big 4 (u32 daddr) ++ [0; u8 proto] ++ bytes big 2 (htons big (u16 len)).

Definition csum_tcpudp_nofold (big : bool) (saddr daddr len proto sum : Z) : outcome Z :=
  csum_partial big 0 (pseudo_header big saddr daddr len proto) 12 sum.

Definition csum_tcpudp_magic (big : bool) (saddr daddr len proto sum : Z) : outcome Z :=
  s ← csum_tcpudp_nofold big saddr daddr len proto sum; mret (u16 (csum_fold s)).

Definition IPPROTO_TCP : Z := 6.
Definition tcp_v4_check (big : bool) (len saddr daddr base : Z) : outcome Z :=
  csum_tcpudp_magic big saddr daddr len IPPROTO_TCP base.

Definition csum_add (csum addend : Z) : Z :=
  let csum := u32 (csum + addend) in u32 (csum + c_bool (csum <? addend)).
Definition csum_sub (csum addend : Z) : Z := csum_add csum (cnot 32 addend).

(** ** The IPv4 header as bytes *)

Definition ihl (hdr : list Z) : Z := Z.land (nth 0 hdr 0) 0xf.
Definition get16 (big : bool) (off : nat) (hdr : list Z) : Z := word big (take 2 (drop off hdr)).
Definition put16 (big : bool) (off : nat) (v : Z) (hdr : list Z) : list Z :=
  take off hdr ++ bytes big 2 v ++ drop (off + 2) hdr.

Definition ip_send_check (big : bool) (addr : Z) (hdr : list Z) : outcome (list Z) :=
  let hdr := put16 big 10 0 hdr in
  c ← ip_fast_csum big addr hdr (ihl hdr); mret (put16 big 10 c hdr).

(** The header update of ip_forward once the ttl is known not to run out. *)
Definition forward_check (big : bool) (hdr : list Z) : list Z :=
  let hdr := <[8%nat := u8 (nth 8 hdr 0 - 1)]> hdr in
  let check := u32 (get16 big 10 hdr + htons big 0x0100) in
  put16 big 10 (u16 (check + c_bool (0xFFFF <=? check))) hdr.

(** ** Reference: RFC 1071 *)

(** Sum of the 16-bit words, an odd last byte padded with a zero on the right. *)
Fixpoint ref_sum (big : bool) (l : list Z) : Z :=
  match l with
  | [] => 0
  | [b] => word big [b; 0]
  | b0 :: b1 :: l => word big [b0; b1] + ref_sum big l
  end.

(** End-around carries folded until 16 bits are left. *)
Definition fold16 (s : Z) : Z := if s =? 0 then 0 else (s - 1) mod 65535 + 1.

(** A buffer the code sums as the RFC says. *)
Definition supported (big : bool) (addr len : Z) : Prop :=
  big = true ∨ (Z.even addr = true ∧ Z.even len = true).

(** ** Lemmas *)

#[local] Arguments Nat.div : simpl never.
#[local] Arguments Nat.modulo : simpl never.

(** Two sums with the same one's complement value. *)
Definition oc (x y : Z) : Prop :=
  0 <= x ∧ 0 <= y ∧ x mod 65535 = y mod 65535 ∧ (x = 0 ↔ y = 0).

Lemma oc_refl x : 0 <= x → oc x x.
Proof. unfold oc. tauto. Qed.
#[export] Instance oc_per : RelationClasses.PER oc.
Proof.
  split.
  - intros x y (? & ? & ? & ?). unfold oc. split_and!; [done..|tauto].
  - intros x y z (? & ? & E1 & ?) (? & ? & E2 & ?). unfold oc. split_and!; [done..|congruence|tauto].
Qed.
#[export] Instance oc_add : Proper (oc ==> oc ==> oc) Z.add.
Proof.
  intros x y (? & ? & E1 & ?) a b (? & ? & E2 & ?). unfold oc. split_and!; [lia..| |lia].
  by rewrite Zplus_mod, E1, E2, <-Zplus_mod.
Qed.

Lemma oc_carry a b : 0 <= a → 0 <= b → oc (65536 * a + b) (a + b).
Proof.
  intros Ha Hb. unfold oc. split_and!; [lia..| |lia].
  replace (65536 * a + b) with (a + b + a * 65535) by lia. apply Z_mod_plus_full.
Qed.

Lemma oc_split x : 0 <= x → oc x (Z.land x 0xffff + Z.shiftr x 16).
Proof.
  intros Hx. change 0xffff with (Z.ones 16). rewrite Z.land_ones, Z.shiftr_div_pow2 by lia.
  change (2 ^ 16) with 65536. pose proof (Z.div_mod x 65536 ltac:(lia)).
  rewrite H at 1. rewrite (Z.add_comm (x mod 65536)). apply oc_carry; zlia.
Qed.

Lemma fold16_range s : 0 <= fold16 s <= 65535.
Proof. unfold fold16. case_match; [lia|]. pose proof (Z.mod_pos_bound (s - 1) 65535). lia. Qed.

Lemma oc_fold16 s : 0 <= s → oc s (fold16 s).
Proof.
  intros Hs. unfold fold16. destruct (Z.eqb_spec s 0) as [->|Hne]; [by apply oc_refl|].
  pose proof (Z.mod_pos_bound (s - 1) 65535 ltac:(lia)). unfold oc. split_and!; [lia..| |lia].
  rewrite Zplus_mod_idemp_l. f_equal. lia.
Qed.

(** The one's complement value of a sum already within 16 bits is the sum. *)
Lemma oc_fold16_eq s x : oc x s → x <= 65535 → x = fold16 s.
Proof.
  intros Hx Hle. assert (oc x (fold16 s)) as (Hx0 & _ & Hm & Hz).
  { etransitivity; [exact Hx|]. apply oc_fold16. apply Hx. }
  pose proof (fold16_range s) as Hr.
  destruct (Z.eq_dec x 65535) as [->|H1], (Z.eq_dec (fold16 s) 65535) as [E|H2]; try done.
  - rewrite Z_mod_same_full, Z.mod_small in Hm by lia. lia.
  - rewrite E, Z_mod_same_full, Z.mod_small in Hm by lia. lia.
  - rewrite !Z.mod_small in Hm by lia. done.
Qed.

Lemma from32to16_fold16 x : 0 <= x < 2 ^ 32 → from32to16 x = fold16 x.
Proof.
  intros Hx. unfold from32to16.
  assert (Hstep : ∀ y, 0 <= y < 2 ^ 32 → ∃ z, u64 (Z.land y 0xffff + Z.shiftr y 16) = z ∧ oc y z ∧
    z <= y mod 65536 + y / 65536).
  { intros y Hy. eexists. split; [reflexivity|].
    assert (E : Z.land y 0xffff + Z.shiftr y 16 = y mod 65536 + y / 65536).
    { change 0xffff with (Z.ones 16). by rewrite Z.land_ones, Z.shiftr_div_pow2 by lia. }
    pose proof (oc_split y ltac:(lia)) as Ho. rewrite E in *.
    rewrite wrap_small by (lia || zlia). split; [done|lia]. }
  destruct (Hstep x Hx) as (y & -> & Hxy & Hy). pose proof (Z.mod_pos_bound x 65536 ltac:(lia)).
  assert (0 <= y) by apply Hxy. assert (y <= 65535 + 65535) by zlia.
  destruct (Hstep y ltac:(lia)) as (z & -> & Hyz & Hz).
  assert (0 <= z) by apply Hyz. assert (z <= 65535) by zlia.
  rewrite wrap_small by lia. apply oc_fold16_eq; [|done].
  symmetry. by transitivity y.
Qed.

(** *** Words and the reference sum *)

Lemma word2 big a b : word big [a; b] = if big then 256 * a + b else a + 256 * b.
Proof. unfold word. destruct big; simpl; lia. Qed.

Lemma list_pair_ind {A} (P : list A → Prop) :
  P [] → (∀ a, P [a]) → (∀ a b l, P l → P (a :: b :: l)) → ∀ l, P l.
Proof.
  intros H0 H1 H2 l. assert (P l ∧ ∀ a, P (a :: l)) as [? _]; [|done].
  induction l as [|b l [IH1 IH2]]; split; auto.
Qed.

Lemma ref_sum_app big l1 l2 : Nat.Even (length l1) →
  ref_sum big (l1 ++ l2) = ref_sum big l1 + ref_sum big l2.
Proof.
  induction l1 as [|a|a b l IH] using list_pair_ind; intros [k Hk]; simpl in *; [done|lia|].
  rewrite IH; [lia|]. exists (k - 1)%nat. lia.
Qed.

Lemma ref_sum_nonneg big l : Forall is_byte l → 0 <= ref_sum big l.
Proof.
  unfold in_width. induction l as [|a|a b l IH] using list_pair_ind; intros HF.
  - done.
  - apply Forall_cons in HF as [? _]. cbn [ref_sum]. rewrite word2. destruct big; lia.
  - apply Forall_cons in HF as [? HF]. apply Forall_cons in HF as [? HF].
    cbn [ref_sum]. rewrite word2. specialize (IH HF). destruct big; lia.
Qed.

Lemma ref_sum_take_drop big n l : Nat.Even n → (n <= length l)%nat →
  ref_sum big l = ref_sum big (take n l) + ref_sum big (drop n l).
Proof.
  intros He Hn. rewrite <-ref_sum_app; [by rewrite take_drop|]. by rewrite length_take_le.
Qed.

Lemma word4_oc big l : length l = 4%nat → Forall is_byte l →
  oc (word big l) (ref_sum big l) ∧ 0 <= word big l < 2 ^ 32.
Proof.
  intros Hl HF. do 4 (destruct l as [|? l]; [done|]). destruct l; [|done].
  repeat (apply Forall_cons in HF as [? HF]). unfold in_width in *. cbn [ref_sum]. rewrite !word2.
  unfold word. destruct big; simpl; (split; [|lia]).
  - replace (_ + 256 * _) with (65536 * (256 * z + z0) + (256 * z1 + z2)) by lia.
    rewrite Z.add_0_r. apply oc_carry; lia.
  - replace (_ + 256 * _) with (65536 * (z1 + 256 * z2) + (z + 256 * z0)) by lia.
    rewrite Z.add_0_r, (Z.add_comm (z + _)). apply oc_carry; lia.
Qed.

Lemma rd_2 big buff : Forall is_byte buff → (2 <= length buff)%nat →
  ∃ w, rd big 2 buff = Ret w ∧ 0 <= w <= 65535 ∧
    ref_sum big buff = w + ref_sum big (drop 2 buff).
Proof.
  intros HF Hl. destruct buff as [|a [|b l]]; simpl in Hl; [lia..|].
  apply Forall_cons in HF as [? HF]. apply Forall_cons in HF as [? HF]. unfold in_width in *.
  eexists. split; [reflexivity|]. split; [|done].
  change (0 <= word big [a; b] <= 65535). rewrite word2. destruct big; lia.
Qed.

(** [T] is the sum of what has been added up and of the words still to come. *)
Definition so_far (big : bool) (T result : Z) (buff : list Z) : Prop :=
  Forall is_byte buff ∧ oc (result + ref_sum big buff) T.

Lemma csum_loop_spec big T count : ∀ result buff,
  so_far big T result buff → 0 <= result → (4 * count <= length buff)%nat →
  result + Z.of_nat count * (2 ^ 32 - 1) < 2 ^ 64 →
  ∃ s, csum_loop big count result 0 buff = Ret (result + s, 0, drop (4 * count) buff) ∧
    so_far big T (result + s) (drop (4 * count) buff) ∧ 0 <= s <= Z.of_nat count * (2 ^ 32 - 1).
Proof.
  induction count as [|count IH]; intros result buff [HF HT] Hr Hl Hb.
  - exists 0. rewrite Z.add_0_r. split_and!; [done|done|lia|lia].
  - cbn [csum_loop]. unfold rd. rewrite (proj2 (Nat.leb_le _ _)) by lia. simpl (mret _ ≫= _).
    destruct (word4_oc big (take 4 buff)) as [Ho Hw].
    { rewrite length_take. lia. } { by apply Forall_take. }
    set (w := word big (take 4 buff)) in *.
    rewrite (wrap_small 64 ltac:(lia) (result + 0)) by lia. rewrite Z.add_0_r.
    rewrite (wrap_small 64 ltac:(lia) (result + w)) by lia.
    rewrite (proj2 (Z.ltb_ge _ _)) by lia. simpl c_bool.
    destruct (IH (result + w) (drop 4 buff)) as (s & E & HS & Hs).
    + split; [by apply Forall_drop|].
      rewrite (ref_sum_take_drop big 4 buff) in HT by (try lia; by exists 2%nat).
      etransitivity; [|exact HT]. rewrite <-Z.add_assoc.
      apply oc_add; [by apply oc_refl|]. apply oc_add; [done|]. apply oc_refl, ref_sum_nonneg. by apply Forall_drop.
    + lia.
    + rewrite length_drop. lia.
    + lia.
    + exists (w + s). rewrite drop_drop in E, HS.
      replace (4 + 4 * count)%nat with (4 * S count)%nat in * by lia.
      rewrite E. replace (result + (w + s)) with (result + w + s) by lia. split_and!; [done|done|lia|lia].
Qed.

Lemma z_half n : Z.shiftr (Z.of_nat n) 1 = Z.of_nat (n / 2).
Proof. rewrite Z.shiftr_div_pow2 by lia. change (2 ^ 1) with 2. by rewrite Nat2Z.inj_div. Qed.

Lemma testbit0_odd x : Z.testbit x 0 = Z.odd x.
Proof. apply Z.bit0_odd. Qed.

Lemma testbit1_mod4 n : Z.testbit (Z.of_nat n) 1 = bool_decide (2 <= n mod 4)%nat.
Proof.
  apply eq_true_iff_eq. rewrite bool_decide_eq_true, Z.testbit_true by lia. change (2 ^ 1) with 2.
  pose proof (Nat.div_mod_eq n 4) as H1. pose proof (Nat.mod_upper_bound n 4 ltac:(lia)) as H2.
  replace (Z.of_nat n) with (Z.of_nat (n mod 4) + Z.of_nat (n / 4) * 2 * 2) by lia.
  rewrite Z.div_add by lia. rewrite Z_mod_plus_full.
  destruct (n mod 4)%nat as [|[|[|[|]]]]; try lia;
    split; intros HH; first [lia|by vm_compute in HH|by vm_compute].
Qed.

Lemma half_facts n : (n = 2 * (n / 2) + n mod 2 ∧ n mod 2 < 2)%nat.
Proof. split; [apply Nat.div_mod_eq|by apply Nat.mod_upper_bound]. Qed.

Lemma quarter_facts n : (n = 4 * (n / 2 / 2) + n mod 4 ∧ n mod 4 < 4)%nat.
Proof.
  rewrite Nat.Div0.div_div. split; [apply Nat.div_mod_eq|by apply Nat.mod_upper_bound].
Qed.

Lemma odd_mod2 n m : (n mod 2 = m mod 2)%nat → Z.testbit (Z.of_nat n) 0 = Z.testbit (Z.of_nat m) 0.
Proof.
  intros H. rewrite !Z.bit0_odd. apply eq_true_iff_eq. rewrite !Z.odd_spec.
  pose proof (half_facts n). pose proof (half_facts m).
  split; intros [k Hk]; [exists (Z.of_nat (m / 2))|exists (Z.of_nat (n / 2))]; lia.
Qed.

Lemma csum_align_spec big T addr result buff :
  so_far big T result buff → 0 <= result <= 255 → (2 <= length buff)%nat →
  let n := length buff in
  ∃ r1 n1 buff1,
    csum_align big addr result (Z.of_nat (n / 2)) (Z.of_nat n) buff =
      Ret (r1, Z.of_nat (n1 / 2), Z.of_nat n1, buff1) ∧
    so_far big T r1 buff1 ∧ 0 <= r1 <= 65790 ∧ n1 = length buff1 ∧ (n1 <= n)%nat ∧ (n1 mod 2 = n mod 2)%nat.
Proof.
  intros HT Hr Hn2 n. unfold csum_align. destruct (Z.testbit addr 1).
  - destruct HT as [HF HT]. destruct (rd_2 big buff HF Hn2) as (w & -> & Hw & Hs). simpl.
    rewrite wrap_small by lia. exists (result + w), (n - 2)%nat, (drop 2 buff).
    pose proof (half_facts n). pose proof (half_facts (n - 2)).
    split_and!; try lia.
    + replace (Z.of_nat (n / 2) - 1) with (Z.of_nat ((n - 2) / 2)) by lia.
      by replace (Z.of_nat n - 2) with (Z.of_nat (n - 2)) by lia.
    + split; [by apply Forall_drop|]. by rewrite Hs, Z.add_assoc in HT.
    + rewrite length_drop. lia.
  - exists result, n, buff. split_and!; try done; lia.
Qed.

Lemma csum_dwords_spec big T m r1 buff1 :
  so_far big T r1 buff1 → 0 <= r1 <= 65790 → (4 * m <= length buff1)%nat → Z.of_nat m <= 2 ^ 15 →
  ∃ r2, csum_dwords big (Z.of_nat m) r1 buff1 = Ret (r2, drop (4 * m) buff1) ∧
    so_far big T r2 (drop (4 * m) buff1) ∧ 0 <= r2 < 2 ^ 31 + 2 ^ 17.
Proof.
  intros HT1 Hr1 Hl Hm'. unfold csum_dwords. destruct (Z.eqb_spec (Z.of_nat m) 0) as [Hm|Hm].
  - exists r1. replace m with O by lia. split_and!; [done|done|lia|lia].
  - rewrite Nat2Z.id.
    destruct (csum_loop_spec big T m r1 buff1 HT1) as (s & -> & [HFs HTs] & Hs); [lia..|]. simpl.
    rewrite Z.add_0_r. rewrite (wrap_small 64 ltac:(lia) (r1 + s)) by lia.
    pose proof (oc_split (r1 + s) ltac:(lia)) as Ho.
    change 0xffff with (Z.ones 16) in *. rewrite Z.land_ones, Z.shiftr_div_pow2 in * by lia.
    change (2 ^ 16) with 65536 in *.
    assert (0 <= (r1 + s) mod 65536 + (r1 + s) / 65536 < 2 ^ 31 + 2 ^ 17) by zlia.
    rewrite (wrap_small 64 ltac:(lia)) by lia.
    eexists. split; [reflexivity|]. split_and!; [|lia|lia]. split; [done|].
    etransitivity; [|exact HTs]. apply oc_add; [by symmetry|]. apply oc_refl. by apply ref_sum_nonneg.
Qed.

(** The middle: all whole words are added, at most a byte is left. *)
Lemma csum_words_spec big T addr result buff :
  so_far big T result buff → 0 <= result <= 255 → Z.of_nat (length buff) <= 2 ^ 17 →
  ∃ r' len' buff', csum_words big addr (Z.of_nat (length buff)) result buff = Ret (r', len', buff') ∧
    so_far big T r' buff' ∧ 0 <= r' < 2 ^ 31 + 2 ^ 18 ∧ length buff' = (length buff mod 2)%nat ∧
    Z.testbit len' 0 = Z.testbit (Z.of_nat (length buff)) 0.
Proof.
  intros HT Hr Hlen. unfold csum_words. rewrite z_half. set (n := length buff) in *.
  destruct (Z.eqb_spec (Z.of_nat (n / 2)) 0) as [H0|H0].
  { exists result, (Z.of_nat n), buff. split_and!; try done; [lia|lia|].
    pose proof (Nat.div_mod_eq n 2). lia. }
  assert (Hn2 : (2 <= n)%nat).
  { destruct (decide (n < 2)%nat) as [Hlt|]; [|lia]. rewrite Nat.div_small in H0 by lia. done. }
  destruct (csum_align_spec big T addr result buff HT Hr Hn2) as (r1 & n1 & buff1 & E & HT1 & Hr1 & Hn1 & Hle & Hmod).
  fold n in E, Hle, Hmod. rewrite E, bind_ret. cbv beta iota. rewrite z_half. pose proof (half_facts n1). pose proof (half_facts (n1 / 2)).
  pose proof (quarter_facts n1). set (m := (n1 / 2 / 2)%nat) in *.
  destruct (csum_dwords_spec big T m r1 buff1 HT1 Hr1) as (r2 & -> & HT2 & Hr2); [lia..|].
  set (buff2 := drop (4 * m) buff1) in *. rewrite bind_ret. cbv beta iota. rewrite testbit1_mod4.
  assert (Hl2 : length buff2 = (n1 - 4 * m)%nat) by (unfold buff2; rewrite length_drop; lia).
  case_bool_decide as Hm4.
  - destruct HT2 as [HF2 HT2]. destruct (rd_2 big buff2 HF2) as (w & -> & Hw & Hs); [lia|]. simpl.
    rewrite wrap_small by lia. exists (r2 + w), (Z.of_nat n1), (drop 2 buff2). split_and!; [done| |lia|lia| |].
    + split; [by apply Forall_drop|]. by rewrite Hs, Z.add_assoc in HT2.
    + rewrite length_drop. lia.
    + by apply odd_mod2.
  - exists r2, (Z.of_nat n1), buff2. split_and!; [done|done|lia|lia|lia|]. by apply odd_mod2.
Qed.

(** *** do_csum *)

Lemma swap_oc x : 0 <= x <= 65535 →
  let y := Z.lor (Z.land (Z.shiftr x 8) 0xff) (Z.shiftl (Z.land x 0xff) 8) in
  oc y (256 * x) ∧ 0 <= y <= 65535.
Proof.
  intros Hx. cbv zeta. change 0xff with (Z.ones 8). rewrite !Z.land_ones, Z.shiftr_div_pow2 by lia.
  change (2 ^ 8) with 256. rewrite (Z.mod_small (x / 256)) by zlia.
  rewrite lor_shiftl_add by (try lia; change (2 ^ 8) with 256; zlia). change (2 ^ 8) with 256.
  split; [|zlia]. replace (256 * x) with (65536 * (x / 256) + x mod 256 * 256) by zlia.
  symmetry. apply oc_carry; zlia.
Qed.

Lemma ref_sum_cons b l : is_byte b → Forall is_byte l →
  oc (ref_sum true (b :: l)) (256 * (b + ref_sum true l)).
Proof.
  intros Hb HF. revert b Hb. induction l as [|c|c d l IH] using list_pair_ind; intros b Hb; unfold in_width in *.
  - cbn [ref_sum]. rewrite word2. replace (256 * (b + 0)) with (256 * b + 0) by lia. apply oc_refl. lia.
  - apply Forall_cons in HF as [? _]. cbn [ref_sum]. rewrite !word2.
    replace (256 * b + c + 0) with (256 * b + c) by lia.
    replace (256 * (b + (256 * c + 0))) with (65536 * c + 256 * b) by lia.
    symmetry. rewrite (Z.add_comm (256 * b)). apply oc_carry; lia.
  - apply Forall_cons in HF as [? HF]. apply Forall_cons in HF as [? HF].
    pose proof (ref_sum_nonneg true l HF).
    change (ref_sum true (b :: c :: d :: l)) with (word true [b; c] + ref_sum true (d :: l)).
    change (ref_sum true (c :: d :: l)) with (word true [c; d] + ref_sum true l). rewrite !word2.
    etransitivity; [apply oc_add; [apply oc_refl; lia|apply IH; [done|lia]]|].
    replace (256 * (b + (256 * c + d + ref_sum true l))) with (65536 * c + (256 * b + 256 * (d + ref_sum true l))) by lia.
    replace (256 * b + c + 256 * (d + ref_sum true l)) with (c + (256 * b + 256 * (d + ref_sum true l))) by lia.
    symmetry. apply oc_carry; lia.
Qed.

Lemma rd_1 big b l : rd big 1 (b :: l) = Ret b.
Proof.
  unfold rd. simpl. unfold mret, outcome_ret. f_equal. unfold word. rewrite take_0. destruct big; simpl; lia.
Qed.

(** The last byte and the folds. *)
Lemma csum_finish big T r len' buff' :
  so_far big T r buff' → 0 <= r < 2 ^ 31 + 2 ^ 18 →
  (length buff' = 0%nat ∧ Z.testbit len' 0 = false) ∨ (big = true ∧ length buff' = 1%nat ∧ Z.testbit len' 0 = true) →
  ∃ r', (if Z.testbit len' 0 then b ← rd big 1 buff'; mret (u64 (r + Z.shiftl b 8)) else mret r) = Ret r' ∧
    from32to16 r' = fold16 T.
Proof.
  intros [HF HT] Hr Hcase.
  assert (Hfold : ∀ x, oc x T → 0 <= x < 2 ^ 32 → from32to16 x = fold16 T).
  { intros x Hx Hb. rewrite from32to16_fold16 by done. apply oc_fold16_eq; [|apply fold16_range].
    etransitivity; [|exact Hx]. symmetry. apply oc_fold16. lia. }
  destruct Hcase as [[Hl ->]|(-> & Hl & ->)].
  - destruct buff'; [|done]. simpl in HT. rewrite Z.add_0_r in HT. exists r. split; [done|]. apply Hfold; [done|lia].
  - destruct buff' as [|b [|? ?]]; [done| |done]. apply Forall_cons in HF as [Hb _]. unfold in_width in Hb.
    cbn [ref_sum] in HT. rewrite word2 in HT. rewrite rd_1, bind_ret, Z.shiftl_mul_pow2 by lia. change (2 ^ 8) with 256.
    rewrite wrap_small by lia. eexists. split; [reflexivity|]. apply Hfold; [|lia].
    by replace (r + b * 256) with (r + (256 * b + 0)) by lia.
Qed.

Lemma do_csum_fold16 big addr buff :
  Forall is_byte buff → Z.of_nat (length buff) <= 2 ^ 17 →
  supported big addr (Z.of_nat (length buff)) →
  do_csum big addr buff (Z.of_nat (length buff)) = Ret (fold16 (ref_sum big buff)).
Proof.
  intros HF Hlen Hsup. unfold do_csum. set (n := length buff) in *.
  destruct (Z.leb_spec (Z.of_nat n) 0) as [H0|H0].
  { destruct buff; [done|]. unfold n in H0. simpl in H0. lia. }
  destruct (Z.testbit addr 0) eqn:Hodd.
  - assert (big = true) as ->.
    { destruct Hsup as [->|[He _]]; [done|]. rewrite Z.bit0_odd, <-Z.negb_even, He in Hodd. done. }
    destruct buff as [|b rest]; [unfold n in H0; simpl in H0; lia|].
    apply Forall_cons in HF as [Hb HF]. rewrite rd_1, !bind_ret. cbv beta iota.
    change (drop 1 (b :: rest)) with rest.
    replace (Z.of_nat n - 1) with (Z.of_nat (length rest)) by (unfold n; simpl; lia).
    pose proof (ref_sum_nonneg true rest HF) as Hnn. unfold in_width in Hb.
    destruct (csum_words_spec true (b + ref_sum true rest) (addr + 1) b rest) as (r & len' & buff' & E & HT & Hr & Hl & Hpar).
    { split; [done|]. apply oc_refl. lia. } { lia. } { unfold n in Hlen. simpl in Hlen. lia. }
    rewrite E, bind_ret. cbv beta iota.
    destruct (csum_finish true _ r len' buff' HT Hr) as (r' & -> & Hf).
    { pose proof (half_facts (length rest)) as Hh. rewrite Hpar, Z.bit0_odd.
      destruct (decide (length rest mod 2 = 0)%nat) as [Hz|Hz]; [left|right; split; [done|]].
      - split; [lia|]. rewrite <-Z.negb_even. apply negb_false_iff, Z.even_spec. exists (Z.of_nat (length rest / 2)). lia.
      - split; [lia|]. apply Z.odd_spec. exists (Z.of_nat (length rest / 2)). lia. }
    rewrite bind_ret. cbv beta zeta. rewrite Hf. change (@mret outcome _ Z ?x) with (Ret x).
    unfold mret, outcome_ret. f_equal.
    destruct (swap_oc (fold16 (b + ref_sum true rest)) (fold16_range _)) as [Ho Hy].
    apply oc_fold16_eq; [|lia]. etransitivity; [exact Ho|]. symmetry.
    etransitivity; [apply ref_sum_cons; [unfold in_width; lia|done]|].
    destruct (oc_fold16 (b + ref_sum true rest) ltac:(lia)) as (? & ? & Hm & Hz). unfold oc.
    split_and!; [lia|lia| |lia]. by rewrite Z.mul_mod, Hm, <-Z.mul_mod by lia.
  - rewrite bind_ret. cbv beta iota.
    destruct (csum_words_spec big (ref_sum big buff) addr 0 buff) as (r & len' & buff' & E & HT & Hr & Hl & Hpar).
    { split; [done|]. rewrite Z.add_0_l. apply oc_refl. by apply ref_sum_nonneg. } { lia. } { done. }
    fold n in E. rewrite E, bind_ret. cbv beta iota.
    destruct (csum_finish big _ r len' buff' HT Hr) as (r' & -> & Hf).
    { fold n in Hl, Hpar. pose proof (half_facts n) as Hh. rewrite Hpar, Z.bit0_odd.
      destruct (decide (n mod 2 = 0)%nat) as [Hz|Hz]; [left|right].
      - split; [lia|]. rewrite <-Z.negb_even. apply negb_false_iff, Z.even_spec. exists (Z.of_nat (n / 2)). lia.
      - assert (Ho : Z.odd (Z.of_nat n) = true) by (apply Z.odd_spec; exists (Z.of_nat (n / 2)); lia).
        split_and!; [|lia|done]. destruct Hsup as [?|[_ He]]; [done|]. by rewrite <-Z.negb_odd, Ho in He. }
    rewrite bind_ret. cbv beta zeta. rewrite Hf. done.
Qed.

(** *** Folding and complementing *)

Lemma fold16_oc x y : oc x y → fold16 x = fold16 y.
Proof.
  intros H. apply oc_fold16_eq; [|apply fold16_range]. etransitivity; [|exact H].
  symmetry. apply oc_fold16. apply H.
Qed.

Lemma fold16_full s : 0 <= s → (fold16 s = 65535) ↔ (0 < s ∧ s mod 65535 = 0).
Proof.
  intros Hs. unfold fold16. destruct (Z.eqb_spec s 0) as [->|Hne]; [lia|].
  pose proof (Z.mod_pos_bound (s - 1) 65535 ltac:(lia)). split.
  - intros H1. split; [lia|]. replace s with (s - 1 + 1) by lia.
    rewrite <-Zplus_mod_idemp_l. replace ((s - 1) mod 65535) with 65534 by lia. done.
  - intros [_ H1]. zlia.
Qed.

(** Adding the complement of a sum to it gives the all-ones value. *)
Lemma fold16_complement s : 0 <= s → fold16 (s + (65535 - fold16 s)) = 65535.
Proof.
  intros Hs. pose proof (fold16_range s). destruct (oc_fold16 s Hs) as (_ & _ & Hm & Hz).
  apply fold16_full; [lia|]. split; [lia|].
  rewrite <-Zplus_mod_idemp_l, Hm, Zplus_mod_idemp_l.
  by replace (fold16 s + (65535 - fold16 s)) with 65535 by lia.
Qed.

Lemma cnot16 s : 0 <= s <= 65535 → cnot 16 s = 65535 - s.
Proof. intros Hs. by rewrite cnot_sub by lia. Qed.

Lemma csum_fold_u16 s : 0 <= s < 2 ^ 32 → u16 (csum_fold s) = 65535 - fold16 s.
Proof.
  intros Hs. unfold csum_fold. rewrite from32to16_fold16 by done. pose proof (fold16_range s).
  rewrite cnot_sub by lia. unfold wrap.
  replace (2 ^ 32 - 1 - fold16 s) with (65535 - fold16 s + 65535 * 2 ^ 16) by lia.
  rewrite Z_mod_plus_full. apply Z.mod_small. lia.
Qed.

Lemma csum_partial_oc big addr buff sum :
  Forall is_byte buff → Z.of_nat (length buff) <= 2 ^ 17 →
  supported big addr (Z.of_nat (length buff)) → 0 <= sum < 2 ^ 32 →
  ∃ r, csum_partial big addr buff (Z.of_nat (length buff)) sum = Ret r ∧
    0 <= r < 2 ^ 32 ∧ oc r (ref_sum big buff + sum).
Proof.
  intros HF Hl Hs Hsum. unfold csum_partial. rewrite do_csum_fold16 by done. rewrite bind_ret. cbv zeta.
  pose proof (fold16_range (ref_sum big buff)) as Hr. pose proof (ref_sum_nonneg big buff HF) as Hn.
  set (f := fold16 (ref_sum big buff)) in *.
  assert (Ho : oc (f + sum) (ref_sum big buff + sum)).
  { apply oc_add; [|apply oc_refl; lia]. symmetry. by apply oc_fold16. }
  destruct (Z.lt_ge_cases (f + sum) (2 ^ 32)) as [Hlt|Hge].
  - rewrite wrap_small by lia. rewrite (proj2 (Z.ltb_ge _ _)) by lia. eexists; split; [reflexivity|]. split; [lia|done].
  - assert (u32 (f + sum) = f + sum - 2 ^ 32) as ->.
    { unfold wrap. rewrite <-(Z.mod_small (f + sum - 2 ^ 32) (2 ^ 32)) by lia.
      replace (f + sum) with (f + sum - 2 ^ 32 + 1 * 2 ^ 32) at 1 by lia. apply Z_mod_plus_full. }
    rewrite (proj2 (Z.ltb_lt _ _)) by lia. rewrite wrap_small by lia. eexists; split; [reflexivity|].
    split; [lia|]. etransitivity; [|exact Ho]. unfold oc. split_and!; [lia|lia| |lia].
    replace (f + sum) with (f + sum - 2 ^ 32 + 1 + 65537 * 65535) at 2 by lia. by rewrite Z_mod_plus_full.
Qed.

(** What lies behind the bytes that are summed does not matter. *)
Section Behind.
Context (big : bool) (tl : list Z).

Lemma rd_app n l w : rd big n l = Ret w → rd big n (l ++ tl) = Ret w ∧ drop n (l ++ tl) = drop n l ++ tl.
Proof.
  unfold rd. destruct (Nat.leb_spec n (length l)); [|done]. intros E.
  rewrite (proj2 (Nat.leb_le _ _)) by (rewrite length_app; lia). rewrite take_app_le, drop_app_le by lia. done.
Qed.

Lemma csum_loop_app n : ∀ result carry l r c l', csum_loop big n result carry l = Ret (r, c, l') →
  csum_loop big n result carry (l ++ tl) = Ret (r, c, l' ++ tl).
Proof.
  induction n as [|n IH]; intros result carry l r c l'; cbn [csum_loop]; [by intros [= <- <- <-]|].
  intros H. apply bind_Ret_inv in H as (w & E & H). destruct (rd_app _ _ _ E) as [-> ->]. rewrite bind_ret. by apply IH.
Qed.

Lemma csum_align_app addr result count len l r c n l' : csum_align big addr result count len l = Ret (r, c, n, l') →
  csum_align big addr result count len (l ++ tl) = Ret (r, c, n, l' ++ tl).
Proof.
  unfold csum_align. destruct (Z.testbit addr 1); [|by intros [= <- <- <- <-]].
  intros H. apply bind_Ret_inv in H as (w & E & H). destruct (rd_app _ _ _ E) as [-> ->]. by injection H as <- <- <- <-.
Qed.

Lemma csum_dwords_app count result l r l' : csum_dwords big count result l = Ret (r, l') →
  csum_dwords big count result (l ++ tl) = Ret (r, l' ++ tl).
Proof.
  unfold csum_dwords. destruct (count =? 0); [by intros [= <- <-]|].
  intros H. apply bind_Ret_inv in H as ([[r1 c1] l1] & E & H). rewrite (csum_loop_app _ _ _ _ _ _ _ E), bind_ret.
  by injection H as <- <-.
Qed.

Lemma csum_words_app addr len result l r n l' : csum_words big addr len result l = Ret (r, n, l') →
  csum_words big addr len result (l ++ tl) = Ret (r, n, l' ++ tl).
Proof.
  unfold csum_words. destruct (Z.shiftr len 1 =? 0); [by intros [= <- <- <-]|].
  intros H. apply bind_Ret_inv in H as ([[[r1 c1] n1] l1] & E & H). rewrite (csum_align_app _ _ _ _ _ _ _ _ _ E), bind_ret.
  apply bind_Ret_inv in H as ([r2 l2] & E2 & H). rewrite (csum_dwords_app _ _ _ _ _ E2), bind_ret.
  destruct (Z.testbit n1 1); [|by injection H as <- <- <-].
  apply bind_Ret_inv in H as (w & E3 & H). destruct (rd_app _ _ _ E3) as [-> ->]. by injection H as <- <- <-.
Qed.

Lemma do_csum_app addr l len r : do_csum big addr l len = Ret r → do_csum big addr (l ++ tl) len = Ret r.
Proof.
  unfold do_csum. destruct (len <=? 0); [done|]. intros H. apply bind_Ret_inv in H as ([[[r1 n1] a1] l1] & E1 & H).
  assert (E1' : (if Z.testbit addr 0 then b ← rd big 1 (l ++ tl); mret (b, len - 1, addr + 1, drop 1 (l ++ tl))
                 else mret (0, len, addr, l ++ tl)) = Ret (r1, n1, a1, l1 ++ tl)).
  { destruct (Z.testbit addr 0); [|by injection E1 as <- <- <- <-].
    apply bind_Ret_inv in E1 as (w & E & E1). destruct (rd_app _ _ _ E) as [-> ->]. by injection E1 as <- <- <- <-. }
  rewrite E1', bind_ret. apply bind_Ret_inv in H as ([[r2 n2] l2] & E2 & H).
  rewrite (csum_words_app _ _ _ _ _ _ _ E2), bind_ret. apply bind_Ret_inv in H as (r3 & E3 & H).
  destruct (Z.testbit n2 0); [|by injection E3 as <-; rewrite bind_ret].
  apply bind_Ret_inv in E3 as (w & E & E3). destruct (rd_app _ _ _ E) as [-> _]. by injection E3 as <-.
Qed.

Lemma csum_partial_app addr l len sum r : csum_partial big addr l len sum = Ret r → csum_partial big addr (l ++ tl) len sum = Ret r.
Proof.
  unfold csum_partial. intros H. apply bind_Ret_inv in H as (r1 & E & H). by rewrite (do_csum_app _ _ _ _ E), bind_ret.
Qed.
End Behind.

Lemma csum_partial_0 big addr buff :
  Forall is_byte buff → Z.of_nat (length buff) <= 2 ^ 17 → supported big addr (Z.of_nat (length buff)) →
  csum_partial big addr buff (Z.of_nat (length buff)) 0 = Ret (fold16 (ref_sum big buff)).
Proof.
  intros HF Hl Hs. unfold csum_partial. rewrite do_csum_fold16, bind_ret by done. cbv zeta.
  pose proof (fold16_range (ref_sum big buff)). rewrite Z.add_0_r, wrap_small by lia.
  by rewrite (proj2 (Z.ltb_ge _ _)) by lia.
Qed.

Lemma length_bytes big n x : length (bytes big n x) = n.
Proof. unfold bytes. destruct big; rewrite ?length_rev; apply length_le_bytes. Qed.

Lemma bytes_are_bytes big n x : Forall is_byte (bytes big n x).
Proof. unfold bytes. destruct big; [apply Forall_rev|]; apply le_bytes_are_bytes. Qed.

Lemma length_pseudo_header big saddr daddr len proto :
  length (pseudo_header big saddr daddr len proto) = 12%nat.
Proof. unfold pseudo_header. rewrite !length_app, !length_bytes. done. Qed.

Lemma pseudo_header_bytes big saddr daddr len proto :
  Forall is_byte (pseudo_header big saddr daddr len proto).
Proof.
  unfold pseudo_header. repeat (apply Forall_app; split); try apply bytes_are_bytes.
  repeat constructor; unfold in_width; try lia. all: apply wrap_range; lia.
Qed.

Lemma csum_tcpudp_magic_fold16 big saddr daddr len proto sum : 0 <= sum < 2 ^ 32 →
  csum_tcpudp_magic big saddr daddr len proto sum =
  Ret (65535 - fold16 (ref_sum big (pseudo_header big saddr daddr len proto) + sum)).
Proof.
  intros Hs. unfold csum_tcpudp_magic, csum_tcpudp_nofold.
  pose proof (length_pseudo_header big saddr daddr len proto) as Hl.
  destruct (csum_partial_oc big 0 (pseudo_header big saddr daddr len proto) sum) as (r & E & Hr & Ho).
  - apply pseudo_header_bytes.
  - rewrite Hl. lia.
  - rewrite Hl. by right.
  - done.
  - rewrite Hl in E. change (Z.of_nat 12) with 12 in E. rewrite E, bind_ret.
    rewrite csum_fold_u16 by done. by rewrite (fold16_oc _ _ Ho).
Qed.

(** *** Fields of a header *)

Lemma bytes2_word big v : 0 <= v <= 65535 → word big (bytes big 2 v) = v.
Proof.
  intros Hv. unfold word, bytes. destruct big; rewrite ?rev_involutive; rewrite le_word_bytes;
    apply Z.mod_small; change (256 ^ Z.of_nat 2) with 65536; lia.
Qed.

Lemma ref_sum_word2 big l : length l = 2%nat → ref_sum big l = word big l.
Proof. destruct l as [|a [|b [|]]]; try done. intros _. cbn [ref_sum]. lia. Qed.

Lemma ref_sum_at big off l : Nat.Even off → (off + 2 <= length l)%nat →
  ref_sum big l = ref_sum big (take off l) + get16 big off l + ref_sum big (drop (off + 2) l).
Proof.
  intros He Hl. rewrite (ref_sum_take_drop big off l) by (done || lia).
  rewrite (ref_sum_take_drop big 2 (drop off l)) by (try (rewrite length_drop; lia); by exists 1%nat).
  rewrite (ref_sum_word2 big (take 2 (drop off l))) by (rewrite length_take, length_drop; lia).
  rewrite drop_drop. unfold get16. lia.
Qed.

Lemma ref_sum_put16 big off v l : Nat.Even off → (off + 2 <= length l)%nat → 0 <= v <= 65535 →
  ref_sum big (put16 big off v l) = ref_sum big (take off l) + v + ref_sum big (drop (off + 2) l).
Proof.
  intros He Hl Hv. unfold put16. rewrite ref_sum_app by (by rewrite length_take_le by lia).
  rewrite ref_sum_app by (rewrite length_bytes; by exists 1%nat).
  rewrite (ref_sum_word2 big (bytes big 2 v)) by apply length_bytes. rewrite bytes2_word by done. lia.
Qed.

Lemma length_put16 big off v l : (off + 2 <= length l)%nat → length (put16 big off v l) = length l.
Proof. intros Hl. unfold put16. rewrite !length_app, length_bytes, length_take, length_drop. lia. Qed.

Lemma put16_bytes big off v l : Forall is_byte l → Forall is_byte (put16 big off v l).
Proof.
  intros HF. unfold put16. repeat (apply Forall_app; split).
  - by apply Forall_take.
  - apply bytes_are_bytes.
  - by apply Forall_drop.
Qed.

Lemma ihl_put16 big off v l : (0 < off)%nat → (off <= length l)%nat → ihl (put16 big off v l) = ihl l.
Proof.
  intros Ho Hl. unfold ihl, put16. destruct l as [|a l]; [simpl in Hl; lia|]. destruct off; [lia|]. done.
Qed.

Lemma get16_range big off l : Forall is_byte l → (off + 2 <= length l)%nat → 0 <= get16 big off l <= 65535.
Proof.
  intros HF Hl. unfold get16. assert (HF' : Forall is_byte (take 2 (drop off l))) by (by apply Forall_take, Forall_drop).
  destruct (take 2 (drop off l)) as [|a [|b [|]]] eqn:E;
    try (apply (f_equal length) in E; rewrite length_take, length_drop in E; cbn [length] in E; lia).
  apply Forall_cons in HF' as [? HF']. apply Forall_cons in HF' as [? _]. unfold in_width in *.
  rewrite word2. destruct big; lia.
Qed.

(** A well-formed header: bytes, at least 20 of them, as many as ihl says. *)
Definition wf_header (hdr : list Z) : Prop :=
  Forall is_byte hdr ∧ 5 <= ihl hdr <= 15 ∧ Z.of_nat (length hdr) = ihl hdr * 4.

Lemma ip_fast_csum_wf big addr hdr : wf_header hdr → big = true ∨ Z.even addr = true →
  ip_fast_csum big addr hdr (ihl hdr) = Ret (65535 - fold16 (ref_sum big hdr)).
Proof.
  intros (HF & Hi & Hl) Ha. unfold ip_fast_csum. rewrite <-Hl. rewrite do_csum_fold16; [..|done|lia|].
  - rewrite bind_ret, cnot16 by apply fold16_range. done.
  - destruct Ha as [->|Ha]; [by left|right]. split; [done|]. rewrite Hl, Z.mul_comm, Z.even_mul. done.
Qed.

Lemma wf_put16 big off v hdr : (0 < off)%nat → (off + 2 <= length hdr)%nat → wf_header hdr → wf_header (put16 big off v hdr).
Proof.
  intros Ho Hl (HF & Hi & Hlen). unfold wf_header. rewrite ihl_put16, length_put16 by lia.
  split; [by apply put16_bytes|done].
Qed.

(** ** Properties *)

(** C28: for up to 128 KiB, at any alignment the build supports, do_csum stays inside
    the buffer and computes the RFC 1071 sum, and ip_compute_csum its complement. *)
Theorem do_csum_rfc1071 (big : bool) (addr : Z) (buff : list Z) :
  Forall is_byte buff → Z.of_nat (length buff) <= 2 ^ 17 →
  supported big addr (Z.of_nat (length buff)) →
  do_csum big addr buff (Z.of_nat (length buff)) = Ret (fold16 (ref_sum big buff)) ∧
  ip_compute_csum big addr buff (Z.of_nat (length buff)) = Ret (65535 - fold16 (ref_sum big buff)).
Proof.
  intros HF Hl Hs. split; [by apply do_csum_fold16|]. unfold ip_compute_csum.
  destruct (csum_partial_oc big addr buff 0 HF Hl Hs) as (r & -> & Hr & Ho); [lia|].
  rewrite bind_ret, csum_fold_u16 by done. rewrite Z.add_0_r in Ho. by rewrite (fold16_oc _ _ Ho).
Qed.

Definition data9 : list Z := [0x45; 0x00; 0xff; 0xfe; 0x12; 0x34; 0xab; 0xcd; 0x7f].

Lemma do_csum_rfc1071_witness :
  do_csum true 7 data9 9 = Ret (fold16 (ref_sum true data9)) ∧
  ip_compute_csum true 7 data9 9 = Ret (65535 - fold16 (ref_sum true data9)).
Proof.
  apply (do_csum_rfc1071 true 7 data9); [|simpl; lia|by left].
  apply (bool_decide_unpack _). by vm_compute.
Defined.

(** On a little-endian build an odd last byte is added at the wrong half. *)
Lemma do_csum_odd_little : do_csum false 0 [1] 1 = Ret 0x100 ∧ fold16 (ref_sum false [1]) = 1.
Proof. split; vm_compute; reflexivity. Qed.

(** a header whose checksum ip_send_check has filled in verifies (its
    ip_fast_csum is 0). *)
Theorem ip_send_check_verifies (big : bool) (addr : Z) (hdr : list Z) :
  wf_header hdr → big = true ∨ Z.even addr = true →
  ∃ hdr', ip_send_check big addr hdr = Ret hdr' ∧ wf_header hdr' ∧
    ip_fast_csum big addr hdr' (ihl hdr') = Ret 0.
Proof.
  intros Hwf Ha. pose proof Hwf as (HF & Hi & Hl). unfold ip_send_check.
  assert (Hwf0 : wf_header (put16 big 10 0 hdr)) by (apply wf_put16; (done || lia)).
  rewrite ip_fast_csum_wf by done. rewrite bind_ret. set (s := ref_sum big (put16 big 10 0 hdr)).
  pose proof (fold16_range s) as Hr. set (c := 65535 - fold16 s).
  pose proof (length_put16 big 10 0 hdr ltac:(lia)) as Hlen.
  assert (Hwf1 : wf_header (put16 big 10 c (put16 big 10 0 hdr))) by (apply wf_put16; (done || lia)).
  eexists. split; [reflexivity|]. split; [done|]. rewrite ip_fast_csum_wf by done.
  assert (He : Nat.Even 10) by (by exists 5%nat).
  rewrite ref_sum_put16 by (done || lia).
  assert (Hs : s = ref_sum big (take 10 (put16 big 10 0 hdr)) + 0 + ref_sum big (drop (10 + 2) (put16 big 10 0 hdr))).
  { unfold s at 1. rewrite (ref_sum_at big 10) by (done || lia). do 2 f_equal.
    unfold get16, put16. rewrite drop_app_length' by (rewrite length_take; lia).
    rewrite take_app_length' by (by rewrite length_bytes). by destruct big. }
  replace (_ + c + _) with (s + c) by lia. unfold c.
  rewrite fold16_complement; [done|]. apply ref_sum_nonneg. apply Hwf0.
Qed.

Definition hdr20 : list Z :=
  [0x45; 0; 0; 84; 0x12; 0x34; 0x40; 0; 64; 1; 0xaa; 0xbb; 192; 168; 0; 1; 192; 168; 0; 199].

Lemma hdr20_wf : wf_header hdr20.
Proof. split; [apply (bool_decide_unpack _); by vm_compute|]. vm_compute. split; [split; discriminate|reflexivity]. Qed.

Lemma ip_send_check_verifies_witness :
  ∃ hdr', ip_send_check false 14 hdr20 = Ret hdr' ∧ wf_header hdr' ∧
    ip_fast_csum false 14 hdr' (ihl hdr') = Ret 0.
Proof. apply (ip_send_check_verifies false 14 hdr20 hdr20_wf). by right. Defined.

Lemma put16_split big h0 h1 h2 h3 h4 h5 h6 h7 h8 h9 h10 h11 rest v :
  put16 big 10 v (h0 :: h1 :: h2 :: h3 :: h4 :: h5 :: h6 :: h7 :: h8 :: h9 :: h10 :: h11 :: rest) =
  h0 :: h1 :: h2 :: h3 :: h4 :: h5 :: h6 :: h7 :: h8 :: h9 :: bytes big 2 v ++ rest.
Proof. unfold put16. simpl. by rewrite drop_0. Qed.

Lemma htons_0x0100 big : htons big 0x0100 = if big then 256 else 1.
Proof. by destruct big. Qed.

(** What ip_forward adds to the checksum balances what the ttl loses. *)
Lemma forward_word (big : bool) (t p : Z) : 1 <= t <= 255 →
  word big [u8 (t - 1); p] + (if big then 256 else 1) = word big [t; p].
Proof. intros Ht. rewrite wrap_small by lia. rewrite !word2. destruct big; lia. Qed.

(** C36: ip_forward decrements the ttl and adjusts the checksum incrementally; a
    header that verified still verifies, with no other byte changed. *)
Theorem forward_check_verifies (big : bool) (addr : Z) (hdr : list Z) :
  wf_header hdr → big = true ∨ Z.even addr = true → 1 <= nth 8 hdr 0 →
  ip_fast_csum big addr hdr (ihl hdr) = Ret 0 →
  let hdr' := forward_check big hdr in
  ip_fast_csum big addr hdr' (ihl hdr') = Ret 0 ∧ wf_header hdr' ∧
  nth 8 hdr' 0 = nth 8 hdr 0 - 1 ∧
  take 8 hdr' = take 8 hdr ∧ nth 9 hdr' 0 = nth 9 hdr 0 ∧ drop 12 hdr' = drop 12 hdr.
Proof.
  intros Hwf Ha Htt Hv hdr'. rewrite ip_fast_csum_wf in Hv by done. injection Hv as Hv.
  pose proof Hwf as (HF & Hi & Hl). pose proof (ref_sum_nonneg big hdr HF) as Hnn.
  assert (Hv' : fold16 (ref_sum big hdr) = 65535) by lia. apply fold16_full in Hv' as [Hpos Hmod]; [|done]. clear Hv.
  unfold hdr'. clear hdr'. unfold forward_check.
  do 12 (destruct hdr as [|? hdr]; [simpl in Hl; lia|]).
  rename z into h0, z0 into h1, z1 into h2, z2 into h3, z3 into h4, z4 into h5, z5 into h6, z6 into h7,
    z7 into h8, z8 into h9, z9 into h10, z10 into h11.
  cbn [nth] in *. cbv zeta.
  assert (Hins : <[8%nat := u8 (h8 - 1)]> (h0 :: h1 :: h2 :: h3 :: h4 :: h5 :: h6 :: h7 :: h8 :: h9 :: h10 :: h11 :: hdr) =
    h0 :: h1 :: h2 :: h3 :: h4 :: h5 :: h6 :: h7 :: u8 (h8 - 1) :: h9 :: h10 :: h11 :: hdr) by done.
  rewrite Hins.
  assert (HF12 := HF). do 12 (apply Forall_cons in HF12 as [? HF12]). unfold in_width in *.
  assert (Hget : get16 big 10 (h0 :: h1 :: h2 :: h3 :: h4 :: h5 :: h6 :: h7 :: u8 (h8 - 1) :: h9 :: h10 :: h11 :: hdr) =
    word big [h10; h11]) by done.
  rewrite Hget, htons_0x0100. set (d := if big then 256 else 1). set (c := word big [h10; h11]).
  assert (Hc : 0 <= c <= 65535) by (unfold c; rewrite word2; destruct big; lia).
  assert (Hd : 1 <= d <= 256) by (unfold d; destruct big; lia).
  assert (Hw := forward_word big h8 h9 ltac:(lia)). fold d in Hw.
  rewrite (wrap_small 32) by lia. rewrite put16_split.
  set (c' := u16 (c + d + c_bool (0xFFFF <=? c + d))).
  assert (Hc' : 0 <= c' <= 65535 ∧ (c' = c + d ∨ c' = c + d - 65535)).
  { unfold c'. destruct (Z.leb_spec 0xFFFF (c + d)); simpl c_bool.
    - assert (u16 (c + d + 1) = c + d - 65535) as ->; [|lia].
      unfold wrap. replace (c + d + 1) with (c + d - 65535 + 1 * 2 ^ 16) by lia.
      rewrite Z_mod_plus_full. apply Z.mod_small. lia.
    - rewrite wrap_small by lia. lia. }
  set (new := h0 :: h1 :: h2 :: h3 :: h4 :: h5 :: h6 :: h7 :: u8 (h8 - 1) :: h9 :: bytes big 2 c' ++ hdr).
  assert (Hwf' : wf_header new).
  { split; [|split].
    - unfold new. do 8 (apply Forall_cons; split; [unfold in_width; lia|]).
      apply Forall_cons; split; [apply wrap_range; lia|]. apply Forall_cons; split; [unfold in_width; lia|].
      apply Forall_app; split; [apply bytes_are_bytes|done].
    - exact Hi.
    - etransitivity; [|exact Hl]. unfold new. cbn [length]. rewrite length_app, length_bytes. lia. }
  split_and!; [|done|change (u8 (h8 - 1) = h8 - 1); apply wrap_small; lia|done|done|].
  2: { unfold new. cbn [drop]. by rewrite drop_app_length' by (by rewrite length_bytes). }
  rewrite ip_fast_csum_wf by done. f_equal.
  cbn [ref_sum] in Hpos, Hmod. fold c in Hpos, Hmod.
  assert (Hsum : ref_sum big new = word big [h0; h1] + (word big [h2; h3] + (word big [h4; h5] + (word big [h6; h7] +
    (word big [u8 (h8 - 1); h9] + (c' + ref_sum big hdr)))))).
  { unfold new. cbn [ref_sum]. rewrite ref_sum_app by (rewrite length_bytes; by exists 1%nat).
    rewrite ref_sum_word2 by apply length_bytes. by rewrite bytes2_word by lia. }
  pose proof (ref_sum_nonneg big hdr HF12) as Hrest.
  assert (Hb : ∀ a b, 0 <= a < 256 → 0 <= b < 256 → 0 <= word big [a; b]) by (intros; rewrite word2; destruct big; lia).
  pose proof (Hb h2 h3 ltac:(lia) ltac:(lia)). pose proof (Hb h4 h5 ltac:(lia) ltac:(lia)).
  pose proof (Hb h6 h7 ltac:(lia) ltac:(lia)). pose proof (Hb (u8 (h8 - 1)) h9 ltac:(apply wrap_range; lia) ltac:(lia)).
  assert (Hfirst : 0 < word big [h0; h1]).
  { destruct (Z.eq_dec h0 0) as [->|]; [exfalso; change (5 <= 0 <= 15) in Hi; lia|]. rewrite word2. destruct big; lia. }
  assert (fold16 (ref_sum big new) = 65535) as ->; [|lia]. apply fold16_full; [lia|]. split; [lia|].
  destruct Hc' as [_ [E|E]]; rewrite Hsum, E; rewrite <-Hmod; [f_equal; lia|].
  rewrite <-(Z_mod_plus_full _ 1 65535). f_equal. lia.
Qed.

Lemma forward_check_verifies_witness :
  let hdr := [0x45; 0; 0; 84; 0x12; 0x34; 0x40; 0; 64; 1; 0xa6; 0x5c; 192; 168; 0; 1; 192; 168; 0; 199] in
  let hdr' := forward_check false hdr in
  ip_fast_csum false 14 hdr' (ihl hdr') = Ret 0 ∧ wf_header hdr' ∧ nth 8 hdr' 0 = 63 ∧
  take 8 hdr' = take 8 hdr ∧ nth 9 hdr' 0 = 1 ∧ drop 12 hdr' = drop 12 hdr.
Proof.
  apply (forward_check_verifies false 14
    [0x45; 0; 0; 84; 0x12; 0x34; 0x40; 0; 64; 1; 0xa6; 0x5c; 192; 168; 0; 1; 192; 168; 0; 199]).
  - split; [apply (bool_decide_unpack _); by vm_compute|]. vm_compute. split; [split; discriminate|reflexivity].
  - by right.
  - simpl. lia.
  - by vm_compute.
Defined.

(** a TCP or UDP segment whose check field was computed as the tools do (the
    field zeroed, csum_partial, csum_tcpudp_magic) verifies at the receiver. *)
Theorem transport_check_verifies (big : bool) (addr saddr daddr len proto : Z) (off : nat) (seg : list Z) :
  Forall is_byte seg → Z.of_nat (length seg) <= 2 ^ 17 → supported big addr (Z.of_nat (length seg)) →
  Nat.Even off → (off + 2 <= length seg)%nat →
  let n := Z.of_nat (length seg) in
  ∃ p0 c p1,
    csum_partial big addr (put16 big off 0 seg) n 0 = Ret p0 ∧
    csum_tcpudp_magic big saddr daddr len proto p0 = Ret c ∧
    csum_partial big addr (put16 big off c seg) n 0 = Ret p1 ∧
    csum_tcpudp_magic big saddr daddr len proto p1 = Ret 0.
Proof.
  intros HF Hl Hs He Hoff n.
  assert (Hpart : ∀ v, ∃ r, csum_partial big addr (put16 big off v seg) n 0 = Ret r ∧
    0 <= r < 2 ^ 32 ∧ oc r (ref_sum big (put16 big off v seg))).
  { intros v. destruct (csum_partial_oc big addr (put16 big off v seg) 0) as (r & E & Hr & Ho).
    - by apply put16_bytes.
    - by rewrite length_put16.
    - by rewrite length_put16.
    - lia.
    - rewrite length_put16 in E by done. rewrite Z.add_0_r in Ho. eauto. }
  destruct (Hpart 0) as (p0 & E0 & Hp0 & Ho0). set (H := ref_sum big (pseudo_header big saddr daddr len proto)).
  assert (HH : 0 <= H) by apply ref_sum_nonneg, pseudo_header_bytes.
  set (c := 65535 - fold16 (H + p0)). pose proof (fold16_range (H + p0)).
  destruct (Hpart c) as (p1 & E1 & Hp1 & Ho1). exists p0, c, p1.
  split_and!; [done|by apply csum_tcpudp_magic_fold16|done|].
  rewrite csum_tcpudp_magic_fold16 by done. fold H. f_equal.
  rewrite ref_sum_put16 in Ho0, Ho1 by (done || lia).
  set (A := ref_sum big (take off seg)) in *. set (B := ref_sum big (drop (off + 2) seg)) in *.
  assert (HA : 0 <= A) by (apply ref_sum_nonneg; by apply Forall_take).
  assert (HB : 0 <= B) by (apply ref_sum_nonneg; by apply Forall_drop).
  assert (oc (H + p1) (H + p0 + c)) as Ho.
  { assert (oc (H + p0) (H + (A + 0 + B))) by (apply oc_add; [by apply oc_refl|done]).
    etransitivity; [apply oc_add; [by apply oc_refl|exact Ho1]|].
    replace (H + (A + c + B)) with (H + (A + 0 + B) + c) by lia. apply oc_add; [by symmetry|]. apply oc_refl. unfold c. lia. }
  rewrite (fold16_oc _ _ Ho). unfold c. rewrite fold16_complement by lia. done.
Qed.

Lemma transport_check_verifies_witness :
  ∃ p0 c p1,
    csum_partial false 34 (put16 false 6 0 [0x04; 0x00; 0x00; 0x35; 0; 10; 0; 0; 0xde; 0xad]) 10 0 = Ret p0 ∧
    csum_tcpudp_magic false 0x0100a8c0 0xc700a8c0 10 17 p0 = Ret c ∧
    csum_partial false 34 (put16 false 6 c [0x04; 0x00; 0x00; 0x35; 0; 10; 0; 0; 0xde; 0xad]) 10 0 = Ret p1 ∧
    csum_tcpudp_magic false 0x0100a8c0 0xc700a8c0 10 17 p1 = Ret 0.
Proof.
  apply (transport_check_verifies false 34 0x0100a8c0 0xc700a8c0 10 17 6
    [0x04; 0x00; 0x00; 0x35; 0; 10; 0; 0; 0xde; 0xad]).
  - apply (bool_decide_unpack _). by vm_compute.
  - simpl. lia.
  - right. by vm_compute.
  - by exists 3%nat.
  - simpl. lia.
Defined.
