(* ===== verification/Endian.v ===== *)
(** * kernelenv_littleendian.h, kernelenv_bigendian.h: byte orders

    The conversions between a machine's order and the two fixed ones, for either build.
    [Conversions] is what the rest of the kernel code uses of the header that is chosen;
    [Order] are its laws, in terms of the bytes in memory. *)

From Stdlib Require Import ZArith Lia.
From S2P Require Import Prelude Csum.

(** The casts do not change what the masks leave. *)
Definition swab32 (x : Z) : Z :=
  Z.lor (Z.lor (Z.lor (Z.shiftl (Z.land x 0xff) 24) (Z.shiftl (Z.land x 0xff00) 8)) (Z.shiftr (Z.land x 0xff0000) 8)) (Z.shiftr (Z.land x 0xff000000) 24).
Definition swab64 (x : Z) : Z :=
  Z.lor (Z.lor (Z.lor (Z.lor (Z.lor (Z.lor (Z.lor
    (Z.shiftl (Z.land x 0xff) 56) (Z.shiftl (Z.land x 0xff00) 40)) (Z.shiftl (Z.land x 0xff0000) 24)) (Z.shiftl (Z.land x 0xff000000) 8))
    (Z.shiftr (Z.land x 0xff00000000) 8)) (Z.shiftr (Z.land x 0xff0000000000) 24)) (Z.shiftr (Z.land x 0xff000000000000) 40)) (Z.shiftr (Z.land x 0xff00000000000000) 56).

(** The argument of a function is what its pointer points to. *)
Module Little.
Definition __constant_htonl (x : Z) : Z := swab32 x.
Definition __constant_htons (x : Z) : Z := swab16 x.
Definition __cpu_to_le64p (x : Z) : Z := x.
Definition __le64_to_cpup (x : Z) : Z := x.
Definition __cpu_to_le32p (x : Z) : Z := x.
Definition __le32_to_cpup (x : Z) : Z := x.
Definition __cpu_to_le16p (x : Z) : Z := x.
Definition __le16_to_cpup (x : Z) : Z := x.
Definition __cpu_to_be64p (x : Z) : Z := swab64 x.
Definition __be64_to_cpup (x : Z) : Z := swab64 x.
Definition __cpu_to_be32p (x : Z) : Z := swab32 x.
Definition __be32_to_cpup (x : Z) : Z := swab32 x.
Definition __cpu_to_be16p (x : Z) : Z := swab16 x.
Definition __be16_to_cpup (x : Z) : Z := swab16 x.
End Little.

Module Big.
Definition __constant_htonl (x : Z) : Z := x.
Definition __constant_htons (x : Z) : Z := x.
Definition __cpu_to_le64p (x : Z) : Z := swab64 x.
Definition __le64_to_cpup (x : Z) : Z := swab64 x.
Definition __cpu_to_le32p (x : Z) : Z := swab32 x.
Definition __le32_to_cpup (x : Z) : Z := swab32 x.
Definition __cpu_to_le16p (x : Z) : Z := swab16 x.
Definition __le16_to_cpup (x : Z) : Z := swab16 x.
Definition __cpu_to_be64p (x : Z) : Z := x.
Definition __be64_to_cpup (x : Z) : Z := x.
Definition __cpu_to_be32p (x : Z) : Z := x.
Definition __be32_to_cpup (x : Z) : Z := x.
Definition __cpu_to_be16p (x : Z) : Z := x.
Definition __be16_to_cpup (x : Z) : Z := x.
End Big.

(** The two directions for either order, at a width in bytes. *)
Record conversions := Conversions { to_le : Z → Z; from_le : Z → Z; to_be : Z → Z; from_be : Z → Z }.
Inductive width := W16 | W32 | W64.
Definition size (w : width) : nat := match w with W16 => 2 | W32 => 4 | W64 => 8 end.
Definition little (w : width) : conversions :=
  match w with
  | W16 => Conversions Little.__cpu_to_le16p Little.__le16_to_cpup Little.__cpu_to_be16p Little.__be16_to_cpup
  | W32 => Conversions Little.__cpu_to_le32p Little.__le32_to_cpup Little.__cpu_to_be32p Little.__be32_to_cpup
  | W64 => Conversions Little.__cpu_to_le64p Little.__le64_to_cpup Little.__cpu_to_be64p Little.__be64_to_cpup
  end.
Definition big_ (w : width) : conversions :=
  match w with
  | W16 => Conversions Big.__cpu_to_le16p Big.__le16_to_cpup Big.__cpu_to_be16p Big.__be16_to_cpup
  | W32 => Conversions Big.__cpu_to_le32p Big.__le32_to_cpup Big.__cpu_to_be32p Big.__be32_to_cpup
  | W64 => Conversions Big.__cpu_to_le64p Big.__le64_to_cpup Big.__cpu_to_be64p Big.__be64_to_cpup
  end.
(** The header included as kernelenv_endian.h. *)
Definition kernelenv_endian (big : bool) : width → conversions := if big then big_ else little.

(** kernelenv.c *)
Definition htonl (big : bool) (hostlong : Z) : Z := to_be (kernelenv_endian big W32) hostlong.
Definition htons (big : bool) (hostshort : Z) : Z := to_be (kernelenv_endian big W16) hostshort.
Definition ntohl (big : bool) (netlong : Z) : Z := from_be (kernelenv_endian big W32) netlong.
Definition ntohs (big : bool) (netshort : Z) : Z := from_be (kernelenv_endian big W16) netshort.

(** What conversions of [n]-byte words on a machine of either order promise. *)
Record order (big : bool) (n : nat) (c : conversions) : Prop := Order {
  le_in_memory x : in_width (8 * Z.of_nat n) x → bytes big n (to_le c x) = le_bytes n x;
  be_in_memory x : in_width (8 * Z.of_nat n) x → bytes big n (to_be c x) = rev (le_bytes n x);
  le_read l : length l = n → Forall is_byte l → from_le c (word big l) = le_word l;
  be_read l : length l = n → Forall is_byte l → from_be c (word big l) = le_word (rev l);
  le_back x : in_width (8 * Z.of_nat n) x → from_le c (to_le c x) = x;
  be_back x : in_width (8 * Z.of_nat n) x → from_be c (to_be c x) = x;
}.

(** ** Swapping bytes *)

(** The byte that is [k] bits up. *)
Definition byte_at (x k : Z) : Z := (x / 2 ^ k) mod 256.
Lemma byte_range x k : 0 <= byte_at x k < 256.
Proof. apply Z.mod_pos_bound. lia. Qed.

Lemma land_byte x k : 0 <= k → Z.land x (Z.shiftl 0xff k) = byte_at x k * 2 ^ k.
Proof.
  intros Hk. unfold byte_at. rewrite <-Z.shiftl_mul_pow2 by done. apply Z.bits_inj'. intros i Hi. rewrite Z.land_spec, !Z.shiftl_spec by done.
  change 0xff with (Z.ones 8). change 256 with (2 ^ 8). destruct (Z.lt_ge_cases i k) as [Hlt|Hge].
  - rewrite !(Z.testbit_neg_r _ (i - k)) by lia. apply andb_false_r.
  - rewrite Z.testbit_mod_pow2, Z.testbit_ones_nonneg, Z.div_pow2_bits by lia. replace (i - k + k) with i by lia. apply andb_comm.
Qed.

(** A masked byte moved up or down. *)
Lemma byte_up x m k s e : 0 <= k → 0 <= s → m = Z.shiftl 0xff k → e = k + s → Z.shiftl (Z.land x m) s = byte_at x k * 2 ^ e.
Proof. intros Hk Hs -> ->. rewrite land_byte, Z.shiftl_mul_pow2, Z.pow_add_r by done. ring. Qed.
Lemma byte_down x m k s e : 0 <= s <= k → m = Z.shiftl 0xff k → e = k - s → Z.shiftr (Z.land x m) s = byte_at x k * 2 ^ e.
Proof.
  intros Hs -> ->. rewrite land_byte, Z.shiftr_div_pow2 by lia. replace (2 ^ k) with (2 ^ (k - s) * 2 ^ s) by (rewrite <-Z.pow_add_r by lia; f_equal; lia).
  rewrite Z.mul_assoc. apply Z.div_mul. apply Z.pow_nonzero; lia.
Qed.
Lemma lor_low h l k : 0 <= k → 0 <= l < 2 ^ k → Z.lor (h * 2 ^ k) l = h * 2 ^ k + l.
Proof. intros Hk Hl. rewrite Z.lor_comm, <-Z.shiftl_mul_pow2 by done. rewrite lor_shiftl_add by done. rewrite Z.shiftl_mul_pow2 by done. lia. Qed.
(** One more byte below those already in place. *)
Lemma lor_next h b k k' : 0 <= k → k' = k + 8 → 0 <= b < 256 → Z.lor (h * 2 ^ k') (b * 2 ^ k) = (h * 256 + b) * 2 ^ k.
Proof.
  intros Hk -> Hb. assert (0 < 2 ^ k) by (apply Z.pow_pos_nonneg; lia).
  rewrite lor_low by (rewrite ?Z.pow_add_r by lia; change (2 ^ 8) with 256; nia). rewrite Z.pow_add_r by lia. change (2 ^ 8) with 256. ring.
Qed.

Lemma swab16_bytes x : swab16 x = byte_at x 0 * 256 + byte_at x 8.
Proof. unfold swab16. rewrite (byte_up x _ 0 _ 8), (byte_down x _ 8 _ 0) by (done || lia). rewrite (lor_next _ _ 0 8) by (lia || apply byte_range). lia. Qed.
Lemma swab32_bytes x : swab32 x = ((byte_at x 0 * 256 + byte_at x 8) * 256 + byte_at x 16) * 256 + byte_at x 24.
Proof. unfold swab32. rewrite (byte_up x _ 0 _ 24), (byte_up x _ 8 _ 16), (byte_down x _ 16 _ 8), (byte_down x _ 24 _ 0) by (done || lia). rewrite (lor_next _ _ 16 24), (lor_next _ _ 8 16), (lor_next _ _ 0 8) by (lia || apply byte_range). lia. Qed.
Lemma swab64_bytes x : swab64 x = ((((((byte_at x 0 * 256 + byte_at x 8) * 256 + byte_at x 16) * 256 + byte_at x 24) * 256 + byte_at x 32) * 256 + byte_at x 40) * 256
  + byte_at x 48) * 256 + byte_at x 56.
Proof.
  unfold swab64. rewrite (byte_up x _ 0 _ 56), (byte_up x _ 8 _ 48), (byte_up x _ 16 _ 40), (byte_up x _ 24 _ 32), (byte_down x _ 32 _ 24), (byte_down x _ 40 _ 16), (byte_down x _ 48 _ 8), (byte_down x _ 56 _ 0) by (done || lia).
  rewrite (lor_next _ _ 48 56), (lor_next _ _ 40 48), (lor_next _ _ 32 40), (lor_next _ _ 24 32), (lor_next _ _ 16 24), (lor_next _ _ 8 16), (lor_next _ _ 0 8) by (lia || apply byte_range). lia.
Qed.

Definition swab (w : width) : Z → Z := match w with W16 => swab16 | W32 => swab32 | W64 => swab64 end.

(** The bytes of a word, taken from the number. *)
Lemma byte_of_word l1 b l2 : Forall is_byte l1 → is_byte b → byte_at (le_word (l1 ++ b :: l2)) (8 * Z.of_nat (length l1)) = b.
Proof.
  intros H1 Hb. unfold byte_at. rewrite le_word_app. rewrite Z.pow_mul_r by lia. change (2 ^ 8) with 256. pose proof (le_word_range l1 H1) as Hr.
  rewrite Z.mul_comm, Z.div_add, (Z.div_small (le_word l1)) by lia. cbn [le_word]. rewrite Z.add_0_l, Z.mul_comm, Z.mod_add by lia. by apply Z.mod_small.
Qed.

Lemma swab_word w l : length l = size w → Forall is_byte l → swab w (le_word l) = le_word (rev l).
Proof.
  intros Hl Hb. assert (Hk : ∀ l1 b l2, l = l1 ++ b :: l2 → byte_at (le_word l) (8 * Z.of_nat (length l1)) = b).
  { intros l1 b l2 ->. apply Forall_app in Hb as [H1 H2]. apply Forall_cons in H2 as [H2 _]. by apply byte_of_word. }
  destruct w; cbn [size swab] in *.
  - destruct l as [|a [|b [|? ?]]]; try done. rewrite swab16_bytes, (Hk [] a _ eq_refl : byte_at _ 0 = a), (Hk [a] b _ eq_refl : byte_at _ 8 = b). cbn [rev app le_word]. lia.
  - destruct l as [|a [|b [|c [|d [|? ?]]]]]; try done. rewrite swab32_bytes, (Hk [] a _ eq_refl : byte_at _ 0 = a), (Hk [a] b _ eq_refl : byte_at _ 8 = b), (Hk [a; b] c _ eq_refl : byte_at _ 16 = c), (Hk [a; b; c] d _ eq_refl : byte_at _ 24 = d). cbn [rev app le_word]. lia.
  - destruct l as [|a [|b [|c [|d [|e [|f [|g [|h [|? ?]]]]]]]]]; try done. rewrite swab64_bytes, (Hk [] a _ eq_refl : byte_at _ 0 = a), (Hk [a] b _ eq_refl : byte_at _ 8 = b), (Hk [a; b] c _ eq_refl : byte_at _ 16 = c), (Hk [a; b; c] d _ eq_refl : byte_at _ 24 = d), (Hk [a; b; c; d] e _ eq_refl : byte_at _ 32 = e), (Hk [a; b; c; d; e] f _ eq_refl : byte_at _ 40 = f), (Hk [a; b; c; d; e; f] g _ eq_refl : byte_at _ 48 = g), (Hk [a; b; c; d; e; f; g] h _ eq_refl : byte_at _ 56 = h). cbn [rev app le_word]. lia.
Qed.

Lemma le_bytes_word l : Forall is_byte l → le_bytes (length l) (le_word l) = l.
Proof.
  induction 1 as [|b l Hb Hl IH]; [done|]. cbn [length le_bytes le_word]. unfold wrap. change (2 ^ 8) with 256 in *. unfold in_width in Hb. change (2 ^ 8) with 256 in Hb.
  f_equal; [|transitivity (le_bytes (length l) (le_word l)); [f_equal|done]].
  - rewrite Z.mul_comm, Z.mod_add by lia. by apply Z.mod_small.
  - rewrite Z.mul_comm, Z.div_add, Z.div_small by lia. lia.
Qed.

(** Of numbers instead of bytes. *)
Lemma swab_number w x : in_width (8 * Z.of_nat (size w)) x → swab w x = le_word (rev (le_bytes (size w) x)).
Proof.
  intros Hx. rewrite <-(swab_word w) by (apply length_le_bytes || apply le_bytes_are_bytes). f_equal. rewrite le_word_bytes. symmetry. apply Z.mod_small.
  unfold in_width in Hx. by rewrite Z.pow_mul_r in Hx by lia.
Qed.
Lemma le_bytes_swab w x : in_width (8 * Z.of_nat (size w)) x → le_bytes (size w) (swab w x) = rev (le_bytes (size w) x).
Proof.
  intros Hx. rewrite swab_number by done. pose proof (le_bytes_are_bytes (size w) x) as Hb. apply Forall_rev in Hb. rewrite <-(le_bytes_word _ Hb) at 2.
  by rewrite length_rev, length_le_bytes.
Qed.
Lemma swab_twice w x : in_width (8 * Z.of_nat (size w)) x → swab w (swab w x) = x.
Proof.
  intros Hx. rewrite (swab_number w x Hx), swab_word; [|by rewrite length_rev, length_le_bytes|apply Forall_rev, le_bytes_are_bytes].
  rewrite rev_involutive, le_word_bytes. apply Z.mod_small. unfold in_width in Hx. by rewrite Z.pow_mul_r in Hx by lia.
Qed.

(** One order needs no change, the other a swap. *)
Lemma order_native (big : bool) w c : to_be c = (if big then id else swab w) → from_be c = (if big then id else swab w) →
  to_le c = (if big then swab w else id) → from_le c = (if big then swab w else id) → order big (size w) c.
Proof.
  intros H1 H2 H3 H4. split; rewrite ?H1, ?H2, ?H3, ?H4; destruct big; cbn [bytes word id].
  - intros x Hx. by rewrite le_bytes_swab, rev_involutive.
  - done.
  - done.
  - intros x Hx. by rewrite le_bytes_swab.
  - intros l Hl Hb. rewrite swab_word; [by rewrite rev_involutive|by rewrite length_rev|by apply Forall_rev].
  - done.
  - done.
  - intros l Hl Hb. by rewrite swab_word.
  - intros x Hx. by rewrite swab_twice.
  - done.
  - done.
  - intros x Hx. by rewrite swab_twice.
Qed.

Lemma kernelenv_order (big : bool) w : order big (size w) (kernelenv_endian big w).
Proof. apply order_native; by destruct big, w. Qed.

(** C31: on a machine of either byte order the conversions of its header are right at every
    width: a number converted to one of the fixed orders has its bytes in that order in
    memory, bytes in that order are read back as the number, and conversion and return
    give the number; htonl and its companions are the conversions to the order of the
    network. *)
Theorem byte_orders (big : bool) :
  (∀ w, order big (size w) (kernelenv_endian big w)) ∧
  (∀ x, in_width 32 x → bytes big 4 (htonl big x) = rev (le_bytes 4 x) ∧ ntohl big (htonl big x) = x) ∧
  (∀ x, in_width 16 x → bytes big 2 (htons big x) = rev (le_bytes 2 x) ∧ ntohs big (htons big x) = x).
Proof.
  pose proof (kernelenv_order big) as Ho. split; [done|]. split; intros x Hx.
  - split; [by apply (be_in_memory _ _ _ (Ho W32))|by apply (be_back _ _ _ (Ho W32))].
  - split; [by apply (be_in_memory _ _ _ (Ho W16))|by apply (be_back _ _ _ (Ho W16))].
Qed.

Lemma byte_orders_witness : bytes false 4 (htonl false 0x01020304) = [1; 2; 3; 4] ∧ bytes true 4 (htonl true 0x01020304) = [1; 2; 3; 4].
Proof.
  assert (H : in_width 32 0x01020304) by (unfold in_width; lia).
  split; [exact (proj1 (proj1 (proj2 (byte_orders false)) _ H))|exact (proj1 (proj1 (proj2 (byte_orders true)) _ H))].
Defined.
