(* ===== verification/Skb.v ===== *)
(** * kernelenv/kernelenv.c: socket buffers

    The sk_buff operations on explicit memory: [mem] is the linear area between
    head and end, the pointers are offsets from head, and a non-linear packet has
    the master copy [extra] that nfsim keeps to catch writes which were not
    announced.  [contents] is the packet the structure represents. *)

From Stdlib Require Import ZArith Lia.
From S2P Require Import Prelude Mem Csum.

(** ** struct sk_buff *)

(** The members copy_skb_header copies. *)
Record skb_hdr := SkbHdr {
  dev : Z; seq : Z; local_df : Z; csum : Z; ip_summed : Z;
  nfmark : Z; nfcache : Z; nfct : Z; nfctinfo : Z; dst : Z;
  dump_flags : option (list Z);
}.

Record skb_extra_info := ExtraInfo {
  x_data : list Z;
  x_len : Z;
  x_writable_len : Z;
}.

Record sk_buff := SkBuff {
  hdr : skb_hdr;
  sk : Z; destructor : option Z;
  mac : Z; nh : Z; h : Z;
  protocol : Z; pkt_type : Z; priority : Z;
  users : Z; cloned : Z;
  len : Z;
  mem : list Z;
  data : Z; tail : Z; end_ : Z;
  extra : option skb_extra_info;
  tso_size : Z;
}.

Definition CHECKSUM_NONE : Z := 0.
Definition CHECKSUM_HW : Z := 1.
Definition CHECKSUM_UNNECESSARY : Z := 2.

(** Assignments to the members. *)
Definition with_ptrs (d t l : Z) (s : sk_buff) : sk_buff :=
  SkBuff (hdr s) (sk s) (destructor s) (mac s) (nh s) (h s) (protocol s) (pkt_type s) (priority s)
    (users s) (cloned s) l (mem s) d t (end_ s) (extra s) (tso_size s).
Definition with_hdr (x : skb_hdr) (s : sk_buff) : sk_buff :=
  SkBuff x (sk s) (destructor s) (mac s) (nh s) (h s) (protocol s) (pkt_type s) (priority s)
    (users s) (cloned s) (len s) (mem s) (data s) (tail s) (end_ s) (extra s) (tso_size s).
Definition with_mem (m : list Z) (s : sk_buff) : sk_buff :=
  SkBuff (hdr s) (sk s) (destructor s) (mac s) (nh s) (h s) (protocol s) (pkt_type s) (priority s)
    (users s) (cloned s) (len s) m (data s) (tail s) (end_ s) (extra s) (tso_size s).
Definition with_extra (x : option skb_extra_info) (s : sk_buff) : sk_buff :=
  SkBuff (hdr s) (sk s) (destructor s) (mac s) (nh s) (h s) (protocol s) (pkt_type s) (priority s)
    (users s) (cloned s) (len s) (mem s) (data s) (tail s) (end_ s) x (tso_size s).
Definition with_heads (n t : Z) (s : sk_buff) : sk_buff :=
  SkBuff (hdr s) (sk s) (destructor s) (mac s) n t (protocol s) (pkt_type s) (priority s)
    (users s) (cloned s) (len s) (mem s) (data s) (tail s) (end_ s) (extra s) (tso_size s).
Definition with_ip_summed (v : Z) (s : sk_buff) : sk_buff :=
  with_hdr (SkbHdr (dev (hdr s)) (seq (hdr s)) (local_df (hdr s)) (csum (hdr s)) v (nfmark (hdr s))
    (nfcache (hdr s)) (nfct (hdr s)) (nfctinfo (hdr s)) (dst (hdr s)) (dump_flags (hdr s))) s.

Section Skb.
(** The bytes talloc_size leaves in a fresh block are not specified. *)
Context (fresh : Z → list Z) (Hfresh : ∀ n, 0 <= n → zlen (fresh n) = n).
Context (linear_packets : bool).

Definition hdr0 (seqno : Z) : skb_hdr := SkbHdr 0 seqno 0 0 0 0 0 0 0 0 None.

(** [nfsim_seq] is a global counter. *)
Definition nfsim_skb (size nfsim_seq : Z) : sk_buff * Z :=
  let nfsim_seq := u32 (nfsim_seq + 1) in
  (SkBuff (hdr0 nfsim_seq) 0 None 0 0 0 0 0 0 1 0 0 (fresh size) 0 0 size None 0, nfsim_seq).

(** ** The linear area *)

Definition skb_headroom (s : sk_buff) : Z := u32 (data s).

Definition skb_put (s : sk_buff) (n : Z) : outcome (Z * sk_buff) :=
  let tmp := tail s in
  if end_ s <? tail s + n then Barf "skb_put will overrun buffer"
  else mret (tmp, with_ptrs (data s) (tail s + n) (u32 (len s + n)) s).

Definition skb_push (s : sk_buff) (n : Z) : outcome (Z * sk_buff) :=
  if data s - n <? 0 then Barf "skb_push will underrun buffer"
  else mret (data s - n, with_ptrs (data s - n) (tail s) (u32 (len s + n)) s).

Definition skb_pull (s : sk_buff) (n : Z) : outcome (Z * sk_buff) :=
  if data s + n <? 0 then Barf "skb_pull will underrun buffer"
  else mret (data s + n, with_ptrs (data s + n) (tail s) (u32 (len s - n)) s).

Definition skb_reserve (s : sk_buff) (n : Z) : outcome sk_buff :=
  if (end_ s <? data s + n) || (end_ s <? tail s + n) then Barf "skb_reserve: too much"
  else mret (with_ptrs (data s + n) (tail s + n) (len s) s).

Definition __skb_trim (s : sk_buff) (n : Z) : sk_buff := with_ptrs (data s) (data s + n) n s.
Definition skb_trim (s : sk_buff) (n : Z) : sk_buff := if n <? len s then __skb_trim s n else s.

Definition pskb_may_pull (s : sk_buff) (n : Z) : bool := n <=? skb_headroom s.

Definition skb_orphan (s : sk_buff) : sk_buff :=
  SkBuff (hdr s) 0 None (mac s) (nh s) (h s) (protocol s) (pkt_type s) (priority s)
    (users s) (cloned s) (len s) (mem s) (data s) (tail s) (end_ s) (extra s) (tso_size s).
Definition skb_cloned (s : sk_buff) : bool := negb (cloned s =? 0).
Definition skb_shared (s : sk_buff) : bool := negb (users s =? 1).

(** ** Non-linear packets *)

Definition nfsim_nonlinear_skb (data1 data2 : list Z) (nfsim_seq : Z) : outcome (sk_buff * Z) :=
  let size1 := zlen data1 in
  let size2 := zlen data2 in
  if linear_packets then
    let '(s, nfsim_seq) := nfsim_skb (size1 + size2) nfsim_seq in
    m ← store 0 data1 (mem s);
    m ← store size1 data2 m;
    '(_, s) ← skb_put (with_mem m s) (size1 + size2);
    mret (s, nfsim_seq)
  else
    let x := ExtraInfo (data1 ++ data2) (size1 + size2) 0 in
    let nfsim_seq := u32 (nfsim_seq + 1) in
    mret (SkBuff (hdr0 nfsim_seq) 0 None 0 0 0 0 0 0 1 0 (size1 + size2)
            (ztake size1 (x_data x)) 0 size1 size1 (Some x) 0, nfsim_seq).

(** memcmp of the part of the linear area that is not writable against the master. *)
Definition nfsim_check_packet (s : sk_buff) : outcome unit :=
  match extra s with
  | None => mret ()
  | Some x =>
      let linear_len := u32 (end_ s) in
      let n := u32 (linear_len - x_writable_len x) in
      a ← slice (x_writable_len x) n (mem s);
      b ← slice (x_writable_len x) n (x_data x);
      if bool_decide (a = b) then mret () else Barf "skb modified without being made writable!"
  end.

(** [p]: offset from head of the [size] bytes that were changed. *)
Definition nfsim_update_skb (s : sk_buff) (p size : Z) : outcome sk_buff :=
  match extra s with
  | None => mret s
  | Some x =>
      let off := u32 p in
      if x_len x <? u32 (off + size) then Barf "Bad nfsim_update_skb" else
      x ← (if x_writable_len x <? u32 (off + size) then
             bs ← slice p size (mem s);
             d ← store off bs (x_data x);
             mret (ExtraInfo d (x_len x) (x_writable_len x))
           else mret x);
      let s := with_extra (Some x) s in
      _ ← nfsim_check_packet s;
      mret s
  end.

Definition skb_is_nonlinear (s : sk_buff) : outcome bool :=
  _ ← nfsim_check_packet s; mret (end_ s <? data s + len s).
Definition skb_tailroom (s : sk_buff) : outcome Z :=
  b ← skb_is_nonlinear s; mret (if b : bool then 0 else u32 (end_ s - tail s)).

Definition nfsim_linear_length (s : sk_buff) : Z := s32 (end_ s - data s).

(** The bytes copied to [to], or -EFAULT. *)
Definition skb_copy_bits (s : sk_buff) (offset n : Z) : outcome (option (list Z)) :=
  _ ← nfsim_check_packet s;
  if s32 (len s) - n <? offset then mret None else
  let linear := nfsim_linear_length s in
  '(copied, offset, n) ←
    (if offset <? linear then
       let l := Z.min n (linear - offset) in
       bs ← slice (data s + offset) l (mem s);
       mret (bs, offset + l, n - l)
     else mret ([], offset, n));
  match extra s with
  | Some x => bs ← slice (skb_headroom s + offset) n (x_data x); mret (Some (copied ++ bs))
  | None => if n =? 0 then mret (Some copied) else Barf "assert (len == 0)"
  end.

(** ** Copies *)

Definition copy_skb_header (new old : sk_buff) : sk_buff :=
  with_heads (data new + (nh old - data old)) (data new + (h old - data old))
    (with_ptrs (data new) (tail new) (len old) (with_hdr (hdr old) new)).

(** [fail]: what should_i_fail() answers; [None] is a NULL result. *)
Definition alloc_skb (fail : bool) (size nfsim_seq : Z) : option sk_buff * Z :=
  if fail then (None, nfsim_seq)
  else let '(s, q) := nfsim_skb size nfsim_seq in (Some s, q).

Definition skb_copy_expand (fail : bool) (s : sk_buff) (newheadroom newtailroom nfsim_seq : Z) :
    outcome (option sk_buff * Z) :=
  _ ← nfsim_check_packet s;
  if fail then mret (None, nfsim_seq) else
  let '(n, nfsim_seq) := nfsim_skb (u32 (newheadroom + len s + newtailroom)) nfsim_seq in
  n ← skb_reserve n newheadroom;
  '(_, n) ← skb_put n (len s);
  bits ← skb_copy_bits s 0 (s32 (len s));
  match bits with
  | None => Barf "skb_copy_bits failed"
  | Some bs =>
      m ← store (data n) bs (mem n);
      mret (Some (copy_skb_header (with_mem m n) s), nfsim_seq)
  end.

(** The macro of kernelenv.h. *)
Definition skb_copy (fail : bool) (s : sk_buff) (nfsim_seq : Z) : outcome (option sk_buff * Z) :=
  t ← skb_tailroom s; skb_copy_expand fail s (skb_headroom s) t nfsim_seq.

Definition skb_realloc_headroom (fail : bool) (s : sk_buff) (headroom nfsim_seq : Z) :
    outcome (option sk_buff * Z) :=
  let delta := s32 (headroom - skb_headroom s) in
  skb_copy_expand fail s (if 0 <? delta then delta else 0) 0 nfsim_seq.

(** skb_ip_make_writable: the return value and the new [*pskb]. *)
Definition skb_ip_make_writable (fail : bool) (s : sk_buff) (writable_len nfsim_seq : Z) :
    outcome (Z * sk_buff * Z) :=
  _ ← nfsim_check_packet s;
  if len s <? writable_len then mret (0, s, nfsim_seq)
  else if fail then mret (0, s, nfsim_seq) else
  bits ← skb_copy_bits s 0 (s32 (len s));
  d ← of_option "data[] is uninitialised" bits;
  let writable_len :=
    match extra s with
    | Some x => if writable_len <? x_writable_len x then Z.min (x_writable_len x) (len s) else writable_len
    | None => writable_len
    end in
  '(new, nfsim_seq) ← nfsim_nonlinear_skb (ztake writable_len d) (zdrop writable_len d) nfsim_seq;
  let new := copy_skb_header new s in
  let new := with_extra ((λ x, ExtraInfo (x_data x) (x_len x) writable_len) <$> extra new) new in
  mret (1, new, nfsim_seq).

Definition ENOMEM : Z := 12.
Definition skb_linearize (fail : bool) (s : sk_buff) : outcome (Z * sk_buff) :=
  let headroom := skb_headroom s in
  _ ← nfsim_check_packet s;
  if fail then mret (- ENOMEM, s) else
  let new_head := fresh (len s + headroom) in
  room ← slice 0 headroom (mem s);
  m ← store 0 room new_head;
  bits ← skb_copy_bits s 0 (s32 (len s));
  m ← match bits with Some bs => store headroom bs m | None => mret m end;
  mret (0, SkBuff (hdr s) (sk s) (destructor s) (mac s) (nh s) (h s) (protocol s) (pkt_type s) (priority s)
    (users s) (cloned s) (len s) m headroom (headroom + len s) (headroom + len s) None (tso_size s)).

(** Where skb_header_pointer's result points: nowhere, into the packet (offset
    from head), or to the caller's buffer with these bytes. *)
Inductive header_ptr := NullPtr | InPacket (p : Z) | InBuffer (bs : list Z).

Definition skb_header_pointer (fail_once : bool) (s : sk_buff) (offset n : Z) : outcome header_ptr :=
  _ ← nfsim_check_packet s;
  if len s <? u32 (offset + n) then mret NullPtr
  else if negb fail_once && (offset + n <=? nfsim_linear_length s) then mret (InPacket (data s + offset))
  else
    bits ← skb_copy_bits s offset n;
    match bits with
    | Some bs => mret (InBuffer bs)
    | None => Barf "skb_header_pointer: logic error"
    end.

(** ** Checksums of packets *)

(** The local array's address is not known: [addr]. *)
Definition skb_checksum (big : bool) (addr : Z) (s : sk_buff) (offset n sum : Z) : outcome Z :=
  bits ← skb_copy_bits s offset n;
  match bits with
  | None => Barf "skb_checksum invalid length"
  | Some d => csum_partial big addr d n sum
  end.

Definition __skb_checksum_complete (big : bool) (addr : Z) (s : sk_buff) : outcome (Z * sk_buff) :=
  c ← skb_checksum big addr s 0 (s32 (len s)) (csum (hdr s));
  let sum := u16 (csum_fold c) in
  mret (sum, if sum =? 0 then with_ip_summed CHECKSUM_UNNECESSARY s else s).

Definition skb_checksum_complete (big : bool) (addr : Z) (s : sk_buff) : outcome (Z * sk_buff) :=
  if negb (ip_summed (hdr s) =? CHECKSUM_UNNECESSARY) then
    '(sum, s) ← __skb_checksum_complete big addr s; mret (c_bool (negb (sum =? 0)), s)
  else mret (0, s).

(** __skb_checksum_help: the return value, the buffer the caller still holds
    ([None] once it has been freed) and the one that was worked on. *)
Definition __skb_checksum_help (big : bool) (addr : Z) (fail : bool) (s : sk_buff) (inward : bool)
    (nfsim_seq : Z) : outcome (Z * option sk_buff * sk_buff * Z) :=
  let offset := s32 (h s - data s) in
  if inward then
    let s := with_ip_summed CHECKSUM_NONE s in mret (0, Some s, s, nfsim_seq)
  else
    '(copied, nfsim_seq) ←
      (if skb_shared s || skb_cloned s then
         '(o, q) ← skb_copy fail s nfsim_seq; mret (Some o, q)
       else mret (None, nfsim_seq));
    match copied with
    | Some None => mret (- ENOMEM, Some s, s, nfsim_seq)
    | _ =>
        let w := match copied with Some (Some n) => n | _ => s end in
        if s32 (len w) <? offset then Barf "BUG" else
        c ← skb_checksum big addr w offset (s32 (len w - offset)) 0;
        let offset := s32 (tail w - h w) in
        if offset <=? 0 then Barf "BUG"
        else if u32 offset <? u32 (csum (hdr w) + 2) then Barf "BUG" else
        m ← store (h w + csum (hdr w)) (bytes big 2 (u16 (csum_fold c))) (mem w);
        let w := with_ip_summed CHECKSUM_NONE (with_mem m w) in
        mret (0, match copied with Some _ => None | None => Some w end, w, nfsim_seq)
    end.

(** ** The packet a buffer represents *)

Definition backing (s : sk_buff) : list Z :=
  mem s ++ match extra s with Some x => zdrop (end_ s) (x_data x) | None => [] end.
Definition contents (s : sk_buff) : list Z := ztake (len s) (zdrop (data s) (backing s)).

Definition extra_ok (s : sk_buff) : Prop :=
  match extra s with
  | None => True
  | Some x => x_len x = zlen (x_data x) ∧ end_ s <= zlen (x_data x) ∧ 0 <= x_writable_len x <= end_ s
  end.
Record wf (s : sk_buff) : Prop := Wf {
  wf_mem : zlen (mem s) = end_ s;
  wf_data : 0 <= data s <= end_ s;
  wf_len : 0 <= len s;
  wf_fit : data s + len s <= zlen (backing s);
  wf_small : zlen (backing s) < 2 ^ 31;
  wf_extra : extra_ok s;
}.

(** What is not writable has not been changed. *)
Definition clean (s : sk_buff) : Prop :=
  match extra s with
  | None => True
  | Some x => zdrop (x_writable_len x) (mem s) =
      ztake (end_ s - x_writable_len x) (zdrop (x_writable_len x) (x_data x))
  end.

(** The first [n] bytes of the packet may be written in place. *)
Definition writable (s : sk_buff) (n : Z) : Prop :=
  data s + n <= end_ s ∧ match extra s with None => True | Some x => data s + n <= x_writable_len x end.

(** ** Lemmas *)

Lemma zlen_backing s : wf s →
  zlen (backing s) = match extra s with Some x => zlen (x_data x) | None => end_ s end.
Proof.
  intros W. unfold backing. rewrite zlen_app, (wf_mem s W). pose proof (wf_extra s W) as He. unfold extra_ok in He.
  pose proof (wf_data s W). destruct (extra s) as [x|]; [|unfold zlen; simpl; lia]. rewrite zlen_zdrop; lia.
Qed.

Lemma wf_end_small s : wf s → 0 <= end_ s < 2 ^ 31.
Proof.
  intros W. pose proof (wf_data s W). pose proof (wf_small s W). unfold backing in H0.
  rewrite zlen_app, (wf_mem s W) in H0. pose proof (zlen_nonneg (match extra s with Some x => zdrop (end_ s) (x_data x) | None => [] end)). lia.
Qed.

Lemma u32_small x : 0 <= x < 2 ^ 31 → u32 x = x.
Proof. intros. apply wrap_small; lia. Qed.

Lemma check_packet_spec s : wf s →
  (clean s ∧ nfsim_check_packet s = Ret ()) ∨
  (¬ clean s ∧ nfsim_check_packet s = Barf "skb modified without being made writable!").
Proof.
  intros W. unfold nfsim_check_packet, clean. pose proof (wf_extra s W) as He. unfold extra_ok in He.
  pose proof (wf_end_small s W). pose proof (wf_mem s W).
  destruct (extra s) as [x|]; [|left; done]. destruct He as (He1 & He2 & He3).
  rewrite (u32_small (end_ s)), u32_small by lia.
  rewrite !slice_ret by lia. simpl.
  rewrite (ztake_all _ (zdrop (x_writable_len x) (mem s))) by (rewrite zlen_zdrop; lia).
  case_bool_decide; [left|right]; done.
Qed.

Lemma check_packet_clean s : wf s → clean s → nfsim_check_packet s = Ret ().
Proof. intros W C. by destruct (check_packet_spec s W) as [[_ ->]|[? _]]. Qed.

(** Reading a window of the backing store from its two parts. *)
Lemma backing_window s p n : wf s → 0 <= p → 0 <= n → p + n <= zlen (backing s) →
  ztake n (zdrop p (backing s)) =
  (if p <? end_ s then ztake (Z.min n (end_ s - p)) (zdrop p (mem s)) else []) ++
  match extra s with
  | Some x => let l := if p <? end_ s then Z.min n (end_ s - p) else 0 in
              ztake (n - l) (zdrop (p + l) (x_data x))
  | None => []
  end.
Proof.
  intros W Hp Hn Hfit. pose proof (wf_mem s W) as Hm. pose proof (wf_extra s W) as He. unfold extra_ok in He.
  pose proof (zlen_backing s W) as Hb. pose proof (wf_data s W). unfold backing.
  destruct (Z.ltb_spec p (end_ s)) as [Hlt|Hge].
  - rewrite zdrop_app_le by lia. destruct (Z.le_gt_cases n (end_ s - p)) as [Hle|Hgt].
    + rewrite Z.min_l by lia. rewrite ztake_app_le by (rewrite zlen_zdrop; lia).
      destruct (extra s) as [x|]; [|by rewrite app_nil_r]. rewrite (ztake_0 (n - n)) by lia. by rewrite app_nil_r.
    + rewrite Z.min_r by lia. rewrite ztake_app_ge by (rewrite zlen_zdrop; lia).
      rewrite (ztake_all (end_ s - p)) by (rewrite zlen_zdrop; lia). f_equal.
      rewrite zlen_zdrop, Hm by lia.
      destruct (extra s) as [x|]; [|by unfold ztake, zdrop; rewrite take_nil].
      replace (p + (end_ s - p)) with (end_ s) by lia. done.
  - rewrite zdrop_app_ge by lia. rewrite app_nil_l.
    destruct (extra s) as [x|].
    + rewrite zdrop_zdrop, Hm by lia. rewrite Z.sub_0_r, Z.add_0_r. do 2 f_equal. lia.
    + unfold zdrop, ztake. by rewrite drop_nil, take_nil.
Qed.

Lemma contents_window s off n : wf s → 0 <= off → 0 <= n → off + n <= len s →
  ztake n (zdrop off (contents s)) = ztake n (zdrop (data s + off) (backing s)).
Proof.
  intros W Ho Hn Hl. pose proof (wf_data s W). unfold contents.
  rewrite zdrop_ztake by lia. rewrite ztake_ztake by lia. by rewrite zdrop_zdrop by lia.
Qed.

Lemma zlen_contents s : wf s → zlen (contents s) = len s.
Proof.
  intros W. pose proof (wf_fit s W). pose proof (wf_data s W). pose proof (wf_len s W).
  unfold contents. apply zlen_ztake. rewrite zlen_zdrop; lia.
Qed.

Lemma skb_copy_bits_ret s off n : wf s → clean s → 0 <= off → 0 <= n → off + n < 2 ^ 31 →
  skb_copy_bits s off n =
  Ret (if len s - n <? off then None else Some (ztake n (zdrop off (contents s)))).
Proof.
  intros W C Ho Hn Hb. unfold skb_copy_bits. rewrite check_packet_clean by done. simpl.
  pose proof (wf_fit s W). pose proof (wf_data s W). pose proof (wf_len s W). pose proof (wf_small s W).
  pose proof (wf_end_small s W). rewrite s32_small by lia. destruct (Z.ltb_spec (len s - n) off) as [Hlt|Hge]; [done|].
  unfold nfsim_linear_length. rewrite s32_small by lia.
  rewrite contents_window by (done || lia). rewrite backing_window by (done || lia).
  replace (data s + off <? end_ s) with (off <? end_ s - data s) by (apply eq_true_iff_eq; rewrite !Z.ltb_lt; lia).
  pose proof (zlen_backing s W) as Hzb. pose proof (wf_extra s W) as He. unfold extra_ok in He. pose proof (wf_mem s W) as Hm.
  unfold skb_headroom. rewrite (u32_small (data s)) by lia.
  destruct (Z.ltb_spec off (end_ s - data s)) as [Hin|Hout]; cbv zeta.
  - replace (end_ s - (data s + off)) with (end_ s - data s - off) by lia.
    set (l := Z.min n (end_ s - data s - off)). assert (0 <= l <= n) by lia.
    rewrite slice_ret by lia. rewrite !bind_ret. cbv beta iota.
    destruct (extra s) as [x|].
    + rewrite slice_ret by lia. simpl. unfold mret, outcome_ret. do 4 f_equal. f_equal. lia.
    + assert (n - l = 0) as -> by lia. simpl. by rewrite app_nil_r.
  - rewrite bind_ret. cbv beta iota. destruct (extra s) as [x|].
    + rewrite slice_ret by lia. simpl. by rewrite Z.sub_0_r, Z.add_0_r.
    + assert (n = 0) as -> by lia. done.
Qed.

Lemma copy_all s : wf s → clean s → skb_copy_bits s 0 (s32 (len s)) = Ret (Some (contents s)).
Proof.
  intros W C. pose proof (wf_fit s W). pose proof (wf_data s W). pose proof (wf_len s W). pose proof (wf_small s W).
  rewrite s32_small by lia. rewrite skb_copy_bits_ret by (done || lia).
  rewrite Z.sub_diag. simpl. rewrite zdrop_0 by lia. rewrite ztake_all; [done|]. rewrite zlen_contents by done. lia.
Qed.

Lemma store_2 (a b m : list Z) : zlen m = zlen a + zlen b →
  ∃ m1, store 0 a m = Ret m1 ∧ store (zlen a) b m1 = Ret (a ++ b).
Proof.
  intros Hm. pose proof (zlen_nonneg a). pose proof (zlen_nonneg b).
  unfold store at 1. rewrite (proj2 (in_object_spec 0 (zlen a) m)) by lia.
  eexists. split; [reflexivity|]. rewrite (ztake_0 0), Z.add_0_l, app_nil_l by lia. unfold store.
  rewrite (proj2 (in_object_spec _ _ _)) by (rewrite zlen_app, zlen_zdrop; lia).
  rewrite ztake_app_le, ztake_all by lia. rewrite (zdrop_all (zlen a + zlen b)), app_nil_r; [done|].
  rewrite zlen_app, zlen_zdrop; lia.
Qed.

Lemma store_all (a m : list Z) off : 0 <= off → zlen m = off + zlen a → store off a m = Ret (ztake off m ++ a).
Proof.
  intros Ho Hm. pose proof (zlen_nonneg a). unfold store. rewrite (proj2 (in_object_spec _ _ _)) by lia.
  rewrite (zdrop_all (off + zlen a)), app_nil_r by lia. done.
Qed.

(** A fresh packet from two parts. *)
Lemma nonlinear_skb_spec d1 d2 q : zlen d1 + zlen d2 < 2 ^ 31 →
  ∃ n, nfsim_nonlinear_skb d1 d2 q = Ret (n, u32 (q + 1)) ∧ wf n ∧ clean n ∧ contents n = d1 ++ d2 ∧
    data n = 0 ∧ zlen d1 <= end_ n ∧ len n = zlen d1 + zlen d2 ∧ tail n <= end_ n ∧
    (∀ x, extra n = Some x → end_ n = zlen d1 ∧ x_data x = d1 ++ d2 ∧ x_len x = zlen d1 + zlen d2).
Proof.
  intros Hs. pose proof (zlen_nonneg d1). pose proof (zlen_nonneg d2). unfold nfsim_nonlinear_skb.
  destruct linear_packets.
  - unfold nfsim_skb. cbv beta iota. cbn [mem].
    destruct (store_2 d1 d2 (fresh (zlen d1 + zlen d2))) as (m1 & -> & E); [by apply Hfresh; lia|].
    rewrite bind_ret, E, bind_ret. unfold skb_put. cbn [with_mem end_ tail data len].
    rewrite (proj2 (Z.ltb_ge _ _)) by lia. rewrite bind_ret. cbv beta iota. rewrite !Z.add_0_l, u32_small by lia.
    eexists. split; [reflexivity|].
    assert (Hz : zlen (d1 ++ d2) = zlen d1 + zlen d2) by apply zlen_app.
    split_and!; try (simpl; lia); try done.
    + split; unfold backing, extra_ok; cbn; rewrite ?app_nil_r; try lia; done.
    + unfold contents, backing. cbn. rewrite app_nil_r, zdrop_0 by lia. apply ztake_all. lia.
  - eexists. split; [reflexivity|].
    assert (Hz : zlen (d1 ++ d2) = zlen d1 + zlen d2) by apply zlen_app.
    assert (Ht : ztake (zlen d1) (d1 ++ d2) = d1) by (rewrite ztake_app_le by lia; apply ztake_all; lia).
    assert (Hd : zdrop (zlen d1) (d1 ++ d2) = d2) by (rewrite zdrop_app_ge by lia; apply zdrop_0; lia).
    split_and!; try (simpl; lia); try done.
    + split; unfold backing, extra_ok; cbn; rewrite ?Ht, ?Hd; try lia.
    + unfold clean. cbn. rewrite Ht, !zdrop_0, Z.sub_0_r, Ht by lia. done.
    + unfold contents, backing. cbn. rewrite Ht, Hd, zdrop_0 by lia. apply ztake_all. lia.
    + intros x [= <-]. cbn. done.
Qed.

Lemma make_writable_ok s wl q : wf s → clean s → 0 <= wl <= len s →
  ∃ n, skb_ip_make_writable false s wl q = Ret (1, n, u32 (q + 1)) ∧ wf n ∧ clean n ∧
    contents n = contents s ∧ writable n wl ∧ len n = len s ∧ hdr n = hdr s ∧
    nh n - data n = nh s - data s ∧ h n - data n = h s - data s ∧
    (∀ k x, extra s = Some x → writable s k → k <= len s → writable n k).
Proof.
  intros W C Hwl. unfold skb_ip_make_writable. rewrite check_packet_clean by done. rewrite bind_ret.
  rewrite (proj2 (Z.ltb_ge _ _)) by lia. cbv iota. rewrite copy_all by done. rewrite !bind_ret. cbn [of_option].
  rewrite bind_ret. set (d := contents s). assert (Hd : zlen d = len s) by (by apply zlen_contents).
  set (w := match extra s with Some x => _ | None => wl end).
  pose proof (wf_small s W). pose proof (wf_fit s W). pose proof (wf_data s W). pose proof (wf_extra s W) as He. unfold extra_ok in He.
  assert (Hw : wl <= w <= len s).
  { unfold w. destruct (extra s) as [x|]; [|lia]. destruct (Z.ltb_spec wl (x_writable_len x)); lia. }
  assert (Hk : ∀ k x, extra s = Some x → writable s k → k <= len s → k <= w).
  { intros k x Hx [_ Hk] Hkl. unfold w. rewrite Hx in *. destruct (Z.ltb_spec wl (x_writable_len x)); lia. }
  clearbody w. assert (Ht : zlen (ztake w d) = w) by (apply zlen_ztake; lia).
  assert (Hz : zlen (zdrop w d) = len s - w) by (rewrite zlen_zdrop; lia).
  destruct (nonlinear_skb_spec (ztake w d) (zdrop w d) q ltac:(lia)) as (n & E & Wn & Cn & Hc & Hdata & Hend & Hlen & Htail & Hx).
  rewrite E, bind_ret. cbv beta iota. rewrite ztake_zdrop in Hc. rewrite Ht, Hz in *.
  eexists. split; [reflexivity|]. set (n' := with_extra _ _).
  assert (Hmem : mem n' = mem n) by done. assert (Hend' : end_ n' = end_ n) by done.
  assert (Hback : backing n' = backing n) by (unfold backing, n'; cbn; by destruct (extra n)).
  assert (Hwr : ∀ k, k <= w → writable n' k).
  { intros k Hkw. split; [cbn; rewrite Hdata; lia|]. unfold n'. cbn. destruct (extra n) as [x|] eqn:Ex; [|done]. cbn. lia. }
  split_and!.
  - split; rewrite ?Hback, ?Hmem, ?Hend'; try apply Wn.
    + apply (wf_len s W).
    + cbn. rewrite Hdata. rewrite zlen_backing by done. pose proof (wf_fit n Wn) as Hf. rewrite zlen_backing in Hf by done. lia.
    + unfold extra_ok, n'. cbn. destruct (extra n) as [x|] eqn:Ex; [|done]. cbn.
      destruct (Hx x eq_refl) as (-> & Hxd & ->). rewrite ztake_zdrop in Hxd. rewrite Hxd. lia.
  - unfold clean, n'. cbn. destruct (extra n) as [x|] eqn:Ex; [|done]. cbn.
    destruct (Hx x eq_refl) as (-> & _ & _). rewrite Z.sub_diag, (ztake_0 0) by lia.
    apply zdrop_all. rewrite (wf_mem n Wn). destruct (Hx x eq_refl) as (-> & _). lia.
  - unfold contents. rewrite Hback. cbn. transitivity (contents n); [|done]. unfold contents. f_equal. lia.
  - apply Hwr. lia.
  - done.
  - done.
  - cbn. lia.
  - cbn. lia.
  - intros k x Hxs Hks Hkl. apply Hwr. by eapply Hk.
Qed.

Lemma copy_expand_ok s hr tr q : wf s → clean s → 0 <= hr → 0 <= tr → hr + len s + tr < 2 ^ 31 →
  ∃ n, skb_copy_expand false s hr tr q = Ret (Some n, u32 (q + 1)) ∧ wf n ∧ extra n = None ∧
    contents n = contents s ∧ data n = hr ∧ end_ n - tail n = tr ∧ len n = len s ∧ hdr n = hdr s ∧
    nh n - data n = nh s - data s ∧ h n - data n = h s - data s ∧ tail n = data n + len n.
Proof.
  intros W C Hhr Htr Hsz. pose proof (wf_len s W). unfold skb_copy_expand. rewrite check_packet_clean by done.
  rewrite bind_ret. unfold nfsim_skb. cbv beta iota. rewrite (u32_small (hr + len s + tr)) by lia.
  unfold skb_reserve. cbn [end_ data tail len].
  rewrite (proj2 (Z.ltb_ge _ _)) by lia. cbn [orb]. rewrite bind_ret. unfold skb_put.
  cbn [end_ data tail len with_ptrs]. rewrite (proj2 (Z.ltb_ge _ _)) by lia. rewrite bind_ret. cbv beta iota.
  rewrite copy_all by done. rewrite bind_ret. cbn [data mem with_ptrs]. rewrite !Z.add_0_l.
  assert (Hd : zlen (contents s) = len s) by (by apply zlen_contents).
  assert (Hf : zlen (fresh (hr + len s + tr)) = hr + len s + tr) by (apply Hfresh; lia).
  destruct (store_ret hr (contents s) (fresh (hr + len s + tr)) Hhr ltac:(lia)) as (m & -> & Hm & _ & Hin & _).
  rewrite bind_ret. rewrite Hd in Hin. eexists. split; [reflexivity|].
  split_and!; try (cbn; lia); try done.
  - split; unfold backing, extra_ok; cbn; rewrite ?app_nil_r; try lia; done.
  - unfold contents at 1, backing. cbn. by rewrite app_nil_r.
Qed.

Lemma linearize_ok s : wf s → clean s → data s + len s < 2 ^ 31 →
  ∃ n, skb_linearize false s = Ret (0, n) ∧ wf n ∧ extra n = None ∧ contents n = contents s ∧
    data n = data s ∧ len n = len s ∧ hdr n = hdr s ∧ mac n = mac s ∧ nh n = nh s ∧ h n = h s ∧
    ztake (data s) (mem n) = ztake (data s) (mem s).
Proof.
  intros W C Hsz. pose proof (wf_len s W). pose proof (wf_data s W). pose proof (wf_mem s W).
  unfold skb_linearize, skb_headroom. rewrite u32_small by lia. rewrite check_packet_clean by done. rewrite bind_ret. cbv iota.
  rewrite slice_ret by lia. rewrite bind_ret, (zdrop_0 0) by lia.
  assert (Hf : zlen (fresh (len s + data s)) = len s + data s) by (apply Hfresh; lia).
  assert (Hr : zlen (ztake (data s) (mem s)) = data s) by (apply zlen_ztake; lia).
  destruct (store_ret 0 (ztake (data s) (mem s)) (fresh (len s + data s)) ltac:(lia) ltac:(lia)) as (m & -> & Hm & _ & Hin & _).
  rewrite bind_ret, copy_all, bind_ret by done. rewrite Hr, (zdrop_0 0) in Hin by lia.
  assert (Hd : zlen (contents s) = len s) by (by apply zlen_contents).
  rewrite store_all by lia. rewrite bind_ret, Hin. eexists. split; [reflexivity|].
  split_and!; try done.
  - split; unfold backing, extra_ok; cbn; rewrite ?app_nil_r, ?zlen_app; try lia; done.
  - unfold contents at 1, backing. cbn. rewrite app_nil_r, zdrop_app_ge, Hr by lia.
    rewrite zdrop_0 by lia. apply ztake_all. lia.
  - cbn. rewrite ztake_app_le by lia. apply ztake_all. lia.
Qed.

(** Writing one byte of the linear area in place. *)
Definition poke (p v : Z) (s : sk_buff) : sk_buff := with_mem (<[Z.to_nat p := v]> (mem s)) s.

Lemma zlen_insert p v (m : list Z) : zlen (<[p := v]> m) = zlen m.
Proof. unfold zlen. by rewrite length_insert. Qed.

Lemma wf_poke p v s : wf s → wf (poke p v s).
Proof.
  intros W. assert (Hz : zlen (backing (poke p v s)) = zlen (backing s)).
  { unfold backing, poke. cbn. by rewrite !zlen_app, zlen_insert. }
  split; rewrite ?Hz; [cbn; rewrite zlen_insert| | | | |]; apply W.
Qed.

Lemma clean_poke p v s : wf s → clean s → 0 <= p < end_ s →
  clean (poke p v s) ↔
  match extra s with None => True | Some x => p < x_writable_len x ∨ mem s !! Z.to_nat p = Some v end.
Proof.
  intros W C Hp. unfold clean in *. cbn [poke with_mem extra mem end_]. pose proof (wf_extra s W) as He. unfold extra_ok in He.
  destruct (extra s) as [x|]; [|done]. rewrite <-C. unfold zdrop. set (w := x_writable_len x) in *.
  destruct (Z.lt_ge_cases p w) as [Hlt|Hge].
  - rewrite drop_insert_lt by lia. split; [by left|done].
  - rewrite drop_insert_ge by lia. split.
    + intros E. right. apply (f_equal (lookup (Z.to_nat p - Z.to_nat w)%nat)) in E.
      rewrite list_lookup_insert_eq in E.
      * rewrite lookup_drop in E. rewrite E. f_equal. lia.
      * rewrite length_drop. pose proof (wf_mem s W) as Hm. unfold zlen in Hm. lia.
    + intros [?|Hv]; [lia|]. apply list_insert_id. rewrite lookup_drop, <-Hv. f_equal. lia.
Qed.

Lemma store_1 p v (m : list Z) : 0 <= p < zlen m → store p [v] m = Ret (<[Z.to_nat p := v]> m).
Proof.
  intros Hp. unfold store. change (zlen [v]) with 1. rewrite (proj2 (in_object_spec p 1 m)) by lia.
  unfold mret, outcome_ret. f_equal. rewrite insert_take_drop by (unfold zlen in Hp; lia).
  unfold ztake, zdrop. simpl. do 3 f_equal. lia.
Qed.

Lemma update_skb_poke s p v : wf s → clean s → 0 <= p < end_ s →
  ∃ s', nfsim_update_skb (poke p v s) p 1 = Ret s' ∧ wf s' ∧ clean s' ∧ mem s' = <[Z.to_nat p := v]> (mem s) ∧
    data s' = data s ∧ len s' = len s ∧ end_ s' = end_ s.
Proof.
  intros W C Hp. pose proof (wf_poke p v s W) as Wp. unfold nfsim_update_skb.
  pose proof (wf_end_small s W). pose proof (wf_small s W). pose proof (zlen_backing s W) as Hzb.
  pose proof (wf_mem s W) as Hm. pose proof (wf_extra s W) as He. unfold extra_ok in He.
  pose proof (clean_poke p v s W C Hp) as Hcl.
  change (extra (poke p v s)) with (extra s). destruct (extra s) as [x|] eqn:Ex.
  2: { exists (poke p v s). split_and!; try done. by apply Hcl. }
  destruct He as (He1 & He2 & He3). rewrite (u32_small p), (u32_small (p + 1)) by lia.
  rewrite (proj2 (Z.ltb_ge _ _)) by lia.
  destruct (Z.ltb_spec (x_writable_len x) (p + 1)) as [Hlt|Hge].
  - rewrite slice_ret by (try lia; change (mem (poke p v s)) with (<[Z.to_nat p := v]> (mem s)); rewrite zlen_insert; lia).
    rewrite bind_ret.
    assert (ztake 1 (zdrop p (mem (poke p v s))) = [v]) as ->.
    { change (mem (poke p v s)) with (<[Z.to_nat p := v]> (mem s)). unfold ztake, zdrop.
      rewrite drop_insert_ge by lia. rewrite Nat.sub_diag.
      destruct (drop (Z.to_nat p) (mem s)) as [|y l] eqn:E; [|done].
      apply (f_equal length) in E. rewrite length_drop in E. unfold zlen in Hm. cbn [length] in E. lia. }
    rewrite store_1 by lia. rewrite !bind_ret. set (x' := ExtraInfo _ _ _). set (s' := with_extra (Some x') (poke p v s)).
    assert (Ws : wf s').
    { assert (Hz : zlen (backing s') = zlen (backing s)).
      { unfold backing, s'. cbn. rewrite Ex, !zlen_app, zlen_insert. f_equal. unfold zlen, zdrop.
        by rewrite !length_drop, length_insert. }
      split; rewrite ?Hz; [cbn; by rewrite zlen_insert|apply W|apply W|apply W|done|].
      unfold extra_ok, s'. cbn. rewrite zlen_insert. done. }
    assert (Cs : clean s').
    { unfold clean in *. rewrite Ex in C. unfold s'. cbn. unfold zdrop, ztake in *.
      rewrite !drop_insert_ge by lia. rewrite C.
      destruct (decide (Z.to_nat p - Z.to_nat (x_writable_len x) < Z.to_nat (end_ s - x_writable_len x))%nat); [|lia].
      rewrite take_insert_lt by lia. done. }
    rewrite check_packet_clean by done. rewrite bind_ret. eexists. split; [reflexivity|]. done.
  - rewrite bind_ret. assert (Hs : with_extra (Some x) (poke p v s) = poke p v s) by (unfold with_extra, poke, with_mem; cbn; by rewrite Ex).
    rewrite Hs. assert (clean (poke p v s)) by (apply Hcl; left; lia).
    rewrite check_packet_clean by done. rewrite bind_ret. eexists. split; [reflexivity|]. done.
Qed.

(** What a header pointer gives the caller to read. *)
Definition header_bytes (s : sk_buff) (n : Z) (r : header_ptr) : option (list Z) :=
  match r with
  | NullPtr => None
  | InPacket p => match slice p n (mem s) with Ret bs => Some bs | _ => None end
  | InBuffer bs => Some bs
  end.

(** ** Properties *)

(** whatever the shape of the packet (linear, partly linear, with a master copy),
    skb_copy_bits and skb_header_pointer deliver exactly the window of the packet
    asked for, or report that it reaches past the packet's end; no read leaves the
    buffers. *)
Theorem skb_read_contents (s : sk_buff) (off n : Z) (fail_once : bool) :
  wf s → clean s → 0 <= off → 0 <= n → off + n < 2 ^ 31 →
  let want := if len s <? off + n then None else Some (ztake n (zdrop off (contents s))) in
  skb_copy_bits s off n = Ret want ∧
  ∃ r, skb_header_pointer fail_once s off n = Ret r ∧ header_bytes s n r = want.
Proof.
  intros W C Ho Hn Hb want.
  assert (Hcb : skb_copy_bits s off n = Ret want).
  { rewrite skb_copy_bits_ret by done. unfold want.
    replace (len s - n <? off) with (len s <? off + n) by (apply eq_true_iff_eq; rewrite !Z.ltb_lt; lia). done. }
  split; [done|]. unfold skb_header_pointer. rewrite check_packet_clean by done. rewrite bind_ret.
  pose proof (wf_data s W). pose proof (wf_fit s W). pose proof (wf_len s W). pose proof (wf_end_small s W).
  rewrite u32_small by lia. unfold want in *. destruct (Z.ltb_spec (len s) (off + n)) as [Hlt|Hge]; [by exists NullPtr|].
  destruct (negb fail_once && (off + n <=? nfsim_linear_length s)) eqn:E.
  - eexists. split; [reflexivity|]. apply andb_true_iff in E as [_ E]. unfold nfsim_linear_length in E.
    rewrite s32_small in E by lia. apply Z.leb_le in E. pose proof (wf_mem s W). cbn.
    rewrite slice_ret by lia. rewrite contents_window by (done || lia).
    unfold backing. rewrite zdrop_app_le by lia. by rewrite ztake_app_le by (rewrite zlen_zdrop; lia).
  - rewrite Hcb, bind_ret. eexists. split; [reflexivity|]. done.
Qed.

(** C29: skb_ip_make_writable refuses a length beyond the packet, and otherwise
    replaces the buffer by one with the same bytes, headers and metadata whose
    first [writable_len] bytes can be written in place; a packet with a master copy
    never becomes less writable. *)
Theorem skb_ip_make_writable_spec (fail : bool) (s : sk_buff) (wl q : Z) :
  wf s → clean s → 0 <= wl →
  if (len s <? wl) || fail then skb_ip_make_writable fail s wl q = Ret (0, s, q)
  else ∃ n, skb_ip_make_writable fail s wl q = Ret (1, n, u32 (q + 1)) ∧ wf n ∧ clean n ∧
    contents n = contents s ∧ writable n wl ∧ hdr n = hdr s ∧
    nh n - data n = nh s - data s ∧ h n - data n = h s - data s ∧
    (∀ k x, extra s = Some x → writable s k → k <= len s → writable n k).
Proof.
  intros W C Hwl. destruct (Z.ltb_spec (len s) wl) as [Hlt|Hge]; cbn [orb].
  { unfold skb_ip_make_writable. rewrite check_packet_clean by done. rewrite bind_ret.
    by rewrite (proj2 (Z.ltb_lt _ _)) by lia. }
  destruct fail.
  { unfold skb_ip_make_writable. rewrite check_packet_clean by done. rewrite bind_ret.
    by rewrite (proj2 (Z.ltb_ge _ _)) by lia. }
  destruct (make_writable_ok s wl q W C ltac:(lia)) as (n & ? & ? & ? & ? & ? & ? & ? & ? & ? & ?).
  exists n. split_and!; done.
Qed.

(** skb_copy_expand and skb_linearize produce linear buffers with the same packet
    bytes, metadata and header positions; the copy has the head- and tailroom asked
    for, linearising keeps the headroom and its bytes. *)
Theorem skb_copies_contents (s : sk_buff) (headroom tailroom q : Z) :
  wf s → clean s → 0 <= headroom → 0 <= tailroom →
  headroom + len s + tailroom < 2 ^ 31 → data s + len s < 2 ^ 31 →
  (∃ n, skb_copy_expand false s headroom tailroom q = Ret (Some n, u32 (q + 1)) ∧ wf n ∧ extra n = None ∧
    contents n = contents s ∧ data n = headroom ∧ end_ n - tail n = tailroom ∧ hdr n = hdr s ∧
    nh n - data n = nh s - data s ∧ h n - data n = h s - data s) ∧
  (∃ n, skb_linearize false s = Ret (0, n) ∧ wf n ∧ extra n = None ∧ contents n = contents s ∧
    hdr n = hdr s ∧ nh n = nh s ∧ h n = h s ∧ ztake (data s) (mem n) = ztake (data s) (mem s)) ∧
  skb_copy_expand true s headroom tailroom q = Ret (None, q) ∧ skb_linearize true s = Ret (- ENOMEM, s).
Proof.
  intros W C Hh Ht Hs1 Hs2. split_and!.
  - destruct (copy_expand_ok s headroom tailroom q W C Hh Ht Hs1) as (n & ? & ? & ? & ? & ? & ? & ? & ? & ? & ? & ?).
    exists n. split_and!; done.
  - destruct (linearize_ok s W C Hs2) as (n & ? & ? & ? & ? & ? & ? & ? & ? & ? & ? & ?). exists n. split_and!; done.
  - unfold skb_copy_expand. by rewrite check_packet_clean by done.
  - unfold skb_linearize. by rewrite check_packet_clean by done.
Qed.

(** C37: nfsim_check_packet notices exactly the unannounced changes: after one byte
    of the linear area is overwritten it passes iff that byte was writable or kept
    its value, and after nfsim_update_skb announced the byte it always passes. *)
Theorem check_packet_detects (s : sk_buff) (p v : Z) :
  wf s → clean s → 0 <= p < end_ s →
  (nfsim_check_packet (poke p v s) =
    if match extra s with None => true | Some x => p <? x_writable_len x end
       || bool_decide (mem s !! Z.to_nat p = Some v)
    then Ret () else Barf "skb modified without being made writable!") ∧
  (∃ s', nfsim_update_skb (poke p v s) p 1 = Ret s' ∧ nfsim_check_packet s' = Ret () ∧
    mem s' = <[Z.to_nat p := v]> (mem s)).
Proof.
  intros W C Hp. split.
  - pose proof (clean_poke p v s W C Hp) as Hcl.
    assert (Hd : (match extra s with None => true | Some x => p <? x_writable_len x end
       || bool_decide (mem s !! Z.to_nat p = Some v) = true) ↔ clean (poke p v s)).
    { rewrite Hcl, orb_true_iff, bool_decide_eq_true. destruct (extra s); [by rewrite Z.ltb_lt|tauto]. }
    destruct (check_packet_spec (poke p v s) (wf_poke p v s W)) as [[Hc ->]|[Hc ->]].
    + by rewrite (proj2 Hd).
    + destruct (_ || _); [by destruct Hc; apply Hd|done].
  - destruct (update_skb_poke s p v W C Hp) as (s' & ? & ? & ? & ? & _). exists s'.
    split_and!; [done|by apply check_packet_clean|done].
Qed.

End Skb.

(** *** Witnesses *)

Definition zeros (n : Z) : list Z := replicate (Z.to_nat n) 0.
Lemma zeros_len n : 0 <= n → zlen (zeros n) = n.
Proof. intros. unfold zlen, zeros. rewrite length_replicate. lia. Qed.

(** A packet of six bytes, one pulled, the first three in the linear area and the
    first one writable. *)
Definition skb0 : sk_buff :=
  SkBuff (hdr0 7) 0 None 0 1 2 0 0 0 1 0 5 [10; 11; 12] 1 3 3
    (Some (ExtraInfo [99; 11; 12; 13; 14; 15] 6 1)) 0.

Lemma skb0_wf : wf skb0 ∧ clean skb0.
Proof. split; [|reflexivity]. split; vm_compute; (split; congruence) || congruence || reflexivity || (split_and!; congruence). Qed.

Lemma skb_read_contents_witness :
  skb_copy_bits skb0 1 3 = Ret (Some [12; 13; 14]) ∧
  ∃ r, skb_header_pointer false skb0 1 3 = Ret r ∧ header_bytes skb0 3 r = Some [12; 13; 14].
Proof. apply (skb_read_contents skb0 1 3 false (proj1 skb0_wf) (proj2 skb0_wf)); lia. Defined.

Lemma skb_ip_make_writable_spec_witness :
  ∃ n, skb_ip_make_writable zeros false false skb0 4 7 = Ret (1, n, 8) ∧ wf n ∧ clean n ∧
    contents n = [11; 12; 13; 14; 15] ∧ writable n 4 ∧ hdr n = hdr skb0 ∧
    nh n - data n = 0 ∧ h n - data n = 1 ∧
    (∀ k x, extra skb0 = Some x → writable skb0 k → k <= len skb0 → writable n k).
Proof.
  exact (skb_ip_make_writable_spec zeros zeros_len false false skb0 4 7 (proj1 skb0_wf) (proj2 skb0_wf) ltac:(lia)).
Defined.

Lemma skb_copies_contents_witness :
  (∃ n, skb_copy_expand zeros false skb0 16 4 7 = Ret (Some n, 8) ∧ wf n ∧ extra n = None ∧
    contents n = [11; 12; 13; 14; 15] ∧ data n = 16 ∧ end_ n - tail n = 4 ∧ hdr n = hdr skb0 ∧
    nh n - data n = 0 ∧ h n - data n = 1) ∧
  (∃ n, skb_linearize zeros false skb0 = Ret (0, n) ∧ wf n ∧ extra n = None ∧ contents n = [11; 12; 13; 14; 15] ∧
    hdr n = hdr skb0 ∧ nh n = 1 ∧ h n = 2 ∧ ztake 1 (mem n) = [10]) ∧
  skb_copy_expand zeros true skb0 16 4 7 = Ret (None, 7) ∧ skb_linearize zeros true skb0 = Ret (-12, skb0).
Proof.
  apply (skb_copies_contents zeros zeros_len skb0 16 4 7 (proj1 skb0_wf) (proj2 skb0_wf)); vm_compute; congruence.
Defined.

Lemma check_packet_detects_witness :
  nfsim_check_packet (poke 2 77 skb0) = Barf "skb modified without being made writable!" ∧
  (∃ s', nfsim_update_skb (poke 2 77 skb0) 2 1 = Ret s' ∧ nfsim_check_packet s' = Ret () ∧ mem s' = [10; 11; 77]).
Proof. apply (check_packet_detects skb0 2 77 (proj1 skb0_wf) (proj2 skb0_wf)). vm_compute. split; congruence. Defined.

(** *** What the code does not do *)

(** pskb_may_pull compares with the room before the data, not with the packet:
    it refuses to pull a byte of a packet whose data start at its head. *)
Lemma pskb_may_pull_headroom s n : wf s → data s = 0 → 0 < n → pskb_may_pull s n = false.
Proof.
  intros W Hd Hn. unfold pskb_may_pull, skb_headroom. rewrite Hd. change (u32 0) with 0.
  apply Z.leb_gt. lia.
Qed.

(** skb_pull never gives up, however far beyond the end it moves. *)
Lemma skb_pull_unchecked s n : 0 <= data s → 0 <= n →
  skb_pull s n = Ret (data s + n, with_ptrs (data s + n) (tail s) (u32 (len s - n)) s).
Proof. intros. unfold skb_pull. by rewrite (proj2 (Z.ltb_ge _ _)) by lia. Qed.

(** skb_realloc_headroom passes the missing headroom as the new buffer's
    headroom: the result has less than was asked for when there was some already. *)
Lemma realloc_headroom_short fresh s room q :
  (∀ n, 0 <= n → zlen (fresh n) = n) → wf s → clean s → 0 < data s < room → room + len s < 2 ^ 31 →
  ∃ n, skb_realloc_headroom fresh false s room q = Ret (Some n, u32 (q + 1)) ∧ skb_headroom n = room - data s.
Proof.
  intros Hf W C Hd Hs. unfold skb_realloc_headroom. pose proof (wf_end_small s W). pose proof (wf_data s W).
  pose proof (wf_len s W). unfold skb_headroom at 1 2. rewrite u32_small, s32_small by lia. rewrite (proj2 (Z.ltb_lt _ _)) by lia.
  destruct (copy_expand_ok fresh Hf s (room - data s) 0 q W C) as (n & E & _ & _ & _ & Hdn & _); [lia..|].
  exists n. split; [done|]. unfold skb_headroom. rewrite Hdn, u32_small by lia. done.
Qed.

(** A linear packet, writable as a whole, is less writable after
    skb_ip_make_writable. *)
Lemma make_writable_linear :
  let s := SkBuff (hdr0 1) 0 None 0 0 0 0 0 0 1 0 3 [1; 2; 3] 0 3 3 None 0 in
  writable s 3 ∧
  match skb_ip_make_writable zeros false false s 1 1 with
  | Ret (1, n, _) => ¬ writable n 2
  | _ => False
  end.
Proof. vm_compute. split; [done|]. intros [H _]. by apply H. Qed.

(** The checksum of a shared packet is stored in a private copy; the packet the
    caller passed has been freed. *)
Lemma checksum_help_shared :
  let s := SkBuff (hdr0 1) 0 None 0 0 0 0 0 0 2 0 4 [1; 2; 0; 0] 0 4 4 None 0 in
  match __skb_checksum_help zeros false 0 false s false 1 with
  | Ret (0, None, w, _) => mem w ≠ mem s
  | _ => False
  end.
Proof. vm_compute. congruence. Qed.
