(* ===== verification/KernLib.v ===== *)
(** * kernelenv: small kernel services

    Bit operations on arrays of unsigned long, the 64-bit division of 32-bit
    builds, fls and get_order, byte swapping, jiffies conversions, atomics and the
    bounded string copies, each with the function it is meant to be. *)

From Stdlib Require Import ZArith Lia.
From S2P Require Import Prelude Mem.

(** ** asm/bitops.h

    [W] is the width of unsigned long; the array is indexed in steps of 32 bits.
    [mask] is an [int], so bit 31 is sign-extended on a 64-bit build. *)

Section Bitops.
Context (W : Z).

Definition bit_mask (nr : Z) : Z := wrap W (s32 (Z.shiftl 1 (Z.land nr 0x1f))).
Definition bit_word (nr : Z) (addr : list Z) : outcome Z :=
  of_option "bitops: word outside the array" (addr !! Z.to_nat (Z.shiftr nr 5)).

Definition test_bit (nr : Z) (addr : list Z) : outcome bool :=
  w ← bit_word nr addr; mret (negb (Z.land (bit_mask nr) w =? 0)).

Definition set_bit (nr : Z) (addr : list Z) : outcome (bool * list Z) :=
  w ← bit_word nr addr;
  let retval := negb (Z.land (bit_mask nr) w =? 0) in
  mret (retval, <[Z.to_nat (Z.shiftr nr 5) := Z.lor w (bit_mask nr)]> addr).

Definition clear_bit (nr : Z) (addr : list Z) : outcome (bool * list Z) :=
  w ← bit_word nr addr;
  let retval := negb (Z.land (bit_mask nr) w =? 0) in
  mret (retval, <[Z.to_nat (Z.shiftr nr 5) := Z.land w (cnot W (bit_mask nr))]> addr).

Definition test_and_set_bit (nr : Z) (addr : list Z) : outcome (bool * list Z) :=
  ret ← test_bit nr addr; '(_, addr) ← set_bit nr addr; mret (ret, addr).
Definition test_and_clear_bit (nr : Z) (addr : list Z) : outcome (bool * list Z) :=
  ret ← test_bit nr addr; '(_, addr) ← clear_bit nr addr; mret (ret, addr).

(** Words as these functions leave them: a sign-extended 32-bit value. *)
Definition sext_word (w : Z) : Prop :=
  0 <= w < 2 ^ W ∧ ∀ i, 31 <= i < W → Z.testbit w i = Z.testbit w 31.
End Bitops.

(** ** div64.h *)

Fixpoint div64_grow (fuel : nat) (b d rem : Z) : option (Z * Z) :=
  match fuel with
  | O => None
  | S fuel =>
      if (0 <? s64 b) && (b <? rem) then div64_grow fuel (u64 (b + b)) (u64 (d + d)) rem
      else Some (b, d)
  end.
(** [do { ... } while (d)] *)
Fixpoint div64_shift (fuel : nat) (b d rem res : Z) : option (Z * Z) :=
  match fuel with
  | O => None
  | S fuel =>
      let '(rem, res) := if b <=? rem then (rem - b, u64 (res + d)) else (rem, res) in
      let b := Z.shiftr b 1 in
      let d := Z.shiftr d 1 in
      if d =? 0 then Some (rem, res) else div64_shift fuel b d rem res
  end.

(** The new dividend and the remainder; [None] is running out of fuel. *)
Definition __div64_32 (n base : Z) : option (Z * Z) :=
  let high := Z.shiftr n 32 in
  let '(res, rem) :=
    if base <=? high then
      let high := high / base in (Z.shiftl high 32, u64 (n - Z.shiftl (u32 (high * base)) 32))
    else (0, n) in
  match div64_grow 65 base 1 rem with
  | None => None
  | Some (b, d) =>
      match div64_shift 65 b d rem res with
      | Some (rem, res) => Some (res, u32 rem)
      | None => None
      end
  end.

(** do_div on both kinds of build. *)
Definition do_div (bits_per_long n base : Z) : option (Z * Z) :=
  let __base := u32 base in
  if bits_per_long =? 64 then Some (n / __base, u32 (n mod __base))
  else if Z.shiftr n 32 =? 0 then Some (u32 n / __base, u32 n mod __base)
  else __div64_32 n __base.

(** ** fls, get_order *)

Definition fls_step (mask : Z) (k : Z) (st : Z * Z) : Z * Z :=
  let '(x, r) := st in
  if Z.land x mask =? 0 then (u32 (Z.shiftl x k), r - k) else (x, r).
Definition fls (x : Z) : Z :=
  let x := u32 x in
  if x =? 0 then 0 else
  snd (fls_step 0x80000000 1 (fls_step 0xc0000000 2 (fls_step 0xf0000000 4
    (fls_step 0xff000000 8 (fls_step 0xffff0000 16 (x, 32)))))).

Definition PAGE_SHIFT : Z := 12.
Definition PAGE_SIZE : Z := Z.shiftl 1 PAGE_SHIFT.
Fixpoint order_loop (fuel : nat) (size order : Z) : option Z :=
  match fuel with
  | O => None
  | S fuel =>
      let size := Z.shiftr size 1 in
      let order := order + 1 in
      if size =? 0 then Some order else order_loop fuel size order
  end.
Definition get_order (size : Z) : option Z :=
  order_loop 64 (Z.shiftr (u64 (size - 1)) (PAGE_SHIFT - 1)) (-1).

(** ** Byte order *)

Definition swab32 (x : Z) : Z :=
  Z.lor (Z.lor (Z.shiftl (Z.land x 0x000000ff) 24) (Z.shiftl (Z.land x 0x0000ff00) 8))
    (Z.lor (Z.shiftr (Z.land x 0x00ff0000) 8) (Z.shiftr (Z.land x 0xff000000) 24)).
Definition htonl (big : bool) (x : Z) : Z := if big then x else swab32 x.
Definition ntohl (big : bool) (x : Z) : Z := if big then x else swab32 x.

(** ** jiffies, atomics, error pointers *)

Definition HZ : Z := 100.
Definition MAX_JIFFY_OFFSET : Z := Z.shiftr (cnot 64 0) 1 - 1.
Definition jiffies_to_msecs (j : Z) : Z := u32 (u64 (j * 1000) / HZ).
Definition msecs_to_jiffies (m : Z) : Z :=
  if jiffies_to_msecs MAX_JIFFY_OFFSET <? m then MAX_JIFFY_OFFSET
  else u32 (u32 (m * HZ) + 999) / 1000.

Definition atomic_inc (counter : Z) : Z := s32 (counter + 1).
Definition atomic_dec (counter : Z) : Z := s32 (counter - 1).
Definition atomic_dec_and_test (counter : Z) : bool * Z :=
  let c := s32 (counter - 1) in (c =? 0, c).

Definition IS_ERR (ptr : Z) : bool := u64 (-1000) <? ptr.

(** ** lib/string.c: [dest] is the destination object from the pointer on,
    [src] the string without its NUL. *)

Definition strlcpy (dest src : list Z) (size : Z) : outcome (Z * list Z) :=
  let ret := zlen src in
  if size =? 0 then mret (ret, dest) else
  let n := if size <=? ret then size - 1 else ret in
  dest ← store 0 (ztake n src) dest;
  dest ← store n [0] dest;
  mret (ret, dest).

(** The string in a byte object: up to the first NUL. *)
Fixpoint c_strlen (m : list Z) : option Z :=
  match m with
  | [] => None
  | b :: m => if b =? 0 then Some 0 else Z.succ <$> c_strlen m
  end.

Definition strlcat (dest src : list Z) (count : Z) : outcome (Z * list Z) :=
  dsize ← of_option "strlcat: dest is not terminated" (c_strlen dest);
  let n := zlen src in
  let res := dsize + n in
  if count <=? dsize then Barf "BUG_ON" else
  let count := count - dsize in
  let n := if count <=? n then count - 1 else n in
  dest ← store dsize (ztake n src) dest;
  dest ← store (dsize + n) [0] dest;
  mret (res, dest).

(** ** Lemmas: bit operations *)

Lemma land_0x1f nr : 0 <= nr → Z.land nr 0x1f = nr mod 32.
Proof. intros. change 0x1f with (Z.ones 5). by rewrite Z.land_ones. Qed.

Lemma shiftr_5 nr : Z.shiftr nr 5 = nr / 32.
Proof. by rewrite Z.shiftr_div_pow2. Qed.

Lemma testbit_bit_mask W nr i : 32 <= W → 0 <= nr → 0 <= i →
  Z.testbit (bit_mask W nr) i =
  bool_decide (i < W ∧ (i = nr mod 32 ∨ (nr mod 32 = 31 ∧ 31 <= i))).
Proof.
  intros HW Hnr Hi. unfold bit_mask. rewrite land_0x1f by done.
  assert (Hk : 0 <= nr mod 32 < 32) by (apply Z.mod_pos_bound; lia). set (k := nr mod 32) in *.
  rewrite testbit_wrap, Z.shiftl_1_l by lia. unfold signed.
  assert (Hp : 0 < 2 ^ k <= 2 ^ 31) by (split; [lia|apply Z.pow_le_mono_r; lia]).
  rewrite wrap_small by lia. change (2 ^ (32 - 1)) with (2 ^ 31).
  destruct (Z.ltb_spec (2 ^ k) (2 ^ 31)) as [Hlt|Hge].
  - assert (k < 31) by (apply (Z.pow_lt_mono_r_iff 2); lia).
    rewrite Z.pow2_bits_eqb by lia. destruct (Z.eqb_spec k i).
    + rewrite andb_true_r. apply bool_decide_ext. lia.
    + rewrite andb_false_r. symmetry. apply bool_decide_eq_false. lia.
  - assert (k = 31) as -> by (destruct (Z.lt_ge_cases k 31); [|lia];
      pose proof (Z.pow_lt_mono_r 2 k 31); lia).
    change (2 ^ 31 - 2 ^ 32) with (- 2 ^ 31).
    assert (Ht : Z.testbit (- 2 ^ 31) i = bool_decide (31 <= i)).
    { replace (- 2 ^ 31) with (Z.lnot (Z.ones 31)) by done.
      rewrite Z.lnot_spec by lia. case_bool_decide.
      - by rewrite Z.ones_spec_high by lia.
      - by rewrite Z.ones_spec_low by lia. }
    rewrite Ht. repeat case_bool_decide; simpl; try done; lia.
Qed.

Lemma testbit_cnot W x i : 0 <= W → 0 <= i → Z.testbit (cnot W x) i = bool_decide (i < W) && negb (Z.testbit x i).
Proof.
  intros HW Hi. unfold cnot. rewrite testbit_wrap, Z.lnot_spec by lia. f_equal. apply bool_decide_ext. lia.
Qed.

Lemma test_word W nr w : 32 <= W → 0 <= nr → sext_word W w →
  negb (Z.land (bit_mask W nr) w =? 0) = Z.testbit w (nr mod 32).
Proof.
  intros HW Hnr [Hr Hs]. assert (Hk : 0 <= nr mod 32 < 32) by (apply Z.mod_pos_bound; lia).
  destruct (Z.testbit w (nr mod 32)) eqn:E.
  - apply negb_true_iff, Z.eqb_neq. intros H0. apply (f_equal (λ x, Z.testbit x (nr mod 32))) in H0.
    rewrite Z.land_spec, testbit_bit_mask, E, Z.bits_0, andb_true_r in H0 by lia.
    apply bool_decide_eq_false in H0. lia.
  - apply negb_false_iff, Z.eqb_eq, Z.bits_inj_0. intros i. rewrite Z.land_spec.
    destruct (Z.lt_ge_cases i 0); [by rewrite !Z.testbit_neg_r by lia|].
    rewrite testbit_bit_mask by lia. case_bool_decide as Hm; [|done]. cbn [andb].
    destruct Hm as [Hi [->|[Hk' Hi']]]; [done|]. rewrite Hs by lia. by rewrite <-Hk', E.
Qed.

Lemma sext_set W nr w : 32 <= W → 0 <= nr → sext_word W w →
  sext_word W (Z.lor w (bit_mask W nr)) ∧
  ∀ k, 0 <= k < 32 → Z.testbit (Z.lor w (bit_mask W nr)) k = bool_decide (k = nr mod 32) || Z.testbit w k.
Proof.
  intros HW Hnr [Hr Hs]. assert (Hk : 0 <= nr mod 32 < 32) by (apply Z.mod_pos_bound; lia).
  assert (Hb : ∀ i, 0 <= i → Z.testbit (Z.lor w (bit_mask W nr)) i =
    Z.testbit w i || bool_decide (i < W ∧ (i = nr mod 32 ∨ (nr mod 32 = 31 ∧ 31 <= i)))).
  { intros i Hi. by rewrite Z.lor_spec, testbit_bit_mask by lia. }
  assert (0 <= bit_mask W nr) by (apply wrap_range; lia).
  split; [split; [split|]|].
  - apply Z.lor_nonneg. lia.
  - apply testbit_bound; [lia|apply Z.lor_nonneg; lia|]. intros i Hi. rewrite Hb by lia.
    rewrite (testbit_above W) by lia. apply bool_decide_eq_false. lia.
  - intros i Hi. rewrite !Hb, (Hs i) by lia. f_equal. apply bool_decide_ext. lia.
  - intros k Hk'. rewrite Hb, orb_comm by lia. f_equal. apply bool_decide_ext. lia.
Qed.

Lemma sext_clear W nr w : 32 <= W → 0 <= nr → sext_word W w →
  sext_word W (Z.land w (cnot W (bit_mask W nr))) ∧
  ∀ k, 0 <= k < 32 → Z.testbit (Z.land w (cnot W (bit_mask W nr))) k =
    negb (bool_decide (k = nr mod 32)) && Z.testbit w k.
Proof.
  intros HW Hnr [Hr Hs]. assert (Hk : 0 <= nr mod 32 < 32) by (apply Z.mod_pos_bound; lia).
  assert (Hb : ∀ i, 0 <= i < W → Z.testbit (Z.land w (cnot W (bit_mask W nr))) i =
    Z.testbit w i && negb (bool_decide (i = nr mod 32 ∨ (nr mod 32 = 31 ∧ 31 <= i)))).
  { intros i Hi. rewrite Z.land_spec, testbit_cnot, testbit_bit_mask by lia.
    rewrite bool_decide_eq_true_2 by lia. cbn [andb]. do 2 f_equal. apply bool_decide_ext. lia. }
  assert (0 <= Z.land w (cnot W (bit_mask W nr))) by (apply Z.land_nonneg; lia).
  split; [split; [split|]|].
  - done.
  - apply testbit_bound; [lia|done|]. intros i Hi. rewrite Z.land_spec, (testbit_above W w) by lia. done.
  - intros i Hi. rewrite !Hb, (Hs i) by lia. do 2 f_equal. apply bool_decide_ext. lia.
  - intros k Hk'. rewrite Hb, andb_comm by lia. do 2 f_equal. apply bool_decide_ext. lia.
Qed.

(** The set of bits an array stands for. *)
Definition get_bit (nr : Z) (addr : list Z) : bool :=
  Z.testbit (default 0 (addr !! Z.to_nat (nr / 32))) (nr mod 32).

Lemma bit_word_in W nr addr : 0 <= nr < 32 * zlen addr → Forall (sext_word W) addr →
  ∃ w, bit_word nr addr = Ret w ∧ sext_word W w ∧ addr !! Z.to_nat (nr / 32) = Some w.
Proof.
  intros Hnr HF. unfold bit_word. rewrite shiftr_5.
  destruct (lookup_lt_is_Some_2 addr (Z.to_nat (nr / 32))) as [w Hw].
  { unfold zlen in Hnr. zlia. }
  rewrite Hw. exists w. split_and!; [done| |done]. by eapply Forall_lookup_1.
Qed.

Lemma test_bit_get W nr addr : 32 <= W → 0 <= nr < 32 * zlen addr → Forall (sext_word W) addr →
  test_bit W nr addr = Ret (get_bit nr addr).
Proof.
  intros HW Hnr HF. destruct (bit_word_in W nr addr Hnr HF) as (w & E & Hw & Hl).
  unfold test_bit, get_bit. rewrite E, Hl, bind_ret, test_word by (done || lia). done.
Qed.

Lemma get_bit_insert nr nr' w addr : 0 <= nr < 32 * zlen addr → 0 <= nr' →
  get_bit nr' (<[Z.to_nat (nr / 32) := w]> addr) =
  if bool_decide (nr' / 32 = nr / 32) then Z.testbit w (nr' mod 32) else get_bit nr' addr.
Proof.
  intros Hnr Hnr'. unfold get_bit. unfold zlen in Hnr. case_bool_decide as E.
  - rewrite E, list_lookup_insert_eq by zlia. done.
  - rewrite list_lookup_insert_ne by zlia. done.
Qed.

(** C38: on an array of sign-extended words, at 32- and 64-bit builds alike, the bit
    operations are the operations of a set of bit numbers: each returns whether the
    bit was in, changes that bit only, and keeps the array well formed. *)
Theorem bitops_set (W nr : Z) (addr : list Z) :
  32 <= W → 0 <= nr < 32 * zlen addr → Forall (sext_word W) addr →
  test_bit W nr addr = Ret (get_bit nr addr) ∧
  (∃ a, set_bit W nr addr = Ret (get_bit nr addr, a) ∧ test_and_set_bit W nr addr = Ret (get_bit nr addr, a) ∧
    Forall (sext_word W) a ∧ zlen a = zlen addr ∧
    ∀ nr', 0 <= nr' → get_bit nr' a = bool_decide (nr' = nr) || get_bit nr' addr) ∧
  (∃ a, clear_bit W nr addr = Ret (get_bit nr addr, a) ∧ test_and_clear_bit W nr addr = Ret (get_bit nr addr, a) ∧
    Forall (sext_word W) a ∧ zlen a = zlen addr ∧
    ∀ nr', 0 <= nr' → get_bit nr' a = negb (bool_decide (nr' = nr)) && get_bit nr' addr).
Proof.
  intros HW Hnr HF. pose proof (test_bit_get W nr addr HW Hnr HF) as Ht. split; [done|].
  destruct (bit_word_in W nr addr Hnr HF) as (w & E & Hw & Hl).
  assert (Hg : negb (Z.land (bit_mask W nr) w =? 0) = get_bit nr addr).
  { unfold get_bit. rewrite Hl. apply test_word; (done || lia). }
  assert (Hdec : ∀ nr', 0 <= nr' → nr' / 32 = nr / 32 → bool_decide (nr' mod 32 = nr mod 32) = bool_decide (nr' = nr)).
  { intros nr' Hn Hd. apply bool_decide_ext. split; [zlia|by intros ->]. }
  assert (Hcell : ∀ nr', nr' / 32 = nr / 32 → get_bit nr' addr = Z.testbit w (nr' mod 32)).
  { intros nr' Hd. unfold get_bit. by rewrite Hd, Hl. }
  assert (Hin : ∀ v, Forall (sext_word W) addr → sext_word W v → Forall (sext_word W) (<[Z.to_nat (nr / 32):=v]> addr)).
  { intros v H1 H2. by apply Forall_insert. }
  split.
  - destruct (sext_set W nr w HW ltac:(lia) Hw) as [Hs Hb].
    exists (<[Z.to_nat (nr / 32) := Z.lor w (bit_mask W nr)]> addr).
    unfold test_and_set_bit. rewrite Ht. unfold set_bit. rewrite E, !bind_ret, Hg, shiftr_5.
    split_and!; [done|done|by apply Hin|unfold zlen; by rewrite length_insert|].
    intros nr' Hn. rewrite get_bit_insert by (done || lia). case_bool_decide as Hd.
    + rewrite Hb by (apply Z.mod_pos_bound; lia). by rewrite Hdec, Hcell.
    + rewrite bool_decide_eq_false_2; [done|]. by intros ->.
  - destruct (sext_clear W nr w HW ltac:(lia) Hw) as [Hs Hb].
    exists (<[Z.to_nat (nr / 32) := Z.land w (cnot W (bit_mask W nr))]> addr).
    unfold test_and_clear_bit. rewrite Ht. unfold clear_bit. rewrite E, !bind_ret, Hg, shiftr_5.
    split_and!; [done|done|by apply Hin|unfold zlen; by rewrite length_insert|].
    intros nr' Hn. rewrite get_bit_insert by (done || lia). case_bool_decide as Hd.
    + rewrite Hb by (apply Z.mod_pos_bound; lia). by rewrite Hdec, Hcell.
    + rewrite bool_decide_eq_false_2; [done|]. by intros ->.
Qed.

Lemma bitops_set_witness :
  test_bit 64 63 [5; 0] = Ret false ∧
  (∃ a, set_bit 64 63 [5; 0] = Ret (false, a) ∧ test_and_set_bit 64 63 [5; 0] = Ret (false, a) ∧
    Forall (sext_word 64) a ∧ zlen a = 2 ∧
    ∀ nr', 0 <= nr' → get_bit nr' a = bool_decide (nr' = 63) || get_bit nr' [5; 0]) ∧
  (∃ a, clear_bit 64 63 [5; 0] = Ret (false, a) ∧ test_and_clear_bit 64 63 [5; 0] = Ret (false, a) ∧
    Forall (sext_word 64) a ∧ zlen a = 2 ∧
    ∀ nr', 0 <= nr' → get_bit nr' a = negb (bool_decide (nr' = 63)) && get_bit nr' [5; 0]).
Proof.
  apply (bitops_set 64 63 [5; 0]); [lia|vm_compute; split; congruence|].
  repeat constructor; unfold in_width; try lia.
  - intros i Hi. rewrite (testbit_above 31 5) by lia. done.
  - intros i Hi. by rewrite !Z.bits_0.
Defined.

(** ** Lemmas: division *)

Lemma s64_pos b : 0 <= b < 2 ^ 64 → (0 <? s64 b) = ((0 <? b) && (b <? 2 ^ 63)).
Proof.
  intros Hb. unfold signed. rewrite wrap_small by lia. change (2 ^ (64 - 1)) with (2 ^ 63).
  destruct (Z.ltb_spec b (2 ^ 63)); [by rewrite andb_true_r|]. rewrite andb_false_r. apply Z.ltb_ge. lia.
Qed.

Lemma div64_grow_spec base rem : 0 < base → 0 <= rem < 2 ^ 64 → ∀ fuel k,
  0 <= k → base * 2 ^ k < 2 ^ 64 → 64 - k < Z.of_nat fuel →
  ∃ k', div64_grow fuel (base * 2 ^ k) (2 ^ k) rem = Some (base * 2 ^ k', 2 ^ k') ∧
    0 <= k' < 64 ∧ rem < 2 * (base * 2 ^ k').
Proof.
  intros Hb Hr. induction fuel as [|fuel IH]; intros k Hk Hlt Hf.
  - assert (k < 64) by (apply (Z.pow_lt_mono_r_iff 2); nia). lia.
  - assert (Hpos : 0 < 2 ^ k) by lia. assert (Hk64 : k < 64) by (apply (Z.pow_lt_mono_r_iff 2); nia).
    cbn [div64_grow]. rewrite s64_pos by nia.
    destruct (Z.ltb_spec 0 (base * 2 ^ k)); [|nia]. cbn [andb].
    destruct (Z.ltb_spec (base * 2 ^ k) (2 ^ 63)) as [H63|H63]; cbn [andb].
    + destruct (Z.ltb_spec (base * 2 ^ k) rem) as [Hbr|Hbr].
      * assert (Hp : 2 ^ (k + 1) = 2 * 2 ^ k) by (rewrite Z.pow_add_r by lia; change (2 ^ 1) with 2; lia).
        rewrite !wrap_small by nia.
        replace (base * 2 ^ k + base * 2 ^ k) with (base * 2 ^ (k + 1)) by (rewrite Hp; lia).
        replace (2 ^ k + 2 ^ k) with (2 ^ (k + 1)) by lia. apply IH; [lia|rewrite Hp; lia|lia].
      * exists k. split_and!; [done|lia|lia|lia].
    + exists k. split_and!; [done|lia|lia|lia].
Qed.

Lemma div64_shift_spec base : 0 < base → ∀ k fuel rem res,
  (k < fuel)%nat → 0 <= rem < 2 * (base * 2 ^ Z.of_nat k) → 0 <= res → res * base + rem < 2 ^ 64 →
  ∃ rem' res', div64_shift fuel (base * 2 ^ Z.of_nat k) (2 ^ Z.of_nat k) rem res = Some (rem', res') ∧
    0 <= rem' < base ∧ 0 <= res' ∧ res' * base + rem' = res * base + rem.
Proof.
  intros Hb. induction k as [|k IH]; intros fuel rem res Hf Hr Hres Hn; (destruct fuel as [|fuel]; [lia|]).
  - cbn [div64_shift]. change (2 ^ Z.of_nat 0) with 1 in *. rewrite Z.mul_1_r in *.
    change (Z.shiftr 1 1 =? 0) with true. cbv iota.
    destruct (Z.leb_spec base rem) as [Hle|Hgt].
    + rewrite wrap_small by nia. eexists _, _. split; [reflexivity|]. split_and!; nia.
    + eexists _, _. split; [reflexivity|]. split_and!; lia.
  - assert (Hp : 2 ^ Z.of_nat (S k) = 2 * 2 ^ Z.of_nat k) by (rewrite Nat2Z.inj_succ, Z.pow_succ_r by lia; lia).
    set (d := 2 ^ Z.of_nat k) in *. assert (0 < d) by (unfold d; lia). cbn [div64_shift]. rewrite Hp in *.
    assert (E1 : Z.shiftr (base * (2 * d)) 1 = base * d).
    { rewrite Z.shiftr_div_pow2 by lia. change (2 ^ 1) with 2. replace (base * (2 * d)) with (base * d * 2) by lia. apply Z.div_mul. lia. }
    assert (E2 : Z.shiftr (2 * d) 1 = d).
    { rewrite Z.shiftr_div_pow2 by lia. change (2 ^ 1) with 2. rewrite Z.mul_comm. apply Z.div_mul. lia. }
    rewrite E1, E2. assert ((d =? 0) = false) as -> by lia.
    destruct (Z.leb_spec (base * (2 * d)) rem) as [Hle|Hgt].
    + rewrite wrap_small by nia.
      destruct (IH fuel (rem - base * (2 * d)) (res + 2 * d)) as (r' & q' & E & H1 & H2 & H3); [lia|lia|lia|nia|].
      exists r', q'. split_and!; try done; nia.
    + apply IH; lia.
Qed.

Lemma div64_core n base res rem : 0 < base → 0 <= n < 2 ^ 64 → base < 2 ^ 32 → 0 <= rem → 0 <= res →
  res * base + rem = n →
  ∃ b d, div64_grow 65 base 1 rem = Some (b, d) ∧
    div64_shift 65 b d rem res = Some (n mod base, n / base).
Proof.
  intros Hb Hn Hb32 Hrem Hres Hsum.
  destruct (div64_grow_spec base rem Hb ltac:(nia) 65 0) as (k & Hg & Hk & Hlt); [lia|lia|lia|].
  change (2 ^ 0) with 1 in Hg. rewrite Z.mul_1_r in Hg. eexists _, _. split; [exact Hg|].
  destruct (div64_shift_spec base Hb (Z.to_nat k) 65 rem res) as (r' & q' & E & H1 & H2 & H3);
    rewrite ?Z2Nat.id in * by lia; [lia|lia|lia|lia|].
  rewrite E. f_equal. rewrite Hsum in H3.
  assert (q' = n / base) as -> by (apply Z.div_unique with r'; lia).
  f_equal. apply Z.mod_unique with (n / base); lia.
Qed.

Lemma div64_32_ok n base : 0 <= n < 2 ^ 64 → 0 < base < 2 ^ 32 → __div64_32 n base = Some (n / base, n mod base).
Proof.
  intros Hn Hb. unfold __div64_32. rewrite Z.shiftr_div_pow2 by lia. set (high := n / 2 ^ 32).
  assert (Hhigh : 0 <= high < 2 ^ 32) by (unfold high; split; [apply Z.div_pos; lia|apply Z.div_lt_upper_bound; lia]).
  assert (Hnh : n = high * 2 ^ 32 + n mod 2 ^ 32) by (unfold high; pose proof (Z.div_mod n (2 ^ 32)); lia).
  pose proof (Z.mod_pos_bound n (2 ^ 32) ltac:(lia)) as Hlow. pose proof (Z.mod_pos_bound n base ltac:(lia)).
  destruct (Z.leb_spec base high) as [Hle|Hgt].
  - set (q := high / base). assert (Hq : 0 <= q /\ q * base <= high) by (unfold q; split; [apply Z.div_pos; lia|];
      pose proof (Z.mul_div_le high base); lia).
    rewrite (wrap_small 32 ltac:(lia) (q * base)) by lia. rewrite !Z.shiftl_mul_pow2 by lia.
    rewrite (wrap_small 64 ltac:(lia)) by nia.
    destruct (div64_core n base (q * 2 ^ 32) (n - q * base * 2 ^ 32)) as (b & d & -> & ->); [lia|lia|lia|nia|nia|nia|].
    by rewrite wrap_small by lia.
  - destruct (div64_core n base 0 n) as (b & d & -> & ->); [lia..|]. by rewrite wrap_small by lia.
Qed.

(** the shift-and-subtract division of 32-bit builds terminates for every
    64-bit dividend and non-zero 32-bit divisor with the quotient and the
    remainder, so do_div divides on both kinds of build. *)
Theorem div64_correct (n base : Z) :
  0 <= n < 2 ^ 64 → 0 < base < 2 ^ 32 →
  __div64_32 n base = Some (n / base, n mod base) ∧
  do_div 32 n base = Some (n / base, n mod base) ∧ do_div 64 n base = Some (n / base, n mod base).
Proof.
  intros Hn Hb. pose proof (div64_32_ok n base Hn Hb) as E. pose proof (Z.mod_pos_bound n base ltac:(lia)).
  unfold do_div. rewrite (wrap_small 32 ltac:(lia) base) by lia. split_and!; [done| |by rewrite wrap_small by lia].
  change (32 =? 64) with false. cbv iota. rewrite Z.shiftr_div_pow2 by lia.
  destruct (Z.eqb_spec (n / 2 ^ 32) 0) as [E0|E0]; [|done]. by rewrite wrap_small by zlia.
Qed.

Lemma div64_correct_witness :
  __div64_32 0xfedcba9876543210 1000000007 = Some (0xfedcba9876543210 / 1000000007, 0xfedcba9876543210 mod 1000000007) ∧
  do_div 32 0xfedcba9876543210 1000000007 = Some (0xfedcba9876543210 / 1000000007, 0xfedcba9876543210 mod 1000000007) ∧
  do_div 64 0xfedcba9876543210 1000000007 = Some (0xfedcba9876543210 / 1000000007, 0xfedcba9876543210 mod 1000000007).
Proof. apply (div64_correct 0xfedcba9876543210 1000000007); lia. Defined.

(** ** Lemmas: fls, get_order *)

Lemma land_top_zero x k : 0 <= k <= 32 → 0 <= x < 2 ^ 32 →
  (Z.land x (Z.shiftl (Z.ones k) (32 - k)) =? 0) = (x <? 2 ^ (32 - k)).
Proof.
  intros Hk Hx. assert (E : Z.land x (Z.shiftl (Z.ones k) (32 - k)) = Z.shiftl (Z.shiftr x (32 - k)) (32 - k)).
  { apply Z.bits_inj'. intros i Hi. rewrite Z.land_spec, !Z.shiftl_spec by lia.
    destruct (Z.lt_ge_cases i (32 - k)).
    - rewrite !(Z.testbit_neg_r _ (i - (32 - k))) by lia. apply andb_false_r.
    - rewrite Z.shiftr_spec by lia. replace (i - (32 - k) + (32 - k)) with i by lia.
      destruct (Z.lt_ge_cases i 32).
      + rewrite Z.ones_spec_low by lia. apply andb_true_r.
      + by rewrite (testbit_above 32 x) by lia. }
  rewrite E, Z.shiftl_mul_pow2, Z.shiftr_div_pow2 by lia.
  assert (0 < 2 ^ (32 - k)) by lia. pose proof (Z.div_mod x (2 ^ (32 - k)) ltac:(lia)).
  pose proof (Z.mod_pos_bound x (2 ^ (32 - k)) ltac:(lia)).
  destruct (Z.ltb_spec x (2 ^ (32 - k))).
  - rewrite Z.div_small by lia. done.
  - apply Z.eqb_neq. assert (0 < x / 2 ^ (32 - k)) by (apply Z.div_str_pos; lia). nia.
Qed.

(** One step: [x] shifted so that it has a bit among its top ones; [r] follows. *)
Lemma fls_step_spec x0 lo k x r : 0 < k → 0 <= lo → lo + k <= 32 → 0 < x0 →
  x = x0 * 2 ^ (32 - r) → r <= 32 → 2 ^ lo <= x < 2 ^ 32 → k <= 32 - lo → lo = 32 - 2 * k →
  ∃ x' r', fls_step (Z.shiftl (Z.ones k) (32 - k)) k (x, r) = (x', r') ∧
    x' = x0 * 2 ^ (32 - r') ∧ r' <= 32 ∧ 2 ^ (32 - k) <= x' < 2 ^ 32.
Proof.
  intros Hk Hlo Hsum Hx0 Hx Hr Hrange _ Hlk. unfold fls_step. assert (0 < 2 ^ lo) by lia.
  rewrite land_top_zero by lia. destruct (Z.ltb_spec x (2 ^ (32 - k))) as [Hlt|Hge].
  - assert (Hp : 2 ^ 32 = 2 ^ (32 - k) * 2 ^ k) by (rewrite <-Z.pow_add_r by lia; f_equal; lia).
    assert (Hq : 2 ^ (32 - k) = 2 ^ lo * 2 ^ k) by (rewrite <-Z.pow_add_r by lia; f_equal; lia).
    assert (0 < 2 ^ k) by lia. rewrite Z.shiftl_mul_pow2 by lia. rewrite wrap_small by nia.
    eexists _, _. split; [reflexivity|]. split_and!; [|lia|nia|nia].
    rewrite Hx. replace (32 - (r - k)) with (32 - r + k) by lia. rewrite Z.pow_add_r by lia. lia.
  - eexists _, _. split; [reflexivity|]. split_and!; [done|done|lia|lia].
Qed.

Lemma fls_log2 x : 0 < x < 2 ^ 32 → fls x = Z.log2 x + 1.
Proof.
  intros Hx. unfold fls. rewrite wrap_small by lia. assert ((x =? 0) = false) as -> by lia.
  change 0x80000000 with (Z.shiftl (Z.ones 1) (32 - 1)). change 0xc0000000 with (Z.shiftl (Z.ones 2) (32 - 2)).
  change 0xf0000000 with (Z.shiftl (Z.ones 4) (32 - 4)). change 0xff000000 with (Z.shiftl (Z.ones 8) (32 - 8)).
  change 0xffff0000 with (Z.shiftl (Z.ones 16) (32 - 16)).
  destruct (fls_step_spec x 0 16 x 32) as (x1 & r1 & -> & E1 & R1 & B1); [first [lia|by rewrite Z.mul_1_r]..|].
  destruct (fls_step_spec x 16 8 x1 r1) as (x2 & r2 & -> & E2 & R2 & B2); [lia..|].
  destruct (fls_step_spec x 24 4 x2 r2) as (x3 & r3 & -> & E3 & R3 & B3); [lia..|].
  destruct (fls_step_spec x 28 2 x3 r3) as (x4 & r4 & -> & E4 & R4 & B4); [lia..|].
  destruct (fls_step_spec x 30 1 x4 r4) as (x5 & r5 & -> & E5 & R5 & B5); [lia..|].
  cbn [snd]. assert (Hl : Z.log2 x5 = 31) by (apply Z.log2_unique; [lia|]; exact B5).
  rewrite E5, Z.log2_mul_pow2 in Hl by lia. lia.
Qed.

Lemma order_loop_spec fuel size order : 0 <= size < 2 ^ Z.of_nat fuel → (0 < fuel)%nat →
  order_loop fuel size order = Some (order + 1 + Z.log2 size).
Proof.
  revert size order. induction fuel as [|fuel IH]; intros size order Hs Hf; [lia|].
  cbn [order_loop]. rewrite Z.shiftr_div_pow2 by lia. change (2 ^ 1) with 2.
  rewrite Nat2Z.inj_succ, Z.pow_succ_r in Hs by lia.
  destruct (Z.eqb_spec (size / 2) 0) as [E|E].
  - assert (size = 0 ∨ size = 1) as [->| ->] by zlia; f_equal; simpl; lia.
  - destruct fuel as [|fuel]; [simpl in Hs; exfalso; apply E; zlia|].
    rewrite IH by (try lia; zlia). f_equal. assert (Z.log2 size = Z.log2 (size / 2) + 1); [|lia].
    replace (size / 2) with (Z.shiftr size 1) by (by rewrite Z.shiftr_div_pow2 by lia).
    rewrite Z.log2_shiftr by zlia. assert (1 <= Z.log2 size); [|lia].
    apply Z.log2_le_pow2; zlia.
Qed.

(** Fls is the number of the highest set bit (0 for none), and get_order the
    least order whose block of pages holds the size; the loop always ends. *)
Theorem fls_get_order (x size : Z) :
  0 <= x < 2 ^ 32 → 0 < size < 2 ^ 63 →
  fls x = (if x =? 0 then 0 else Z.log2 x + 1) ∧
  ∃ o, get_order size = Some o ∧ 0 <= o ∧ size <= Z.shiftl PAGE_SIZE o ∧
    ∀ o', 0 <= o' → size <= Z.shiftl PAGE_SIZE o' → o <= o'.
Proof.
  intros Hx Hs. split.
  - destruct (Z.eqb_spec x 0) as [->|Hne]; [done|]. apply fls_log2. lia.
  - unfold get_order, PAGE_SIZE, PAGE_SHIFT. rewrite wrap_small by lia. rewrite Z.shiftr_div_pow2 by lia.
    change (2 ^ (12 - 1)) with 2048. set (s := (size - 1) / 2048).
    assert (Hs' : 0 <= s < 2 ^ 63) by (unfold s; zlia).
    assert (Hsd : 2048 * s <= size - 1 < 2048 * s + 2048) by (unfold s; zlia). clearbody s.
    rewrite order_loop_spec by (change (2 ^ Z.of_nat 64) with (2 ^ 64); lia).
    exists (Z.log2 s). pose proof (Z.log2_nonneg s). change (Z.shiftl 1 12) with 4096.
    split_and!; [f_equal; lia|done| |].
    + rewrite Z.shiftl_mul_pow2 by lia. destruct (Z.eq_dec s 0) as [E|E]; [rewrite E; simpl; lia|].
      pose proof (Z.log2_spec s ltac:(lia)) as [_ Hu]. rewrite Z.pow_succ_r in Hu by lia. lia.
    + intros o' Ho' Hle. rewrite Z.shiftl_mul_pow2 in Hle by lia.
      destruct (Z.eq_dec s 0) as [E|E]; [rewrite E; simpl; lia|].
      destruct (Z.le_gt_cases (Z.log2 s) o') as [|Hgt]; [done|exfalso].
      pose proof (Z.log2_spec s ltac:(lia)) as [Hl _].
      assert (2 ^ (o' + 1) <= 2 ^ Z.log2 s) by (apply Z.pow_le_mono_r; lia).
      rewrite Z.pow_add_r in H0 by lia. change (2 ^ 1) with 2 in H0. lia.
Qed.

Lemma fls_get_order_witness :
  fls 0x00800000 = 24 ∧
  ∃ o, get_order 4097 = Some o ∧ 0 <= o ∧ 4097 <= Z.shiftl PAGE_SIZE o ∧
    ∀ o', 0 <= o' → 4097 <= Z.shiftl PAGE_SIZE o' → o <= o'.
Proof. apply (fls_get_order 0x00800000 4097); lia. Defined.

(** ** Lemmas: strings *)

Lemma c_strlen_app s m : Forall (λ b, b ≠ 0) s → c_strlen (s ++ 0 :: m) = Some (zlen s).
Proof.
  induction 1 as [|b s Hb _ IH]; [done|]. cbn [app c_strlen]. rewrite (proj2 (Z.eqb_neq b 0) Hb), IH.
  unfold zlen. simpl. f_equal. lia.
Qed.

(** A string written at [off], then its terminator. *)
Lemma store_string (off : Z) (s dest : list Z) : 0 <= off → off + zlen s + 1 <= zlen dest →
  ∃ d1 d2, store off s dest = Ret d1 ∧ store (off + zlen s) [0] d1 = Ret d2 ∧
    d2 = ztake off dest ++ s ++ 0 :: zdrop (off + zlen s + 1) dest.
Proof.
  intros Ho Hl. pose proof (zlen_nonneg s). unfold store at 1.
  rewrite (proj2 (in_object_spec off (zlen s) dest)) by lia. eexists _, _. split; [reflexivity|].
  set (d1 := ztake off dest ++ s ++ _).
  assert (Hz : zlen d1 = zlen dest) by (unfold d1; rewrite !zlen_app, zlen_ztake, zlen_zdrop; lia).
  unfold store. change (zlen [0]) with 1. rewrite (proj2 (in_object_spec (off + zlen s) 1 d1)) by lia.
  split; [reflexivity|]. unfold d1. rewrite (app_assoc (ztake off dest) s).
  assert (Hp : zlen (ztake off dest ++ s) = off + zlen s) by (rewrite zlen_app, zlen_ztake; lia).
  rewrite ztake_app_le, ztake_all by lia. rewrite zdrop_app_ge, Hp by lia.
  rewrite zdrop_zdrop by lia. rewrite <-app_assoc. cbn [app]. do 4 f_equal. lia.
Qed.

(** C39: strlcpy and strlcat return the length of the string they tried to build,
    never write at or past [size], and leave the longest prefix of that string that
    fits, terminated. *)
Theorem strlcpy_strlcat_bounded (dest src rest : list Z) (size : Z) :
  Forall (λ b, b ≠ 0) src → 0 < size <= zlen dest →
  (let n := Z.min (zlen src) (size - 1) in
   strlcpy dest src size = Ret (zlen src, ztake n src ++ 0 :: zdrop (n + 1) dest)) ∧
  (∀ old, dest = old ++ 0 :: rest → Forall (λ b, b ≠ 0) old → zlen old < size →
   let n := Z.min (zlen src) (size - 1 - zlen old) in
   strlcat dest src size =
     Ret (zlen old + zlen src, old ++ ztake n src ++ 0 :: zdrop (zlen old + n + 1) dest)).
Proof.
  intros Hsrc Hsz. pose proof (zlen_nonneg src). split.
  - cbv zeta. unfold strlcpy. assert ((size =? 0) = false) as -> by lia.
    set (n := Z.min (zlen src) (size - 1)). assert ((if size <=? zlen src then size - 1 else zlen src) = n) as ->.
    { unfold n. destruct (Z.leb_spec size (zlen src)); lia. }
    assert (Hn : zlen (ztake n src) = n) by (apply zlen_ztake; unfold n; lia).
    destruct (store_string 0 (ztake n src) dest) as (d1 & d2 & -> & E2 & ->); [lia|unfold n in *; lia|].
    rewrite Z.add_0_l, Hn in E2. rewrite bind_ret, E2, bind_ret. rewrite (ztake_0 0) by lia. done.
  - intros old Hd Hold Hlt. cbv zeta. unfold strlcat. rewrite Hd at 1. rewrite c_strlen_app by done.
    cbn [of_option]. rewrite bind_ret. cbv zeta. rewrite (proj2 (Z.leb_gt _ _)) by lia.
    set (n := Z.min (zlen src) (size - 1 - zlen old)).
    assert ((if size - zlen old <=? zlen src then size - zlen old - 1 else zlen src) = n) as ->.
    { unfold n. destruct (Z.leb_spec (size - zlen old) (zlen src)); lia. }
    pose proof (zlen_nonneg old).
    assert (Hn : zlen (ztake n src) = n) by (apply zlen_ztake; unfold n; lia).
    destruct (store_string (zlen old) (ztake n src) dest) as (d1 & d2 & -> & E2 & ->); [lia|unfold n in *; lia|].
    rewrite Hn in E2. rewrite bind_ret, E2, bind_ret.
    rewrite Hd at 1. rewrite ztake_app_le, ztake_all by lia. done.
Qed.

Lemma strlcpy_strlcat_bounded_witness :
  strlcpy [65; 0; 9; 9] [1; 2; 3; 4; 5] 4 = Ret (5, [1; 2; 3; 0]) ∧
  strlcat [65; 0; 9; 9] [1; 2; 3; 4; 5] 4 = Ret (6, [65; 1; 2; 0]).
Proof.
  destruct (strlcpy_strlcat_bounded [65; 0; 9; 9] [1; 2; 3; 4; 5] [9; 9] 4) as [H1 H2].
  - repeat constructor; lia.
  - vm_compute. split; congruence.
  - split; [exact H1|]. apply (H2 [65]); [done|repeat constructor; lia|vm_compute; done].
Defined.


(** ** What the code does not do *)

(** msecs_to_jiffies multiplies at width 32: from twelve hours on it wraps. *)
Lemma msecs_to_jiffies_wraps : msecs_to_jiffies 42949673 = 1 ∧ 42949673 * HZ / 1000 = 4294967.
Proof. split; vm_compute; reflexivity. Qed.

(** The array is indexed by 32-bit steps: on a 64-bit build, bit 32 of an array of
    one unsigned long is outside it. *)
Lemma set_bit_outside : set_bit 64 32 [0] = Fault "bitops: word outside the array".
Proof. reflexivity. Qed.
