(* ===== verification/Macros.v ===== *)
(** * kernelenv/include/kernelenv.h: macros the kernel code relies on

    Comparisons, alignment, error pointers, types of files, queue verdicts and the messages
    of netlink: lengths, the next message, whether there is one. *)

From Stdlib Require Import ZArith Lia.
From S2P Require Import Prelude Mem Csum KernLib.

(** min and max on two values of one type; min_t and max_t convert to a type first. *)
Definition min (x y : Z) : Z := if x <? y then x else y.
Definition max (x y : Z) : Z := if y <? x then x else y.
Definition min_t (type : Z → Z) (x y : Z) : Z := min (type x) (type y).
Definition max_t (type : Z → Z) (x y : Z) : Z := max (type x) (type y).
Definition xchg {A} (v old : A) : A * A := (old, v).

(** A power of two [a]; [w] is the width of the operands. *)
Definition ALIGN (w x a : Z) : Z := Z.land (wrap w (x + a - 1)) (cnot w (a - 1)).
Definition ARRAY_SIZE (bytes element : Z) : Z := bytes / element.

(** The bytes of an address in the order they are printed. *)
Definition NIPQUAD (big : bool) (addr : Z) : list Z := bytes big 4 addr.
Definition HIPQUAD (big : bool) (addr : Z) : list Z := if big then NIPQUAD big addr else rev (NIPQUAD big addr).

(** jiffies, of [w] bits. *)
Definition time_after_eq (w a b : Z) : bool := 0 <=? signed w (a - b).
Definition time_before_eq (w a b : Z) : bool := time_after_eq w b a.

Definition ERR_PTR (x : Z) : Z := u64 x.
Definition PTR_ERR (p : Z) : Z := s64 p.

(** Modes of files; the source has the numbers in octal. *)
Definition S_IFMT : Z := 0xf000.
Definition S_IFSOCK : Z := 0xc000.
Definition S_IFLNK : Z := 0xa000.
Definition S_IFREG : Z := 0x8000.
Definition S_IFBLK : Z := 0x6000.
Definition S_IFDIR : Z := 0x4000.
Definition S_IFCHR : Z := 0x2000.
Definition S_IFIFO : Z := 0x1000.
Definition has_type (t m : Z) : bool := Z.land m S_IFMT =? t.
Definition S_ISLNK : Z → bool := has_type S_IFLNK.
Definition S_ISREG : Z → bool := has_type S_IFREG.
Definition S_ISDIR : Z → bool := has_type S_IFDIR.
Definition S_ISCHR : Z → bool := has_type S_IFCHR.
Definition S_ISBLK : Z → bool := has_type S_IFBLK.
Definition S_ISFIFO : Z → bool := has_type S_IFIFO.
Definition S_ISSOCK : Z → bool := has_type S_IFSOCK.

(** Verdicts: the queue's number is in the upper half. *)
Definition NF_VERDICT_MASK : Z := 0x0000ffff.
Definition NF_VERDICT_BITS : Z := 16.
Definition NF_VERDICT_QMASK : Z := 0xffff0000.
Definition NF_VERDICT_QBITS : Z := 16.
Definition NF_QUEUE : Z := 3.
Definition NF_QUEUE_NR (x : Z) : Z := Z.lor (Z.land (u32 (Z.shiftl x NF_VERDICT_QBITS)) NF_VERDICT_QMASK) NF_QUEUE.

(** msleep moves the clock on; the product is a whole number of jiffies, rounded down. *)
Definition msleep (x : Z) : Z := x * HZ / 1000.

(** ** netlink *)

Definition NLMSG_ALIGNTO : Z := 4.
(** sizeof(struct nlmsghdr), which begins with the length. *)
Definition NLMSG_HDRLEN : Z := 16.
Definition NLMSG_ALIGN (len : Z) : Z := ALIGN 32 len NLMSG_ALIGNTO.
Definition NLMSG_LENGTH (len : Z) : Z := len + NLMSG_ALIGN NLMSG_HDRLEN.
Definition NLMSG_SPACE (len : Z) : Z := NLMSG_ALIGN (NLMSG_LENGTH len).
Definition NLMSG_PAYLOAD (nlmsg_len len : Z) : Z := nlmsg_len - NLMSG_SPACE len.
(** The position of the data of the message at [nlh]. *)
Definition NLMSG_DATA (nlh : Z) : Z := nlh + NLMSG_LENGTH 0.
Definition NLMSG_OK (nlmsg_len len : Z) : bool := (NLMSG_HDRLEN <=? len) && (NLMSG_HDRLEN <=? nlmsg_len) && (nlmsg_len <=? len).
(** The next message and what is left behind it. *)
Definition NLMSG_NEXT (nlmsg_len nlh len : Z) : Z * Z := (nlh + NLMSG_ALIGN nlmsg_len, len - NLMSG_ALIGN nlmsg_len).

(** ** What they do *)

Lemma min_max x y : min x y = Z.min x y ∧ max x y = Z.max x y.
Proof. unfold min, max. destruct (Z.ltb_spec x y), (Z.ltb_spec y x); lia. Qed.

Lemma land_align w a x : 0 <= a < w → 0 <= x < 2 ^ w → Z.land x (cnot w (2 ^ a - 1)) = x / 2 ^ a * 2 ^ a.
Proof.
  intros Ha Hx. apply Z.bits_inj'. intros i Hi. rewrite Z.land_spec, Z.mul_pow2_bits by lia.
  unfold cnot, wrap. destruct (Z.lt_ge_cases i w) as [Hiw|Hiw].
  - rewrite Z.mod_pow2_bits_low, Z.lnot_spec by lia. replace (2 ^ a - 1) with (Z.ones a) by (rewrite Z.ones_equiv; lia).
    destruct (Z.lt_ge_cases i a) as [H|H].
    + rewrite Z.ones_spec_low, andb_false_r by lia. by rewrite Z.testbit_neg_r by lia.
    + rewrite Z.ones_spec_high, andb_true_r by lia. rewrite Z.div_pow2_bits by lia. f_equal. lia.
  - rewrite Z.mod_pow2_bits_high, andb_false_r by lia. rewrite Z.div_pow2_bits by lia. symmetry. replace (i - a + a) with i by lia.
    destruct (Z.eq_dec x 0) as [->|]; [apply Z.testbit_0_l|]. apply Z.bits_above_log2; [lia|]. apply Z.log2_lt_pow2; [lia|]. apply Z.lt_le_trans with (2 ^ w); [lia|]. by apply Z.pow_le_mono_r.
Qed.
(** ALIGN rounds up to the next multiple. *)
Lemma align_up w x a : 0 <= a < w → 0 <= x → x + 2 ^ a - 1 < 2 ^ w →
  let y := ALIGN w x (2 ^ a) in x <= y < x + 2 ^ a ∧ y mod 2 ^ a = 0.
Proof.
  intros Ha Hx Hs y. pose proof (Z.pow_pos_nonneg 2 a ltac:(lia) ltac:(lia)) as Hp.
  assert (y = (x + 2 ^ a - 1) / 2 ^ a * 2 ^ a) as ->.
  { unfold y, ALIGN, wrap. rewrite Z.mod_small by lia. apply land_align; lia. }
  pose proof (Z.div_mod (x + 2 ^ a - 1) (2 ^ a) ltac:(lia)). pose proof (Z.mod_pos_bound (x + 2 ^ a - 1) (2 ^ a) ltac:(lia)).
  split; [lia|]. by apply Z.mod_mul; lia.
Qed.

(** Error codes come back out of pointers and are told from addresses. *)
Lemma err_ptr_roundtrip e : 0 < e < 1000 → PTR_ERR (ERR_PTR (- e)) = - e ∧ IS_ERR (ERR_PTR (- e)) = true.
Proof.
  intros H. assert (E : u64 (- e) = 2 ^ 64 - e) by (unfold wrap; rewrite <-(Z.mod_add _ 1), Z.mod_small by lia; lia).
  unfold PTR_ERR, ERR_PTR, IS_ERR. rewrite E. assert (u64 (2 ^ 64 - e) = 2 ^ 64 - e) as E2 by (unfold wrap; apply Z.mod_small; lia).
  split; [|apply Z.ltb_lt; change (u64 (-1000)) with (2 ^ 64 - 1000); lia]. unfold signed. rewrite E2. destruct (Z.ltb_spec (2 ^ 64 - e) (2 ^ (64 - 1))); lia.
Qed.

(** A queue's number is read back from its verdict. *)
Lemma queue_nr x : 0 <= x < 2 ^ 16 → Z.land (NF_QUEUE_NR x) NF_VERDICT_MASK = NF_QUEUE ∧ Z.shiftr (NF_QUEUE_NR x) NF_VERDICT_BITS = x.
Proof.
  intros H. assert (E : NF_QUEUE_NR x = x * 2 ^ 16 + 3).
  { unfold NF_QUEUE_NR, NF_VERDICT_QBITS, NF_VERDICT_QMASK, NF_QUEUE. rewrite Z.shiftl_mul_pow2 by lia. unfold wrap. rewrite Z.mod_small by lia.
    change 0xffff0000 with (cnot 32 (2 ^ 16 - 1)). rewrite land_align by lia. rewrite Z.div_mul by lia. rewrite <-Z.add_lor_land. rewrite (Z.mul_comm x).
    assert (Z.land (2 ^ 16 * x) 3 = 0) as ->; [|lia]. rewrite Z.land_comm. replace 3 with (Z.ones 2) by done. rewrite Z.land_comm, Z.land_ones by lia.
    replace (2 ^ 16 * x) with (x * 2 ^ 14 * 2 ^ 2) by lia. by apply Z.mod_mul. }
  rewrite E. split.
  - change NF_VERDICT_MASK with (Z.ones 16). rewrite Z.land_ones by lia. rewrite Z.add_comm, Z.mod_add by lia. done.
  - unfold NF_VERDICT_BITS. rewrite Z.shiftr_div_pow2 by lia. rewrite Z.div_add_l by lia. change (3 / 2 ^ 16) with 0. lia.
Qed.

(** Walking over a buffer of [len] bytes: the positions of the messages.  [nlmsg_len] reads
    the length at a position. *)
Fixpoint messages (fuel : nat) (nlmsg_len : Z → Z) (nlh len : Z) : option (list Z) :=
  match fuel with
  | O => None
  | S fuel =>
      if NLMSG_OK (nlmsg_len nlh) len then
        let '(nlh', len') := NLMSG_NEXT (nlmsg_len nlh) nlh len in cons nlh <$> messages fuel nlmsg_len nlh' len'
      else Some []
  end.
(** Messages of the given lengths one after the other, each padded. *)
Fixpoint laid_out (nlmsg_len : Z → Z) (nlh : Z) (ls : list Z) : Prop :=
  match ls with [] => True | l :: ls => nlmsg_len nlh = l ∧ laid_out nlmsg_len (nlh + NLMSG_ALIGN l) ls end.
Fixpoint positions (nlh : Z) (ls : list Z) : list Z := match ls with [] => [] | l :: ls => nlh :: positions (nlh + NLMSG_ALIGN l) ls end.
Definition total (ls : list Z) : Z := foldr (λ l t, NLMSG_ALIGN l + t) 0 ls.

Lemma nlmsg_align l : 0 <= l < 2 ^ 31 → l <= NLMSG_ALIGN l < l + 4 ∧ NLMSG_ALIGN l mod 4 = 0.
Proof. intros H. apply (align_up 32 l 2); lia. Qed.
Lemma total_nonneg ls : Forall (λ l, 16 <= l < 2 ^ 31) ls → 0 <= total ls.
Proof. induction 1 as [|l ls Hl _ IH]; [done|]. cbn. pose proof (nlmsg_align l ltac:(lia)). unfold total in IH. lia. Qed.

(** The macros find exactly the messages that were laid out. *)
Lemma messages_found nlmsg_len ls nlh : Forall (λ l, 16 <= l < 2 ^ 31) ls → laid_out nlmsg_len nlh ls →
  messages (S (length ls)) nlmsg_len nlh (total ls) = Some (positions nlh ls).
Proof.
  intros H. revert nlh. induction H as [|l ls Hl Hls IH]; intros nlh Ho; [done|]. destruct Ho as [E Ho]. cbn [messages length]. rewrite E. unfold NLMSG_OK, NLMSG_HDRLEN.
  pose proof (nlmsg_align l ltac:(lia)) as [Ha _]. pose proof (total_nonneg ls Hls). assert (Et : total (l :: ls) = NLMSG_ALIGN l + total ls) by done. rewrite Et.
  rewrite !(proj2 (Z.leb_le _ _)) by lia. cbn [andb]. unfold NLMSG_NEXT. replace (NLMSG_ALIGN l + total ls - NLMSG_ALIGN l) with (total ls) by lia.
  specialize (IH _ Ho). cbn [length] in IH. change (cons nlh <$> messages (S (length ls)) nlmsg_len (nlh + NLMSG_ALIGN l) (total ls) = Some (positions nlh (l :: ls))). by rewrite IH.
Qed.
(** Whatever the buffer holds, the walk ends. *)
Lemma messages_end nlmsg_len : ∀ fuel nlh len, (∀ p, nlmsg_len p < 2 ^ 31) → len < 16 * Z.of_nat fuel → 0 < Z.of_nat fuel → is_Some (messages fuel nlmsg_len nlh len).
Proof.
  induction fuel as [|fuel IH]; intros nlh len Hb Hl Hf; [lia|]. cbn [messages]. unfold NLMSG_OK, NLMSG_HDRLEN.
  destruct (Z.leb_spec 16 len); [|by eexists]. destruct (Z.leb_spec 16 (nlmsg_len nlh)); [|by eexists]. destruct (Z.leb_spec (nlmsg_len nlh) len); [|by eexists]. cbn [andb].
  pose proof (Hb nlh). pose proof (nlmsg_align (nlmsg_len nlh) ltac:(lia)). unfold NLMSG_NEXT.
  destruct (IH (nlh + NLMSG_ALIGN (nlmsg_len nlh)) (len - NLMSG_ALIGN (nlmsg_len nlh)) Hb ltac:(lia)) as [x ->]; [|by eexists].
  destruct fuel; lia.
Qed.

(** One jiffy is 10 ms: shorter sleeps are none at all. *)
Lemma msleep_short x : 0 <= x < 10 → msleep x = 0.
Proof. intros H. unfold msleep. apply Z.div_small. change HZ with 100. lia. Qed.
