(* ===== verification/Jhash.v ===== *)
(** * kernelenv.c: the Jenkins hash

    jhash on bytes and its variants on words.  Words are 32-bit; reads are within
    the key or undefined. *)

From Stdlib Require Import ZArith Lia.
From S2P Require Import Prelude Mem.

Record mix_state := Mix { ja : Z; jb : Z; jc : Z }.

(** The nine lines of the __jhash_mix macro. *)
Definition __jhash_mix (s : mix_state) : mix_state :=
  let '(Mix a b c) := s in
  let a := u32 (a - b) in let a := u32 (a - c) in let a := Z.lxor a (Z.shiftr c 13) in
  let b := u32 (b - c) in let b := u32 (b - a) in let b := Z.lxor b (u32 (Z.shiftl a 8)) in
  let c := u32 (c - a) in let c := u32 (c - b) in let c := Z.lxor c (Z.shiftr b 13) in
  let a := u32 (a - b) in let a := u32 (a - c) in let a := Z.lxor a (Z.shiftr c 12) in
  let b := u32 (b - c) in let b := u32 (b - a) in let b := Z.lxor b (u32 (Z.shiftl a 16)) in
  let c := u32 (c - a) in let c := u32 (c - b) in let c := Z.lxor c (Z.shiftr b 5) in
  let a := u32 (a - b) in let a := u32 (a - c) in let a := Z.lxor a (Z.shiftr c 3) in
  let b := u32 (b - c) in let b := u32 (b - a) in let b := Z.lxor b (u32 (Z.shiftl a 10)) in
  let c := u32 (c - a) in let c := u32 (c - b) in let c := Z.lxor c (Z.shiftr b 15) in
  Mix a b c.

Definition JHASH_GOLDEN_RATIO : Z := 0x9e3779b9.

(** [k[i] + ((u32)k[i+1]<<8) + ((u32)k[i+2]<<16) + ((u32)k[i+3]<<24)] *)
Definition word_at (k : list Z) (i : nat) : Z :=
  u32 (u32 (u32 (nth i k 0 + u32 (Z.shiftl (nth (i + 1) k 0) 8)) + u32 (Z.shiftl (nth (i + 2) k 0) 16))
       + u32 (Z.shiftl (nth (i + 3) k 0) 24)).

Fixpoint jhash_loop (fuel : nat) (k : list Z) (len : Z) (s : mix_state) : outcome (list Z * Z * mix_state) :=
  match fuel with
  | O => Fault "jhash_loop: out of fuel"
  | S fuel =>
      if 12 <=? len then
        bs ← slice 0 12 k;
        let s := Mix (u32 (ja s + word_at bs 0)) (u32 (jb s + word_at bs 4)) (u32 (jc s + word_at bs 8)) in
        jhash_loop fuel (zdrop 12 k) (len - 12) (__jhash_mix s)
      else mret (k, len, s)
  end.

(** [case i: x += ((u32)k[i-1] << sh)], reached by falling through from [len]. *)
Definition jcase (len : Z) (k : list Z) (i : nat) (sh : Z) (x : Z) : Z :=
  if Z.of_nat i <=? len then u32 (x + u32 (Z.shiftl (nth (i - 1) k 0) sh)) else x.

Definition jhash_tail (len : Z) (k : list Z) (s : mix_state) : mix_state :=
  let c := jcase len k 9 8 (jcase len k 10 16 (jcase len k 11 24 (jc s))) in
  let b := jcase len k 5 0 (jcase len k 6 8 (jcase len k 7 16 (jcase len k 8 24 (jb s)))) in
  let a := jcase len k 1 0 (jcase len k 2 8 (jcase len k 3 16 (jcase len k 4 24 (ja s)))) in
  Mix a b c.

Definition jhash (key : list Z) (length initval : Z) : outcome Z :=
  '(k, len, s) ← jhash_loop (S (Z.to_nat length)) key length
    (Mix JHASH_GOLDEN_RATIO JHASH_GOLDEN_RATIO initval);
  let s := Mix (ja s) (jb s) (u32 (jc s + length)) in
  k ← slice 0 len k;
  mret (jc (__jhash_mix (jhash_tail len k s))).

Fixpoint jhash2_loop (fuel : nat) (k : list Z) (len : Z) (s : mix_state) : outcome (list Z * Z * mix_state) :=
  match fuel with
  | O => Fault "jhash2_loop: out of fuel"
  | S fuel =>
      if 3 <=? len then
        ws ← slice 0 3 k;
        let s := Mix (u32 (ja s + nth 0 ws 0)) (u32 (jb s + nth 1 ws 0)) (u32 (jc s + nth 2 ws 0)) in
        jhash2_loop fuel (zdrop 3 k) (len - 3) (__jhash_mix s)
      else mret (k, len, s)
  end.

Definition jhash2 (k : list Z) (length initval : Z) : outcome Z :=
  '(k, len, s) ← jhash2_loop (S (Z.to_nat length)) k length
    (Mix JHASH_GOLDEN_RATIO JHASH_GOLDEN_RATIO initval);
  let c := u32 (jc s + u32 (length * 4)) in
  k ← slice 0 len k;
  let b := if len =? 2 then u32 (jb s + nth 1 k 0) else jb s in
  let a := if (len =? 2) || (len =? 1) then u32 (ja s + nth 0 k 0) else ja s in
  mret (jc (__jhash_mix (Mix a b c))).

Definition jhash_3words (a b c initval : Z) : Z :=
  jc (__jhash_mix (Mix (u32 (a + JHASH_GOLDEN_RATIO)) (u32 (b + JHASH_GOLDEN_RATIO)) (u32 (c + initval)))).
Definition jhash_2words (a b initval : Z) : Z := jhash_3words a b 0 initval.
Definition jhash_1word (a initval : Z) : Z := jhash_3words a 0 0 initval.

(** ** Lemmas *)

(** The key of jhash2 as the bytes a little-endian machine stores. *)
Definition key_bytes (ws : list Z) : list Z := concat (le_bytes 4 <$> ws).

Lemma zlen_key_bytes ws : zlen (key_bytes ws) = 4 * zlen ws.
Proof.
  unfold zlen, key_bytes. induction ws as [|w ws IH]; [done|].
  rewrite fmap_cons. cbn [concat]. rewrite length_app, length_le_bytes. cbn [length]. lia.
Qed.

Lemma le_bytes_4 w : le_bytes 4 w = [u8 w; u8 (w / 256); u8 (w / 256 / 256); u8 (w / 256 / 256 / 256)].
Proof. reflexivity. Qed.

(** The four shifted bytes add up to the word. *)
Lemma le_sum w : in_width 32 w →
  u8 w + 256 * u8 (w / 256) + 65536 * u8 (w / 256 / 256) + 16777216 * u8 (w / 256 / 256 / 256) = w.
Proof. unfold in_width, wrap. change (2 ^ 32) with 4294967296. change (2 ^ 8) with 256. intros. zlia. Qed.

Lemma shift_byte b sh : 0 <= sh <= 24 → u32 (Z.shiftl (u8 b) sh) = 2 ^ sh * u8 b.
Proof.
  intros Hs. pose proof (wrap_range 8 ltac:(lia) b). rewrite Z.shiftl_mul_pow2 by lia.
  assert (0 < 2 ^ sh <= 2 ^ 24) by (split; [lia|apply Z.pow_le_mono_r; lia]).
  assert (u8 b * 2 ^ sh <= 255 * 2 ^ 24) by (apply Z.mul_le_mono_nonneg; lia).
  assert (0 <= u8 b * 2 ^ sh) by (apply Z.mul_nonneg_nonneg; lia).
  rewrite wrap_small by lia. lia.
Qed.

Lemma word_at_le (pre : list Z) w rest : in_width 32 w →
  word_at (pre ++ le_bytes 4 w ++ rest) (length pre) = w.
Proof.
  intros Hw. unfold word_at.
  assert (Hn : ∀ j, (j < 4)%nat → nth (length pre + j) (pre ++ le_bytes 4 w ++ rest) 0 = nth j (le_bytes 4 w) 0).
  { intros j Hj. rewrite app_nth2_plus. apply app_nth1. rewrite length_le_bytes. lia. }
  pose proof (Hn 0%nat ltac:(lia)) as H0. rewrite Nat.add_0_r in H0.
  rewrite H0, !Hn by lia. rewrite le_bytes_4. cbn [nth].
  rewrite !shift_byte by lia. change (2 ^ 8) with 256. change (2 ^ 16) with 65536. change (2 ^ 24) with 16777216.
  pose proof (le_sum w Hw). unfold in_width in Hw.
  pose proof (wrap_range 8 ltac:(lia) w). pose proof (wrap_range 8 ltac:(lia) (w / 256)).
  pose proof (wrap_range 8 ltac:(lia) (w / 256 / 256)). pose proof (wrap_range 8 ltac:(lia) (w / 256 / 256 / 256)).
  set (b0 := u8 w) in *. set (b1 := u8 (w / 256)) in *. set (b2 := u8 (w / 256 / 256)) in *.
  rewrite (wrap_small 32 ltac:(lia) (b0 + 256 * b1)) by lia.
  rewrite (wrap_small 32 ltac:(lia) (b0 + 256 * b1 + 65536 * b2)) by lia. rewrite wrap_small by lia. lia.
Qed.

Lemma key_bytes_app l1 l2 : key_bytes (l1 ++ l2) = key_bytes l1 ++ key_bytes l2.
Proof. unfold key_bytes. by rewrite fmap_app, concat_app. Qed.

Lemma jhash_loops f1 f2 ws s : Forall (in_width 32) ws →
  (length ws < f1)%nat → (length ws < f2)%nat →
  ∃ ws' s', (length ws' < 3)%nat ∧ Forall (in_width 32) ws' ∧
    jhash2_loop f1 ws (zlen ws) s = Ret (ws', zlen ws', s') ∧
    jhash_loop f2 (key_bytes ws) (4 * zlen ws) s = Ret (key_bytes ws', 4 * zlen ws', s').
Proof.
  revert f2 ws s; induction f1 as [|f1 IH]; intros [|f2] ws s HF H1 H2; try lia. cbn [jhash2_loop jhash_loop].
  destruct ws as [|w0 [|w1 [|w2 ws]]].
  1-3: eexists _, s; split_and!; [|exact HF|reflexivity|reflexivity]; simpl; lia.
  repeat (apply Forall_cons in HF as [? HF]).
  assert (Hz : zlen (w0 :: w1 :: w2 :: ws) = zlen ws + 3) by (unfold zlen; simpl; lia).
  pose proof (zlen_nonneg ws). rewrite Hz. rewrite (proj2 (Z.leb_le _ _)), (proj2 (Z.leb_le _ _)) by lia.
  rewrite !slice_ret by (try lia; rewrite ?zlen_key_bytes, ?Hz; lia). rewrite !bind_ret.
  assert (Hk : key_bytes (w0 :: w1 :: w2 :: ws) = (le_bytes 4 w0 ++ le_bytes 4 w1 ++ le_bytes 4 w2) ++ key_bytes ws).
  { unfold key_bytes. rewrite !fmap_cons. cbn [concat]. by rewrite !app_assoc. }
  rewrite Hk. rewrite (zdrop_0 0) by lia. rewrite (zdrop_0 0) by lia.
  assert (Hl : zlen (le_bytes 4 w0 ++ le_bytes 4 w1 ++ le_bytes 4 w2) = 12) by done.
  rewrite ztake_app_le, (ztake_all 12) by lia. rewrite zdrop_app_ge, Hl by lia. change (12 - 12) with 0. rewrite (zdrop_0 0) by lia.
  change (ztake 3 (w0 :: w1 :: w2 :: ws)) with [w0; w1; w2]. change (zdrop 3 (w0 :: w1 :: w2 :: ws)) with ws. cbn [nth].
  pose proof (word_at_le [] w0 (le_bytes 4 w1 ++ le_bytes 4 w2) H) as E0. cbn [app length] in E0. rewrite E0.
  pose proof (word_at_le (le_bytes 4 w0) w1 (le_bytes 4 w2) H0) as E1. rewrite length_le_bytes in E1. rewrite E1.
  pose proof (word_at_le (le_bytes 4 w0 ++ le_bytes 4 w1) w2 [] H3) as E2.
  rewrite length_app, !length_le_bytes, app_nil_r, <-app_assoc in E2. change (4 + 4)%nat with 8%nat in E2. rewrite E2.
  replace (zlen ws + 3 - 3) with (zlen ws) by lia. replace (4 * (zlen ws + 3) - 12) with (4 * zlen ws) by lia.
  apply IH; [done|simpl in H1; lia|simpl in H2; lia].
Qed.

(** Four falling-through cases add one whole word. *)
Lemma jcases_word x w : in_width 32 x → in_width 32 w →
  u32 (u32 (u32 (u32 (x + u32 (Z.shiftl (u8 (w / 256 / 256 / 256)) 24)) + u32 (Z.shiftl (u8 (w / 256 / 256)) 16))
    + u32 (Z.shiftl (u8 (w / 256)) 8)) + u32 (Z.shiftl (u8 w) 0)) = u32 (x + w).
Proof.
  intros Hx Hw. rewrite !shift_byte by lia. 
  repeat (rewrite wrap_add_l by lia; rewrite <-?Z.add_assoc). f_equal.
  pose proof (le_sum w Hw). change (2 ^ 0) with 1. change (2 ^ 8) with 256. change (2 ^ 16) with 65536. change (2 ^ 24) with 16777216. lia.
Qed.

Lemma mix_range s : in_width 32 (ja s) → in_width 32 (jb s) → in_width 32 (jc s) →
  in_width 32 (ja (__jhash_mix s)) ∧ in_width 32 (jb (__jhash_mix s)) ∧ in_width 32 (jc (__jhash_mix s)).
Proof.
  assert (Hx : ∀ x y, in_width 32 x → in_width 32 y → in_width 32 (Z.lxor x y)).
  { intros x y [Hx1 Hx2] [Hy1 Hy2]. split; [by apply Z.lxor_nonneg|]. apply testbit_bound; [lia|by apply Z.lxor_nonneg|].
    intros i Hi. rewrite Z.lxor_spec, !(testbit_above 32) by lia. done. }
  assert (Hu : ∀ x, in_width 32 (u32 x)) by (intros; apply wrap_range; lia).
  assert (Hs : ∀ x k, 0 <= k → in_width 32 x → in_width 32 (Z.shiftr x k)).
  { intros x k Hk [Hx1 Hx2]. rewrite Z.shiftr_div_pow2 by lia. split; [apply Z.div_pos; lia|].
    apply Z.le_lt_trans with x; [apply Z.div_le_upper_bound; nia|done]. }
  destruct s as [a b c]; cbn [ja jb jc]. intros Ha Hb Hc. unfold __jhash_mix. cbn [ja jb jc].
  split_and!; repeat first [apply Hx|apply Hu|apply Hs; [lia|]]; done.
Qed.

Lemma jhash2_loop_range fuel k len s k' len' s' : jhash2_loop fuel k len s = Ret (k', len', s') →
  in_width 32 (ja s) → in_width 32 (jb s) → in_width 32 (jc s) →
  in_width 32 (ja s') ∧ in_width 32 (jb s') ∧ in_width 32 (jc s').
Proof.
  revert k len s; induction fuel as [|fuel IH]; intros k len s; [done|]. cbn [jhash2_loop].
  case_match; [|intros [= _ _ <-]; done]. intros E Ha Hb Hc. inv_bind.
  assert (Hu : ∀ x, in_width 32 (u32 x)) by (intros; apply wrap_range; lia).
  destruct (mix_range (Mix (u32 (ja s + nth 0 x 0)) (u32 (jb s + nth 1 x 0)) (u32 (jc s + nth 2 x 0)))) as (H1 & H2 & H3); [apply Hu..|].
  by eapply IH.
Qed.

#[local] Arguments wrap : simpl never.
#[local] Arguments Z.shiftl : simpl never.
#[local] Arguments Z.div : simpl never.
#[local] Arguments Z.add : simpl never.

(** Evaluate the guards of the switch. *)
Ltac eval_cases :=
  repeat match goal with
  | |- context [Z.of_nat ?n <=? 4 * ?m] =>
      let b := eval vm_compute in (Z.of_nat n <=? 4 * m) in change (Z.of_nat n <=? 4 * m) with b
  end; cbn.

(** on a little-endian machine the word hash jhash2 is jhash of the key's
    memory: a table keyed through either finds the same bucket. *)
Theorem jhash2_is_jhash (ws : list Z) (initval : Z) :
  Forall (in_width 32) ws → in_width 32 initval → 4 * zlen ws < 2 ^ 32 →
  ∃ h, jhash2 ws (zlen ws) initval = Ret h ∧ jhash (key_bytes ws) (4 * zlen ws) initval = Ret h.
Proof.
  intros HF Hi Hl. pose proof (zlen_nonneg ws). unfold jhash2, jhash.
  destruct (jhash_loops (S (Z.to_nat (zlen ws))) (S (Z.to_nat (4 * zlen ws))) ws
    (Mix JHASH_GOLDEN_RATIO JHASH_GOLDEN_RATIO initval) HF) as (ws' & s' & Hlen & HF' & E1 & E2); [unfold zlen; lia..|].
  rewrite E1, E2, !bind_ret. cbv beta iota zeta. cbn [ja jb jc].
  destruct (jhash2_loop_range _ _ _ _ _ _ _ E1) as (Ha & Hb & Hc); [by vm_compute|by vm_compute|done|].
  pose proof (zlen_nonneg ws'). rewrite !slice_ret by (try lia; rewrite ?zlen_key_bytes; lia). rewrite !bind_ret.
  rewrite !(zdrop_0 0), !ztake_all by (rewrite ?zlen_key_bytes; lia).
  rewrite (wrap_small 32 ltac:(lia) (zlen ws * 4)) by lia. rewrite (Z.mul_comm (zlen ws) 4).
  eexists. split; [reflexivity|]. unfold mret, outcome_ret. f_equal. f_equal. f_equal. unfold jhash_tail. cbn [ja jb jc].
  destruct ws' as [|w0 [|w1 [|]]]; [..|simpl in Hlen; lia].
  - done.
  - apply Forall_cons in HF' as [Hw0 _]. change (zlen [w0]) with 1. unfold jcase. eval_cases. f_equal. by rewrite jcases_word.
  - apply Forall_cons in HF' as [Hw0 HF']. apply Forall_cons in HF' as [Hw1 _].
    change (zlen [w0; w1]) with 2. unfold jcase. eval_cases. f_equal; by rewrite jcases_word.
Qed.

Lemma jhash2_is_jhash_witness :
  ∃ h, jhash2 [0xc0a80001; 0x0a000001; 0x00500050; 6; 17] 5 0xdeadbeef = Ret h ∧
    jhash (key_bytes [0xc0a80001; 0x0a000001; 0x00500050; 6; 17]) 20 0xdeadbeef = Ret h.
Proof.
  apply (jhash2_is_jhash [0xc0a80001; 0x0a000001; 0x00500050; 6; 17] 0xdeadbeef).
  - apply (bool_decide_unpack _). by vm_compute.
  - unfold in_width. lia.
  - vm_compute. done.
Defined.
