(* ===== verification/Refs.v ===== *)
(** * kernelenv.c: reference counts

    A packet counts as one user of its connection, and the connection is destroyed with its
    last user.  Destroying frees the connection: its count is gone from the state and every
    later use of it is undefined.  Sockets are counted the same way. *)

From Stdlib Require Import ZArith Lia.
From S2P Require Import Prelude CStr Mem KernLib.

(** The live connections and their use counts, the live packets with their nfct, and the
    connections that were destroyed, in order. *)
Record state := State { uses : gmap Z Z; skbs : list (Z * option Z); destroyed : list Z }.
Definition with_uses (u : gmap Z Z) (s : state) : state := State u (skbs s) (destroyed s).
Definition with_skbs (l : list (Z * option Z)) (s : state) : state := State (uses s) l (destroyed s).

Definition nf_conntrack_get (nfct : option Z) (s : state) : outcome state :=
  match nfct with
  | None => mret s
  | Some c => u ← of_option "nf_conntrack_get: the connection was destroyed" (uses s !! c); mret (with_uses (<[c := atomic_inc u]> (uses s)) s)
  end.
Definition nf_conntrack_put (nfct : option Z) (s : state) : outcome state :=
  match nfct with
  | None => mret s
  | Some c =>
      u ← of_option "nf_conntrack_put: the connection was destroyed" (uses s !! c);
      let '(zero, u) := atomic_dec_and_test u in
      mret (if zero then State (delete c (uses s)) (skbs s) (destroyed s ++ [c]) else with_uses (<[c := u]> (uses s)) s)
  end.

Definition skb_at (a : Z) (l : list (Z * option Z)) : outcome (option Z) :=
  of_option "sk_buff: freed" (snd <$> List.find (λ e, e.1 =? a) l).
Definition set_nfct (a : Z) (n : option Z) (l : list (Z * option Z)) : list (Z * option Z) := map (λ e, if e.1 =? a then (a, n) else e) l.

(** The part of the header's copy that counts. *)
Definition copy_skb_header (new old : Z) (s : state) : outcome state :=
  n ← skb_at old (skbs s);
  _ ← skb_at new (skbs s);
  nf_conntrack_get n (with_skbs (set_nfct new n (skbs s)) s).
Definition nf_reset (a : Z) (s : state) : outcome state :=
  n ← skb_at a (skbs s);
  s ← nf_conntrack_put n s;
  mret (with_skbs (set_nfct a None (skbs s)) s).
Definition kfree_skb (a : Z) (s : state) : outcome state :=
  n ← skb_at a (skbs s);
  s ← nf_conntrack_put n s;
  mret (with_skbs (filter (λ e, e.1 ≠ a) (skbs s)) s).

(** The live sockets with their counts. *)
Definition sock_hold (sk : Z) (m : gmap Z Z) : outcome (gmap Z Z) :=
  n ← of_option "sock_hold: freed" (m !! sk); mret (<[sk := atomic_inc n]> m).
Definition sock_put (sk : Z) (m : gmap Z Z) : outcome (gmap Z Z) :=
  n ← of_option "sock_put: freed" (m !! sk);
  let '(zero, n) := atomic_dec_and_test n in
  mret (if zero then delete sk m else <[sk := n]> m).

(** ** The count is the number of users *)

(** What happens to packets, and to the references that the connection tracking holds
    besides. *)
Inductive op :=
| ONew (c : Z) | OGet (c : Z) | OPut (c : Z)
| OAlloc (a : Z) | OAttach (a c : Z) | OCopy (new old : Z) | OReset (a : Z) | OFree (a : Z).

Definition exec (o : op) (s : state) : outcome state :=
  match o with
  | ONew c => mret (with_uses (<[c := 1]> (uses s)) s)
  | OGet c => nf_conntrack_get (Some c) s
  | OPut c => nf_conntrack_put (Some c) s
  | OAlloc a => mret (with_skbs ((a, None) :: skbs s) s)
  | OAttach a c => mret (with_skbs (set_nfct a (Some c) (skbs s)) s)
  | OCopy new old => copy_skb_header new old s
  | OReset a => nf_reset a s
  | OFree a => kfree_skb a s
  end.

(** The references: those that are held besides, and the packets. *)
Record users := Users { held : Z → Z; packets : list (Z * option Z) }.
Definition count (c : Z) (l : list (Z * option Z)) : Z := zlen (filter (λ e, e.2 = Some c) l).
Definition total (A : users) (c : Z) : Z := held A c + count c (packets A).
Definition bump (c d : Z) (f : Z → Z) : Z → Z := λ x, if decide (x = c) then f x + d else f x.

Definition after (o : op) (A : users) : users :=
  match o with
  | ONew c | OGet c => Users (bump c 1 (held A)) (packets A)
  | OPut c => Users (bump c (-1) (held A)) (packets A)
  | OAlloc a => Users (held A) ((a, None) :: packets A)
  | OAttach a c => Users (bump c (-1) (held A)) (set_nfct a (Some c) (packets A))
  | OCopy new old => match List.find (λ e, e.1 =? old) (packets A) with Some (_, n) => Users (held A) (set_nfct new n (packets A)) | None => A end
  | OReset a => Users (held A) (set_nfct a None (packets A))
  | OFree a => Users (held A) (filter (λ e, e.1 ≠ a) (packets A))
  end.
(** Packets and connections are used while they live, a reference is given up only by who
    has it, and a packet gets a connection, by copying or otherwise, only when it has none. *)
Definition legal (o : op) (A : users) : Prop :=
  let room c := total A c < 2 ^ 31 - 1 in
  match o with
  | ONew c => total A c = 0
  | OGet c => 0 < total A c ∧ room c
  | OPut c => 0 < held A c
  | OAlloc a => a ∉ map fst (packets A)
  | OAttach a c => (a, None) ∈ packets A ∧ 0 < held A c
  | OCopy new old => (new, None) ∈ packets A ∧ ∃ n, (old, n) ∈ packets A ∧ (∀ c, n = Some c → room c)
  | OReset a | OFree a => a ∈ map fst (packets A)
  end.
Record represents (s : state) (A : users) : Prop := Represents {
  re_uses : ∀ c, uses s !! c = if decide (0 < total A c) then Some (total A c) else None;
  re_skbs : skbs s = packets A;
  re_nodup : NoDup (map fst (packets A));
  re_held : ∀ c, 0 <= held A c;
  re_small : ∀ c, total A c < 2 ^ 31;
}.

Lemma count_cons c e l : count c (e :: l) = (if decide (e.2 = Some c) then 1 else 0) + count c l.
Proof. unfold count. rewrite filter_cons. case_decide; unfold zlen; cbn [length]; lia. Qed.
Lemma count_nonneg c l : 0 <= count c l.
Proof. apply zlen_nonneg. Qed.
Lemma find_skb (l : list (Z * option Z)) a n : NoDup (map fst l) → (a, n) ∈ l → List.find (λ e, e.1 =? a) l = Some (a, n).
Proof.
  induction l as [|[b m] l IH]; intros Hn Hin; [by apply not_elem_of_nil in Hin|]. cbn [map fst List.find] in *. apply NoDup_cons in Hn as [Hb Hn].
  apply elem_of_cons in Hin as [[= -> ->]|Hin]; [by rewrite Z.eqb_refl|]. rewrite (proj2 (Z.eqb_neq b a)); [by apply IH|].
  intros ->. apply Hb. apply list_elem_of_fmap. by exists (a, n).
Qed.
Lemma set_nfct_notin a n l : a ∉ map fst l → set_nfct a n l = l.
Proof.
  induction l as [|[b m] l IH]; intros Ha; [done|]. cbn [map fst] in Ha. apply not_elem_of_cons in Ha as [Hb Ha]. cbn. rewrite (proj2 (Z.eqb_neq b a)) by congruence.
  f_equal. by apply IH.
Qed.
Lemma set_nfct_fst a n l : map fst (set_nfct a n l) = map fst l.
Proof. induction l as [|[b m] l IH]; [done|]. cbn. destruct (Z.eqb_spec b a) as [->|]; cbn; by f_equal. Qed.
Definition is_user (n : option Z) (c : Z) : Z := if decide (n = Some c) then 1 else 0.
Lemma count_set a n m c l : NoDup (map fst l) → (a, m) ∈ l → count c (set_nfct a n l) = count c l - is_user m c + is_user n c.
Proof.
  induction l as [|[b x] l IH]; intros Hn Hin; [by apply not_elem_of_nil in Hin|]. cbn [map fst] in Hn. apply NoDup_cons in Hn as [Hb Hn].
  cbn [set_nfct map fst]. fold (set_nfct a n l). apply elem_of_cons in Hin as [[= -> ->]|Hin].
  - rewrite Z.eqb_refl, set_nfct_notin, !count_cons by done. cbn [snd]. unfold is_user. lia.
  - rewrite (proj2 (Z.eqb_neq b a)), !count_cons, IH by (try done; intros ->; apply Hb, list_elem_of_fmap; by exists (a, m)). lia.
Qed.
Lemma count_del a m c l : NoDup (map fst l) → (a, m) ∈ l → count c (filter (λ e, e.1 ≠ a) l) = count c l - is_user m c.
Proof.
  induction l as [|[b x] l IH]; intros Hn Hin; [by apply not_elem_of_nil in Hin|]. cbn [map fst] in Hn. apply NoDup_cons in Hn as [Hb Hn].
  rewrite filter_cons. cbn [fst]. apply elem_of_cons in Hin as [[= -> ->]|Hin].
  - rewrite decide_False by auto. rewrite filter_all, count_cons; [cbn [snd]; unfold is_user; lia|]. apply Forall_forall. intros [y z] Hy E. cbn in E. subst y.
    apply Hb, list_elem_of_fmap. by exists (b, z).
  - rewrite decide_True, !count_cons, IH by (try done; intros ->; apply Hb, list_elem_of_fmap; by exists (a, m)). lia.
Qed.
Lemma count_in a c l : (a, Some c) ∈ l → 0 < count c l.
Proof.
  intros Hin. unfold count, zlen. assert ((a, Some c) ∈ filter (λ e, e.2 = Some c) l) by (by apply list_elem_of_filter).
  destruct (filter _ l); [by apply not_elem_of_nil in H|cbn [length]; lia].
Qed.

Lemma bump_eq c d R : bump c d R c = R c + d.
Proof. unfold bump. by rewrite decide_True. Qed.
Lemma bump_ne c d R x : x ≠ c → bump c d R x = R x.
Proof. intros. unfold bump. by rewrite decide_False. Qed.

(** A table of counts. *)
Definition counts (u : gmap Z Z) (R : Z → Z) : Prop := ∀ c, u !! c = if decide (0 < R c) then Some (R c) else None.
Lemma get_counts s R c : counts (uses s) R → 0 < R c < 2 ^ 31 - 1 → ∃ u, nf_conntrack_get (Some c) s = Ret (with_uses u s) ∧ counts u (bump c 1 R).
Proof.
  intros Hu Hc. unfold nf_conntrack_get. rewrite (Hu c), decide_True by lia. cbn [of_option]. rewrite bind_ret. eexists. split; [reflexivity|].
  intros x. rewrite lookup_insert. unfold atomic_inc. destruct (decide (c = x)) as [<-|Hx]; [|rewrite bump_ne by done; apply Hu].
  by rewrite bump_eq, decide_True, s32_small by lia.
Qed.
Lemma put_counts s R c : counts (uses s) R → 0 < R c < 2 ^ 31 → ∃ u d, nf_conntrack_put (Some c) s = Ret (State u (skbs s) (destroyed s ++ d)) ∧
  counts u (bump c (-1) R) ∧ d = if decide (R c = 1) then [c] else [].
Proof.
  intros Hu Hc. unfold nf_conntrack_put, atomic_dec_and_test. rewrite (Hu c), decide_True by lia. cbn [of_option]. rewrite bind_ret. cbv zeta.
  rewrite s32_small by lia. destruct (Z.eqb_spec (R c - 1) 0) as [E|E].
  - exists (delete c (uses s)), [c]. rewrite (decide_True (P := R c = 1)) by lia. split_and!; [done| |done].
    intros x. rewrite lookup_delete. destruct (decide (c = x)) as [<-|Hx]; [|rewrite bump_ne by done; apply Hu].
    by rewrite bump_eq, decide_False by lia.
  - exists (<[c := R c - 1]> (uses s)), []. rewrite (decide_False (P := R c = 1)), app_nil_r by lia. split_and!; [done| |done].
    intros x. rewrite lookup_insert. destruct (decide (c = x)) as [<-|Hx]; [|rewrite bump_ne by done; apply Hu].
    by rewrite bump_eq, decide_True by lia.
Qed.
Lemma counts_ext u R R' : (∀ c, R c = R' c) → counts u R → counts u R'.
Proof. intros E Hu c. rewrite <-E. apply Hu. Qed.

Lemma is_user_bump c d R x : bump c d R x = R x + d * is_user (Some c) x.
Proof. unfold bump, is_user. case_decide as E; [subst; rewrite decide_True by done|rewrite decide_False by congruence]; lia. Qed.
Lemma put_opt s A n : represents s A → (∀ c, n = Some c → 0 < total A c) → ∃ u d,
  nf_conntrack_put n s = Ret (State u (skbs s) (destroyed s ++ d)) ∧ counts u (λ c, total A c - is_user n c) ∧ NoDup d ∧ ∀ c, c ∈ d ↔ n = Some c ∧ total A c = 1.
Proof.
  intros R Hn. destruct n as [c|].
  - destruct (put_counts s (total A) c (re_uses _ _ R)) as (u & d & E & Hu & Hd); [split; [by apply Hn|apply R]|]. exists u, d. split_and!; [exact E| | |].
    + eapply counts_ext; [|exact Hu]. intros x. cbv beta. rewrite is_user_bump. lia.
    + rewrite Hd. case_decide; [apply NoDup_singleton|constructor].
    + intros x. rewrite Hd. case_decide as Ec; [rewrite list_elem_of_singleton; split; [by intros ->|by intros [[= ->] _]]|].
      split; [by intros ?%not_elem_of_nil|]. intros [[= ->] ?]. done.
  - exists (uses s), []. split_and!; [cbn; rewrite app_nil_r; by destruct s|apply (counts_ext _ (total A)); [|exact (re_uses _ _ R)]; intros c; unfold is_user; rewrite decide_False by done; lia|constructor|].
    intros c. split; [by intros ?%not_elem_of_nil|by intros [? _]].
Qed.
Lemma get_opt s A n : counts (uses s) (total A) → (∀ c, n = Some c → 0 < total A c < 2 ^ 31 - 1) → ∃ u,
  nf_conntrack_get n s = Ret (with_uses u s) ∧ counts u (λ c, total A c + is_user n c).
Proof.
  intros R Hn. destruct n as [c|].
  - destruct (get_counts s (total A) c R) as (u & E & Hu); [by apply Hn|]. exists u. split; [exact E|].
    eapply counts_ext; [|exact Hu]. intros x. cbv beta. rewrite is_user_bump. lia.
  - exists (uses s). split; [cbn; by destruct s|]. apply (counts_ext _ (total A)); [|exact R]. intros c. unfold is_user. rewrite decide_False by done. lia.
Qed.
Lemma holder_counted s A a n c : represents s A → (a, n) ∈ packets A → n = Some c → 0 < total A c.
Proof. intros R Hin ->. pose proof (count_in a c _ Hin). pose proof (re_held _ _ R c). unfold total. lia. Qed.
Lemma skb_at_ok s A a n : represents s A → (a, n) ∈ packets A → skb_at a (skbs s) = Ret n.
Proof. intros R Hin. unfold skb_at. by rewrite (re_skbs _ _ R), (find_skb _ a n (re_nodup _ _ R) Hin). Qed.

(** What is left to show about a step: its counts, and the bounds of the new references. *)
Lemma step_ok s A s' A' (R' : Z → Z) : represents s A → counts (uses s') R' → (∀ c, R' c = total A' c) → skbs s' = packets A' →
  NoDup (map fst (packets A')) → (∀ c, 0 <= held A' c) → (∀ c, R' c < 2 ^ 31) → represents s' A'.
Proof.
  intros R Hc E Hs Hn Hh Hb. split; [eapply counts_ext; [exact E|exact Hc]|done..|]. intros c. rewrite <-E. apply Hb.
Qed.
Lemma is_user_range n c : 0 <= is_user n c <= 1.
Proof. unfold is_user. case_decide; lia. Qed.

Lemma total_bump c d h p x : total (Users (bump c d h) p) x = total (Users h p) x + d * is_user (Some c) x.
Proof. unfold total. cbn [held packets]. rewrite is_user_bump. lia. Qed.
Lemma none_lost A A' : (∀ c, 0 < total A c → 0 < total A' c) → ∀ c, c ∈ @nil Z ↔ 0 < total A c ∧ total A' c = 0.
Proof. intros H c. split; [by intros ?%not_elem_of_nil|]. intros [H1 H2]. specialize (H c H1). lia. Qed.
Lemma some_lost A A' n (d : list Z) : (∀ c, c ∈ d ↔ n = Some c ∧ total A c = 1) → (∀ c, n = Some c → 0 < total A c) → (∀ c, total A' c = total A c - is_user n c) →
  ∀ c, c ∈ d ↔ 0 < total A c ∧ total A' c = 0.
Proof.
  intros Hd Hn' E c. rewrite Hd, E. unfold is_user. split; [intros [-> ?]; rewrite decide_True by done; lia|].
  case_decide as Ec; [intros [? ?]; split; [done|lia]|]. intros [? ?]. lia.
Qed.

(** Steps of the connection tracking. *)
Lemma held_step s A o : represents s A → legal o A → match o with ONew _ | OGet _ | OPut _ => True | _ => False end → ∃ s' lost,
  exec o s = Ret s' ∧ represents s' (after o A) ∧ destroyed s' = destroyed s ++ lost ∧ NoDup lost ∧ ∀ c, c ∈ lost ↔ 0 < total A c ∧ total (after o A) c = 0.
Proof.
  intros R L Ho. destruct o as [c|c|c| | | | |]; try done; cbn [exec legal after] in *; destruct A as [h p]; cbn [held packets] in *.
  - eexists _, []. split_and!; [reflexivity| |by rewrite app_nil_r|constructor|].
    + apply (step_ok _ _ _ _ (bump c 1 (total (Users h p))) R); [|by intros x; rewrite total_bump, is_user_bump|apply R|apply R| |].
      * intros x. cbn [uses with_uses]. rewrite lookup_insert. destruct (decide (c = x)) as [<-|Hx]; [by rewrite bump_eq, L, decide_True|].
        rewrite bump_ne by done. apply (re_uses _ _ R).
      * intros x. pose proof (re_held _ _ R x) as Hh. cbn in *. rewrite is_user_bump. pose proof (is_user_range (Some c) x). lia.
      * intros x. destruct (decide (x = c)) as [->|Hx]; [rewrite bump_eq; lia|rewrite bump_ne by done; apply (re_small _ _ R)].
    + apply none_lost. intros x Hx. rewrite total_bump. pose proof (is_user_range (Some c) x). lia.
  - destruct (get_opt s _ (Some c) (re_uses _ _ R)) as (u & E & Hu); [by intros ? [= <-]|]. eexists _, []. split_and!; [exact E| |by rewrite app_nil_r|constructor|].
    + eapply step_ok; [exact R|exact Hu|by intros x; rewrite total_bump; lia|apply R|apply R| |].
      * intros x. pose proof (re_held _ _ R x) as Hh. cbn in *. rewrite is_user_bump. pose proof (is_user_range (Some c) x). lia.
      * intros x. cbv beta. pose proof (re_small _ _ R x). unfold is_user. case_decide as Ec; [injection Ec as <-; lia|lia].
    + apply none_lost. intros x Hx. rewrite total_bump. pose proof (is_user_range (Some c) x). lia.
  - assert (Hpos : ∀ x, Some c = Some x → 0 < total (Users h p) x) by (intros x [= <-]; pose proof (count_nonneg c p); unfold total; cbn; lia).
    destruct (put_opt s _ (Some c) R Hpos) as (u & d & E & Hu & Hnd & Hd). eexists _, d. split_and!; [exact E| |done|done|].
    + eapply step_ok; [exact R|exact Hu|by intros x; rewrite total_bump; lia|apply R|apply R| |].
      * intros x. pose proof (re_held _ _ R x) as Hh. cbn in *. unfold bump. case_decide; subst; lia.
      * intros x. cbv beta. pose proof (re_small _ _ R x). pose proof (is_user_range (Some c) x). lia.
    + apply (some_lost _ _ (Some c)); [done|done|]. intros x. rewrite total_bump. lia.
Qed.

(** Steps that change one packet's connection from [m] to [n], or make or free a packet. *)
Lemma packet_step s A o : represents s A → legal o A → match o with OReset _ | OFree _ => True | _ => False end → ∃ s' lost,
  exec o s = Ret s' ∧ represents s' (after o A) ∧ destroyed s' = destroyed s ++ lost ∧ NoDup lost ∧ ∀ c, c ∈ lost ↔ 0 < total A c ∧ total (after o A) c = 0.
Proof.
  intros R L Ho. pose proof (re_nodup _ _ R) as Hn.
  assert (Ha : ∃ a n, (a, n) ∈ packets A ∧ (o = OReset a ∨ o = OFree a)).
  { destruct o as [| | | | | |a|a]; try done; cbn in L; apply list_elem_of_fmap in L as ([b n] & -> & Hin); exists b, n; auto. }
  destruct Ha as (a & n & Hin & Hoa).
  assert (Hpos : ∀ c, n = Some c → 0 < total A c) by (intros c Ec; by eapply holder_counted).
  destruct (put_opt s A n R Hpos) as (u & d & E & Hu & Hnd & Hd).
  assert (Htot : ∀ c, total (after o A) c = total A c - is_user n c).
  { intros c. unfold total. destruct Hoa as [->| ->]; cbn [after held packets].
    - rewrite (count_set a None n c _ Hn Hin). replace (is_user None c) with 0 by (unfold is_user; by rewrite decide_False). lia.
    - rewrite (count_del a n c _ Hn Hin). lia. }
  assert (Hex : exec o s = Ret (State u (packets (after o A)) (destroyed s ++ d))).
  { destruct Hoa as [->| ->]; cbn [exec after packets]; unfold nf_reset, kfree_skb; rewrite (skb_at_ok s A a n R Hin), bind_ret, E, bind_ret, <-(re_skbs _ _ R); done. }
  eexists _, d. split_and!; [exact Hex| |done|done|by apply (some_lost _ _ n)].
  eapply step_ok; [exact R|exact Hu|by intros c; rewrite Htot|done| | |].
  - destruct Hoa as [->| ->]; cbn [after packets]; [by rewrite set_nfct_fst|]. clear - Hn. induction (packets A) as [|[b m] l IH]; [done|].
    cbn [map fst] in Hn. apply NoDup_cons in Hn as [Hb Hn]. rewrite filter_cons. case_decide; [|by apply IH]. cbn [map fst]. apply NoDup_cons. split; [|by apply IH].
    intros (e & -> & He)%list_elem_of_fmap. apply Hb, list_elem_of_fmap. exists e. split; [done|]. by apply list_elem_of_filter in He as [_ He].
  - intros c. pose proof (re_held _ _ R c). by destruct Hoa as [->| ->].
  - intros c. cbv beta. pose proof (re_small _ _ R c). pose proof (is_user_range n c). lia.
Qed.

Lemma copy_step s A new old : represents s A → legal (OCopy new old) A → ∃ s', exec (OCopy new old) s = Ret s' ∧ represents s' (after (OCopy new old) A) ∧
  destroyed s' = destroyed s ∧ ∀ c, 0 < total A c → 0 < total (after (OCopy new old) A) c.
Proof.
  intros R (Hnew & n & Hold & Hroom). pose proof (re_nodup _ _ R) as Hn. cbn [exec after]. rewrite (find_skb _ old n Hn Hold).
  destruct (get_opt (with_skbs (set_nfct new n (skbs s)) s) A n (re_uses _ _ R)) as (u & E & Hu).
  - intros c Ec. split; [by eapply holder_counted|by apply Hroom].
  - assert (Htot : ∀ c, total (Users (held A) (set_nfct new n (packets A))) c = total A c + is_user n c).
    { intros c. unfold total. cbn [held packets]. rewrite (count_set new n None c _ Hn Hnew). replace (is_user None c) with 0 by (unfold is_user; by rewrite decide_False). lia. }
    eexists. split_and!.
    + unfold copy_skb_header. rewrite (skb_at_ok s A old n R Hold), bind_ret, (skb_at_ok s A new None R Hnew), bind_ret. exact E.
    + eapply step_ok; [exact R|exact Hu|..]; cbn [held packets with_uses with_skbs skbs].
      * intros c. by rewrite Htot.
      * by rewrite (re_skbs _ _ R).
      * by rewrite set_nfct_fst.
      * apply R.
      * intros c. cbv beta. pose proof (re_small _ _ R c). unfold is_user. case_decide as Ec; [specialize (Hroom c Ec); lia|lia].
    + done.
    + intros c Hc. rewrite Htot. pose proof (is_user_range n c). lia.
Qed.

(** C12: connections live exactly as long as they are used.  Whatever happens to packets
    (they are made, copied, reset and freed) and to the references that are held besides,
    no connection is used after it was destroyed, the use count is the number of packets and
    references, and a step destroys exactly the connections whose last user it removes, each
    once. *)
Theorem connections_live_while_used s A o : represents s A → legal o A → ∃ s' lost,
  exec o s = Ret s' ∧ represents s' (after o A) ∧ destroyed s' = destroyed s ++ lost ∧ NoDup lost ∧
  ∀ c, c ∈ lost ↔ 0 < total A c ∧ total (after o A) c = 0.
Proof.
  intros R L. destruct o as [c|c|c|a|a c|new old|a|a]; try (by apply held_step); try (by apply packet_step); cbn [exec legal] in *.
  - eexists _, []. split_and!; [reflexivity| |by rewrite app_nil_r|constructor|].
    + assert (Htot : ∀ c, total A c = total (after (OAlloc a) A) c).
      { intros c. unfold total. cbn [after held packets]. rewrite count_cons, decide_False by done. lia. }
      eapply step_ok; [exact R|exact (re_uses _ _ R)|exact Htot|..]; cbn [after held packets with_skbs skbs map fst]; [by rewrite (re_skbs _ _ R)| |apply R|apply R].
      apply NoDup_cons. split; [done|apply R].
    + apply none_lost. intros c Hc. unfold total in *. cbn [after held packets]. rewrite count_cons, decide_False by done. lia.
  - destruct L as [Hin Hh]. assert (Htot : ∀ x, total A x = total (after (OAttach a c) A) x).
    { intros x. unfold total. cbn [after held packets]. rewrite (count_set a (Some c) None x _ (re_nodup _ _ R) Hin), is_user_bump.
      replace (is_user None x) with 0 by (unfold is_user; by rewrite decide_False). lia. }
    eexists _, []. split_and!; [reflexivity| |by rewrite app_nil_r|constructor|apply none_lost; intros x; by rewrite <-Htot].
    eapply step_ok; [exact R|exact (re_uses _ _ R)|exact Htot|..]; cbn [after held packets with_skbs skbs]; [by rewrite (re_skbs _ _ R)|rewrite set_nfct_fst; apply R| |apply R].
    intros x. pose proof (re_held _ _ R x). unfold bump. case_decide; subst; lia.
  - destruct (copy_step s A new old R L) as (s' & E & R' & Ed & Hk). exists s', []. split_and!; [exact E|done|by rewrite app_nil_r|constructor|by apply none_lost].
Qed.

(** A connection with its own reference and a packet; the packet is copied, the reference is
    given up, and both packets go. *)
Definition life : outcome (list (list (Z * Z)) * list Z) :=
  let see s := map_to_list (uses s) in
  s0 ← exec (ONew 7) (State ∅ [] []);
  s1 ← exec (OGet 7) s0; s1 ← exec (OAlloc 1) s1; s1 ← exec (OAttach 1 7) s1; s1 ← exec (OAlloc 2) s1;
  s2 ← exec (OCopy 2 1) s1; s3 ← exec (OPut 7) s2; s4 ← exec (OReset 1) s3; s4 ← exec (OFree 1) s4; s5 ← exec (OFree 2) s4;
  mret ([see s0; see s2; see s3; see s4; see s5], destroyed s5).
Definition no_users : users := Users (λ _, 0) [].
Lemma no_users_ok : represents (State ∅ [] []) no_users.
Proof. split; try done. constructor. Qed.

Lemma connections_live_while_used_witness : life = Ret ([[(7, 1)]; [(7, 3)]; [(7, 2)]; [(7, 1)]; []], [7]) ∧
  ∃ s' lost, exec (ONew 7) (State ∅ [] []) = Ret s' ∧ represents s' (after (ONew 7) no_users) ∧ destroyed s' = [] ++ lost ∧ NoDup lost ∧
    ∀ c, c ∈ lost ↔ 0 < total no_users c ∧ total (after (ONew 7) no_users) c = 0.
Proof. split; [vm_compute; reflexivity|]. apply (connections_live_while_used _ _ (ONew 7) no_users_ok). reflexivity. Defined.

(** A header copied onto a packet that has a connection: its reference is lost. *)
Lemma overwritten_reference_leaks :
  (s ← exec (ONew 7) (State ∅ [] []); s ← exec (ONew 8) s; s ← exec (OAlloc 1) s; s ← exec (OAttach 1 7) s; s ← exec (OAlloc 2) s; s ← exec (OAttach 2 8) s;
   s ← copy_skb_header 2 1 s; s ← exec (OFree 1) s; s ← exec (OFree 2) s; mret (map_to_list (uses s))) = Ret [(8, 1)].
Proof. vm_compute. reflexivity. Qed.
