(* ===== verification/Timer.v ===== *)
(** * kernelenv.c, tools/time.c: kernel timers

    Timers live on the pointer-level rings of KList, as in the C code: the sorted
    ring [__timers] and the ring [__running_timers] of timers whose deletion came
    too late.  The functions a timer calls are state transformers; the theorems
    fix their effect to a component [world] the timer code does not look at. *)

From Stdlib Require Import ZArith Lia.
From stdpp Require Import sorting.
From S2P Require Import Prelude CStr KList.

(** [t->use]: the allocated name, NULL, or a pointer to freed memory. *)
Inductive use_t := UNull | ULive | UFreed.
#[export] Instance use_t_eq_dec : EqDecision use_t.
Proof. solve_decision. Defined.

Record timer_list := TimerList {
  expires : Z;
  function : Z;
  tdata : Z;
  use : use_t;
}.

(** The addresses of the two list heads. *)
Definition __timers : Z := 1.
Definition __running_timers : Z := 2.

(** [(long)(b) - (long)(a) < 0] *)
Definition time_after (a b : Z) : bool := s64 (b - a) <? 0.
Definition time_before (a b : Z) : bool := time_after b a.

Record tstate (W : Type) := TState {
  theap : heap;
  timers : gmap Z timer_list;
  jiffies : Z;
  world : W;
}.
Arguments TState {W}. Arguments theap {W}. Arguments timers {W}.
Arguments jiffies {W}. Arguments world {W}.

Section Timer.
Context {W : Type}.
Implicit Types s : tstate W.

(** What a call [t->function (t->data)] does. *)
Context (call : Z → Z → tstate W → outcome (tstate W)).

Definition timer_at (t : Z) s : outcome timer_list := of_option "timer_list: bad pointer" (timers s !! t).
Definition with_heap (h : heap) s : tstate W := TState h (timers s) (jiffies s) (world s).
Definition set_use (t : Z) (u : use_t) s : outcome (tstate W) :=
  x ← timer_at t s;
  mret (TState (theap s) (<[t := TimerList (expires x) (function x) (tdata x) u]> (timers s)) (jiffies s) (world s)).
Definition talloc_free_use (t : Z) s : outcome (tstate W) :=
  x ← timer_at t s;
  match use x with
  | UFreed => Fault "talloc_free: freed twice"
  | _ => set_use t UFreed s
  end.

Definition __init_timer (t : Z) s : outcome (tstate W) := set_use t UNull s.

(** The place to insert at: the first timer that expires later, or the head. *)
Fixpoint find_later (fuel : nat) (e pos : Z) s : outcome Z :=
  match fuel with
  | O => Fault "find_later: out of fuel"
  | S fuel =>
      if bool_decide (pos = __timers) then mret pos else
      t ← timer_at pos s;
      if time_after (expires t) e then mret pos
      else n ← load (theap s) pos; find_later fuel e (next n) s
  end.

Definition __add_timer (t : Z) s : outcome (tstate W) :=
  x ← timer_at t s;
  hd ← load (theap s) __timers;
  pos ← find_later (S (size (timers s))) (expires x) (next hd) s;
  h ← list_add_tail t pos (theap s);
  set_use t ULive (with_heap h s).

(** [fail]: should_i_fail_once() at this location. *)
Definition __del_timer (fail : bool) (t : Z) s : outcome (Z * tstate W) :=
  x ← timer_at t s;
  if bool_decide (use x = UNull) then mret (0, s)
  else if fail then
    h ← list_del t (theap s);
    h ← list_add t __running_timers h;
    mret (0, with_heap h s)
  else
    h ← list_del t (theap s);
    s ← talloc_free_use t (with_heap h s);
    s ← set_use t UNull s;
    mret (1, s).

(** list_for_each_entry_safe over the running timers. *)
Fixpoint running_loop (fuel : nat) (t n : Z) (ret : bool) s : outcome (bool * tstate W) :=
  match fuel with
  | O => Fault "running_loop: out of fuel"
  | S fuel =>
      if bool_decide (t = __running_timers) then mret (ret, s) else
      h ← list_del t (theap s);
      s ← talloc_free_use t (with_heap h s);
      x ← timer_at t s;
      s ← call (function x) (tdata x) s;
      nn ← load (theap s) n;
      running_loop fuel n (next nn) true s
  end.
Definition do_running_timers s : outcome (bool * tstate W) :=
  hd ← load (theap s) __running_timers;
  n ← load (theap s) (next hd);
  running_loop (S (size (timers s))) (next hd) (next n) false s.

Definition schedule s : outcome (tstate W) :=
  '(ran, s) ← do_running_timers s;
  if ran : bool then mret s else Barf "Call to schedule with no running timers".

(** The post-command hook. *)
Definition run_timers s : outcome (bool * tstate W) := '(_, s) ← do_running_timers s; mret (true, s).

Definition timer_pending (t : Z) s : outcome bool := x ← timer_at t s; mret (jiffies s <? expires x).

Fixpoint expire_loop (fuel : nat) (i : Z) s : outcome (tstate W) :=
  match fuel with
  | O => Fault "expire_loop: out of fuel"
  | S fuel =>
      if bool_decide (i = __timers) then mret s else
      x ← timer_at i s;
      if time_before (jiffies s) (expires x) then mret s else
      n ← load (theap s) i;
      h ← list_del i (theap s);
      s ← talloc_free_use i (with_heap h s);
      s ← set_use i UNull s;
      s ← call (function x) (tdata x) s;
      expire_loop fuel (next n) s
  end.

Definition increment_time (fuel : nat) (inc : Z) s : outcome (tstate W) :=
  let s := TState (theap s) (timers s) (u64 (jiffies s + inc)) (world s) in
  hd ← load (theap s) __timers;
  expire_loop fuel (next hd) s.

(** ** tools/time.c *)

Definition HZ : Z := 100.

Definition find_last_timer s : outcome Z :=
  e ← list_empty __timers (theap s);
  if e : bool then mret 0 else
  hd ← load (theap s) __timers;
  x ← timer_at (prev hd) s;
  mret (s32 (expires x)).

Definition time_cmd (fuel : nat) (argv : list text) s : outcome (bool * tstate W) :=
  match argv with
  | [_] => mret (true, s)
  | [_; a] =>
      if streq a (tx "+infinity") then
        l ← find_last_timer s;
        s ← increment_time fuel (u32 (u64 l - jiffies s)) s; mret (true, s)
      else if ascii_eqb (hd0 a) "+" then
        s ← increment_time fuel (u32 (atoi (drop 1 a) * HZ)) s; mret (true, s)
      else if ascii_eqb (hd0 a) "-" then mret (false, s)
      else if atoi a =? 0 then mret (false, s)
      else if u64 (s32 (atoi a * HZ)) <? jiffies s then mret (false, s)
      else s ← increment_time fuel (u32 (u64 (s32 (atoi a * HZ)) - jiffies s)) s; mret (true, s)
  | _ => mret (false, s)
  end.

(** ** The queue of pending timers *)

(** All times are within half the range of [base]: then time_after compares
    distances from [base]. *)
Definition off (base e : Z) : Z := u64 (e - base).

Definition exp_of s (t : Z) : Z := default 0 (expires <$> timers s !! t).

Record queue (base : Z) s (l r : list Z) : Prop := Queue {
  q_ring : is_list (theap s) __timers l;
  q_running : is_list (theap s) __running_timers r;
  q_disjoint : ∀ x, x ∈ __timers :: l → x ∉ __running_timers :: r;
  q_timer : ∀ t, t ∈ l ++ r → ∃ x, timers s !! t = Some x ∧ use x = ULive;
  q_window : ∀ t, t ∈ l → off base (exp_of s t) < 2 ^ 63;
  q_sorted : StronglySorted (λ a b, off base (exp_of s a) <= off base (exp_of s b)) l;
}.

(** ** Lemmas *)

Lemma time_after_off base a b : off base a < 2 ^ 63 → off base b < 2 ^ 63 →
  time_after a b = (off base b <? off base a).
Proof.
  unfold off, time_after, signed. intros Ha Hb.
  pose proof (wrap_range 64 ltac:(lia) (a - base)). pose proof (wrap_range 64 ltac:(lia) (b - base)).
  replace (b - a) with ((b - base) - (a - base)) by lia.
  rewrite <-wrap_sub_l, <-wrap_sub_r by lia.
  set (x := u64 (a - base)) in *. set (y := u64 (b - base)) in *. change (2 ^ (64 - 1)) with (2 ^ 63).
  destruct (Z.ltb_spec y x).
  - assert (u64 (y - x) = y - x + 2 ^ 64) as ->.
    { unfold wrap. rewrite <-(Z_mod_plus_full _ 1). apply Z.mod_small. lia. }
    rewrite (proj2 (Z.ltb_ge (y - x + 2 ^ 64) (2 ^ 63))) by lia. apply Z.ltb_lt. lia.
  - rewrite wrap_small by lia. rewrite (proj2 (Z.ltb_lt (y - x) (2 ^ 63))) by lia. apply Z.ltb_ge. lia.
Qed.

Lemma queue_length base s l r : queue base s l r → (length l + length r <= size (timers s))%nat.
Proof.
  intros Q. rewrite <-length_app. assert (Hnd : NoDup (l ++ r)).
  { destruct (q_ring _ _ _ _ Q) as [H1 _]. destruct (q_running _ _ _ _ Q) as [H2 _].
    apply NoDup_cons in H1 as [_ H1]. apply NoDup_cons in H2 as [_ H2]. apply NoDup_app. split_and!; [done| |done].
    intros x Hx Hr. apply (q_disjoint _ _ _ _ Q x); set_solver. }
  rewrite <-(size_list_to_set (C := gset Z) (l ++ r)) by done. rewrite <-size_dom.
  apply subseteq_size. intros x Hx. apply elem_of_list_to_set in Hx.
  destruct (q_timer _ _ _ _ Q x Hx) as (y & Hy & _). apply elem_of_dom. eauto.
Qed.

(** A node of a ring and its successor. *)
Lemma ring_next h head l1 x l2 : is_list h head (l1 ++ x :: l2) →
  ∃ n, h !! x = Some n ∧ next n = default head (hd_error l2).
Proof.
  intros Hl. destruct (is_list_gap _ _ _ _ Hl) as (e' & rest & [= <- Hr] & _ & _ & Hpe & Hp2).
  destruct (prv_Some _ _ _ Hpe) as [nd Hnd]. exists nd. split; [done|].
  destruct (lookup_nxt _ _ _ Hnd) as [Hn _].
  destruct l2; simpl in *; subst rest; destruct Hp2; congruence.
Qed.

(** list_add_tail at an entry inserts before it. *)
Lemma list_add_tail_at h head l1 l2 new :
  is_list h head (l1 ++ l2) → new ∉ head :: l1 ++ l2 → is_Some (h !! new) →
  ∃ h', list_add_tail new (default head (hd_error l2)) h = Ret h' ∧ is_list h' head (l1 ++ new :: l2) ∧
    live h h' ∧ same_outside h h' (new :: head :: l1 ++ l2).
Proof.
  intros Hl Hn Hs. destruct (is_list_gap _ _ _ _ Hl) as (n & rest & Hr & _ & Hx & Hp & _).
  assert (default head (hd_error l2) = n) as -> by (destruct l2; simpl in *; congruence).
  destruct (prv_Some _ _ _ Hp) as [nd Hnd]. destruct (lookup_nxt _ _ _ Hnd) as [_ Hv].
  unfold list_add_tail, load. rewrite Hnd. simpl. assert (prev nd = lastd head l1) as -> by congruence.
  by apply __list_add_spec.
Qed.

Lemma find_later_spec base e s : ∀ l2 l1 r fuel, queue base s (l1 ++ l2) r → off base e < 2 ^ 63 →
  (length l2 < fuel)%nat →
  ∃ la lb, l2 = la ++ lb ∧ find_later fuel e (default __timers (hd_error l2)) s = Ret (default __timers (hd_error lb)) ∧
    Forall (λ t, off base (exp_of s t) <= off base e) la ∧
    (∀ t, hd_error lb = Some t → off base e < off base (exp_of s t)).
Proof.
  induction l2 as [|t l2 IH]; intros l1 r fuel Q He Hf; (destruct fuel as [|fuel]; [simpl in Hf; lia|]); cbn [find_later].
  - exists [], []. split_and!; [done| |by constructor|done]. by rewrite bool_decide_eq_true_2.
  - cbn [hd_error default]. assert (Hne : t ≠ __timers).
    { intros ->. destruct (q_ring _ _ _ _ Q) as [Hnd _]. apply NoDup_cons in Hnd as [Hnd _]. set_solver. }
    change (id t) with t. rewrite bool_decide_eq_false_2 by done.
    destruct (q_timer _ _ _ _ Q t) as (x & Hx & _); [set_solver|]. unfold timer_at. rewrite Hx. simpl.
    assert (Hex : exp_of s t = expires x) by (unfold exp_of; by rewrite Hx).
    pose proof (q_window _ _ _ _ Q t ltac:(set_solver)) as Hw. rewrite Hex in Hw.
    rewrite (time_after_off base) by done. destruct (Z.ltb_spec (off base e) (off base (expires x))) as [Hlt|Hge].
    + exists [], (t :: l2). split_and!; [done..|by constructor|]. intros ? [= <-]. by rewrite Hex.
    + destruct (ring_next _ _ _ _ _ (q_ring _ _ _ _ Q)) as (n & Hn & Hnx). unfold load. rewrite Hn. simpl. rewrite Hnx.
      destruct (IH (l1 ++ [t]) r fuel) as (la & lb & -> & E & HF & Hlb); [by rewrite <-app_assoc|done|simpl in Hf; lia|].
      exists (t :: la), lb. split_and!; [done|done| |done]. constructor; [by rewrite Hex|done].
Qed.

Lemma sorted_insert base s t la lb :
  StronglySorted (λ a b, off base (exp_of s a) <= off base (exp_of s b)) (la ++ lb) →
  Forall (λ a, off base (exp_of s a) <= off base (exp_of s t)) la →
  (∀ b, hd_error lb = Some b → off base (exp_of s t) < off base (exp_of s b)) →
  StronglySorted (λ a b, off base (exp_of s a) <= off base (exp_of s b)) (la ++ t :: lb).
Proof.
  intros Hs Hla Hlb. induction la as [|a la IH]; simpl in *.
  - constructor; [done|]. destruct lb as [|b lb]; constructor.
    + specialize (Hlb b eq_refl). lia.
    + specialize (Hlb b eq_refl). apply StronglySorted_inv in Hs as [_ Hs].
      eapply Forall_impl; [exact Hs|]. simpl. lia.
  - apply StronglySorted_inv in Hs as [Hs Ha]. apply Forall_cons in Hla as [Hat Hla].
    constructor; [by apply IH|]. apply Forall_app in Ha as [Ha1 Ha2]. apply Forall_app. split; [done|].
    by constructor.
Qed.

Lemma ring_frame h h' head l touched : is_list h head l →
  same_outside h h' touched → (∀ x, x ∈ head :: l → x ∉ touched) → is_list h' head l.
Proof. intros Hl Hs Hd. eapply is_list_frame; [|exact Hl]. intros x Hx. apply Hs. by apply Hd. Qed.

Lemma set_use_ok t u s x : timers s !! t = Some x →
  set_use t u s = Ret (TState (theap s) (<[t := TimerList (expires x) (function x) (tdata x) u]> (timers s)) (jiffies s) (world s)).
Proof. intros Hx. unfold set_use, timer_at. by rewrite Hx. Qed.

Lemma exp_of_set_use s t x u a : timers s !! t = Some x →
  default 0 (expires <$> <[t := TimerList (expires x) (function x) (tdata x) u]> (timers s) !! a) = exp_of s a.
Proof.
  intros Hx. unfold exp_of. rewrite lookup_insert. case_decide; [|done]. subst. by rewrite Hx.
Qed.

Lemma StronglySorted_ext {A} (R1 R2 : A → A → Prop) l :
  (∀ a b, a ∈ l → b ∈ l → R1 a b → R2 a b) → StronglySorted R1 l → StronglySorted R2 l.
Proof.
  induction l as [|x l IH]; intros Hi Hs; [constructor|].
  apply StronglySorted_inv in Hs as [Hs Hx]. constructor.
  - apply IH; [|done]. intros a b Ha Hb. apply Hi; by apply list_elem_of_further.
  - apply Forall_forall. intros b Hb. rewrite Forall_forall in Hx. apply Hi; [apply list_elem_of_here|by apply list_elem_of_further|by apply Hx].
Qed.

(** __add_timer puts the timer behind every timer that is not later. *)
Lemma add_timer_ok base s l r t x : queue base s l r → timers s !! t = Some x →
  t ∉ __timers :: __running_timers :: l ++ r → is_Some (theap s !! t) → off base (expires x) < 2 ^ 63 →
  ∃ s' la lb, l = la ++ lb ∧ __add_timer t s = Ret s' ∧ queue base s' (la ++ t :: lb) r ∧
    timers s' = <[t := TimerList (expires x) (function x) (tdata x) ULive]> (timers s) ∧
    live (theap s) (theap s') ∧ jiffies s' = jiffies s ∧ world s' = world s ∧
    Forall (λ a, off base (exp_of s a) <= off base (expires x)) la ∧
    Forall (λ b, off base (expires x) < off base (exp_of s b)) lb.
Proof.
  intros Q Hx Ht Hs Hw. pose proof (queue_length _ _ _ _ Q) as Hlen.
  destruct (is_list_head_next _ _ _ (q_ring _ _ _ _ Q)) as (nd & Hnd & Hnx & _).
  unfold __add_timer, timer_at, load. rewrite Hx, Hnd. cbn [of_option]. rewrite !bind_ret, Hnx.
  destruct (find_later_spec base (expires x) s l [] r (S (size (timers s))) Q Hw ltac:(lia)) as (la & lb & -> & E & Hla & Hlb).
  rewrite E. simpl.
  destruct (list_add_tail_at (theap s) __timers la lb t) as (h' & -> & Hl' & Hlive & Hout); [apply Q|set_solver|done|].
  simpl. unfold with_heap. erewrite set_use_ok by exact Hx. simpl.
  assert (Het : exp_of s t = expires x) by (unfold exp_of; by rewrite Hx).
  assert (Hlb' : Forall (λ b, off base (expires x) < off base (exp_of s b)) lb).
  { destruct lb as [|b lb]; constructor; [by apply Hlb|]. specialize (Hlb b eq_refl).
    assert (Hs' := q_sorted _ _ _ _ Q). clear - Hs' Hlb. induction la as [|a la IH]; simpl in Hs'.
    - apply StronglySorted_inv in Hs' as [_ Hs']. eapply Forall_impl; [exact Hs'|]. simpl. lia.
    - apply StronglySorted_inv in Hs' as [Hs' _]. auto. }
  eexists _, la, lb. split_and!; [done|reflexivity| |done..].
  split; simpl.
  - exact Hl'.
  - eapply ring_frame; [apply Q|exact Hout|]. intros y Hy Hy'. pose proof (q_disjoint _ _ _ _ Q y). set_solver.
  - intros y Hy. destruct (decide (y = t)) as [->|]; [set_solver|]. apply (q_disjoint _ _ _ _ Q). set_solver.
  - intros y Hy. rewrite lookup_insert. case_decide; [by eexists|]. apply (q_timer _ _ _ _ Q). set_solver.
  - intros y Hy. unfold exp_of. simpl. rewrite (exp_of_set_use s) by done.
      apply elem_of_app in Hy as [?|Hy]; [apply (q_window _ _ _ _ Q); set_solver|].
      apply elem_of_cons in Hy as [->|?]; [by rewrite Het|apply (q_window _ _ _ _ Q); set_solver].
  - apply (StronglySorted_ext (λ a b, off base (exp_of s a) <= off base (exp_of s b))).
    + intros a b _ _. unfold exp_of at 3 4. simpl. by rewrite !(exp_of_set_use s) by done.
    + apply sorted_insert; [apply Q|by rewrite Het|]. intros b Hb. rewrite Het. by apply Hlb.
Qed.

Lemma StronglySorted_filter {A} (R : A → A → Prop) (P : A → Prop) `{∀ x, Decision (P x)} l :
  StronglySorted R l → StronglySorted R (filter P l).
Proof.
  induction 1 as [|x l Hs IH Hx]; [constructor|]. rewrite filter_cons. case_decide; [|done].
  constructor; [done|]. apply Forall_forall. intros y [_ Hy]%list_elem_of_filter. by eapply Forall_forall in Hx.
Qed.

Lemma elem_remove_entry (a t : Z) l : a ∈ remove_entry t l ↔ (a ≠ t ∧ a ∈ l).
Proof. unfold remove_entry. by rewrite list_elem_of_filter. Qed.

(** Unlinking a pending timer and changing its [use]. *)
Lemma queue_unlink base s l r t : queue base s l r → t ∈ l →
  ∃ h' x, list_del t (theap s) = Ret h' ∧ timers s !! t = Some x ∧ use x = ULive ∧ live (theap s) h' ∧ is_Some (h' !! t) ∧
    ∀ u j w, queue base (TState h' (<[t := TimerList (expires x) (function x) (tdata x) u]> (timers s)) j w)
      (remove_entry t l) r.
Proof.
  intros Q Ht. destruct (list_del_ring _ _ _ _ (q_ring _ _ _ _ Q) Ht) as (h' & E & Hl' & Hlive & Hout & Hp).
  destruct (q_timer _ _ _ _ Q t ltac:(set_solver)) as (x & Hx & Hu). exists h', x.
  split_and!; [done..|rewrite Hp; eauto|]. intros u j w. split; simpl.
  - exact Hl'.
  - eapply ring_frame; [apply Q|exact Hout|]. intros y Hy Hy'. pose proof (q_disjoint _ _ _ _ Q y).
    apply elem_of_cons in Hy' as [->|?]; [|set_solver]. pose proof (q_disjoint _ _ _ _ Q t). set_solver.
  - intros y Hy. apply (q_disjoint _ _ _ _ Q). apply elem_of_cons in Hy as [->|[_ Hy]%elem_remove_entry]; set_solver.
  - intros y Hy. assert (y ≠ t ∧ y ∈ l ++ r) as [Hne Hy'].
    { apply elem_of_app in Hy as [[? ?]%elem_remove_entry|Hy]; [set_solver|]. split; [|set_solver].
      intros ->. pose proof (q_disjoint _ _ _ _ Q t). set_solver. }
    rewrite lookup_insert_ne by congruence. by apply (q_timer _ _ _ _ Q).
  - intros y [_ Hy]%elem_remove_entry. unfold exp_of. simpl. rewrite (exp_of_set_use s) by done. by apply (q_window _ _ _ _ Q).
  - apply StronglySorted_filter. eapply StronglySorted_ext; [|apply Q]. intros a b _ _. simpl. unfold exp_of at 3 4. simpl.
    by rewrite !(exp_of_set_use s) by done.
Qed.


Lemma free_null_ok t s x : timers s !! t = Some x → use x = ULive →
  (s ← talloc_free_use t s; set_use t UNull s) = set_use t UNull s.
Proof.
  intros Hx Hu. unfold talloc_free_use, timer_at. rewrite Hx. simpl. rewrite Hu.
  erewrite set_use_ok by done. simpl. erewrite set_use_ok by (simpl; apply lookup_insert_eq). simpl.
  erewrite set_use_ok by done. by rewrite insert_insert_eq.
Qed.

Definition use_of s (t : Z) : use_t := default UNull (use <$> timers s !! t).

Lemma del_timer_ok base s l r t : queue base s l r → t ∈ l →
  (∃ s' x, __del_timer false t s = Ret (1, s') ∧ queue base s' (remove_entry t l) r ∧ timers s !! t = Some x ∧
    timers s' = <[t := TimerList (expires x) (function x) (tdata x) UNull]> (timers s) ∧
    live (theap s) (theap s') ∧ jiffies s' = jiffies s ∧ world s' = world s) ∧
  (∃ s', __del_timer true t s = Ret (0, s') ∧ queue base s' (remove_entry t l) (t :: r) ∧ world s' = world s).
Proof.
  intros Q Ht. destruct (queue_unlink _ _ _ _ _ Q Ht) as (h' & x & E & Hx & Hu & Hlv & Hs & HQ).
  unfold __del_timer, timer_at. rewrite Hx. cbn [of_option].
  split; rewrite bind_ret, Hu, bool_decide_eq_false_2 by done; rewrite E, bind_ret.
  - assert (Hf : ∀ A (k : tstate W → outcome A), (s ← talloc_free_use t (with_heap h' s); s ← set_use t UNull s; k s) =
      (s ← set_use t UNull (with_heap h' s); k s)).
    { intros A k. rewrite <-(free_null_ok t (with_heap h' s) x) by done. by destruct (talloc_free_use t (with_heap h' s)). }
    rewrite Hf. erewrite set_use_ok by done. rewrite bind_ret. eexists _, x. split_and!; [reflexivity|apply HQ|done..].
  - pose proof (HQ ULive (jiffies s) (world s)) as Q'.
    assert (Htr : t ∉ __running_timers :: r) by (pose proof (q_disjoint _ _ _ _ Q t); set_solver).
    destruct (list_add_ring h' __running_timers r t) as (h2 & E2 & Hr2 & Hlive & Hout);
      [exact (q_running _ _ _ _ Q')|done|done|].
    rewrite E2, bind_ret. eexists. split_and!; [reflexivity| |done]. unfold with_heap.
    assert (Hx' : <[t:=TimerList (expires x) (function x) (tdata x) ULive]> (timers s) = timers s).
    { apply insert_id. rewrite Hx. destruct x; simpl in *. by rewrite Hu. }
    rewrite Hx' in Q'. destruct Q' as [P1 P2 P3 P4 P5 P6]; simpl in *. split; simpl; [|done| | |done|done].
    + eapply ring_frame; [exact P1|exact Hout|]. intros y Hy Hy'. pose proof (P3 y Hy).
      apply elem_of_cons in Hy' as [->|?]; [|set_solver]. apply elem_of_cons in Hy as [->|[? _]%elem_remove_entry]; [|done].
      pose proof (q_disjoint _ _ _ _ Q __timers). destruct (q_ring _ _ _ _ Q) as [Hnd _]. apply NoDup_cons in Hnd. set_solver.
    + intros y Hy. pose proof (P3 y Hy). intros Hy'. apply elem_of_cons in Hy' as [->|Hy']; [set_solver|].
      apply elem_of_cons in Hy' as [->|?]; [|set_solver]. apply elem_of_cons in Hy as [->|[? _]%elem_remove_entry]; [|done].
      destruct (q_ring _ _ _ _ Q) as [Hnd _]. apply NoDup_cons in Hnd. set_solver.
    + intros y Hy. destruct (decide (y = t)) as [->|]; [by exists x|]. apply P4. set_solver.
Qed.

(** *** Running timers *)

(** From here on a timer's function only affects [world]. *)
Context (cb : Z → Z → W → W).
Hypothesis call_world : ∀ f d s, call f d s = Ret (TState (theap s) (timers s) (jiffies s) (cb f d (world s))).

Definition fire s (w : W) (t : Z) : W :=
  match timers s !! t with Some x => cb (function x) (tdata x) w | None => w end.

(** Two states with the same timers up to [use]. *)
Definition same_timers s s' : Prop :=
  jiffies s' = jiffies s ∧ (∀ a, exp_of s' a = exp_of s a) ∧ (∀ w a, fire s' w a = fire s w a) ∧
  (∀ a, is_Some (timers s' !! a) ↔ is_Some (timers s !! a)).

Lemma same_timers_set t x u s h' w : timers s !! t = Some x →
  same_timers s (TState h' (<[t := TimerList (expires x) (function x) (tdata x) u]> (timers s)) (jiffies s) w).
Proof.
  intros Hx. split_and!; [done| | |].
  - intros a. unfold exp_of at 1. simpl. by apply exp_of_set_use.
  - intros w' a. unfold fire. simpl. rewrite lookup_insert. case_decide; [|done]. subst. by rewrite Hx.
  - intros a. simpl. rewrite lookup_insert. case_decide; [|done]. subst. rewrite Hx. by split.
Qed.

Lemma same_timers_trans s1 s2 s3 : same_timers s1 s2 → same_timers s2 s3 → same_timers s1 s3.
Proof.
  intros (H1 & H2 & H3 & H7) (H4 & H5 & H6 & H8). split_and!; [congruence| | |]; intros; [by rewrite H5|by rewrite H6|].
  by rewrite H8.
Qed.

Lemma fold_fire_ext s s' l w : same_timers s s' → fold_left (fire s') l w = fold_left (fire s) l w.
Proof. intros (_ & _ & H & _). revert w. induction l as [|t l IH]; intros w; simpl; [done|]. by rewrite H. Qed.

Definition due base s (t : Z) : Prop := off base (exp_of s t) <= off base (jiffies s).
#[local] Instance due_dec base s t : Decision (due base s t).
Proof. unfold due. apply _. Defined.

Lemma filter_due_ext base s s' (l : list Z) : same_timers s s' →
  filter (due base s') l = filter (due base s) l ∧ filter (λ t, ¬ due base s' t) l = filter (λ t, ¬ due base s t) l.
Proof.
  intros (H1 & H2 & _). unfold due. split; apply list_filter_iff; intros t; by rewrite H1, H2.
Qed.

Lemma filter_none {A} (P : A → Prop) `{∀ x, Decision (P x), ∀ x, Decision (¬ P x)} l :
  (∀ a, a ∈ l → ¬ P a) → filter P l = [] ∧ filter (λ a, ¬ P a) l = l.
Proof. intros Hn. apply Forall_forall in Hn. split; [by apply filter_nothing|by apply filter_all]. Qed.

(** Every timer has its node, apart from the heads; those not queued are idle. *)
Definition idle s (l : list Z) : Prop :=
  ∀ t x, timers s !! t = Some x → t ≠ __timers ∧ t ≠ __running_timers ∧ is_Some (theap s !! t) ∧ (t ∉ l → use x = UNull).

Lemma idle_set s s' l l' t x u : idle s l → timers s !! t = Some x →
  timers s' = <[t := TimerList (expires x) (function x) (tdata x) u]> (timers s) → live (theap s) (theap s') →
  (∀ y, y ∉ l' → y ≠ t → y ∉ l) → (t ∉ l' → u = UNull) → idle s' l'.
Proof.
  intros HI Hx E Hlv Hl Hu y z Hz. rewrite E, lookup_insert in Hz. case_decide as Hy.
  - subst y. injection Hz as <-. simpl. destruct (HI t x Hx) as (? & ? & ? & _). split_and!; auto.
  - destruct (HI y z Hz) as (? & ? & ? & ?). split_and!; auto.
Qed.

Lemma expire_loop_ok base : ∀ l s r fuel, queue base s l r → off base (jiffies s) < 2 ^ 63 → (length l < fuel)%nat →
  ∃ s', expire_loop fuel (default __timers (hd_error l)) s = Ret s' ∧
    queue base s' (filter (λ t, ¬ due base s t) l) r ∧ same_timers s s' ∧
    (idle s l → idle s' (filter (λ t, ¬ due base s t) l)) ∧
    world s' = fold_left (fire s) (filter (due base s) l) (world s).
Proof.
  induction l as [|t l IH]; intros s r fuel Q Hj Hf; (destruct fuel as [|fuel]; [simpl in Hf; lia|]); cbn [expire_loop].
  - exists s. split_and!; [by rewrite bool_decide_eq_true_2|done|by repeat split|done..].
  - cbn [hd_error from_option]. change (id t) with t. assert (Hne : t ≠ __timers).
    { intros ->. destruct (q_ring _ _ _ _ Q) as [Hnd _]. apply NoDup_cons in Hnd as [Hnd _]. set_solver. }
    rewrite bool_decide_eq_false_2 by done.
    destruct (queue_unlink _ _ _ _ t Q ltac:(set_solver)) as (h' & x & E & Hx & Hu & Hlv & _ & HQ).
    unfold timer_at. rewrite Hx. cbn [of_option]. rewrite bind_ret.
    assert (Hex : exp_of s t = expires x) by (unfold exp_of; by rewrite Hx).
    pose proof (q_window _ _ _ _ Q t ltac:(set_solver)) as Hw. rewrite Hex in Hw.
    unfold time_before. rewrite (time_after_off base) by done.
    destruct (Z.ltb_spec (off base (jiffies s)) (off base (expires x))) as [Hlt|Hge].
    + assert (Hnd : ∀ a, a ∈ t :: l → ¬ due base s a).
      { intros a Ha. unfold due. apply elem_of_cons in Ha as [->|Ha]; [rewrite Hex; lia|].
        pose proof (q_sorted _ _ _ _ Q) as Hs. apply StronglySorted_inv in Hs as [_ Hs].
        rewrite Forall_forall in Hs. specialize (Hs a Ha). simpl in Hs. rewrite Hex in Hs. lia. }
      destruct (filter_none (due base s) (t :: l) Hnd) as [F1 F2]. rewrite F1, F2.
      exists s. split_and!; [done|done|by repeat split|done..].
    + assert (Hdue : due base s t) by (unfold due; rewrite Hex; lia).
      rewrite !filter_cons, decide_False, decide_True by tauto.
      destruct (ring_next _ _ [] t l (q_ring _ _ _ _ Q)) as (n & Hn & Hnx). unfold load. rewrite Hn. cbn [of_option].
      rewrite bind_ret, E, bind_ret.
      assert (Hf' : ∀ A (k : tstate W → outcome A), (s ← talloc_free_use t (with_heap h' s); s ← set_use t UNull s; k s) =
        (s ← set_use t UNull (with_heap h' s); k s)).
      { intros A k. rewrite <-(free_null_ok t (with_heap h' s) x) by done. by destruct (talloc_free_use t (with_heap h' s)). }
      rewrite Hf'. erewrite set_use_ok by done. rewrite bind_ret, call_world, bind_ret. cbn [theap timers jiffies world with_heap].
      rewrite Hnx. set (s1 := TState _ _ _ _).
      assert (Hst : same_timers s s1) by (by apply same_timers_set).
      assert (Hrem : remove_entry t (t :: l) = l).
      { apply (remove_entry_mid t [] l). destruct (q_ring _ _ _ _ Q) as [[_ Hnd]%NoDup_cons _]. exact Hnd. }
      pose proof (HQ UNull (jiffies s) (cb (function x) (tdata x) (world s))) as Q1. rewrite Hrem in Q1.
      destruct (IH s1 r fuel Q1 Hj ltac:(simpl in Hf; lia)) as (s' & -> & Q' & Hst' & Hid & Hw').
      exists s'. destruct (filter_due_ext base s s1 l Hst) as [F1 F2]. rewrite F2 in Q', Hid. rewrite F1 in Hw'.
      split_and!; [done|done|by eapply same_timers_trans| |].
      { intros HI. apply Hid. eapply (idle_set s s1); [done|done|reflexivity|done| |done]. set_solver. } rewrite Hw', (fold_fire_ext s) by done. cbn [fold_left].
      f_equal. unfold fire. by rewrite Hx.
Qed.

Lemma talloc_free_live t s x : timers s !! t = Some x → use x = ULive →
  talloc_free_use t s =
    Ret (TState (theap s) (<[t := TimerList (expires x) (function x) (tdata x) UFreed]> (timers s)) (jiffies s) (world s)).
Proof. intros Hx Hu. unfold talloc_free_use, timer_at. rewrite Hx. simpl. rewrite Hu. by apply set_use_ok. Qed.

Lemma queue_unlink_running base s l r t : queue base s l (t :: r) →
  ∃ h' x, list_del t (theap s) = Ret h' ∧ timers s !! t = Some x ∧ use x = ULive ∧
    ∀ u j w, queue base (TState h' (<[t := TimerList (expires x) (function x) (tdata x) u]> (timers s)) j w) l r.
Proof.
  intros Q. destruct (list_del_ring _ _ _ t (q_running _ _ _ _ Q)) as (h' & E & Hl' & Hlive & Hout & Hp); [set_solver|].
  assert (Hrem : remove_entry t (t :: r) = r).
  { apply (remove_entry_mid t [] r). destruct (q_running _ _ _ _ Q) as [[_ Hnd]%NoDup_cons _]. exact Hnd. }
  rewrite Hrem in Hl'. destruct (q_timer _ _ _ _ Q t ltac:(set_solver)) as (x & Hx & Hu). exists h', x.
  assert (Htl : t ∉ __timers :: l) by (pose proof (q_disjoint _ _ _ _ Q t); set_solver).
  assert (Htr : t ∉ r) by (destruct (q_running _ _ _ _ Q) as [[_ Hnd]%NoDup_cons _]; apply NoDup_cons in Hnd; tauto).
  split_and!; [done..|]. intros u j w. split; simpl.
  - eapply ring_frame; [apply Q|exact Hout|]. intros y Hy Hy'. pose proof (q_disjoint _ _ _ _ Q y). set_solver.
  - exact Hl'.
  - intros y Hy. pose proof (q_disjoint _ _ _ _ Q y Hy). set_solver.
  - intros y Hy. rewrite lookup_insert_ne by set_solver. apply (q_timer _ _ _ _ Q). set_solver.
  - intros y Hy. unfold exp_of. simpl. rewrite (exp_of_set_use s) by done. by apply (q_window _ _ _ _ Q).
  - eapply StronglySorted_ext; [|apply Q]. intros a b _ _. simpl. unfold exp_of at 3 4. simpl.
    by rewrite !(exp_of_set_use s) by done.
Qed.

Lemma running_loop_ok base : ∀ r s l fuel ret, queue base s l r → (length r < fuel)%nat →
  ∃ s', running_loop fuel (default __running_timers (hd_error r)) (default __running_timers (hd_error (tail r))) ret s =
      Ret (ret || bool_decide (r ≠ []), s') ∧
    queue base s' l [] ∧ world s' = fold_left (fire s) r (world s) ∧
    (∀ t, t ∈ r → use_of s' t = UFreed) ∧ (∀ t, t ∉ r → timers s' !! t = timers s !! t).
Proof.
  induction r as [|t r IH]; intros s l fuel ret Q Hf; (destruct fuel as [|fuel]; [simpl in Hf; lia|]);
    cbn [running_loop hd_error tail from_option].
  - exists s. rewrite !bool_decide_eq_true_2, bool_decide_eq_false_2 by (done || tauto).
    rewrite orb_false_r. split_and!; [done..|set_solver|done].
  - change (id t) with t. assert (Hne : t ≠ __running_timers).
    { intros ->. destruct (q_running _ _ _ _ Q) as [Hnd _]. apply NoDup_cons in Hnd as [Hnd _]. set_solver. }
    rewrite bool_decide_eq_false_2 by done. rewrite (bool_decide_eq_true_2 (t :: r ≠ [])), orb_true_r by done.
    destruct (queue_unlink_running _ _ _ _ _ Q) as (h' & x & E & Hx & Hu & HQ).
    rewrite E, bind_ret. erewrite (talloc_free_live t (with_heap h' s)) by done. rewrite bind_ret. unfold timer_at. cbn [timers theap].
    rewrite lookup_insert_eq. cbn [of_option]. rewrite bind_ret. cbn [function tdata].
    rewrite call_world, bind_ret. cbn [theap timers jiffies world with_heap].
    set (s1 := TState _ _ _ _). assert (Q1 : queue base s1 l r) by apply HQ.
    assert (Hn : ∃ nd, h' !! default __running_timers (hd_error r) = Some nd ∧
      (r ≠ [] → next nd = default __running_timers (hd_error (tail r)))).
    { destruct r as [|t2 r2].
      - destruct (is_list_head_next _ _ _ (q_running _ _ _ _ Q1)) as (nd & Hnd & _). by exists nd.
      - destruct (ring_next _ _ [] t2 r2 (q_running _ _ _ _ Q1)) as (nd & Hnd & Hnx). exists nd. done. }
    destruct Hn as (nd & Hnd & Hnx). unfold load. rewrite Hnd. cbn [of_option]. rewrite bind_ret.
    assert (Hst : same_timers s s1) by (by apply same_timers_set).
    assert (Htr : t ∉ r) by (destruct (q_running _ _ _ _ Q) as [[_ Hd]%NoDup_cons _]; apply NoDup_cons in Hd; tauto).
    assert (Hgoal : ∃ s', running_loop fuel (default __running_timers (hd_error r))
        (default __running_timers (hd_error (tail r))) true s1 = Ret (true, s') ∧
      queue base s' l [] ∧ world s' = fold_left (fire s) (t :: r) (world s) ∧
      (∀ a, a ∈ t :: r → use_of s' a = UFreed) ∧ (∀ a, a ∉ t :: r → timers s' !! a = timers s !! a)).
    { destruct (IH s1 l fuel true Q1 ltac:(simpl in Hf; lia)) as (s' & E' & Q' & Hw & Hu' & Ho).
      exists s'. split_and!; [by rewrite E'|done| | |].
      - rewrite Hw, (fold_fire_ext s) by done. cbn [fold_left]. f_equal. unfold fire. by rewrite Hx.
      - intros a [->|Ha]%elem_of_cons; [|by apply Hu']. unfold use_of. rewrite Ho by done. simpl. by rewrite lookup_insert_eq.
      - intros a Ha. rewrite Ho by set_solver. simpl. rewrite lookup_insert_ne by set_solver. done. }
    destruct r as [|t2 r2]; [|by rewrite Hnx].
    destruct fuel; [simpl in Hf; lia|]. exact Hgoal.
Qed.

(** ** The abstract queue *)

(** What client code does: set [expires] and add, delete, let time pass. *)
Inductive timer_op := TAdd (t e : Z) | TDel (t : Z) | TInc (n : Z).

Definition set_expires (t e : Z) s : outcome (tstate W) :=
  x ← timer_at t s;
  mret (TState (theap s) (<[t := TimerList e (function x) (tdata x) (use x)]> (timers s)) (jiffies s) (world s)).

Definition timer_step (fuel : nat) (o : timer_op) s : outcome (Z * tstate W) :=
  match o with
  | TAdd t e => s ← set_expires t e s; s ← __add_timer t s; mret (0, s)
  | TDel t => __del_timer false t s
  | TInc n => s ← increment_time fuel (u32 n) s; mret (0, s)
  end.

Fixpoint timer_run (fuel : nat) (os : list timer_op) s : outcome (list Z * tstate W) :=
  match os with
  | [] => mret ([], s)
  | o :: os => '(v, s) ← timer_step fuel o s; '(vs, s) ← timer_run fuel os s; mret (v :: vs, s)
  end.

(** Pending timers with their times, in the order they will run. *)
Record aqueue := AQueue { a_now : Z; a_pending : list (Z * Z); a_world : W }.

Definition aqueue_step (base : Z) (fn : Z → W → W) (o : timer_op) (a : aqueue) : Z * aqueue :=
  let q := a_pending a in
  match o with
  | TAdd t e => (0, AQueue (a_now a)
      (filter (λ p, off base p.1 <= off base e) q ++ (e, t) :: filter (λ p, off base e < off base p.1) q) (a_world a))
  | TDel t => (c_bool (bool_decide (t ∈ q.*2)), AQueue (a_now a) (filter (λ p, p.2 ≠ t) q) (a_world a))
  | TInc n =>
      let now := u64 (a_now a + u32 n) in
      (0, AQueue now (filter (λ p, off base now < off base p.1) q)
            (fold_left (λ w p, fn p.2 w) (filter (λ p, off base p.1 <= off base now) q) (a_world a)))
  end.

Fixpoint aqueue_run (base : Z) (fn : Z → W → W) (os : list timer_op) (a : aqueue) : list Z * aqueue :=
  match os with
  | [] => ([], a)
  | o :: os => let '(v, a) := aqueue_step base fn o a in let '(vs, a) := aqueue_run base fn os a in (v :: vs, a)
  end.

(** The calls the kernel API allows: only an idle timer is added, times stay
    within half the range. *)
Definition legal_op (base : Z) (known : Z → Prop) (o : timer_op) (a : aqueue) : Prop :=
  match o with
  | TAdd t e => known t ∧ t ∉ (a_pending a).*2 ∧ off base e < 2 ^ 63
  | TDel t => known t
  | TInc n => off base (u64 (a_now a + u32 n)) < 2 ^ 63
  end.
Fixpoint legal_run (base : Z) (fn : Z → W → W) (known : Z → Prop) (os : list timer_op) (a : aqueue) : Prop :=
  match os with
  | [] => True
  | o :: os => legal_op base known o a ∧ legal_run base fn known os (aqueue_step base fn o a).2
  end.

Record represents (base : Z) (fn : Z → W → W) (known : Z → Prop) s (a : aqueue) : Prop := Represents {
  r_queue : queue base s (a_pending a).*2 [];
  r_now : jiffies s = a_now a;
  r_world : world s = a_world a;
  r_exp : Forall (λ p, exp_of s p.2 = p.1) (a_pending a);
  r_idle : idle s (a_pending a).*2;
  r_known : ∀ t, known t ↔ is_Some (timers s !! t);
  r_fn : ∀ t w, known t → fire s w t = fn t w;
}.

Lemma filter_split {A} (f : A → Z) (e : Z) (qa qb : list A) :
  Forall (λ p, f p <= e) qa → Forall (λ p, e < f p) qb →
  filter (λ p, f p <= e) (qa ++ qb) = qa ∧ filter (λ p, e < f p) (qa ++ qb) = qb.
Proof.
  intros Ha Hb. rewrite !filter_app. split.
  - rewrite (filter_all _ qa), (filter_nothing _ qb), app_nil_r; [done| |].
    + eapply Forall_impl; [exact Hb|]. simpl. lia.
    + exact Ha.
  - rewrite (filter_nothing _ qa), (filter_all _ qb); [done|exact Hb|].
    eapply Forall_impl; [exact Ha|]. simpl. lia.
Qed.

Lemma represents_add base fn known s a t e fuel : represents base fn known s a →
  legal_op base known (TAdd t e) a →
  ∃ s', timer_step fuel (TAdd t e) s = Ret (0, s') ∧
    represents base fn known s' (aqueue_step base fn (TAdd t e) a).2.
Proof.
  intros R (Hk & Hn & He). destruct a as [now q w]. simpl in *. destruct R as [Q Hnow Hw Hexp HI Hkn Hfn]; simpl in *.
  destruct (proj1 (Hkn t) Hk) as [x Hx]. destruct (HI t x Hx) as (Hh1 & Hh2 & Hnode & Hu).
  unfold set_expires, timer_at. rewrite Hx. cbn [of_option]. rewrite !bind_ret.
  set (x1 := TimerList e (function x) (tdata x) (use x)).
  set (s1 := TState (theap s) (<[t := x1]> (timers s)) (jiffies s) (world s)).
  assert (Hex : ∀ b, b ≠ t → exp_of s1 b = exp_of s b).
  { intros b Hb. unfold exp_of. simpl. by rewrite lookup_insert_ne by congruence. }
  assert (Q1 : queue base s1 q.*2 []).
  { destruct Q as [P1 P2 P3 P4 P5 P6]. split; simpl; [done..| | |].
    - intros b Hb. rewrite app_nil_r in Hb. rewrite lookup_insert_ne by congruence. apply P4. set_solver.
    - intros b Hb. rewrite Hex by congruence. auto.
    - eapply StronglySorted_ext; [|exact P6]. intros b c Hb Hc. rewrite !Hex by congruence. done. }
  assert (Hx1 : timers s1 !! t = Some x1) by apply lookup_insert_eq.
  destruct (add_timer_ok base s1 q.*2 [] t x1 Q1 Hx1) as (s2 & la & lb & Hl & E & Q2 & Et & Hlv & Hj & Hw2 & Ha & Hb);
    [rewrite app_nil_r; set_solver|done|done|].
  cbn [mret outcome_ret]. rewrite E, bind_ret. exists s2. split; [done|].
  apply fmap_app_inv in Hl as (qa & qb & -> & -> & ->).
  assert (Hexp1 : Forall (λ p, exp_of s1 p.2 = p.1) (qa ++ qb)).
  { apply Forall_forall. intros p Hp. rewrite Forall_forall in Hexp. rewrite Hex; [by apply Hexp|].
    intros Hpt. apply Hn. rewrite <-Hpt. by apply list_elem_of_fmap_2. }
  apply Forall_app in Hexp1 as [Hea Heb].
  destruct (filter_split (λ p : Z * Z, off base p.1) (off base e) qa qb) as [F1 F2].
  { apply Forall_forall. intros p Hp. pose proof (proj1 (Forall_forall _ _) Hea p Hp) as <-. apply (proj1 (Forall_forall _ _) Ha). by apply list_elem_of_fmap_2. }
  { apply Forall_forall. intros p Hp. pose proof (proj1 (Forall_forall _ _) Heb p Hp) as <-. apply (proj1 (Forall_forall _ _) Hb). by apply list_elem_of_fmap_2. }
  rewrite F1, F2.
  assert (Hex2 : ∀ b, exp_of s2 b = if decide (b = t) then e else exp_of s b).
  { intros b. unfold exp_of. rewrite Et, lookup_insert. simpl. rewrite lookup_insert. repeat case_decide; subst; done. }
  split; simpl.
  - rewrite fmap_app, fmap_cons. exact Q2.
  - by rewrite Hj.
  - by rewrite Hw2.
  - assert (Hr : ∀ q', (∀ p, p ∈ q' → p ∈ qa ++ qb) → Forall (λ p, exp_of s2 p.2 = p.1) q').
    { intros q' Hq. apply Forall_forall. intros p Hp. rewrite Hex2. rewrite Forall_forall in Hexp.
      rewrite decide_False; [by apply Hexp, Hq|]. intros Hpt. apply Hn. rewrite <-Hpt. by apply list_elem_of_fmap_2, Hq. }
    apply Forall_app. split; [apply Hr; set_solver|]. constructor; [|apply Hr; set_solver].
    rewrite Hex2. by rewrite decide_True.
  - intros y z Hz. rewrite Et in Hz. simpl in Hz. rewrite insert_insert_eq, lookup_insert in Hz. case_decide as Hy.
    + subst y. split_and!; [done|done|by apply Hlv|]. intros Hy. exfalso. apply Hy. rewrite fmap_app. set_solver.
    + destruct (HI y z Hz) as (? & ? & ? & Hzu). split_and!; [done|done|by apply Hlv|].
      intros Hy'. apply Hzu. intros Hin. apply Hy'. rewrite fmap_app, fmap_cons in *. set_solver.
  - intros y. rewrite Hkn, Et. simpl. rewrite insert_insert_eq, lookup_insert_is_Some. split; [|intros [->|[_ ?]]; [by rewrite Hx|done]].
    intros Hy. destruct (decide (t = y)); auto.
  - intros y w' Hy. rewrite <-Hfn by done. unfold fire. rewrite Et. simpl. rewrite insert_insert_eq, lookup_insert.
    case_decide; [|done]. subst. by rewrite Hx.
Qed.

Lemma represents_del base fn known s a t fuel : represents base fn known s a →
  legal_op base known (TDel t) a →
  ∃ s', timer_step fuel (TDel t) s = Ret ((aqueue_step base fn (TDel t) a).1, s') ∧
    represents base fn known s' (aqueue_step base fn (TDel t) a).2.
Proof.
  intros R Hk. destruct a as [now q w]. simpl in *. destruct R as [Q Hnow Hw Hexp HI Hkn Hfn]; simpl in *.
  assert (Hrem : (filter (λ p : Z * Z, p.2 ≠ t) q).*2 = remove_entry t q.*2).
  { clear. unfold remove_entry. induction q as [|[e y] q IH]; [done|].
    rewrite fmap_cons, !filter_cons. simpl. case_decide; [rewrite fmap_cons, IH|]; done. }
  case_bool_decide as Hin.
  - destruct (del_timer_ok _ _ _ _ _ Q Hin) as ((s2 & x & E & Q2 & Hx & Et & Hlv & Hj & Hw2) & _).
    rewrite E. exists s2. split; [done|].
    assert (Hex : ∀ b, exp_of s2 b = exp_of s b) by (intros b; unfold exp_of at 1; rewrite Et; by apply exp_of_set_use).
    split; simpl.
    + by rewrite Hrem.
    + by rewrite Hj.
    + by rewrite Hw2.
    + apply Forall_forall. intros p [_ Hp]%list_elem_of_filter. rewrite Hex. by apply (proj1 (Forall_forall _ _) Hexp).
    + rewrite Hrem. eapply idle_set; [exact HI|exact Hx|exact Et|done| |done].
      intros y Hy Hne Hy'. apply Hy, elem_remove_entry. done.
    + intros y. rewrite Hkn, Et, lookup_insert_is_Some. split; [|intros [->|[_ ?]]; [by rewrite Hx|done]].
      intros. destruct (decide (t = y)); auto.
    + intros y w' Hy. rewrite <-Hfn by done. unfold fire. rewrite Et, lookup_insert. case_decide; [|done]. subst. by rewrite Hx.
  - destruct (proj1 (Hkn t) Hk) as [x Hx]. destruct (HI t x Hx) as (_ & _ & _ & Hu).
    unfold __del_timer, timer_at. rewrite Hx. cbn [of_option]. rewrite bind_ret, Hu by done.
    rewrite bool_decide_eq_true_2 by done. exists s. split; [done|].
    rewrite filter_all; [by split|]. apply Forall_forall. intros p Hp Hpt. apply Hin. rewrite <-Hpt. by apply list_elem_of_fmap_2.
Qed.

Lemma represents_inc base fn known s a n fuel : represents base fn known s a →
  legal_op base known (TInc n) a → (length (a_pending a) < fuel)%nat →
  ∃ s', timer_step fuel (TInc n) s = Ret (0, s') ∧
    represents base fn known s' (aqueue_step base fn (TInc n) a).2.
Proof.
  intros R Hn Hf. destruct a as [now q w]. simpl in *. destruct R as [Q Hnow Hw Hexp HI Hkn Hfn]; simpl in *.
  unfold increment_time. rewrite Hnow. set (now' := u64 (now + u32 n)) in *.
  set (s1 := TState (theap s) (timers s) now' (world s)).
  assert (Q1 : queue base s1 q.*2 []) by (destruct Q; by split).
  destruct (is_list_head_next _ _ _ (q_ring _ _ _ _ Q)) as (nd & Hnd & Hnx & _).
  unfold load. cbn [theap s1]. rewrite Hnd. cbn [of_option]. rewrite bind_ret, Hnx.
  destruct (expire_loop_ok base q.*2 s1 [] fuel Q1) as (s2 & E & Q2 & (Hj & Hex & Hfire & Hdom) & HI2 & Hw2);
    [done|by rewrite length_fmap|].
  rewrite E, bind_ret. exists s2. split; [done|].
  assert (Hin : ∀ p, p ∈ q → (off base p.1 <= off base now') ↔ due base s1 p.2).
  { intros p Hp. unfold due. pose proof (proj1 (Forall_forall _ _) Hexp p Hp) as Hp1. simpl in Hp1.
    change (exp_of s1 p.2) with (exp_of s p.2). rewrite Hp1. done. }
  assert (Hfil : filter (λ t, ¬ due base s1 t) q.*2 = (filter (λ p : Z * Z, off base now' < off base p.1) q).*2 ∧
    filter (due base s1) q.*2 = (filter (λ p : Z * Z, off base p.1 <= off base now') q).*2).
  { clear -Hin. induction q as [|p q IH]; [done|]. destruct IH as [F1 F2]; [intros; apply Hin; by right|].
    specialize (Hin p ltac:(by left)). rewrite fmap_cons, !filter_cons.
    destruct (decide (due base s1 p.2)) as [Hd|Hd].
    - rewrite decide_False, decide_False, decide_True by (tauto || (apply Hin in Hd; lia)). rewrite fmap_cons. split; [done|by f_equal].
    - assert (off base now' < off base p.1) by (destruct (Z.lt_ge_cases (off base now') (off base p.1)); [done|tauto]).
      rewrite decide_True, decide_True, decide_False by (tauto || lia). rewrite fmap_cons. split; [by f_equal|done]. }
  destruct Hfil as [F1 F2]. split; simpl.
  - by rewrite <-F1.
  - done.
  - rewrite Hw2, F2. cbn [world s1]. rewrite Hw. clear -Hfn Hfire Hkn HI Q.
    assert (Hk : ∀ p, p ∈ filter (λ p : Z * Z, off base p.1 <= off base now') q → known p.2).
    { intros p [_ Hp]%list_elem_of_filter. apply Hkn. destruct (q_timer _ _ _ _ Q p.2) as (x & Hx & _); [|by eexists].
      rewrite app_nil_r. by apply list_elem_of_fmap_2. }
    revert w. induction (filter _ _) as [|p ps IH]; intros w; [done|]. cbn [fmap list_fmap fold_left].
    change (fire s1 w p.2) with (fire s w p.2). rewrite Hfn by (apply Hk; by left). apply IH. intros; apply Hk. by right.
  - apply Forall_forall. intros p [_ Hp]%list_elem_of_filter. rewrite Hex.
    change (exp_of s1 p.2) with (exp_of s p.2). by apply (proj1 (Forall_forall _ _) Hexp).
  - rewrite <-F1. by apply HI2.
  - intros y. by rewrite Hkn, Hdom.
  - intros y w' Hy. rewrite Hfire. change (fire s1 w' y) with (fire s w' y). by apply Hfn.
Qed.

Lemma length_aqueue_step base fn o a : (length (a_pending (aqueue_step base fn o a).2) <= S (length (a_pending a)))%nat.
Proof.
  destruct o; simpl; rewrite ?length_app; simpl.
  - set (q := a_pending a). clearbody q. induction q as [|p q IH]; simpl; [lia|]. rewrite !filter_cons.
    repeat case_decide; simpl; lia.
  - eapply Nat.le_trans; [apply length_filter|]. lia.
  - eapply Nat.le_trans; [apply length_filter|]. lia.
Qed.

Lemma timer_run_ok base fn known fuel : ∀ os s a, represents base fn known s a → legal_run base fn known os a →
  (length os + length (a_pending a) < fuel)%nat →
  ∃ s', timer_run fuel os s = Ret ((aqueue_run base fn os a).1, s') ∧
    represents base fn known s' (aqueue_run base fn os a).2.
Proof.
  induction os as [|o os IH]; intros s a R HL Hf; [by exists s|]. destruct HL as [Ho HL]. cbn [timer_run aqueue_run].
  assert (Hs : ∃ s', timer_step fuel o s = Ret ((aqueue_step base fn o a).1, s') ∧
    represents base fn known s' (aqueue_step base fn o a).2).
  { destruct o; [by apply represents_add|by apply represents_del|]. apply represents_inc; [done..|]. simpl in Hf. lia. }
  destruct Hs as (s1 & -> & R1). rewrite bind_ret. cbv beta iota.
  pose proof (length_aqueue_step base fn o a) as Hlen. destruct (aqueue_step base fn o a) as [v a1]. simpl in *.
  destruct (IH s1 a1 R1 HL ltac:(lia)) as (s' & -> & R'). rewrite bind_ret.
  destruct (aqueue_run base fn os a1) as [vs a']. by exists s'.
Qed.

(** C4: add_timer, del_timer and increment_time, run in any order the kernel's rules
    allow, implement a queue ordered by expiry with first-come order among equals:
    the returned values agree, and a step of time runs exactly the timers that are
    due, earliest first, and leaves the others. *)
Theorem timer_run_refines (base : Z) (fn : Z → W → W) (known : Z → Prop) (os : list timer_op) (s : tstate W)
    (a : aqueue) (fuel : nat) :
  represents base fn known s a → legal_run base fn known os a → (length os + length (a_pending a) < fuel)%nat →
  ∃ s', timer_run fuel os s = Ret ((aqueue_run base fn os a).1, s') ∧
    is_list (theap s') __timers (a_pending (aqueue_run base fn os a).2).*2 ∧
    world s' = a_world (aqueue_run base fn os a).2 ∧ jiffies s' = a_now (aqueue_run base fn os a).2.
Proof.
  intros R HL Hf. destruct (timer_run_ok base fn known fuel os s a R HL Hf) as (s' & E & [Q Hj Hw _ _ _ _]).
  exists s'. split_and!; [done|apply Q|done|done].
Qed.

(** a deletion that comes too late returns 0 and leaves the timer to the next
    do_running_timers, which runs every such timer once, last deleted first, and
    empties the ring. *)
Theorem late_deletion_runs (base : Z) (s : tstate W) (l r : list Z) (t : Z) :
  queue base s l r → t ∈ l →
  ∃ s1 s2, __del_timer true t s = Ret (0, s1) ∧ world s1 = world s ∧
    do_running_timers s1 = Ret (true, s2) ∧ queue base s2 (remove_entry t l) [] ∧
    world s2 = fold_left (fire s1) (t :: r) (world s).
Proof.
  intros Q Ht. destruct (del_timer_ok _ _ _ _ _ Q Ht) as (_ & s1 & E & Q1 & Hw).
  destruct (running_loop_ok base (t :: r) s1 _ (S (size (timers s1))) false Q1) as (s2 & E2 & Q2 & Hw2 & _).
  { pose proof (queue_length _ _ _ _ Q1). simpl in *. lia. }
  exists s1, s2. split_and!; [done|done| |done|by rewrite Hw2, Hw].
  unfold do_running_timers, load.
  destruct (is_list_head_next _ _ _ (q_running _ _ _ _ Q1)) as (nd & Hnd & Hnx & _). rewrite Hnd. cbn [of_option].
  rewrite bind_ret, Hnx. cbn [hd_error from_option]. change (id t) with t.
  destruct (ring_next _ _ [] t r (q_running _ _ _ _ Q1)) as (n & Hn & Hnn). rewrite Hn. cbn [of_option].
  rewrite bind_ret, Hnn. exact E2.
Qed.

(** [time +infinity] advances the clock to the last timer and runs all of them. *)
Theorem time_infinity_flushes (s : tstate W) (l r : list Z) (t : Z) (fuel : nat) :
  queue 0 s (l ++ [t]) r → 0 <= jiffies s <= exp_of s t → exp_of s t < 2 ^ 31 →
  (S (length l) < fuel)%nat →
  ∃ s', time_cmd fuel [tx "time"; tx "+infinity"] s = Ret (true, s') ∧
    queue 0 s' [] r ∧ jiffies s' = exp_of s t ∧ world s' = fold_left (fire s) (l ++ [t]) (world s).
Proof.
  intros Q Hj Ht Hf. unfold time_cmd. change (streq (tx "+infinity") (tx "+infinity")) with true. cbv iota.
  destruct (is_list_head_next _ _ _ (q_ring _ _ _ _ Q)) as (nd & Hnd & Hnx & Hpv).
  destruct (q_timer _ _ _ _ Q t ltac:(set_solver)) as (x & Hx & _).
  assert (Hex : exp_of s t = expires x) by (unfold exp_of; by rewrite Hx).
  unfold find_last_timer. rewrite (list_empty_ring _ _ _ (q_ring _ _ _ _ Q)), bind_ret.
  rewrite bool_decide_eq_false_2 by (by destruct l). unfold load. rewrite Hnd. cbn [of_option]. rewrite bind_ret.
  assert (prev nd = t) as -> by (rewrite Hpv; unfold lastd; by rewrite last_snoc).
  unfold timer_at. rewrite Hx. cbn [of_option]. rewrite bind_ret. cbn [mret outcome_ret]. rewrite bind_ret.
  rewrite Hex in *. assert (s32 (expires x) = expires x) as ->.
  { unfold signed. rewrite wrap_small by lia. by rewrite (proj2 (Z.ltb_lt _ _)). }
  rewrite (wrap_small 64 ltac:(lia) (expires x)), (wrap_small 32 ltac:(lia) (expires x - _)) by lia.
  unfold increment_time. rewrite (wrap_small 64) by lia. replace (jiffies s + (expires x - jiffies s)) with (expires x) by lia.
  set (s1 := TState _ _ (expires x) _). cbn [theap s1]. unfold load. rewrite Hnd. cbn [of_option]. rewrite bind_ret, Hnx.
  assert (Q1 : queue 0 s1 (l ++ [t]) r) by (destruct Q; by split).
  assert (Ho : off 0 (expires x) = expires x) by (unfold off; rewrite wrap_small; lia).
  destruct (expire_loop_ok 0 (l ++ [t]) s1 r fuel Q1) as (s' & E & Q' & (Hj' & _) & _ & Hw);
    [simpl; lia|rewrite length_app; simpl; lia|].
  rewrite E, bind_ret. exists s'. split; [done|].
  assert (Hdue : ∀ y, y ∈ l ++ [t] → due 0 s1 y).
  { intros y Hy. unfold due. simpl. rewrite Ho. change (exp_of s1 y) with (exp_of s y). rewrite <-Ho, <-Hex.
    apply elem_of_app in Hy as [Hy| ->%list_elem_of_singleton]; [|done].
    destruct (list_elem_of_split _ _ Hy) as (l1 & l2 & ->). pose proof (q_sorted _ _ _ _ Q) as Hs.
    clear -Hs. rewrite <-app_assoc in Hs. induction l1 as [|z l1 IH]; simpl in Hs; apply StronglySorted_inv in Hs as [Hs H1]; [|auto].
    rewrite Forall_forall in H1. apply H1. set_solver. }
  rewrite filter_nothing in Q' by (apply Forall_forall; intros y Hy Hn; by apply Hn, Hdue).
  rewrite filter_all in Hw by (by apply Forall_forall). split_and!; [done|done|]. rewrite Hw.
  reflexivity.
Qed.

End Timer.

(** ** Concrete runs *)

(** Two initialised timers, 10 and 11, and a world that records the calls. *)
Definition timers0 (j : Z) : tstate (list Z) :=
  TState (<[1 := ListHead 1 1]> (<[2 := ListHead 2 2]> (<[10 := ListHead 0 0]> {[11 := ListHead 0 0]})))
    (<[10 := TimerList 0 7 10 UNull]> {[11 := TimerList 0 7 11 UNull]}) j [].
Definition record_call (f d : Z) (s : tstate (list Z)) : outcome (tstate (list Z)) :=
  Ret (TState (theap s) (timers s) (jiffies s) (world s ++ [d])).
Definition record_world (f d : Z) (w : list Z) : list Z := w ++ [d].

Lemma timers0_represents j : represents record_world 0 (λ t w, w ++ [t]) (λ t, t = 10 ∨ t = 11) (timers0 j) (AQueue j [] []).
Proof.
  split; simpl.
  - split; simpl; [split; [apply (bool_decide_unpack _); by vm_compute|by vm_compute]..|set_solver|set_solver|set_solver|constructor].
  - done.
  - done.
  - constructor.
  - intros t x. unfold timers0. cbn [timers]. rewrite lookup_insert, lookup_singleton. repeat case_decide; intros Hx; [| |done]; injection Hx as <-; subst;
      (split_and!; [done|done|by eexists; vm_compute|done]).
  - intros t. unfold timers0. cbn [timers]. rewrite lookup_insert_is_Some, lookup_singleton_is_Some. destruct (decide (10 = t)); naive_solver.
  - intros t w [-> | ->]; reflexivity.
Qed.

Definition demo_ops : list timer_op := [TAdd 10 50; TAdd 11 50; TInc 40; TDel 10; TAdd 10 50; TInc 20; TDel 11].

Lemma timer_run_refines_witness :
  ∃ s', timer_run record_call 20 demo_ops (timers0 0) = Ret ([0; 0; 0; 1; 0; 0; 0], s') ∧
    is_list (theap s') __timers [] ∧ world s' = [11; 10] ∧ jiffies s' = 60.
Proof.
  apply (timer_run_refines record_call record_world (λ _ _ _, eq_refl) 0 _ _ demo_ops (timers0 0) _ 20 (timers0_represents 0));
    [|simpl; lia].
  cbn [legal_run demo_ops legal_op]. split_and!; try (by left); try (by right);
    try done; by apply (bool_decide_unpack _); vm_compute.
Defined.

(** Timers 10 (at 50) and 11 (at 70) pending. *)
Definition timers2 : tstate (list Z) :=
  TState (<[1 := ListHead 10 11]> (<[2 := ListHead 2 2]> (<[10 := ListHead 11 1]> {[11 := ListHead 1 10]})))
    (<[10 := TimerList 50 7 10 ULive]> {[11 := TimerList 70 7 11 ULive]}) 0 [].

Lemma timers2_queue : queue 0 timers2 [10; 11] [].
Proof.
  split; simpl; [split; [apply (bool_decide_unpack _); by vm_compute|by vm_compute]..|set_solver| | |].
  - intros t Ht. apply elem_of_cons in Ht as [->|Ht]; [by eexists|]. apply list_elem_of_singleton in Ht as ->. by eexists.
  - intros t Ht. apply elem_of_cons in Ht as [->|Ht]; [done|]. by apply list_elem_of_singleton in Ht as ->.
  - repeat constructor. by vm_compute.
Qed.

Lemma late_deletion_runs_witness :
  ∃ s1 s2, __del_timer true 10 timers2 = Ret (0, s1) ∧ world s1 = [] ∧
    do_running_timers record_call s1 = Ret (true, s2) ∧ queue 0 s2 [11] [] ∧
    world s2 = fold_left (fire record_world s1) [10] [].
Proof.
  apply (late_deletion_runs record_call record_world (λ _ _ _, eq_refl) 0 timers2 [10; 11] [] 10 timers2_queue). set_solver.
Defined.

Lemma time_infinity_flushes_witness :
  ∃ s', time_cmd record_call 5 [tx "time"; tx "+infinity"] timers2 = Ret (true, s') ∧
    queue 0 s' [] [] ∧ jiffies s' = 70 ∧ world s' = [10; 11].
Proof.
  apply (time_infinity_flushes record_call record_world (λ _ _ _, eq_refl) timers2 [10] [] 11 5 timers2_queue);
    vm_compute; lia || (split; congruence).
Defined.

(** [time +infinity] with no timer pending does not stand still: the last expiry
    counts as 0 and the difference wraps. *)
Lemma time_infinity_empty :
  match time_cmd record_call 5 [tx "time"; tx "+infinity"] (timers0 100) with
  | Ret (true, s) => jiffies s = 2 ^ 32
  | _ => False
  end.
Proof. by vm_compute. Qed.

(** A timer function that deletes the timer after it: the loop continues from the
    entry it saved, now unlinked. *)
Definition delete_11 (f d : Z) (s : tstate (list Z)) : outcome (tstate (list Z)) :=
  '(_, s) ← __del_timer false 11 s; mret s.
Lemma increment_time_deleted_next : increment_time delete_11 5 80 timers2 = Fault "list_head: bad pointer".
Proof. by vm_compute. Qed.

(** After a late deletion has been run, [use] still points to the freed name, so
    deleting the timer again unlinks a poisoned entry. *)
Lemma delete_after_late_deletion :
  ('(_, s) ← __del_timer true 10 timers2; '(_, s) ← do_running_timers record_call s; __del_timer false 10 s)
  = Fault "list_head: bad pointer".
Proof. by vm_compute. Qed.
