(* ===== verification/Notifier.v ===== *)
(** * kernelenv.c: notifier chains

    A chain is a NULL-terminated singly linked list; the functions walk it with a
    pointer to the current link, [Root] being the chain's own variable and
    [Next b] the [next] field of block [b]. *)

From Stdlib Require Import ZArith Lia.
From S2P Require Import Prelude.

Record notifier_block := Block { notifier_call : Z; next : Z; priority : Z }.

Record chain := Chain { root : Z; blocks : gmap Z notifier_block }.

Definition NULL : Z := 0.
Definition ENOENT : Z := 2.
Definition NOTIFY_DONE : Z := 0x0000.
Definition NOTIFY_STOP_MASK : Z := 0x8000.

Inductive link := Root | Next (b : Z).

Definition block_at (b : Z) (c : chain) : outcome notifier_block :=
  of_option "notifier_block: bad pointer" (blocks c !! b).
Definition get_link (l : link) (c : chain) : outcome Z :=
  match l with Root => mret (root c) | Next b => n ← block_at b c; mret (next n) end.
Definition set_link (l : link) (v : Z) (c : chain) : outcome chain :=
  match l with
  | Root => mret (Chain v (blocks c))
  | Next b => n ← block_at b c;
      mret (Chain (root c) (<[b := Block (notifier_call n) v (priority n)]> (blocks c)))
  end.

(** The link at which a block of priority [prio] goes. *)
Fixpoint find_lower (fuel : nat) (prio : Z) (l : link) (c : chain) : outcome link :=
  match fuel with
  | O => Fault "find_lower: out of fuel"
  | S fuel =>
      p ← get_link l c;
      if p =? NULL then mret l else
      b ← block_at p c;
      if priority b <? prio then mret l else find_lower fuel prio (Next p) c
  end.

Definition notifier_chain_register (fuel : nat) (n : Z) (c : chain) : outcome (Z * chain) :=
  b ← block_at n c;
  l ← find_lower fuel (priority b) Root c;
  p ← get_link l c;
  c ← set_link (Next n) p c;
  c ← set_link l n c;
  mret (0, c).

Fixpoint unregister_loop (fuel : nat) (n : Z) (l : link) (c : chain) : outcome (Z * chain) :=
  match fuel with
  | O => Fault "unregister_loop: out of fuel"
  | S fuel =>
      p ← get_link l c;
      if p =? NULL then mret (- ENOENT, c) else
      if p =? n then
        b ← block_at n c; c ← set_link l (next b) c; mret (0, c)
      else unregister_loop fuel n (Next p) c
  end.
Definition notifier_chain_unregister (fuel : nat) (n : Z) (c : chain) : outcome (Z * chain) :=
  unregister_loop fuel n Root c.

Section Calls.
Context {W : Type}.
(** [nb->notifier_call (nb, val, v)]: its value and its effect. *)
Context (call : Z → Z → Z → W → Z * W).

Fixpoint call_loop (fuel : nat) (nb val ret : Z) (c : chain) (w : W) : outcome (Z * W) :=
  match fuel with
  | O => Fault "call_loop: out of fuel"
  | S fuel =>
      if nb =? NULL then mret (ret, w) else
      b ← block_at nb c;
      let '(ret, w) := call (notifier_call b) nb val w in
      if negb (Z.land ret NOTIFY_STOP_MASK =? 0) then mret (ret, w)
      else call_loop fuel (next b) val ret c w
  end.
Definition notifier_call_chain (fuel : nat) (val : Z) (c : chain) (w : W) : outcome (Z * W) :=
  call_loop fuel (root c) val NOTIFY_DONE c w.
End Calls.

(** ** The list a chain stands for *)

Fixpoint linked (bs : gmap Z notifier_block) (p : Z) (l : list Z) : Prop :=
  match l with
  | [] => p = NULL
  | b :: l => p = b ∧ b ≠ NULL ∧ ∃ n, bs !! b = Some n ∧ linked bs (next n) l
  end.
Definition is_chain (c : chain) (l : list Z) : Prop := NoDup l ∧ linked (blocks c) (root c) l.

Definition prio (c : chain) (b : Z) : Z := default 0 (priority <$> blocks c !! b).
Definition call_of (c : chain) (b : Z) : Z := default 0 (notifier_call <$> blocks c !! b).

(** Behind every block of the same or a higher priority. *)
Fixpoint insert_prio (pr : Z → Z) (n : Z) (l : list Z) : list Z :=
  match l with
  | [] => [n]
  | b :: l' => if pr b <? pr n then n :: l else b :: insert_prio pr n l'
  end.

(** Calls go down the list until one stops it. *)
Fixpoint call_list {W} (call : Z → W → Z * W) (l : list Z) (ret : Z) (w : W) : Z * W :=
  match l with
  | [] => (ret, w)
  | b :: l => let '(ret, w) := call b w in
      if Z.testbit ret 15 then (ret, w) else call_list call l ret w
  end.

(** The link that leads to the rest of the list after [l1]. *)
Definition link_after (l1 : list Z) : link := match last l1 with None => Root | Some b => Next b end.

Lemma linked_ext bs bs' : ∀ l p, (∀ b, b ∈ l → bs' !! b = bs !! b) → linked bs p l → linked bs' p l.
Proof.
  induction l as [|b l IH]; intros p He Hl; simpl in *; [done|].
  destruct Hl as (-> & Hb & n & Hn & Hl). split_and!; [done..|]. exists n. split.
  - by rewrite He by set_solver.
  - apply IH; [|done]. intros; apply He; set_solver.
Qed.

Lemma linked_app bs : ∀ l1 p l2, linked bs p (l1 ++ l2) →
  ∃ q, linked bs q l2 ∧
    match last l1 with None => p = q | Some b => ∃ n, bs !! b = Some n ∧ next n = q end.
Proof.
  induction l1 as [|b l1 IH]; intros p l2 Hl; simpl in *; [by exists p|].
  destruct Hl as (-> & Hb & n & Hn & Hl). destruct (IH _ _ Hl) as (q & Hq & Hlast). exists q. split; [done|].
  destruct l1 as [|b' l1]; [by exists n; subst|]. change (last (b :: b' :: l1)) with (last (b' :: l1)).
  destruct (last (b' :: l1)) eqn:E; [exact Hlast|]. by apply last_None in E.
Qed.

Lemma get_link_after c l1 l2 : is_chain c (l1 ++ l2) →
  ∃ q, get_link (link_after l1) c = Ret q ∧ linked (blocks c) q l2.
Proof.
  intros [_ Hl]. destruct (linked_app _ _ _ _ Hl) as (q & Hq & Hlast). exists q. split; [|done].
  unfold link_after, get_link. destruct (last l1) as [b|]; [|by subst].
  destruct Hlast as (n & Hn & <-). unfold block_at. rewrite Hn. done.
Qed.

Lemma linked_head bs p l : linked bs p l → p = default NULL (hd_error l).
Proof. destruct l; simpl; [done|]. by intros (-> & _). Qed.

Lemma linked_splice bs p l1 l2 q v : NoDup (l1 ++ l2) → linked bs p (l1 ++ l2) →
  ∀ l2', linked bs v l2' → (∀ b, b ∈ l2' → b ∉ l1) →
  linked (match last l1 with
          | None => bs
          | Some b => match bs !! b with Some n => <[b := Block (notifier_call n) v (priority n)]> bs | None => bs end
          end) (match l1 with [] => q | _ => p end) (l1 ++ l2') ∨ l1 = [].
Proof.
  revert p. induction l1 as [|b l1 IH]; intros p Hnd Hl l2' Hv Hd; [by right|left]. simpl in Hl.
  destruct Hl as (-> & Hb & n & Hn & Hl). apply NoDup_cons in Hnd as [Hni Hnd].
  destruct l1 as [|b' l1].
  - simpl. rewrite Hn. split_and!; [done|done|]. eexists. rewrite lookup_insert_eq. split; [done|]. simpl.
    eapply linked_ext; [|exact Hv]. intros y Hy. rewrite lookup_insert_ne; [done|]. intros ->. apply (Hd y); set_solver.
  - destruct (IH (next n) Hnd Hl l2' Hv) as [IH'|]; [intros y Hy Hy'; apply (Hd y Hy); by right| |done].
    change (last (b :: b' :: l1)) with (last (b' :: l1)). cbn [linked app]. split_and!; [done|done|].
    exists n. split; [|exact IH'].
    assert (Hlast : ∀ y, last (b' :: l1) = Some y → y ∈ b' :: l1) by (intros y; apply last_Some_elem_of).
    destruct (last (b' :: l1)) as [y|]; [|done]. destruct (bs !! y); [|done].
    rewrite lookup_insert_ne; [done|]. intros ->. apply Hni. specialize (Hlast b eq_refl). set_solver.
Qed.

Lemma set_link_after c l1 l2 l2' v : is_chain c (l1 ++ l2) → linked (blocks c) v l2' → NoDup l2' →
  (∀ b, b ∈ l2' → b ∉ l1) →
  ∃ c', set_link (link_after l1) v c = Ret c' ∧ is_chain c' (l1 ++ l2') ∧
    (∀ b, prio c' b = prio c b) ∧ (∀ b, call_of c' b = call_of c b) ∧ dom (blocks c') = dom (blocks c).
Proof.
  intros Hc Hv Hnd2 Hd. pose proof Hc as [Hnd Hl].
  assert (Hnd' : NoDup (l1 ++ l2')).
  { apply NoDup_app in Hnd as (Hnd1 & _ & _). apply NoDup_app. split_and!; [done| |done]. intros b Hb Hb'. by apply (Hd b). }
  destruct (linked_app _ _ _ _ Hl) as (q & Hq & Hlast).
  unfold set_link, link_after. pose proof (linked_splice _ _ _ _ v v Hnd Hl l2' Hv Hd) as Hs.
  destruct (last l1) as [b|] eqn:El.
  - destruct Hlast as (n & Hn & Hnx). unfold block_at. rewrite Hn in *. simpl. eexists. split; [done|].
    destruct Hs as [Hs| ->]; [|done]. destruct l1 as [|b1 l1]; [done|]. split_and!; [split; done| | |].
    + intros y. unfold prio. simpl. rewrite lookup_insert. case_decide; [|done]. subst. by rewrite Hn.
    + intros y. unfold call_of. simpl. rewrite lookup_insert. case_decide; [|done]. subst. by rewrite Hn.
    + simpl. apply dom_insert_lookup_L. by eexists.
  - apply last_None in El as ->. eexists. split; [done|]. split_and!; [split; done|done..].
Qed.

Lemma link_after_snoc l1 b : link_after (l1 ++ [b]) = Next b.
Proof. unfold link_after. by rewrite last_snoc. Qed.

Lemma find_lower_spec p c : ∀ l2 l1 fuel, is_chain c (l1 ++ l2) → (length l2 < fuel)%nat →
  ∃ la lb, l2 = la ++ lb ∧ find_lower fuel p (link_after l1) c = Ret (link_after (l1 ++ la)) ∧
    (∀ n, prio c n = p → insert_prio (prio c) n l2 = la ++ n :: lb).
Proof.
  induction l2 as [|b l2 IH]; intros l1 fuel Hc Hf; (destruct fuel as [|fuel]; [simpl in Hf; lia|]); cbn [find_lower];
    destruct (get_link_after c l1 _ Hc) as (q & -> & Hq); rewrite bind_ret.
  - simpl in Hq. subst q. exists [], []. simpl. by rewrite app_nil_r.
  - destruct Hq as (-> & Hb & n & Hn & Hl). rewrite (proj2 (Z.eqb_neq b NULL)) by done. unfold block_at.
    rewrite Hn. cbn [of_option]. rewrite bind_ret.
    assert (Hp : prio c b = priority n) by (unfold prio; by rewrite Hn).
    destruct (Z.ltb_spec (priority n) p) as [Hlt|Hge].
    + exists [], (b :: l2). split_and!; [done|by rewrite app_nil_r|]. intros m Hm. simpl. rewrite Hp, Hm.
      by rewrite (proj2 (Z.ltb_lt _ _)).
    + rewrite <-(link_after_snoc l1). destruct (IH (l1 ++ [b]) fuel) as (la & lb & -> & E & Hi);
        [by rewrite <-app_assoc|simpl in Hf; lia|].
      exists (b :: la), lb. split_and!; [done|by rewrite E, <-app_assoc|]. intros m Hm. simpl. rewrite Hp, Hm.
      rewrite (proj2 (Z.ltb_ge _ _)) by done. by rewrite Hi.
Qed.

Lemma register_ok fuel n c l : is_chain c l → n ∉ l → n ≠ NULL → is_Some (blocks c !! n) → (length l < fuel)%nat →
  ∃ c', notifier_chain_register fuel n c = Ret (0, c') ∧ is_chain c' (insert_prio (prio c) n l) ∧
    (∀ b, prio c' b = prio c b) ∧ (∀ b, call_of c' b = call_of c b) ∧ dom (blocks c') = dom (blocks c).
Proof.
  intros Hc Hn H0 [b Hb] Hf. unfold notifier_chain_register, block_at. rewrite Hb. cbn [of_option]. rewrite bind_ret.
  destruct (find_lower_spec (priority b) c l [] fuel Hc Hf) as (la & lb & -> & E & Hi).
  change (link_after []) with Root in E. rewrite E, bind_ret. cbn [app] in *.
  destruct (get_link_after c la lb Hc) as (q & -> & Hq). rewrite bind_ret.
  set (c1 := Chain (root c) (<[n := Block (notifier_call b) q (priority b)]> (blocks c))).
  assert (set_link (Next n) q c = Ret c1) as -> by (unfold set_link, block_at; by rewrite Hb).
  rewrite bind_ret. pose proof Hc as [Hnd Hl].
  assert (Hc1 : is_chain c1 (la ++ lb)).
  { split; [done|]. eapply linked_ext; [|exact Hl]. intros y Hy. simpl. rewrite lookup_insert_ne; [done|]. by intros ->. }
  assert (Hq1 : linked (blocks c1) n (n :: lb)).
  { simpl. split_and!; [done|done|]. eexists. rewrite lookup_insert_eq. split; [done|]. simpl.
    eapply linked_ext; [|exact Hq]. intros y Hy. rewrite lookup_insert_ne; [done|]. intros ->. set_solver. }
  assert (Hnd2 : NoDup (n :: lb)).
  { apply NoDup_app in Hnd as (_ & _ & Hnd). apply NoDup_cons. split; [set_solver|done]. }
  assert (Hdis : ∀ y, y ∈ n :: lb → y ∉ la).
  { intros y Hy Hy'. apply elem_of_cons in Hy as [->|Hy]; [set_solver|]. apply NoDup_app in Hnd as (_ & Hd & _). by apply (Hd y). }
  destruct (set_link_after c1 la lb (n :: lb) n Hc1 Hq1 Hnd2 Hdis) as (c' & -> & Hc' & Hp & Hcl & Hdom). rewrite bind_ret.
  exists c'. split; [done|]. rewrite Hi by (unfold prio; by rewrite Hb). split_and!; [done| | |].
  - intros y. rewrite Hp. unfold prio. simpl. rewrite lookup_insert. case_decide; [|done]. subst. by rewrite Hb.
  - intros y. rewrite Hcl. unfold call_of. simpl. rewrite lookup_insert. case_decide; [|done]. subst. by rewrite Hb.
  - rewrite Hdom. simpl. apply dom_insert_lookup_L. by eexists.
Qed.

Lemma unregister_ok n c : ∀ l2 l1 fuel, is_chain c (l1 ++ l2) → n ≠ NULL → (length l2 < fuel)%nat →
  ∃ c', unregister_loop fuel n (link_after l1) c = Ret (if bool_decide (n ∈ l2) then 0 else - ENOENT, c') ∧
    is_chain c' (l1 ++ filter (λ b, b ≠ n) l2) ∧
    (∀ b, prio c' b = prio c b) ∧ (∀ b, call_of c' b = call_of c b) ∧ dom (blocks c') = dom (blocks c).
Proof.
  induction l2 as [|b l2 IH]; intros l1 fuel Hc H0 Hf; (destruct fuel as [|fuel]; [simpl in Hf; lia|]); cbn [unregister_loop];
    destruct (get_link_after c l1 _ Hc) as (q & E & Hq); rewrite E, bind_ret.
  - simpl in Hq. subst q. exists c. done.
  - destruct Hq as (-> & Hb & m & Hm & Hl). rewrite (proj2 (Z.eqb_neq b NULL)) by done. pose proof Hc as [Hnd _].
    assert (Hb2 : b ∉ l2 ∧ NoDup l2) by (apply NoDup_app in Hnd as (_ & _ & Hnd); by apply NoDup_cons in Hnd).
    rewrite filter_cons. destruct (Z.eqb_spec b n) as [->|Hne].
    + unfold block_at. rewrite Hm. cbn [of_option]. rewrite bind_ret, decide_False by tauto.
      rewrite filter_all by (apply Forall_forall; intros y Hy ->; tauto).
      destruct (set_link_after c l1 (n :: l2) l2 (next m) Hc Hl) as (c' & -> & Hc'); [tauto| |].
      { intros y Hy Hy'. apply NoDup_app in Hnd as (_ & Hd & _). apply (Hd y); set_solver. }
      rewrite bind_ret. exists c'. split; [|done]. by rewrite bool_decide_eq_true_2 by set_solver.
    + rewrite decide_True by done. rewrite <-(link_after_snoc l1).
      destruct (IH (l1 ++ [b]) fuel) as (c' & -> & Hc' & Hrest); [by rewrite <-app_assoc|done|simpl in Hf; lia|].
      exists c'. rewrite <-app_assoc in Hc'. split; [|done]. do 2 f_equal.
      rewrite (bool_decide_ext (n ∈ b :: l2) (n ∈ l2)); [done|]. rewrite elem_of_cons. naive_solver.
Qed.

Lemma stop_bit r : negb (Z.land r NOTIFY_STOP_MASK =? 0) = Z.testbit r 15.
Proof.
  unfold NOTIFY_STOP_MASK. change 0x8000 with (2 ^ 15). assert (Hb : ∀ i, 0 <= i → Z.testbit (Z.land r (2 ^ 15)) i = Z.testbit r i && (i =? 15)).
  { intros i Hi. by rewrite Z.land_spec, Z.pow2_bits_eqb, Z.eqb_sym by lia. }
  destruct (Z.eqb_spec (Z.land r (2 ^ 15)) 0) as [E|E].
  - specialize (Hb 15 ltac:(lia)). rewrite E, Z.bits_0, andb_true_r in Hb. done.
  - destruct (Z.testbit r 15) eqn:Ht; [done|]. exfalso. apply E. apply Z.bits_inj'. intros i Hi.
    rewrite Hb, Z.bits_0 by done. destruct (Z.eqb_spec i 15) as [->|]; [by rewrite Ht|apply andb_false_r].
Qed.

Section Refinement.
Context {W : Type} (call : Z → Z → Z → W → Z * W).

Inductive chain_op := CRegister (n : Z) | CUnregister (n : Z) | CCall (val : Z).

Definition chain_step (fuel : nat) (o : chain_op) (c : chain) (w : W) : outcome (Z * chain * W) :=
  match o with
  | CRegister n => '(r, c) ← notifier_chain_register fuel n c; mret (r, c, w)
  | CUnregister n => '(r, c) ← notifier_chain_unregister fuel n c; mret (r, c, w)
  | CCall val => '(r, w) ← notifier_call_chain call fuel val c w; mret (r, c, w)
  end.
Fixpoint chain_run (fuel : nat) (os : list chain_op) (c : chain) (w : W) : outcome (list Z * chain * W) :=
  match os with
  | [] => mret ([], c, w)
  | o :: os => '(r, c, w) ← chain_step fuel o c w; '(rs, c, w) ← chain_run fuel os c w; mret (r :: rs, c, w)
  end.

(** The same on lists of registered blocks: [pr] their priorities, [fn] their
    functions. *)
Definition list_step (pr fn : Z → Z) (o : chain_op) (l : list Z) (w : W) : Z * list Z * W :=
  match o with
  | CRegister n => (0, insert_prio pr n l, w)
  | CUnregister n => (if bool_decide (n ∈ l) then 0 else - ENOENT, filter (λ b, b ≠ n) l, w)
  | CCall val => let '(r, w) := call_list (λ b, call (fn b) b val) l NOTIFY_DONE w in (r, l, w)
  end.
Fixpoint list_run (pr fn : Z → Z) (os : list chain_op) (l : list Z) (w : W) : list Z * list Z * W :=
  match os with
  | [] => ([], l, w)
  | o :: os => let '(r, l, w) := list_step pr fn o l w in
      let '(rs, l, w) := list_run pr fn os l w in (r :: rs, l, w)
  end.

(** Only a block that is not on the chain may be registered. *)
Definition legal_step (known : Z → Prop) (o : chain_op) (l : list Z) : Prop :=
  match o with
  | CRegister n => n ∉ l ∧ n ≠ NULL ∧ known n
  | CUnregister n => n ≠ NULL
  | CCall _ => True
  end.
Fixpoint legal_chain (pr fn : Z → Z) (known : Z → Prop) (os : list chain_op) (l : list Z) (w : W) : Prop :=
  match os with
  | [] => True
  | o :: os => legal_step known o l ∧
      legal_chain pr fn known os (list_step pr fn o l w).1.2 (list_step pr fn o l w).2
  end.

Lemma call_loop_ok val c : ∀ l p ret w fuel, linked (blocks c) p l → (length l < fuel)%nat →
  call_loop call fuel p val ret c w = Ret (call_list (λ b, call (call_of c b) b val) l ret w).
Proof.
  induction l as [|b l IH]; intros p ret w fuel Hl Hf; (destruct fuel as [|fuel]; [simpl in Hf; lia|]);
    cbn [call_loop call_list linked] in *.
  - by subst.
  - destruct Hl as (-> & Hb & n & Hn & Hl). rewrite (proj2 (Z.eqb_neq b NULL)) by done. unfold block_at.
    rewrite Hn. cbn [of_option]. rewrite bind_ret. unfold call_of at 1. rewrite Hn. cbn [fmap option_fmap option_map default].
    change (id (notifier_call n)) with (notifier_call n). cbn [from_option]. destruct (call (notifier_call n) b val w) as [r w'].
    rewrite stop_bit. destruct (Z.testbit r 15); [done|]. apply IH; [done|simpl in Hf; lia].
Qed.

Lemma length_insert_prio pr n l : length (insert_prio pr n l) = S (length l).
Proof. induction l as [|b l IH]; simpl; [done|]. destruct (pr b <? pr n); simpl; lia. Qed.

Lemma insert_prio_ext pr pr' n l : (∀ b, pr b = pr' b) → insert_prio pr n l = insert_prio pr' n l.
Proof. intros Hp. induction l as [|b l IH]; simpl; [done|]. by rewrite !Hp, IH. Qed.
Lemma call_list_ext (f f' : Z → W → Z * W) l : (∀ b w, f b w = f' b w) → ∀ ret w, call_list f l ret w = call_list f' l ret w.
Proof. intros Hf. induction l as [|b l IH]; intros ret w; simpl; [done|]. rewrite Hf. destruct (f' _ _). by rewrite IH. Qed.

(** The chain has the priorities and functions of the blocks that are known. *)
Definition describes (pr fn : Z → Z) (known : Z → Prop) (c : chain) : Prop :=
  (∀ b, prio c b = pr b) ∧ (∀ b, call_of c b = fn b) ∧ (∀ b, known b → b ∈ dom (blocks c)).

Lemma describes_trans pr fn known c c1 : describes pr fn known c → (∀ b, prio c1 b = prio c b) →
  (∀ b, call_of c1 b = call_of c b) → dom (blocks c1) = dom (blocks c) → describes pr fn known c1.
Proof. intros (H1 & H2 & H3) E1 E2 E3. split_and!; intros; rewrite ?E1, ?E2, ?E3; auto. Qed.

Lemma chain_step_ok pr fn known fuel o c l w :
  describes pr fn known c → is_chain c l → legal_step known o l → (length l < fuel)%nat →
  ∃ c1, chain_step fuel o c w = Ret ((list_step pr fn o l w).1.1, c1, (list_step pr fn o l w).2) ∧
    is_chain c1 (list_step pr fn o l w).1.2 ∧ describes pr fn known c1 ∧
    (length (list_step pr fn o l w).1.2 <= S (length l))%nat.
Proof.
  intros D Hc Ho Hfuel. pose proof D as (Hp & Hf & Hk). destruct o as [n|n|val]; simpl in Ho |- *.
  - destruct Ho as (Hn & H0 & Hkn).
    destruct (register_ok fuel n c l Hc Hn H0) as (c1 & -> & Hc1 & H1 & H2 & H3); [by apply elem_of_dom, Hk|done|].
    exists c1. rewrite (insert_prio_ext _ pr) in Hc1 by done. split_and!; [done|done|by eapply describes_trans|].
    by rewrite length_insert_prio.
  - destruct (unregister_ok n c l [] fuel Hc Ho Hfuel) as (c1 & E & Hc1 & H1 & H2 & H3).
    unfold notifier_chain_unregister. change (link_after []) with Root in E. rewrite E.
    exists c1. split_and!; [done|done|by eapply describes_trans|]. eapply Nat.le_trans; [apply length_filter|]. lia.
  - exists c. unfold notifier_call_chain. rewrite (call_loop_ok val c l) by (done || apply Hc).
    rewrite (call_list_ext _ (λ b, call (fn b) b val)) by (intros; by rewrite Hf).
    rewrite bind_ret. destruct (call_list _ _ _ _) as [r w']. simpl. split_and!; auto; apply Hc.
Qed.

Lemma chain_run_ok pr fn known fuel : ∀ os c l w, describes pr fn known c → is_chain c l →
  legal_chain pr fn known os l w → (length l + length os < fuel)%nat →
  ∃ c', chain_run fuel os c w = Ret (let '(rs, _, w') := list_run pr fn os l w in (rs, c', w')) ∧
    is_chain c' (list_run pr fn os l w).1.2.
Proof.
  induction os as [|o os IH]; intros c l w D Hc HL Hfuel; [by exists c|]. destruct HL as [Ho HL].
  cbn [chain_run list_run]. simpl in Hfuel.
  destruct (chain_step_ok pr fn known fuel o c l w D Hc Ho) as (c1 & -> & Hc1 & D1 & Hlen); [lia|]. rewrite bind_ret.
  destruct (list_step pr fn o l w) as [[r l1] w1]. simpl in *.
  destruct (IH c1 l1 w1 D1 Hc1 HL ltac:(lia)) as (c' & -> & Hc'). rewrite bind_ret.
  destruct (list_run pr fn os l1 w1) as [[rs l2] w2]. by exists c'.
Qed.

(** C24: register, unregister and call, in any order, keep a list of blocks in
    descending priority, first come first among equals: registering inserts there,
    unregistering removes the block or reports -ENOENT, and a call runs down the
    list until a block stops it. *)
Theorem notifier_refines (fuel : nat) (os : list chain_op) (c : chain) (l : list Z) (w : W) :
  is_chain c l → legal_chain (prio c) (call_of c) (λ b, is_Some (blocks c !! b)) os l w →
  (length l + length os < fuel)%nat →
  ∃ c', chain_run fuel os c w = Ret (let '(rs, _, w') := list_run (prio c) (call_of c) os l w in (rs, c', w')) ∧
    is_chain c' (list_run (prio c) (call_of c) os l w).1.2.
Proof.
  intros Hc HL Hf. apply (chain_run_ok _ _ (λ b, is_Some (blocks c !! b))); [|done..].
  split_and!; [done|done|]. intros b Hb. by apply elem_of_dom.
Qed.
End Refinement.

(** Blocks 1 and 2 of the same priority, 3 of a higher one; the function of 2 stops. *)
Definition chain3 : chain := Chain NULL (<[1 := Block 0x10 0 5]> (<[2 := Block 0x8002 0 5]> {[3 := Block 0x1 0 9]})).
Definition log_call (fn nb val : Z) (w : list (Z * Z)) : Z * list (Z * Z) := (fn, w ++ [(nb, val)]).

Lemma notifier_refines_witness :
  ∃ c', chain_run log_call 10 [CRegister 1; CRegister 2; CRegister 3; CCall 7; CUnregister 1; CUnregister 1; CCall 8] chain3 [] =
      Ret ([0; 0; 0; 0x8002; 0; -2; 0x8002], c', [(3, 7); (1, 7); (2, 7); (3, 8); (2, 8)]) ∧ is_chain c' [3; 2].
Proof.
  apply (notifier_refines log_call 10 [CRegister 1; CRegister 2; CRegister 3; CCall 7; CUnregister 1; CUnregister 1; CCall 8] chain3 [] []).
  - split; [constructor|done].
  - cbn [legal_chain legal_step]. split_and!; try done; try (by apply (bool_decide_unpack _); vm_compute); by eexists; vm_compute.
  - simpl; lia.
Defined.
