(* ===== verification/Lock.v ===== *)
(** * kernelenv.c: locks and semaphores

    A lock counts its readers or is -1 for a writer, and names its holder in a
    string allocated under [__lock_ctx]; whatever is left there at the end of a
    script is reported as a lock that was never released. *)

From Stdlib Require Import ZArith Lia.
From S2P Require Import Prelude CStr.

(** [location]: NULL or an allocated string. *)
Record spinlock_t := Spinlock { lock : Z; location : option nat }.
Definition spin_lock_init : spinlock_t := Spinlock 0 None.

Record lstate := LState {
  locks : gmap Z spinlock_t;
  __lock_ctx : gmap nat text;
  next_block : nat;
  stderr : list text;
}.

Definition lock_at (x : Z) (s : lstate) : outcome spinlock_t := of_option "spinlock: bad pointer" (locks s !! x).
Definition set_lock (x : Z) (l : spinlock_t) (s : lstate) : lstate :=
  LState (<[x := l]> (locks s)) (__lock_ctx s) (next_block s) (stderr s).
Definition fprintf_stderr (msg : text) (s : lstate) : lstate :=
  LState (locks s) (__lock_ctx s) (next_block s) (stderr s ++ [msg]).

Definition talloc_strdup (str : text) (s : lstate) : nat * lstate :=
  (next_block s, LState (locks s) (<[next_block s := str]> (__lock_ctx s)) (S (next_block s)) (stderr s)).
Definition talloc_free (p : option nat) (s : lstate) : outcome lstate :=
  match p with
  | None => mret s
  | Some b => _ ← of_option "talloc_free: freed twice" (__lock_ctx s !! b);
      mret (LState (locks s) (delete b (__lock_ctx s)) (next_block s) (stderr s))
  end.
Definition held_by (l : spinlock_t) (s : lstate) : text :=
  match location l with Some b => default (tx "(freed)") (__lock_ctx s !! b) | None => tx "(null)" end.
Definition panic {A} (msg : text) : outcome A := Barf (String.string_of_list_ascii msg).

Definition __generic_write_lock (x : Z) (loc : text) (s : lstate) : outcome lstate :=
  l ← lock_at x s;
  if negb (lock l =? 0) then
    panic (tx "write lock (called at " ++ loc ++ tx ") already held by " ++ held_by l s ++ tx ".")
  else
    let '(b, s) := talloc_strdup loc s in
    mret (set_lock x (Spinlock (-1) (Some b)) s).

Definition __generic_write_unlock (x : Z) (loc : text) (s : lstate) : outcome lstate :=
  l ← lock_at x s;
  let s := if negb (lock l =? -1) then fprintf_stderr (tx "write lock (called at " ++ loc ++ tx ") isn't held") s else s in
  s ← talloc_free (location l) s;
  mret (set_lock x (Spinlock 0 None) s).

Definition __generic_read_lock (x : Z) (loc : text) (s : lstate) : outcome lstate :=
  l ← lock_at x s;
  if lock l =? -1 then
    panic (tx "read lock (called at " ++ loc ++ tx ") already held by " ++ held_by l s ++ tx ".")
  else
    s ← talloc_free (location l) s;
    let '(b, s) := talloc_strdup loc s in
    mret (set_lock x (Spinlock (s32 (lock l + 1)) (Some b)) s).

Definition __generic_read_unlock (x : Z) (loc : text) (s : lstate) : outcome lstate :=
  l ← lock_at x s;
  let s := if lock l <=? 0 then fprintf_stderr (tx "read lock (called at " ++ loc ++ tx ") isn't held") s else s in
  let n := s32 (lock l - 1) in
  if n =? 0 then
    s ← talloc_free (location l) s; mret (set_lock x (Spinlock n None) s)
  else mret (set_lock x (Spinlock n (location l)) s).

(** ** Semaphores: a lock of its own type *)

Definition EINTR : Z := 4.

Definition __down (sem : Z) (loc : text) (s : lstate) : outcome lstate := __generic_write_lock sem loc s.
Definition __up (sem : Z) (loc : text) (s : lstate) : outcome lstate := __generic_write_unlock sem loc s.

(** [fail]: should_i_fail() at this location. *)
Definition __down_interruptible (fail : bool) (sem : Z) (loc : text) (s : lstate) : outcome (Z * lstate) :=
  if fail then mret (- EINTR, s) else s ← __down sem loc s; mret (0, s).

Definition __down_trylock (sem : Z) (loc : text) (s : lstate) : outcome (Z * lstate) :=
  l ← lock_at sem s;
  if negb (lock l =? 0) then mret (0, s) else s ← __down sem loc s; mret (1, s).

Definition sema_init (sem val : Z) (s : lstate) : outcome lstate :=
  let s := set_lock sem spin_lock_init s in
  if val =? 0 then __down sem (tx "sema_init") s
  else if negb (val =? 1) then Barf "Non-binary semaphores not supported"
  else mret s.

(** The names code takes them by: interrupts and softirqs do not come in between anyhow. *)
Definition rwlock_init (x : Z) (s : lstate) : lstate := set_lock x spin_lock_init s.
Definition spin_lock := __generic_write_lock.
Definition spin_unlock := __generic_write_unlock.
Definition spin_lock_bh := __generic_write_lock.
Definition spin_unlock_bh := __generic_write_unlock.
Definition spin_lock_irq := __generic_write_lock.
Definition spin_unlock_irq := __generic_write_unlock.
(** [f]: the variable for the flags, which counts. *)
Definition spin_lock_irqsave (x : Z) (loc : text) (f : Z) (s : lstate) : outcome (Z * lstate) :=
  s ← __generic_write_lock x loc s; mret (wrap 64 (f + 1), s).
Definition spin_unlock_irqrestore (x : Z) (loc : text) (f : Z) (s : lstate) : outcome (Z * lstate) :=
  s ← __generic_write_unlock x loc s; mret (wrap 64 (f - 1), s).
Definition read_lock := __generic_read_lock.
Definition read_unlock := __generic_read_unlock.
Definition read_lock_bh := __generic_read_lock.
Definition read_unlock_bh := __generic_read_unlock.
Definition write_lock_bh := __generic_write_lock.
Definition write_unlock_bh := __generic_write_unlock.

Definition down := __down.
Definition up := __up.
Definition down_interruptible := __down_interruptible.
Definition down_trylock := __down_trylock.
Definition init_MUTEX (sem : Z) (s : lstate) : outcome lstate := sema_init sem 1 s.
Definition mutex_init := init_MUTEX.
Definition mutex_lock := down.
Definition mutex_lock_interruptible := down_interruptible.
Definition mutex_unlock := up.

(** A lock taken with the flags saved and given back leaves the lock free and the flags as
    they were. *)
Lemma irqsave_restore x loc loc' f s : 0 <= f < 2 ^ 64 → locks s !! x = Some (Spinlock 0 None) →
  (∀ b, b ∈ dom (__lock_ctx s) → (b < next_block s)%nat) →
  ∃ s1 s2, spin_lock_irqsave x loc f s = Ret (wrap 64 (f + 1), s1) ∧ spin_unlock_irqrestore x loc' (wrap 64 (f + 1)) s1 = Ret (f, s2) ∧
    locks s2 = locks s ∧ __lock_ctx s2 = __lock_ctx s ∧ stderr s2 = stderr s.
Proof.
  intros Hf Hx Hb. assert (Hfr : __lock_ctx s !! next_block s = None) by (apply not_elem_of_dom; intros Hin; specialize (Hb _ Hin); lia).
  unfold spin_lock_irqsave, spin_unlock_irqrestore, __generic_write_lock, __generic_write_unlock, lock_at. rewrite Hx. cbn [of_option lock Z.eqb negb].
  rewrite !bind_ret. cbn [talloc_strdup set_lock]. rewrite ?bind_ret. do 2 eexists. split; [done|]. cbn [locks set_lock]. rewrite lookup_insert_eq. cbn [of_option lock location].
  rewrite bind_ret. cbn [lock]. rewrite Z.eqb_refl. cbn [negb location talloc_free __lock_ctx set_lock locks next_block stderr]. rewrite lookup_insert_eq. cbn [of_option]. rewrite !bind_ret.
  cbn [set_lock locks __lock_ctx stderr next_block]. split.
  { do 2 f_equal. unfold wrap. rewrite Zminus_mod_idemp_l. replace (f + 1 - 1) with f by lia. by apply Z.mod_small. }
  unfold set_lock. cbn [locks __lock_ctx stderr]. split_and!; [by rewrite insert_insert_eq, insert_id|by rewrite delete_insert_id|done].
Qed.

(** ** Readers-writer locks *)

Inductive holder := Free | Readers (n : nat) (loc : text) | Writer (loc : text).
#[export] Instance holder_eq_dec : EqDecision holder.
Proof. solve_decision. Defined.

Inductive lock_op :=
| WriteLock (x : Z) (loc : text) | WriteUnlock (x : Z) (loc : text)
| ReadLock (x : Z) (loc : text) | ReadUnlock (x : Z) (loc : text)
| DownTrylock (x : Z) (loc : text).

Definition lock_step (o : lock_op) (s : lstate) : outcome (Z * lstate) :=
  match o with
  | WriteLock x loc => s ← __generic_write_lock x loc s; mret (0, s)
  | WriteUnlock x loc => s ← __generic_write_unlock x loc s; mret (0, s)
  | ReadLock x loc => s ← __generic_read_lock x loc s; mret (0, s)
  | ReadUnlock x loc => s ← __generic_read_unlock x loc s; mret (0, s)
  | DownTrylock x loc => __down_trylock x loc s
  end.
Fixpoint lock_run (os : list lock_op) (s : lstate) : outcome (list Z * lstate) :=
  match os with
  | [] => mret ([], s)
  | o :: os => '(r, s) ← lock_step o s; '(rs, s) ← lock_run os s; mret (r :: rs, s)
  end.

Definition op_lock (o : lock_op) : Z :=
  match o with WriteLock x _ | WriteUnlock x _ | ReadLock x _ | ReadUnlock x _ | DownTrylock x _ => x end.

(** What a lock promises: [None] is a deadlock of the single simulated CPU. *)
Definition holder_step (o : lock_op) (h : holder) : option (Z * holder) :=
  match o, h with
  | WriteLock _ loc, Free => Some (0, Writer loc)
  | WriteLock _ _, _ => None
  | WriteUnlock _ _, _ => Some (0, Free)
  | ReadLock _ loc, Free => Some (0, Readers 0 loc)
  | ReadLock _ loc, Readers n _ => Some (0, Readers (S n) loc)
  | ReadLock _ _, Writer _ => None
  | ReadUnlock _ _, Readers (S n) loc => Some (0, Readers n loc)
  | ReadUnlock _ _, _ => Some (0, Free)
  | DownTrylock _ loc, Free => Some (1, Writer loc)
  | DownTrylock _ _, h => Some (0, h)
  end.
Fixpoint holders_run (os : list lock_op) (m : gmap Z holder) : option (list Z * gmap Z holder) :=
  match os with
  | [] => Some ([], m)
  | o :: os => h ← m !! op_lock o; '(r, h) ← holder_step o h;
      '(rs, m) ← holders_run os (<[op_lock o := h]> m); Some (r :: rs, m)
  end.

(** Every unlock is of a lock held that way, and readers fit an int. *)
Definition disciplined_op (o : lock_op) (h : holder) : Prop :=
  match o, h with
  | WriteUnlock _ _, Writer _ | ReadUnlock _ _, Readers _ _ => True
  | WriteUnlock _ _, _ | ReadUnlock _ _, _ => False
  | ReadLock _ _, Readers n _ => Z.of_nat n < 2 ^ 31 - 2
  | _, _ => True
  end.
Fixpoint disciplined (os : list lock_op) (m : gmap Z holder) : Prop :=
  match os with
  | [] => True
  | o :: os => ∃ h, m !! op_lock o = Some h ∧ disciplined_op o h ∧
      ∀ r h', holder_step o h = Some (r, h') → disciplined os (<[op_lock o := h']> m)
  end.

(** The lock that holds block [b], and the representation of a holder. *)
Definition rep_lock (ctx : gmap nat text) (l : spinlock_t) (h : holder) : Prop :=
  match h with
  | Free => l = Spinlock 0 None
  | Readers n loc => Z.of_nat n < 2 ^ 31 - 1 ∧ ∃ b, l = Spinlock (Z.of_nat n + 1) (Some b) ∧ ctx !! b = Some loc
  | Writer loc => ∃ b, l = Spinlock (-1) (Some b) ∧ ctx !! b = Some loc
  end.

Record rep (s : lstate) (m : gmap Z holder) : Prop := Rep {
  rep_each : ∀ x h, m !! x = Some h → ∃ l, locks s !! x = Some l ∧ rep_lock (__lock_ctx s) l h;
  rep_inj : ∀ x y h k lx ly b, m !! x = Some h → m !! y = Some k → locks s !! x = Some lx → locks s !! y = Some ly →
    location lx = Some b → location ly = Some b → x = y;
  rep_owner : ∀ b, is_Some (__lock_ctx s !! b) → ∃ x h l, m !! x = Some h ∧ locks s !! x = Some l ∧ location l = Some b;
  rep_fresh : ∀ b, is_Some (__lock_ctx s !! b) → (b < next_block s)%nat;
}.

Lemma rep_location s m x h l b : rep s m → m !! x = Some h → locks s !! x = Some l → location l = Some b →
  is_Some (__lock_ctx s !! b).
Proof.
  intros R Hm Hl Hb. destruct (rep_each _ _ R x h Hm) as (l' & Hl' & Hr). rewrite Hl in Hl'. injection Hl' as <-.
  destruct h; simpl in Hr.
  - by subst l.
  - destruct Hr as (_ & b' & -> & ?). simplify_eq/=. by eexists.
  - destruct Hr as (b' & -> & ?). simplify_eq/=. by eexists.
Qed.

(** Changing one lock's state without its string. *)
Lemma rep_keep s m x h l l' h' : rep s m → m !! x = Some h → locks s !! x = Some l →
  location l' = location l → rep_lock (__lock_ctx s) l' h' → rep (set_lock x l' s) (<[x := h']> m).
Proof.
  intros R Hm Hl Hloc Hr.
  assert (Hsame : ∀ y k ly, <[x := h']> m !! y = Some k → <[x := l']> (locks s) !! y = Some ly →
    ∃ k' ly', m !! y = Some k' ∧ locks s !! y = Some ly' ∧ location ly' = location ly).
  { intros y k ly. rewrite !lookup_insert. case_decide; [|by eauto]. intros [= <-] [= <-]. subst. eauto. }
  split; simpl.
  - intros y k. rewrite !lookup_insert. case_decide; [|by apply R]. intros [= <-]. by exists l'.
  - intros y z k k' ly lz b H1 H2 H3 H4 H5 H6.
    destruct (Hsame _ _ _ H1 H3) as (? & ? & ? & ? & ?). destruct (Hsame _ _ _ H2 H4) as (? & ? & ? & ? & ?).
    eapply (rep_inj _ _ R y z); [done..| |]; etrans; eauto.
  - intros b Hb. destruct (rep_owner _ _ R b Hb) as (y & k & ly & ? & ? & ?). destruct (decide (y = x)) as [->|Hne].
    + exists x, h', l'. rewrite !lookup_insert_eq. simplify_eq. by rewrite Hloc.
    + exists y, k, ly. by rewrite !lookup_insert_ne by congruence.
  - apply R.
Qed.

(** Releasing the string of a lock. *)
Lemma rep_release s m x h l b : rep s m → m !! x = Some h → locks s !! x = Some l → location l = Some b →
  ∃ s1, talloc_free (location l) s = Ret s1 ∧ locks s1 = locks s ∧ next_block s1 = next_block s ∧
    rep (set_lock x spin_lock_init s1) (<[x := Free]> m).
Proof.
  intros R Hm Hl Hb. destruct (rep_location _ _ _ _ _ _ R Hm Hl Hb) as [str Hstr]. rewrite Hb. simpl. rewrite Hstr. simpl.
  eexists. split_and!; [done..|].
  assert (Hother : ∀ y k ly, m !! y = Some k → locks s !! y = Some ly → location ly = Some b → y = x).
  { intros y k ly ? ? ?. by eapply (rep_inj _ _ R y x). }
  split; simpl.
  - intros y k. rewrite !lookup_insert. case_decide as Hxy; [intros [= <-]; by eexists|]. intros Hk.
    destruct (rep_each _ _ R y k Hk) as (ly & Hly & Hr). exists ly. split; [done|].
    destruct k; simpl in *; [done| |].
    + destruct Hr as (? & b' & -> & ?). split; [done|]. exists b'. rewrite lookup_delete_ne; [done|]. intros ->. by eapply Hxy, eq_sym, Hother.
    + destruct Hr as (b' & -> & ?). exists b'. rewrite lookup_delete_ne; [done|]. intros ->. by eapply Hxy, eq_sym, Hother.
  - intros y z k k' ly lz b'. rewrite !lookup_insert. repeat case_decide; intros; simplify_eq/=; try done.
    by eapply (rep_inj _ _ R y z).
  - intros b' [str' Hs]. apply lookup_delete_Some in Hs as [Hne Hs].
    destruct (rep_owner _ _ R b') as (y & k & ly & ? & ? & ?); [by eexists|]. exists y, k, ly.
    rewrite !lookup_insert_ne; [done|..]; intros ->; simplify_eq.
  - intros b' [str' Hs]. apply lookup_delete_Some in Hs as [_ Hs]. apply R. by eexists.
Qed.

(** Giving a free lock a string. *)
Lemma rep_acquire s m x loc n h' : rep s m → m !! x = Some Free →
  (∀ ctx b, ctx !! b = Some loc → rep_lock ctx (Spinlock n (Some b)) h') →
  let '(b, s1) := talloc_strdup loc s in rep (set_lock x (Spinlock n (Some b)) s1) (<[x := h']> m).
Proof.
  intros R Hm Hr. simpl.
  assert (Hold : ∀ y k ly, m !! y = Some k → locks s !! y = Some ly → location ly ≠ Some (next_block s)).
  { intros y k ly H1 H2 H3. pose proof (rep_fresh _ _ R _ (rep_location _ _ _ _ _ _ R H1 H2 H3)). lia. }
  split; simpl.
  - intros y k. rewrite !lookup_insert. case_decide as Hxy.
    + intros [= <-]. eexists. split; [done|]. apply Hr. apply lookup_insert_eq.
    + intros Hk. destruct (rep_each _ _ R y k Hk) as (ly & Hly & Hry). exists ly. split; [done|].
      pose proof (Hold y k ly Hk Hly) as Ho. destruct k; simpl in *; [done| |].
      * destruct Hry as (? & b' & -> & ?). split; [done|]. exists b'. rewrite lookup_insert_ne; [done|]. by intros <-.
      * destruct Hry as (b' & -> & ?). exists b'. rewrite lookup_insert_ne; [done|]. by intros <-.
  - intros y z k k' ly lz b. rewrite !lookup_insert. repeat case_decide; intros; simplify_eq/=; try done.
    + exfalso. by eapply (Hold z).
    + exfalso. by eapply (Hold y).
    + by eapply (rep_inj _ _ R y z).
  - intros b. rewrite lookup_insert. case_decide as Hb.
    + intros _. subst b. exists x, h'. eexists. by rewrite !lookup_insert_eq.
    + intros Hs. destruct (rep_owner _ _ R b Hs) as (y & k & ly & ? & ? & ?). exists y, k, ly.
      destruct (decide (y = x)) as [->|]; [|by rewrite !lookup_insert_ne by congruence].
      destruct (rep_each _ _ R x _ Hm) as (lx & ? & Hf). simpl in Hf. simplify_eq/=.
  - intros b. rewrite lookup_insert. case_decide; [lia|]. intros Hs. pose proof (rep_fresh _ _ R b Hs). lia.
Qed.

Lemma s32_count n : Z.of_nat n < 2 ^ 31 - 1 → s32 (Z.of_nat n + 1) = Z.of_nat n + 1.
Proof. intros. unfold signed. rewrite wrap_small by lia. by rewrite (proj2 (Z.ltb_lt _ _)) by lia. Qed.

Lemma lock_step_ok o s m h : rep s m → m !! op_lock o = Some h → disciplined_op o h →
  match holder_step o h with
  | Some (r, h') => ∃ s', lock_step o s = Ret (r, s') ∧ rep s' (<[op_lock o := h']> m) ∧ stderr s' = stderr s
  | None => ∃ msg, lock_step o s = Barf msg
  end.
Proof.
  intros R Hm Hd. destruct (rep_each _ _ R _ _ Hm) as (l & Hl & Hr).
  assert (Hla : lock_at (op_lock o) s = Ret l) by (unfold lock_at; by rewrite Hl).
  assert (Hacq : ∀ loc n h', (∀ ctx b, ctx !! b = Some loc → rep_lock ctx (Spinlock n (Some b)) h') → h = Free →
    rep (set_lock (op_lock o) (Spinlock n (Some (next_block s))) (talloc_strdup loc s).2) (<[op_lock o := h']> m)).
  { intros loc n h' Hc ->. by apply (rep_acquire s m (op_lock o) loc n h' R Hm). }
  destruct o as [x loc|x loc|x loc|x loc|x loc]; cbn [op_lock lock_step holder_step] in *.
  - unfold __generic_write_lock. rewrite Hla, bind_ret. destruct h as [|n hl|hl]; cbn [rep_lock] in Hr.
    + subst l. eexists. split_and!; [done| |done]. apply (Hacq loc (-1) (Writer loc)); [|done]. intros; by eexists.
    + destruct Hr as (_ & b & -> & _). cbn [lock]. rewrite (proj2 (Z.eqb_neq _ 0)) by lia. by eexists.
    + destruct Hr as (b & -> & _). by eexists.
  - destruct h as [|n hl|hl]; simpl in Hd; try done. destruct Hr as (b & -> & Hb).
    destruct (rep_release s m x _ _ b R Hm Hl eq_refl) as (s1 & E & _ & _ & R1).
    unfold __generic_write_unlock. rewrite Hla, bind_ret. cbn [lock]. change (negb (-1 =? -1)) with false. cbv iota.
    cbn [location] in E. cbn [location]. rewrite E, bind_ret. eexists. split_and!; [done|done|]. unfold talloc_free in E. rewrite Hb in E. simpl in E.
    injection E as <-. done.
  - unfold __generic_read_lock. rewrite Hla, bind_ret. destruct h as [|n hl|hl]; cbn [rep_lock] in Hr.
    + subst l. eexists. split_and!; [done| |done]. apply (Hacq loc 1 (Readers 0 loc)); [|done]. intros; split; [lia|by eexists].
    + destruct Hr as (Hn & b & -> & Hb). cbn [lock location]. rewrite (proj2 (Z.eqb_neq _ (-1))) by lia.
      destruct (rep_release s m x _ _ b R Hm Hl eq_refl) as (s1 & E & _ & _ & R1). cbn [location] in E.
      rewrite E, bind_ret. eexists. simpl in Hd. split_and!; [done| |].
      * assert (Hc : ∀ ctx b, ctx !! b = Some loc → rep_lock ctx (Spinlock (s32 (Z.of_nat n + 1 + 1)) (Some b)) (Readers (S n) loc)).
        { intros ctx b' Hc. cbn [rep_lock]. replace (Z.of_nat n + 1) with (Z.of_nat (S n)) by lia. rewrite s32_count by lia.
          split; [lia|by eexists]. }
        pose proof (rep_acquire _ _ x loc _ _ R1 (lookup_insert_eq _ _ _) Hc) as R2. unfold set_lock in *. simpl in R2.
        rewrite !insert_insert_eq in R2. exact R2.
      * unfold talloc_free in E. simpl in E. rewrite Hb in E. simpl in E. by injection E as <-.
    + destruct Hr as (b & -> & _). by eexists.
  - destruct h as [|n hl|hl]; simpl in Hd; try done. destruct Hr as (Hn & b & -> & Hb).
    unfold __generic_read_unlock. rewrite Hla, bind_ret. cbn [lock location]. rewrite (proj2 (Z.leb_gt _ 0)) by lia.
    destruct n as [|n].
    + change (s32 (Z.of_nat 0 + 1 - 1)) with 0. cbv iota. cbn [Z.eqb].
      destruct (rep_release s m x _ _ b R Hm Hl eq_refl) as (s1 & E & _ & _ & R1). cbn [location] in E. rewrite E, bind_ret.
      eexists. split_and!; [done|done|]. unfold talloc_free in E. rewrite Hb in E. simpl in E. by injection E as <-.
    + replace (Z.of_nat (S n) + 1 - 1) with (Z.of_nat n + 1) by lia. rewrite s32_count by lia.
      rewrite (proj2 (Z.eqb_neq _ 0)) by lia. eexists. split_and!; [done| |done].
      eapply rep_keep; [done..| |]; [done|]. split; [lia|]. by exists b.
  - unfold __down_trylock. rewrite Hla, bind_ret. destruct h as [|n hl|hl]; cbn [rep_lock] in Hr.
    + subst l. cbn [lock]. change (negb (0 =? 0)) with false. cbv iota. unfold __down, __generic_write_lock.
      rewrite Hla, bind_ret. cbn [lock]. eexists. split_and!; [done| |done]. apply (Hacq loc (-1) (Writer loc)); [|done].
      intros; by eexists.
    + destruct Hr as (_ & b & -> & _). cbn [lock]. rewrite (proj2 (Z.eqb_neq _ 0)) by lia. exists s.
      split_and!; [done| |done]. by rewrite insert_id.
    + destruct Hr as (b & -> & _). exists s. split_and!; [done| |done]. by rewrite insert_id.
Qed.

Lemma rep_all_free s m : rep s m → (__lock_ctx s = ∅ ↔ ∀ x h, m !! x = Some h → h = Free).
Proof.
  intros R. split.
  - intros He x h Hm. destruct (rep_each _ _ R x h Hm) as (l & Hl & Hr). rewrite He in Hr.
    destruct h; [done| |]; simpl in Hr; naive_solver.
  - intros Hf. apply map_empty. intros b. destruct (__lock_ctx s !! b) as [str|] eqn:E; [|done]. exfalso.
    destruct (rep_owner _ _ R b) as (x & h & lx & Hm & Hl & Hb); [by eexists|].
    destruct (rep_each _ _ R x h Hm) as (l' & Hl' & Hr). rewrite (Hf x h Hm) in Hr. simpl in Hr. simplify_eq/=.
Qed.

(** C19: locks used with discipline are readers-writer locks: a run returns exactly
    when the abstract locks can move (else the simulator stops, as the one CPU would
    hang), nothing is reported on stderr, and at the end strings are left under
    [__lock_ctx] iff some lock is still held. *)
Theorem rwlock_refines (os : list lock_op) (s : lstate) (m : gmap Z holder) :
  rep s m → disciplined os m →
  (∀ rs m', holders_run os m = Some (rs, m') →
    ∃ s', lock_run os s = Ret (rs, s') ∧ stderr s' = stderr s ∧
      (__lock_ctx s' = ∅ ↔ ∀ x h, m' !! x = Some h → h = Free) ∧ rep s' m') ∧
  (holders_run os m = None → ∃ msg, lock_run os s = Barf msg).
Proof.
  revert s m. induction os as [|o os IH]; intros s m R HD; cbn [holders_run lock_run].
  - split; [|done]. intros rs m' [= <- <-]. exists s. split_and!; [done..|by apply rep_all_free|done].
  - destruct HD as (h & Hm & Hd & HD). rewrite Hm. cbn [mbind option_bind].
    pose proof (lock_step_ok o s m h R Hm Hd) as Hs. destruct (holder_step o h) as [[r h']|]; cbn [mbind option_bind].
    + destruct Hs as (s1 & -> & R1 & He). rewrite bind_ret. specialize (IH s1 _ R1 (HD r h' eq_refl)).
      destruct (holders_run os _) as [[rs1 m1]|]; cbn [mbind option_bind]; destruct IH as [IH1 IH2]; split; try done.
      * intros rs m' [= <- <-]. destruct (IH1 _ _ eq_refl) as (s' & -> & He' & Hc & R'). rewrite bind_ret.
        exists s'. split_and!; [done|congruence|done|done].
      * intros _. destruct (IH2 eq_refl) as (msg & ->). by eexists.
    + split; [done|]. intros _. destruct Hs as (msg & ->). by eexists.
Qed.

Definition free_locks : lstate := LState (<[1 := spin_lock_init]> {[2 := spin_lock_init]}) ∅ 0 [].
Definition free_holders : gmap Z holder := <[1 := Free]> {[2 := Free]}.
Definition demo_locks : list lock_op :=
  [ReadLock 1 (tx "a"); DownTrylock 2 (tx "b"); ReadLock 1 (tx "c"); DownTrylock 1 (tx "d"); WriteUnlock 2 (tx "e");
   ReadUnlock 1 (tx "f"); ReadUnlock 1 (tx "g")].

Lemma free_locks_rep : rep free_locks free_holders.
Proof.
  unfold free_locks, free_holders. split; simpl.
  - intros x h. rewrite !lookup_insert, !lookup_singleton. repeat case_decide; intros [= <-]; by eexists.
  - intros x y h k lx ly b _ _. rewrite !lookup_insert, !lookup_singleton. repeat case_decide; intros; simplify_eq/=.
  - intros b [? Hb]. by rewrite lookup_empty in Hb.
  - intros b [? Hb]. by rewrite lookup_empty in Hb.
Qed.

Lemma rwlock_refines_witness :
  (∃ s', lock_run demo_locks free_locks = Ret ([0; 1; 0; 0; 0; 0; 0], s') ∧ stderr s' = [] ∧
    (__lock_ctx s' = ∅ ↔ ∀ x h, free_holders !! x = Some h → h = Free) ∧ rep s' free_holders) ∧
  (∃ msg, lock_run [ReadLock 1 (tx "a"); WriteLock 1 (tx "b")] free_locks = Barf msg).
Proof.
  split.
  - apply (proj1 (rwlock_refines demo_locks free_locks free_holders free_locks_rep
      ltac:(repeat (eexists; split; [by vm_compute|split; [by vm_compute|intros ? ? [= <- <-]]]); exact I))).
    by vm_compute.
  - apply (proj2 (rwlock_refines [ReadLock 1 (tx "a"); WriteLock 1 (tx "b")] free_locks free_holders free_locks_rep
      ltac:(eexists; split; [by vm_compute|split; [by vm_compute|intros ? ? [= <- <-]]];
            eexists; split; [by vm_compute|split; [by vm_compute|done]]))).
    by vm_compute.
Defined.

(** Unlocking a lock that is not read-locked leaves it looking write-locked. *)
Lemma read_unlock_unheld :
  match __generic_read_unlock 1 (tx "x") free_locks with
  | Ret s => stderr s ≠ [] ∧ (∃ m, __generic_write_lock 1 (tx "y") s = Barf m)
  | _ => False
  end.
Proof. vm_compute. split; [done|by eexists]. Qed.

(** down_trylock returns 1 when it took the semaphore; Linux' returns 0 then. *)
Lemma down_trylock_value :
  match __down_trylock 1 (tx "x") free_locks with Ret (r, s) => r = 1 ∧ lock <$> locks s !! 1 = Some (-1) | _ => False end.
Proof. by vm_compute. Qed.

(** A location stays on record for only the last reader, so releases in another
    order than last-first name the wrong holder. *)
Lemma reader_location_lost :
  match lock_run [ReadLock 1 (tx "a"); ReadLock 1 (tx "b"); ReadUnlock 1 (tx "b")] free_locks with
  | Ret (_, s) => held_by (default spin_lock_init (locks s !! 1)) s = tx "b"
  | _ => False
  end.
Proof. by vm_compute. Qed.
