(* ===== verification/Talloc.v ===== *)
(** * core/talloc.c: the hierarchical allocator

    A chunk and the pointer behind its header are one address here, and 0 is NULL.
    A chunk that was freed is not in the heap any more, so every use of it is
    undefined.  The first child of a chunk points to its parent; siblings are a
    doubly linked list.  The payload of a chunk is its bytes or, for a reference,
    a [talloc_reference_handle]. *)

From Stdlib Require Import ZArith Lia.
From S2P Require Import Prelude CStr Mem.

Definition MAX_TALLOC_SIZE : Z := 0x10000000.

(** [talloc_destructor_t]: NULL, -1 while it runs, talloc_reference_destructor, or a
    function of the program. *)
Inductive dtor := DNull | DRunning | DReference | DUser (f : Z).
(** The name: NULL, TALLOC_MAGIC_REFERENCE, a constant, or a talloc'ed string. *)
Inductive cname := NNull | NReference | NConst (t : text) | NPtr (p : Z).

Record chunk := Chunk {
  next : Z; prev : Z; parent : Z; child : Z; refs : Z;
  size : Z; destructor : dtor; name : cname;
  bytes : list Z;
  (** struct talloc_reference_handle *)
  hnext : Z; hprev : Z; hptr : Z;
}.
Definition set_next (x : Z) (c : chunk) : chunk :=
  Chunk x (prev c) (parent c) (child c) (refs c) (size c) (destructor c) (name c) (bytes c) (hnext c) (hprev c) (hptr c).
Definition set_prev (x : Z) (c : chunk) : chunk :=
  Chunk (next c) x (parent c) (child c) (refs c) (size c) (destructor c) (name c) (bytes c) (hnext c) (hprev c) (hptr c).
Definition set_parent (x : Z) (c : chunk) : chunk :=
  Chunk (next c) (prev c) x (child c) (refs c) (size c) (destructor c) (name c) (bytes c) (hnext c) (hprev c) (hptr c).
Definition set_child (x : Z) (c : chunk) : chunk :=
  Chunk (next c) (prev c) (parent c) x (refs c) (size c) (destructor c) (name c) (bytes c) (hnext c) (hprev c) (hptr c).
Definition set_refs (x : Z) (c : chunk) : chunk :=
  Chunk (next c) (prev c) (parent c) (child c) x (size c) (destructor c) (name c) (bytes c) (hnext c) (hprev c) (hptr c).
Definition set_dtor (d : dtor) (c : chunk) : chunk :=
  Chunk (next c) (prev c) (parent c) (child c) (refs c) (size c) d (name c) (bytes c) (hnext c) (hprev c) (hptr c).
Definition set_cname (n : cname) (c : chunk) : chunk :=
  Chunk (next c) (prev c) (parent c) (child c) (refs c) (size c) (destructor c) n (bytes c) (hnext c) (hprev c) (hptr c).
Definition set_data (sz : Z) (b : list Z) (c : chunk) : chunk :=
  Chunk (next c) (prev c) (parent c) (child c) (refs c) sz (destructor c) (name c) b (hnext c) (hprev c) (hptr c).
Definition set_handle (n p x : Z) (c : chunk) : chunk :=
  Chunk (next c) (prev c) (parent c) (child c) (refs c) (size c) (destructor c) (name c) (bytes c) n p x.

Record tstate (W : Type) := TState {
  heap : gmap Z chunk;
  null_context : Z;
  cleanup_context : Z;
  world : W;
}.
Arguments TState {W}. Arguments heap {W}. Arguments null_context {W}. Arguments cleanup_context {W}. Arguments world {W}.

(** The C library's allocator.  What memory holds before it is written is [garbage]: at this
    address, in this state of the heap, that many bytes. *)
Class Malloc := {
  malloc : gmap Z chunk → Z → option Z;
  (** Whether [realloc] moves the block, and where to. *)
  realloc : gmap Z chunk → Z → Z → option Z;
  garbage : gmap Z chunk → Z → Z → list Z;
}.
Class MallocLaws `{Malloc} := {
  malloc_fresh : ∀ h n a, malloc h n = Some a → a ≠ 0 ∧ h !! a = None;
  realloc_fresh : ∀ h p n a, realloc h p n = Some a → a ≠ 0 ∧ (a = p ∨ h !! a = None);
  garbage_length : ∀ h a n, length (garbage h a n) = Z.to_nat n;
}.

(** The two intrusive lists that use the _TLIST macros. *)
Class Links := { l_next : chunk → Z; l_prev : chunk → Z; l_set_next : Z → chunk → chunk; l_set_prev : Z → chunk → chunk }.
Definition siblings : Links := {| l_next := next; l_prev := prev; l_set_next := set_next; l_set_prev := set_prev |}.
Definition handles : Links := {|
  l_next := hnext; l_prev := hprev;
  l_set_next := λ x c, set_handle x (hprev c) (hptr c) c; l_set_prev := λ x c, set_handle (hnext c) x (hptr c) c |}.

Section Talloc.
Context {W : Type} `{Malloc}.
Abbreviation st := (tstate W).
Context (run_destructor : Z → Z → st → outcome (Z * st)).

Definition with_heap (h : gmap Z chunk) (s : st) : st := TState h (null_context s) (cleanup_context s) (world s).

Definition talloc_chunk_from_ptr (ptr : Z) (s : st) : outcome chunk :=
  of_option "talloc_chunk_from_ptr: bad talloc magic value" (heap s !! ptr).
Definition modify (p : Z) (f : chunk → chunk) (s : st) : outcome st :=
  c ← talloc_chunk_from_ptr p s; mret (with_heap (<[p := f c]> (heap s)) s).

(** _TLIST_ADD and _TLIST_REMOVE: the new value of the list head. *)
Definition TLIST_ADD (L : Links) (list p : Z) (s : st) : outcome (Z * st) :=
  if list =? 0 then s ← modify p (λ c, l_set_next 0 (l_set_prev 0 c)) s; mret (p, s)
  else
    s ← modify list (l_set_prev p) s;
    s ← modify p (l_set_next list) s;
    s ← modify p (l_set_prev 0) s;
    mret (p, s).

Definition TLIST_REMOVE (L : Links) (list p : Z) (s : st) : outcome (Z * st) :=
  c ← talloc_chunk_from_ptr p s;
  '(list, s) ←
    (if p =? list then
       let list := l_next c in
       s ← (if list =? 0 then mret s else modify list (l_set_prev 0) s); mret (list, s)
     else
       s ← (if l_prev c =? 0 then mret s else modify (l_prev c) (l_set_next (l_next c)) s);
       c ← talloc_chunk_from_ptr p s;
       s ← (if l_next c =? 0 then mret s else modify (l_next c) (l_set_prev (l_prev c)) s); mret (list, s));
  s ← (if (p =? 0) || (p =? list) then mret s else modify p (λ c, l_set_next 0 (l_set_prev 0 c)) s);
  mret (list, s).

(** ** Parents *)

(** [while (tc->prev) tc = tc->prev; return tc->parent] *)
Fixpoint first_sibling (fuel : nat) (tc : Z) (s : st) : outcome Z :=
  c ← talloc_chunk_from_ptr tc s;
  if prev c =? 0 then mret (parent c) else
  match fuel with O => Fault "talloc_parent_chunk: out of fuel" | S fuel => first_sibling fuel (prev c) s end.
Definition talloc_parent_chunk (ptr : Z) (s : st) : outcome Z := first_sibling (base.size (heap s)) ptr s.
Definition talloc_parent (ptr : Z) (s : st) : outcome Z :=
  tc ← talloc_parent_chunk ptr s;
  if tc =? 0 then Fault "talloc_parent: tc + 1 for a null tc" else mret tc.

(** ** Allocation *)

Definition new_chunk (sz : Z) (g : list Z) : chunk := Chunk 0 0 0 0 0 sz DNull NNull g 0 0 0.

Definition or_null_context (context : Z) (s : st) : Z := if context =? 0 then null_context s else context.

(** [tc->parent = parent; if (parent->child) parent->child->parent = NULL; _TLIST_ADD (parent->child, tc)] *)
Definition add_child (parent tc : Z) (s : st) : outcome st :=
  s ← modify tc (set_parent parent) s;
  pc ← talloc_chunk_from_ptr parent s;
  s ← (if child pc =? 0 then mret s else modify (child pc) (set_parent 0) s);
  '(l, s) ← TLIST_ADD siblings (child pc) tc s;
  modify parent (set_child l) s.

(** The new chunk's bytes are not initialised. *)
Definition _talloc (context sz : Z) (s : st) : outcome (Z * st) :=
  let context := or_null_context context s in
  if MAX_TALLOC_SIZE <=? sz then mret (0, s) else
  match malloc (heap s) sz with
  | None => mret (0, s)
  | Some tc =>
      let s := with_heap (<[tc := new_chunk sz (garbage (heap s) tc sz)]> (heap s)) s in
      if negb (context =? 0) then s ← add_child context tc s; mret (tc, s) else mret (tc, s)
  end.

Definition talloc_set_destructor (ptr : Z) (d : dtor) (s : st) : outcome st := modify ptr (set_dtor d) s.
Definition talloc_set_name_const (ptr : Z) (n : cname) (s : st) : outcome st := modify ptr (set_cname n) s.
Definition talloc_named_const (context sz : Z) (n : cname) (s : st) : outcome (Z * st) :=
  '(ptr, s) ← _talloc context sz s;
  if ptr =? 0 then mret (0, s) else s ← talloc_set_name_const ptr n s; mret (ptr, s).

Definition talloc_reference (context ptr : Z) (s : st) : outcome (Z * st) :=
  if ptr =? 0 then mret (0, s) else
  _ ← talloc_chunk_from_ptr ptr s;
  '(h, s) ← talloc_named_const context 24 NReference s;
  if h =? 0 then mret (0, s) else
  s ← talloc_set_destructor h DReference s;
  s ← modify h (λ c, set_handle (hnext c) (hprev c) ptr c) s;
  tc ← talloc_chunk_from_ptr ptr s;
  '(l, s) ← TLIST_ADD handles (refs tc) h s;
  s ← modify ptr (set_refs l) s;
  mret (ptr, s).
Definition talloc_increase_ref_count (ptr : Z) (s : st) : outcome st :=
  '(_, s) ← talloc_reference (null_context s) ptr s; mret s.

(** ** Moving and freeing *)

(** Take [tc] out of its siblings: the code of talloc_free and talloc_steal. *)
Definition unlink_chunk (ptr : Z) (s : st) : outcome st :=
  tc ← talloc_chunk_from_ptr ptr s;
  if negb (parent tc =? 0) then
    pc ← talloc_chunk_from_ptr (parent tc) s;
    '(l, s) ← TLIST_REMOVE siblings (child pc) ptr s;
    s ← modify (parent tc) (set_child l) s;
    if l =? 0 then mret s else modify l (set_parent (parent tc)) s
  else
    s ← (if prev tc =? 0 then mret s else modify (prev tc) (set_next (next tc)) s);
    if next tc =? 0 then mret s else modify (next tc) (set_prev (prev tc)) s.

Definition talloc_steal (new_ctx ptr : Z) (s : st) : outcome (Z * st) :=
  if ptr =? 0 then mret (0, s) else
  let new_ctx := or_null_context new_ctx s in
  _ ← talloc_chunk_from_ptr ptr s;
  if new_ctx =? 0 then
    s ← unlink_chunk ptr s;
    s ← modify ptr (λ c, set_parent 0 (set_next 0 (set_prev 0 c))) s;
    mret (ptr, s)
  else
    _ ← talloc_chunk_from_ptr new_ctx s;
    if ptr =? new_ctx then mret (ptr, s) else
    s ← unlink_chunk ptr s;
    s ← add_child new_ctx ptr s;
    mret (ptr, s).

(** [handle->ptr]'s list of references loses the handle; [free] is talloc_free. *)
Definition talloc_reference_destructor (free : Z → st → outcome (Z * st)) (ptr : Z) (s : st) : outcome (Z * st) :=
  tc1 ← talloc_chunk_from_ptr ptr s;
  tc2 ← talloc_chunk_from_ptr (hptr tc1) s;
  s ← (match destructor tc1 with DRunning => mret s | _ => talloc_set_destructor ptr DNull s end);
  '(l, s) ← TLIST_REMOVE handles (refs tc2) ptr s;
  s ← modify (hptr tc1) (set_refs l) s;
  '(_, s) ← free ptr s;
  mret (0, s).

Definition call_destructor (free : Z → st → outcome (Z * st)) (d : dtor) (ptr : Z) (s : st) : outcome (Z * st) :=
  match d with
  | DUser f => run_destructor f ptr s
  | DReference => talloc_reference_destructor free ptr s
  | _ => Fault "call of a null destructor"
  end.

(** The child that could not be freed goes to the holder of a reference to it, to
    our parent, or to the null context. *)
Fixpoint talloc_free_children (fuel : nat) (free : Z → st → outcome (Z * st)) (ptr : Z) (s : st) : outcome st :=
  tc ← talloc_chunk_from_ptr ptr s;
  if child tc =? 0 then mret s else
  match fuel with
  | O => Fault "talloc_free_children: out of fuel"
  | S fuel =>
      c ← talloc_chunk_from_ptr (child tc) s;
      new_parent ← (if refs c =? 0 then mret (null_context s) else
                      p ← talloc_parent_chunk (refs c) s; mret (if p =? 0 then null_context s else p));
      '(r, s) ← free (child tc) s;
      s ← (if r =? -1 then
             new_parent ← (if new_parent =? null_context s then
                             p ← talloc_parent_chunk ptr s; mret (if p =? 0 then new_parent else p)
                           else mret new_parent);
             '(_, s) ← talloc_steal new_parent (child tc) s; mret s
           else mret s);
      talloc_free_children fuel free ptr s
  end.

Fixpoint talloc_free (fuel : nat) (ptr : Z) (s : st) : outcome (Z * st) :=
  if ptr =? 0 then mret (-1, s) else
  tc ← talloc_chunk_from_ptr ptr s;
  match fuel with
  | O => Fault "talloc_free: out of fuel"
  | S fuel =>
      if negb (refs tc =? 0) then '(_, s) ← talloc_reference_destructor (talloc_free fuel) (refs tc) s; mret (-1, s) else
      let finish (s : st) :=
        s ← talloc_free_children fuel (talloc_free fuel) ptr s;
        s ← unlink_chunk ptr s;
        _ ← talloc_chunk_from_ptr ptr s;
        mret (0, with_heap (delete ptr (heap s)) s) in
      match destructor tc with
      | DNull => finish s
      | DRunning => mret (-1, s)
      | d =>
          s ← talloc_set_destructor ptr DRunning s;
          '(r, s) ← call_destructor (talloc_free fuel) d ptr s;
          if r =? -1 then s ← talloc_set_destructor ptr d s; mret (-1, s) else
          s ← talloc_set_destructor ptr DNull s;
          finish s
      end
  end.

(** ** References taken back *)

(** The handle in [context] among those from [h] on. *)
Fixpoint find_handle (fuel : nat) (context h : Z) (s : st) : outcome Z :=
  if h =? 0 then mret 0 else
  match fuel with
  | O => Fault "talloc_unreference: out of fuel"
  | S fuel =>
      p ← talloc_parent_chunk h s;
      if p =? context then mret h else
      c ← talloc_chunk_from_ptr h s; find_handle fuel context (hnext c) s
  end.
Definition talloc_unreference (fuel : nat) (context ptr : Z) (s : st) : outcome (Z * st) :=
  tc ← talloc_chunk_from_ptr ptr s;
  let context := or_null_context context s in
  h ← find_handle (base.size (heap s)) context (refs tc) s;
  if h =? 0 then mret (-1, s) else
  s ← talloc_set_destructor h DNull s;
  '(l, s) ← TLIST_REMOVE handles (refs tc) h s;
  s ← modify ptr (set_refs l) s;
  '(_, s) ← talloc_free fuel h s;
  mret (0, s).

Definition talloc_unlink (fuel : nat) (context ptr : Z) (s : st) : outcome (Z * st) :=
  if ptr =? 0 then mret (-1, s) else
  let context := or_null_context context s in
  '(r, s) ← talloc_unreference fuel context ptr s;
  if r =? 0 then mret (0, s) else
  _ ← (if context =? 0 then mret () else _ ← talloc_chunk_from_ptr context s; mret ());
  p ← talloc_parent_chunk ptr s;
  if negb (p =? context) then mret (-1, s) else
  tc_p ← talloc_chunk_from_ptr ptr s;
  if refs tc_p =? 0 then talloc_free fuel ptr s else
  new_parent ← talloc_parent_chunk (refs tc_p) s;
  '(r, s) ← talloc_unreference fuel new_parent ptr s;
  if negb (r =? 0) then mret (-1, s) else
  '(_, s) ← talloc_steal new_parent ptr s;
  mret (0, s).

(** ** Changing the size *)

(** The pointers to [tc] that realloc repairs; the bytes the chunk grows by are not initialised. *)
Definition _talloc_realloc (fuel : nat) (context ptr sz : Z) (n : cname) (s : st) : outcome (Z * st) :=
  if sz =? 0 then '(_, s) ← talloc_free fuel ptr s; mret (0, s) else
  if MAX_TALLOC_SIZE <=? sz then mret (0, s) else
  if ptr =? 0 then talloc_named_const context sz n s else
  tc ← talloc_chunk_from_ptr ptr s;
  if negb (refs tc =? 0) then mret (0, s) else
  match realloc (heap s) ptr sz with
  | None => mret (0, s)
  | Some new_ptr =>
      let tc := set_data (size tc) (take (Z.to_nat sz) (bytes tc) ++ garbage (heap s) new_ptr (sz - zlen (bytes tc))) tc in
      let s := with_heap (<[new_ptr := tc]> (delete ptr (heap s))) s in
      s ← (if parent tc =? 0 then mret s else modify (parent tc) (set_child new_ptr) s);
      s ← (if child tc =? 0 then mret s else modify (child tc) (set_parent new_ptr) s);
      s ← (if prev tc =? 0 then mret s else modify (prev tc) (set_next new_ptr) s);
      s ← (if next tc =? 0 then mret s else modify (next tc) (set_prev new_ptr) s);
      s ← modify new_ptr (λ c, set_data sz (bytes c) c) s;
      s ← talloc_set_name_const new_ptr n s;
      mret (new_ptr, s)
  end.

(** ** Names *)

(** The NUL-terminated string at the start of a chunk's bytes. *)
Definition c_str (b : list Z) : outcome text :=
  let t := map chr b in
  match strchr t NUL with
  | Some n => if (n <? length t)%nat then mret (take n t) else Fault "string without terminator"
  | None => Fault "string without terminator"
  end.
Definition talloc_get_name (ptr : Z) (s : st) : outcome text :=
  tc ← talloc_chunk_from_ptr ptr s;
  match name tc with
  | NReference => mret (tx ".reference")
  | NConst t => mret t
  | NPtr p => c ← talloc_chunk_from_ptr p s; c_str (bytes c)
  | NNull => mret (tx "UNNAMED")
  end.
Definition talloc_check_name (ptr : Z) (n : text) (s : st) : outcome Z :=
  if ptr =? 0 then mret 0 else
  pname ← talloc_get_name ptr s; mret (if streq pname n then ptr else 0).

(** ** Data *)

Definition write_bytes (ptr : Z) (b : list Z) (s : st) : outcome st :=
  c ← talloc_chunk_from_ptr ptr s;
  m ← store 0 b (bytes c);
  modify ptr (set_data (size c) m) s.
Definition _talloc_zero (ctx sz : Z) (n : cname) (s : st) : outcome (Z * st) :=
  '(p, s) ← talloc_named_const ctx sz n s;
  if p =? 0 then mret (0, s) else s ← write_bytes p (replicate (Z.to_nat sz) 0) s; mret (p, s).
Definition _talloc_memdup (t : Z) (p : list Z) (sz : Z) (n : cname) (s : st) : outcome (Z * st) :=
  '(newp, s) ← talloc_named_const t sz n s;
  if newp =? 0 then mret (0, s) else b ← slice 0 sz p; s ← write_bytes newp b s; mret (newp, s).
(** [p] is NULL or the characters before the terminator. *)
Definition talloc_strdup (t : Z) (p : option text) (s : st) : outcome (Z * st) :=
  match p with
  | None => mret (0, s)
  | Some p =>
      '(ret, s) ← _talloc_memdup t (map code p ++ [0]) (zlen p + 1) NNull s;
      if ret =? 0 then mret (0, s) else s ← talloc_set_name_const ret (NPtr ret) s; mret (ret, s)
  end.
Definition talloc_strndup (t : Z) (p : text) (n : Z) (s : st) : outcome (Z * st) :=
  let len := Z.min n (zlen p) in
  '(ret, s) ← _talloc t (len + 1) s;
  if ret =? 0 then mret (0, s) else
  s ← write_bytes ret (map code (ztake len p) ++ [0]) s;
  s ← talloc_set_name_const ret (NPtr ret) s;
  mret (ret, s).
(** [msg] is the formatted text. *)
Definition talloc_vasprintf (t : Z) (msg : text) (s : st) : outcome (Z * st) :=
  '(ret, s) ← _talloc t (zlen msg + 1) s;
  if ret =? 0 then mret (0, s) else
  s ← write_bytes ret (map code msg ++ [0]) s;
  s ← talloc_set_name_const ret (NPtr ret) s;
  mret (ret, s).
Definition talloc_set_name_v (ptr : Z) (msg : text) (s : st) : outcome st :=
  '(n, s) ← talloc_vasprintf ptr msg s;
  s ← talloc_set_name_const ptr (if n =? 0 then NNull else NPtr n) s;
  if n =? 0 then mret s else talloc_set_name_const n (NConst (tx ".name")) s.
Definition talloc_named (context sz : Z) (msg : text) (s : st) : outcome (Z * st) :=
  '(ptr, s) ← _talloc context sz s;
  if ptr =? 0 then mret (0, s) else s ← talloc_set_name_v ptr msg s; mret (ptr, s).
Definition talloc_init (msg : text) (s : st) : outcome (Z * st) := talloc_named 0 0 msg s.

Definition _talloc_array (ctx el_size count : Z) (n : cname) (s : st) : outcome (Z * st) :=
  if MAX_TALLOC_SIZE / el_size <=? count then mret (0, s) else talloc_named_const ctx (el_size * count) n s.
Definition _talloc_zero_array (ctx el_size count : Z) (n : cname) (s : st) : outcome (Z * st) :=
  if MAX_TALLOC_SIZE / el_size <=? count then mret (0, s) else _talloc_zero ctx (el_size * count) n s.
Definition _talloc_realloc_array (fuel : nat) (ctx ptr el_size count : Z) (n : cname) (s : st) : outcome (Z * st) :=
  if MAX_TALLOC_SIZE / el_size <=? count then mret (0, s) else _talloc_realloc fuel ctx ptr (el_size * count) n s.
Definition talloc_realloc_fn (fuel : nat) (context ptr sz : Z) (s : st) : outcome (Z * st) := _talloc_realloc fuel context ptr sz NNull s.

Definition talloc_vasprintf_append (fuel : nat) (p : Z) (msg : text) (s : st) : outcome (Z * st) :=
  if p =? 0 then talloc_vasprintf 0 msg s else
  tc ← talloc_chunk_from_ptr p s;
  let s_len := s32 (size tc - 1) in
  '(p, s) ← _talloc_realloc_array fuel 0 p 1 (u32 (s_len + zlen msg + 1)) (NConst (tx "char")) s;
  if p =? 0 then mret (0, s) else
  c ← talloc_chunk_from_ptr p s;
  m ← store s_len (map code msg ++ [0]) (bytes c);
  s ← modify p (set_data (size c) m) s;
  s ← talloc_set_name_const p (NPtr p) s;
  mret (p, s).

(** ** Reports *)

(** The sum over a list of siblings. *)
Fixpoint total_children (total : Z → st → outcome Z) (fuel : nat) (c : Z) (s : st) : outcome Z :=
  if c =? 0 then mret 0 else
  match fuel with
  | O => Fault "talloc_total: out of fuel"
  | S fuel => t ← total c s; tc ← talloc_chunk_from_ptr c s; r ← total_children total fuel (next tc) s; mret (t + r)
  end.
(** The sum over a chunk and the chunks below it. *)
Fixpoint talloc_total (weight : chunk → Z) (fuel : nat) (ptr : Z) (s : st) : outcome Z :=
  match fuel with
  | O => Fault "talloc_total: out of fuel"
  | S fuel =>
      tc ← talloc_chunk_from_ptr ptr s;
      r ← total_children (talloc_total weight fuel) (S fuel) (child tc) s;
      mret (weight tc + r)
  end.
Definition talloc_total_size (ptr : Z) (s : st) : outcome Z :=
  let ptr := or_null_context ptr s in
  if ptr =? 0 then mret 0 else talloc_total size (base.size (heap s)) ptr s.
Definition talloc_total_blocks (ptr : Z) (s : st) : outcome Z := talloc_total (λ _, 1) (base.size (heap s)) ptr s.
Fixpoint count_handles (fuel : nat) (h : Z) (s : st) : outcome Z :=
  if h =? 0 then mret 0 else
  match fuel with
  | O => Fault "talloc_reference_count: out of fuel"
  | S fuel => c ← talloc_chunk_from_ptr h s; n ← count_handles fuel (hnext c) s; mret (1 + n)
  end.
Definition talloc_reference_count (ptr : Z) (s : st) : outcome Z :=
  tc ← talloc_chunk_from_ptr ptr s; count_handles (base.size (heap s)) (refs tc) s.

Definition pad_left (n : nat) (t : text) : text := replicate (n - length t) " "%char ++ t.
Definition pad_right (n : nat) (t : text) : text := t ++ replicate (n - length t) " "%char.

Fixpoint talloc_report_depth (fuel : nat) (ptr : Z) (depth : nat) (s : st) : outcome (list text) :=
  match fuel with
  | O => Fault "talloc_report_depth: out of fuel"
  | S fuel =>
      let report := fix report (n : nat) (c : Z) : outcome (list text) :=
        if c =? 0 then mret [] else
        match n with
        | O => Fault "talloc_report_depth: out of fuel"
        | S n =>
            tc ← talloc_chunk_from_ptr c s;
            ls ← (match name tc with
                  | NReference =>
                      name2 ← talloc_get_name (hptr tc) s;
                      mret [pad_left (depth * 4) [] ++ tx "reference to: " ++ name2]
                  | _ =>
                      nm ← talloc_get_name c s;
                      sz ← talloc_total_size c s; blocks ← talloc_total_blocks c s; rc ← talloc_reference_count c s;
                      below ← talloc_report_depth fuel c (S depth) s;
                      mret ((pad_left (depth * 4) [] ++ pad_right 30 nm ++ tx " contains " ++ pad_left 6 (print_u sz) ++ tx " bytes in " ++
                        pad_left 3 (print_u blocks) ++ tx " blocks (ref " ++ print_d rc ++ tx ")") :: below)
                  end);
            rest ← report n (next tc);
            mret (ls ++ rest)
        end in
      tc ← talloc_chunk_from_ptr ptr s;
      report (S fuel) (child tc)
  end.

Definition report_head (what : text) (ptr : Z) (s : st) : outcome text :=
  nm ← talloc_get_name ptr s; sz ← talloc_total_size ptr s; blocks ← talloc_total_blocks ptr s;
  mret (what ++ tx " on '" ++ nm ++ tx "' (total " ++ print_u sz ++ tx " bytes in " ++ print_u blocks ++ tx " blocks)").
Definition talloc_report_full (ptr : Z) (s : st) : outcome (list text) :=
  let ptr := or_null_context ptr s in
  if ptr =? 0 then mret [] else
  h ← report_head (tx "full talloc report") ptr s;
  ls ← talloc_report_depth (base.size (heap s)) ptr 1 s; mret (h :: ls).
Fixpoint report_children (fuel : nat) (c : Z) (s : st) : outcome (list text) :=
  if c =? 0 then mret [] else
  match fuel with
  | O => Fault "talloc_report: out of fuel"
  | S fuel =>
      tc ← talloc_chunk_from_ptr c s;
      nm ← talloc_get_name c s; sz ← talloc_total_size c s; blocks ← talloc_total_blocks c s;
      rest ← report_children fuel (next tc) s;
      mret ((chr 9 :: pad_right 30 nm ++ tx " contains " ++ pad_left 6 (print_u sz) ++ tx " bytes in " ++
        pad_left 3 (print_u blocks) ++ tx " blocks") :: rest)
  end.
Definition talloc_report (ptr : Z) (s : st) : outcome (list text) :=
  let ptr := or_null_context ptr s in
  if ptr =? 0 then mret [] else
  h ← report_head (tx "talloc report") ptr s;
  tc ← talloc_chunk_from_ptr ptr s;
  ls ← report_children (base.size (heap s)) (child tc) s; mret (h :: ls).

Definition talloc_enable_null_tracking (s : st) : outcome st :=
  if null_context s =? 0 then
    '(p, s) ← talloc_named_const 0 0 (NConst (tx "null_context")) s;
    mret (TState (heap s) p (cleanup_context s) (world s))
  else mret s.
(** What is reported on exit. *)
Definition talloc_report_null (report : Z → st → outcome (list text)) (s : st) : outcome (list text) :=
  n ← talloc_total_size (null_context s) s;
  if n =? 0 then mret [] else report (null_context s) s.

Definition talloc_autofree_context (s : st) : outcome (Z * st) :=
  if cleanup_context s =? 0 then
    '(p, s) ← talloc_named_const 0 0 (NConst (tx "autofree_context")) s;
    mret (p, TState (heap s) (null_context s) p (world s))
  else mret (cleanup_context s, s).
Definition talloc_autofree (fuel : nat) (s : st) : outcome st :=
  '(_, s) ← talloc_free fuel (cleanup_context s) s;
  mret (TState (heap s) (null_context s) 0 (world s)).
Definition talloc_get_size (context : Z) (s : st) : outcome Z :=
  if context =? 0 then mret 0 else tc ← talloc_chunk_from_ptr context s; mret (size tc).
End Talloc.
