(* ===== verification/Forest.v ===== *)
(** * The forest behind talloc

    [forest] relates the pointers of a heap of chunks to the children of each
    chunk.  The operations of Talloc.v are shown to act on the children alone: a
    chunk is added in front, moved with everything below it, or freed with
    everything below it. *)

From Stdlib Require Import ZArith Lia.
From S2P Require Import Prelude CStr Mem Talloc.

Implicit Types (h : gmap Z chunk) (kids : Z → list Z) (a p q : Z).

(** ** The relation *)

(** [loose]: a chunk taken out of its list, whose own links do not matter. *)
Record forest (loose : Z) h kids : Prop := Forest {
  fo_null : h !! 0 = None;
  fo_kids : ∀ p, h !! p = None → kids p = [];
  fo_child : ∀ p c, h !! p = Some c → child c = hd 0 (kids p);
  fo_nodup : ∀ p, NoDup (kids p);
  fo_irrefl : ∀ p, p ∉ kids p;
  fo_link : ∀ p l1 a l2, kids p = l1 ++ a :: l2 → ∃ c, h !! a = Some c ∧
    next c = hd 0 l2 ∧ prev c = default 0 (last l1) ∧ parent c = (match l1 with [] => p | _ => 0 end);
  fo_unique : ∀ a p q, a ∈ kids p → a ∈ kids q → p = q;
  fo_root : ∀ a c, h !! a = Some c → a ≠ loose → (∀ p, a ∉ kids p) → next c = 0 ∧ prev c = 0 ∧ parent c = 0;
  fo_loose : ∀ p, loose ∉ kids p;
}.

Definition links (c : chunk) : Z * Z * Z * Z := (next c, prev c, parent c, child c).
Definition data (c : chunk) : Z * Z * dtor * cname * list Z * (Z * Z * Z) :=
  (refs c, size c, destructor c, name c, bytes c, (hnext c, hprev c, hptr c)).

Lemma forest_ext loose h h' kids : (∀ x, links <$> h !! x = links <$> h' !! x) → forest loose h kids → forest loose h' kids.
Proof.
  intros E F. assert (E' : ∀ x c', h' !! x = Some c' → ∃ c, h !! x = Some c ∧ links c = links c').
  { intros x c' Hx. specialize (E x). rewrite Hx in E. destruct (h !! x) as [c|]; [|done]. apply (inj Some) in E. eauto. }
  assert (E2 : ∀ x c, h !! x = Some c → ∃ c', h' !! x = Some c' ∧ links c = links c').
  { intros x c Hx. specialize (E x). rewrite Hx in E. destruct (h' !! x) as [c'|]; [|done]. apply (inj Some) in E. eauto. }
  destruct F. split; try done.
  - specialize (E 0). rewrite fo_null0 in E. by destruct (h' !! 0).
  - intros p Hp. apply fo_kids0. specialize (E p). rewrite Hp in E. by destruct (h !! p).
  - intros p c' Hp. destruct (E' _ _ Hp) as (c & Hc & Hl). rewrite <-(fo_child0 p c Hc). by injection Hl.
  - intros p l1 a l2 Hk. destruct (fo_link0 _ _ _ _ Hk) as (c & Hc & Hn & Hpv & Hpa).
    destruct (E2 _ _ Hc) as (c' & Hc' & Hl). exists c'. injection Hl as <- <- <- _. done.
  - intros a c' Ha Hl Hr. destruct (E' _ _ Ha) as (c & Hc & E3). injection E3 as <- <- <- _. eauto.
Qed.

Section Facts.
Context {loose : Z} {h : gmap Z chunk} {kids : Z → list Z} (F : forest loose h kids).

Lemma fo_in p a : a ∈ kids p → is_Some (h !! a) ∧ is_Some (h !! p) ∧ a ≠ 0 ∧ p ≠ 0 ∧ a ≠ p.
Proof.
  intros Ha. pose proof Ha as Hs. apply list_elem_of_split in Hs as (l1 & l2 & E).
  destruct (fo_link _ _ _ F _ _ _ _ E) as (c & Hc & _).
  assert (Hp : is_Some (h !! p)).
  { destruct (h !! p) eqn:Ep; [done|]. rewrite (fo_kids _ _ _ F _ Ep) in Ha. by apply not_elem_of_nil in Ha. }
  split_and!; [done|done| | |].
  - intros ->. by rewrite (fo_null _ _ _ F) in Hc.
  - intros ->. destruct Hp as [c' Hp]. by rewrite (fo_null _ _ _ F) in Hp.
  - intros ->. by apply (fo_irrefl _ _ _ F p).
Qed.
Lemma fo_nonzero p c : h !! p = Some c → p ≠ 0.
Proof. intros Hp ->. by rewrite (fo_null _ _ _ F) in Hp. Qed.
End Facts.

(** ** Taking a chunk out *)

Lemma alter_is_Some (f : chunk → chunk) i j h : is_Some (alter f i h !! j) ↔ is_Some (h !! j).
Proof. rewrite lookup_alter. case_decide; [subst; apply fmap_is_Some|done]. Qed.

Lemma alter_data (f : chunk → chunk) i h : (∀ c, data (f c) = data c) → ∀ x, data <$> alter f i h !! x = data <$> h !! x.
Proof.
  intros Hf x. rewrite lookup_alter. case_decide; [|done]. subst. destruct (h !! x) as [c|]; [|done].
  cbn [fmap option_fmap option_map]. by rewrite Hf.
Qed.

Ltac mod_ok := cbn [heap with_heap]; rewrite ?alter_is_Some; eauto.
(** Follow a lookup through a chain of changes. *)
Ltac impossible :=
  exfalso; first [congruence
  | match goal with H : ¬ (_ ∧ _) |- _ => apply H; split; congruence end
  | match goal with H : _ ∧ _ |- _ => destruct H; congruence end].
Ltac look Hx :=
  cbn [last head hd app default]; rewrite !lookup_alter; repeat (case_decide; subst; try congruence); try impossible; rewrite ?Hx; cbn [fmap option_fmap option_map];
  eexists; (split; [reflexivity|]); cbn [set_next set_prev set_parent set_child next prev parent child];
  split_and?; first [congruence | done | impossible].

Section Steps.
Context {W : Type}.
Implicit Types s : tstate W.

Lemma modify_alter p f s : is_Some (heap s !! p) → modify p f s = Ret (with_heap (alter f p (heap s)) s).
Proof.
  intros [c Hc]. unfold modify, talloc_chunk_from_ptr. rewrite Hc. cbn [of_option]. rewrite bind_ret. cbn [mret outcome_ret]. do 2 f_equal.
  apply map_eq. intros i. rewrite lookup_insert, lookup_alter. case_decide; [subst; by rewrite Hc|done].
Qed.

Lemma chunk_ok p s c : heap s !! p = Some c → talloc_chunk_from_ptr p s = Ret c.
Proof. intros Hc. unfold talloc_chunk_from_ptr. by rewrite Hc. Qed.

(** What unlink changes: the neighbours of [a] in [kids p = l1 ++ a :: l2]. *)
Record unlinked (h h' : gmap Z chunk) (p a : Z) (l1 l2 : list Z) : Prop := Unlinked {
  un_data : ∀ x, data <$> h' !! x = data <$> h !! x;
  un_links : ∀ x c, h !! x = Some c → x ≠ a → ∃ c', h' !! x = Some c' ∧
    next c' = (if decide (last l1 = Some x) then hd 0 l2 else next c) ∧
    prev c' = (if decide (head l2 = Some x) then default 0 (last l1) else prev c) ∧
    parent c' = (if decide (l1 = [] ∧ head l2 = Some x) then p else parent c) ∧
    child c' = (if decide (x = p) then hd 0 (l1 ++ l2) else child c);
  un_self : ∀ c, h !! a = Some c → ∃ c', h' !! a = Some c' ∧ child c' = child c;
}.

Lemma unlink_effect loose p a l1 l2 kids s : forest loose (heap s) kids → kids p = l1 ++ a :: l2 →
  ∃ h', unlink_chunk a s = Ret (with_heap h' s) ∧ unlinked (heap s) h' p a l1 l2.
Proof.
  intros F Hk. destruct (fo_link _ _ _ F _ _ _ _ Hk) as (c & Hc & Hn & Hpv & Hpa).
  assert (Hin : a ∈ kids p) by (rewrite Hk; set_solver). destruct (fo_in F p a Hin) as ([? _] & [pc Hp] & Ha0 & Hp0 & Hap).
  assert (Hnb : ∀ b, b ∈ l1 ++ l2 → is_Some (heap s !! b) ∧ b ≠ 0 ∧ b ≠ p ∧ b ≠ a).
  { intros b Hb. assert (Hb' : b ∈ kids p) by (rewrite Hk; set_solver). destruct (fo_in F p b Hb') as (? & _ & ? & _ & ?).
    split_and!; [done|done|done|]. intros ->. pose proof (fo_nodup _ _ _ F p) as Hnd. rewrite Hk in Hnd.
    apply NoDup_app in Hnd as (_ & Hd & Hnd). apply NoDup_cons in Hnd as [Hnd _]. apply elem_of_app in Hb as [Hb|Hb]; [|done].
    apply (Hd a Hb). set_solver. }
  pose proof (fo_child _ _ _ F _ _ Hp) as Hch. rewrite Hk in Hch. unfold unlink_chunk. rewrite (chunk_ok a s c Hc), bind_ret, Hpa.
  destruct l1 as [|b1 l1' _] using rev_ind.
  - (* first child *)
    cbn [app hd last default] in *. rewrite (proj2 (Z.eqb_neq p 0)) by done. cbn [negb].
    rewrite (chunk_ok p s pc Hp), bind_ret, Hch. unfold TLIST_REMOVE. rewrite (chunk_ok a s c Hc), bind_ret, Z.eqb_refl.
    cbn [l_next siblings]. rewrite Hn. rewrite (proj2 (Z.eqb_neq a 0)) by done. cbn [orb].
    destruct l2 as [|n l2]; cbn [hd] in *.
    + cbn [Z.eqb]. rewrite !bind_ret. cbv beta iota. rewrite (proj2 (Z.eqb_neq a 0)) by done.
      rewrite modify_alter by mod_ok. rewrite bind_ret. cbn [mret outcome_ret]. rewrite bind_ret.
      rewrite modify_alter by mod_ok. rewrite bind_ret. cbn [Z.eqb].
      eexists. split; [reflexivity|]. cbn [heap with_heap]. split.
      * intros y. by rewrite !alter_data by done.
      * intros y cy Hy Hya.
        look Hy.
      * intros cy Hy. look Hy.
    + destruct (Hnb n ltac:(set_solver)) as ([cn Hcn] & Hn0 & Hnp & Hna). rewrite (proj2 (Z.eqb_neq n 0)) by done.
      rewrite modify_alter by mod_ok. rewrite !bind_ret. cbv beta iota. rewrite (proj2 (Z.eqb_neq a n)) by done.
      rewrite modify_alter by mod_ok. rewrite !bind_ret. cbv beta iota.
      rewrite modify_alter by mod_ok. rewrite bind_ret, (proj2 (Z.eqb_neq n 0)) by done.
      rewrite modify_alter by mod_ok.
      eexists. split; [reflexivity|]. cbn [heap with_heap]. split.
      * intros y. by rewrite !alter_data by done.
      * intros y cy Hy Hya.
        look Hy.
      * intros cy Hy. look Hy.
  - assert (Hne : l1' ++ [b1] ≠ []) by (by destruct l1').
    assert (Hpa0 : parent c = 0) by (rewrite Hpa; by destruct l1'). clear Hpa. rewrite last_snoc in Hpv. change (prev c = b1) in Hpv.
    assert (E0 : (match l1' ++ [b1] with [] => p | _ => 0 end) = 0) by (by destruct l1'). rewrite E0. cbn [Z.eqb negb]. clear E0.
    destruct (Hnb b1 ltac:(set_solver)) as ([cb Hcb] & Hb0 & Hbp & Hba). rewrite Hpv, (proj2 (Z.eqb_neq b1 0)) by done.
    rewrite modify_alter by mod_ok. rewrite bind_ret, Hn.
    assert (Hch' : child pc = hd 0 ((l1' ++ [b1]) ++ l2)) by (rewrite Hch; by destruct l1').
    destruct l2 as [|n l2]; cbn [hd].
    + cbn [Z.eqb]. eexists. split; [reflexivity|]. cbn [heap with_heap]. split.
      * intros y. by rewrite !alter_data by done.
      * intros y cy Hy Hya.
        rewrite last_snoc. look Hy.
      * intros cy Hy. look Hy.
    + destruct (Hnb n ltac:(set_solver)) as ([cn Hcn] & Hn0 & Hnp & Hna). rewrite (proj2 (Z.eqb_neq n 0)) by done.
      rewrite modify_alter by mod_ok. eexists. split; [reflexivity|]. cbn [heap with_heap]. split.
      * intros y. by rewrite !alter_data by done.
      * intros y cy Hy Hya.
        rewrite last_snoc. look Hy.
      * intros cy Hy. look Hy.
Qed.
End Steps.

Definition kset (p : Z) (l : list Z) (kids : Z → list Z) : Z → list Z := λ q, if decide (q = p) then l else kids q.

Lemma kset_eq p l kids : kset p l kids p = l.
Proof. unfold kset. by rewrite decide_True. Qed.
Lemma kset_ne p q l kids : q ≠ p → kset p l kids q = kids q.
Proof. intros. unfold kset. by rewrite decide_False. Qed.

Lemma app_inv_mid (l1 l2 m1 m2 : list Z) b : l1 ++ l2 = m1 ++ b :: m2 →
  (∃ r, l1 = m1 ++ b :: r ∧ m2 = r ++ l2) ∨ (∃ r, m1 = l1 ++ r ∧ l2 = r ++ b :: m2).
Proof.
  intros E. apply app_eq_app in E as (k & [[-> E]|[-> E]]).
  - destruct k as [|x k]; cbn [app] in E; [right; exists []; rewrite !app_nil_r; done|]. injection E as -> ->. left. eauto.
  - right. eauto.
Qed.

Lemma unlink_forest h h' kids p a l1 l2 : forest 0 h kids → kids p = l1 ++ a :: l2 → unlinked h h' p a l1 l2 →
  forest a h' (kset p (l1 ++ l2) kids).
Proof.
  intros F Hk [Ud Ul Us]. assert (Hin : a ∈ kids p) by (rewrite Hk; set_solver).
  destruct (fo_in F p a Hin) as ([ca Hca] & [pc Hp] & Ha0 & Hp0 & Hap). pose proof (fo_nodup _ _ _ F p) as Hnd. rewrite Hk in Hnd.
  assert (Hdom : ∀ x, h' !! x = None ↔ h !! x = None).
  { intros x. rewrite <-(fmap_None data (h' !! x)), <-(fmap_None data (h !! x)). by rewrite Ud. }
  assert (Hsub : ∀ q b, b ∈ kset p (l1 ++ l2) kids q → b ∈ kids q ∧ b ≠ a).
  { intros q b. unfold kset. case_decide as Hq.
    - subst q. intros Hb. split; [rewrite Hk; set_solver|]. intros ->. apply NoDup_app in Hnd as (_ & Hd & Hnd).
      apply NoDup_cons in Hnd as [Hn _]. apply elem_of_app in Hb as [Hb|Hb]; [|done]. apply (Hd a Hb). set_solver.
    - intros Hb. split; [done|]. intros ->. apply Hq. by apply (fo_unique _ _ _ F a). }
  split.
  - apply Hdom, F.
  - intros q Hq. apply Hdom in Hq. unfold kset. case_decide; [congruence|]. by apply F.
  - intros q c' Hq. destruct (h !! q) as [c|] eqn:Eq; [|by apply Hdom in Eq; congruence].
    destruct (decide (q = a)) as [->|Hqa].
    + destruct (Us c Eq) as (c2 & Hc2 & Hch). assert (c' = c2) as -> by congruence.
      rewrite Hch, (fo_child _ _ _ F _ _ Eq). by rewrite kset_ne.
    + destruct (Ul q c Eq Hqa) as (c2 & Hc2 & _ & _ & _ & Hch). assert (c' = c2) as -> by congruence. rewrite Hch. unfold kset.
      case_decide; [done|]. by apply F.
  - intros q. unfold kset. case_decide; [|apply F]. apply NoDup_app in Hnd as (H1 & Hd & H2). apply NoDup_cons in H2 as [_ H2].
    apply NoDup_app. split_and!; [done| |done]. intros x Hx1 Hx2. apply (Hd x Hx1). set_solver.
  - intros q Hq. apply Hsub in Hq as [Hq _]. by apply (fo_irrefl _ _ _ F q).
  - intros q m1 b m2 Hkq. assert (Hbq : b ∈ kids q ∧ b ≠ a) by (apply Hsub; rewrite Hkq; set_solver). destruct Hbq as [Hbq Hba].
    destruct (fo_in F q b Hbq) as ([cb Hcb] & _ & _ & _ & Hbne). destruct (Ul b cb Hcb Hba) as (c' & Hc' & Hn & Hpv & Hpa & _).
    exists c'. split; [done|]. rewrite Hn, Hpv, Hpa. destruct (decide (q = p)) as [->|Hqp]; [rewrite kset_eq in Hkq|rewrite kset_ne in Hkq by done].
    + apply app_inv_mid in Hkq as [(r & E1 & E2)|(r & E1 & E2)].
      * subst l1 m2. rewrite <-app_assoc in Hk. cbn [app] in Hk. destruct (fo_link _ _ _ F _ _ _ _ Hk) as (c2 & Hc2 & L1 & L2 & L3).
        assert (c2 = cb) as -> by congruence.
        assert (Hnd1 : b ∉ r ++ l2).
        { rewrite <-app_assoc in Hnd. cbn [app] in Hnd. apply NoDup_app in Hnd as (_ & _ & Hnd). apply NoDup_cons in Hnd as [Hnd _]. set_solver. }
        split_and!.
        -- case_decide as Hl.
           ++ destruct r as [|x r _] using rev_ind; [done|]. rewrite app_comm_cons, app_assoc, last_snoc in Hl.
              injection Hl as ->. set_solver.
           ++ rewrite L1. destruct r as [|x r]; [|done]. by rewrite last_snoc in Hl.
        -- rewrite decide_False; [done|]. intros E. apply Hnd1, elem_of_app. right. by apply head_Some_elem_of in E.
        -- rewrite decide_False; [done|]. intros [E _]. by destruct m1.
      * subst m1 l2. rewrite app_comm_cons, app_assoc in Hk. destruct (fo_link _ _ _ F _ _ _ _ Hk) as (c2 & Hc2 & L1 & L2 & L3).
        assert (c2 = cb) as -> by congruence.
        assert (Hnd1 : b ∉ l1 ++ r).
        { intros Hb. apply NoDup_app in Hnd as (Hnd1 & Hd & Hnd2). apply elem_of_app in Hb as [Hb|Hb].
          - apply (Hd b); set_solver.
          - apply NoDup_cons in Hnd2 as [_ Hnd2]. apply NoDup_app in Hnd2 as (_ & Hd2 & _). apply (Hd2 b Hb). set_solver. }
        split_and!.
        -- rewrite decide_False; [done|]. intros E. apply Hnd1, elem_of_app. left. by apply last_Some_elem_of in E.
        -- destruct r as [|x r]; cbn [app head].
           ++ rewrite decide_True by done. by rewrite app_nil_r.
           ++ rewrite decide_False; [|intros [= ->]; set_solver]. rewrite L2. rewrite !last_app. cbn [last]. by destruct (last r); destruct r.
        -- rewrite L3. destruct l1 as [|y l1]; [|by rewrite decide_False by (by intros [? _])]. destruct r as [|x r]; cbn [app head].
           ++ by rewrite decide_True.
           ++ rewrite decide_False; [done|]. intros [_ [= ->]]. set_solver.
    + assert (Hbp : b ∉ kids p) by (intros Hb; apply Hqp; by apply (fo_unique _ _ _ F b)). rewrite Hk in Hbp.
      rewrite !decide_False.
      * destruct (fo_link _ _ _ F _ _ _ _ Hkq) as (c2 & Hc2 & L). assert (c2 = cb) as -> by congruence. done.
      * intros [_ E]. apply head_Some_elem_of in E. set_solver.
      * intros E. apply head_Some_elem_of in E. set_solver.
      * intros E. apply last_Some_elem_of in E. set_solver.
  - intros b q1 q2 H1 H2. apply Hsub in H1 as [H1 _], H2 as [H2 _]. by apply (fo_unique _ _ _ F b).
  - intros b c' Hb Hba Hr. destruct (h !! b) as [cb|] eqn:Eb; [|by apply Hdom in Eb; congruence].
    destruct (Ul b cb Eb Hba) as (c2 & Hc2 & Hn & Hpv & Hpa & _). assert (c' = c2) as -> by congruence. rewrite Hn, Hpv, Hpa.
    assert (Hnk : ∀ q, b ∉ kids q).
    { intros q Hq. apply (Hr q). destruct (decide (q = p)) as [->|Hqp]; [rewrite kset_eq|by rewrite kset_ne]. rewrite Hk in Hq. set_solver. }
    assert (Hbp : b ∉ kids p) by apply Hnk. rewrite Hk in Hbp. rewrite !decide_False.
    + apply (fo_root _ _ _ F b cb Eb); [|done]. intros ->. by rewrite (fo_null _ _ _ F) in Eb.
    + intros [_ E]. apply head_Some_elem_of in E. set_solver.
    + intros E. apply head_Some_elem_of in E. set_solver.
    + intros E. apply last_Some_elem_of in E. set_solver.
  - intros q Hq. apply Hsub in Hq as [_ Hq]. done.
Qed.

Lemma forest_kids_ext loose h kids kids' : (∀ q, kids q = kids' q) → forest loose h kids → forest loose h kids'.
Proof.
  intros E F. split; intros *; rewrite <-?E; try apply F. intros H1 H2 H3. apply (fo_root _ _ _ F a c H1 H2). intros q. rewrite E. apply H3.
Qed.

Definition kdel (a : Z) (kids : Z → list Z) : Z → list Z := λ q, filter (λ b, b ≠ a) (kids q).

Lemma filter_ne_id a (l : list Z) : a ∉ l → filter (λ b, b ≠ a) l = l.
Proof. intros Ha. apply filter_all. apply Forall_forall. intros b Hb ->. done. Qed.
Lemma kdel_not_in a kids q : a ∉ kids q → kdel a kids q = kids q.
Proof. apply filter_ne_id. Qed.
Lemma filter_ne_mid a (l1 l2 : list Z) : NoDup (l1 ++ a :: l2) → filter (λ b, b ≠ a) (l1 ++ a :: l2) = l1 ++ l2.
Proof.
  intros Hnd. apply NoDup_app in Hnd as (_ & Hd & Hnd). apply NoDup_cons in Hnd as [Hn _].
  rewrite filter_app, filter_cons, decide_False by (intros H; by apply H).
  rewrite !filter_ne_id; [done|done|]. intros Ha. apply (Hd a Ha). set_solver.
Qed.
Lemma kdel_kset h loose kids p a l1 l2 q : forest loose h kids → kids p = l1 ++ a :: l2 → kset p (l1 ++ l2) kids q = kdel a kids q.
Proof.
  intros F Hk. destruct (decide (q = p)) as [->|Hq].
  - rewrite kset_eq. unfold kdel. rewrite Hk. symmetry. apply filter_ne_mid. rewrite <-Hk. apply F.
  - rewrite kset_ne by done. symmetry. apply kdel_not_in. intros Ha. apply Hq. apply (fo_unique _ _ _ F a); [done|]. rewrite Hk. set_solver.
Qed.

(** A root takes part in no list. *)
Lemma forest_loosen h kids a : forest 0 h kids → (∀ p, a ∉ kids p) → forest a h kids.
Proof.
  intros F Ha. split; try apply F; [|done]. intros b c Hb _ Hr. apply (fo_root _ _ _ F b c Hb); [|done].
  intros ->. by rewrite (fo_null _ _ _ F) in Hb.
Qed.
Lemma fo_zero loose h kids p : forest loose h kids → 0 ∉ kids p.
Proof. intros F H0. by destruct (fo_in F p 0 H0) as (_ & _ & ? & _). Qed.
Lemma forest_tighten h kids a c : forest a h kids → h !! a = Some c → next c = 0 → prev c = 0 → parent c = 0 → forest 0 h kids.
Proof.
  intros F Hc H1 H2 H3. split; try apply F; [|intros p; by apply (fo_zero a h)]. intros b cb Hb _ Hr.
  destruct (decide (b = a)) as [->|Hba]; [by simplify_eq|]. by apply (fo_root _ _ _ F b cb).
Qed.

(** The links of the loose chunk do not matter. *)
Lemma forest_loose_ext h h' kids a : forest a h kids → (∀ x, x ≠ a → h' !! x = h !! x) →
  (∀ c, h !! a = Some c → ∃ c', h' !! a = Some c' ∧ child c' = child c) → a ≠ 0 → is_Some (h !! a) → forest a h' kids.
Proof.
  intros F Hx Ha Ha0 [ca Hca]. destruct (Ha ca Hca) as (c' & Hc' & Hch). split; try apply F.
  - rewrite Hx by done. apply F.
  - intros q Hq. destruct (decide (q = a)) as [->|]; [congruence|]. apply F. by rewrite <-Hx.
  - intros q cq Hq. destruct (decide (q = a)) as [->|]; [|apply F; by rewrite <-Hx]. simplify_eq. rewrite Hch. by apply F.
  - intros q l1 b l2 Hk. destruct (fo_link _ _ _ F _ _ _ _ Hk) as (cb & Hcb & L). exists cb. split; [|done]. rewrite Hx; [done|].
    intros ->. apply (fo_loose _ _ _ F q). rewrite Hk. set_solver.
  - intros b cb Hb Hba Hr. apply (fo_root _ _ _ F b cb); [by rewrite <-Hx|done|done].
Qed.

Lemma forest_delete h kids a : forest a h kids → kids a = [] → forest 0 (delete a h) kids.
Proof.
  intros F Ha. split; try apply F.
  - rewrite lookup_delete. case_decide; [done|apply F].
  - intros p. rewrite lookup_delete. case_decide; [subst; done|apply F].
  - intros p c. rewrite lookup_delete. case_decide; [done|apply F].
  - intros p l1 b l2 Hk. destruct (fo_link _ _ _ F _ _ _ _ Hk) as (c & Hc & L). exists c. split; [|done].
    rewrite lookup_delete. rewrite decide_False; [done|]. intros ->. apply (fo_loose _ _ _ F p). rewrite Hk. set_solver.
  - intros b c. rewrite lookup_delete. case_decide; [done|]. intros Hb _ Hr. by apply (fo_root _ _ _ F b c).
  - intros p. by apply (fo_zero a h).
Qed.

Lemma forest_insert h kids a c : forest 0 h kids → h !! a = None → a ≠ 0 → child c = 0 → forest a (<[a := c]> h) kids.
Proof.
  intros F Ha Ha0 Hc. assert (Hna : ∀ p, a ∉ kids p). { intros p Hp. destruct (fo_in F p a Hp) as ([? ?] & _). congruence. }
  assert (Hka : kids a = []) by (by apply F).
  split; try apply F; try done.
  - rewrite lookup_insert, decide_False by done. apply F.
  - intros p. rewrite lookup_insert. case_decide; [done|apply F].
  - intros p cp. rewrite lookup_insert. case_decide; [intros [= <-]; subst; by rewrite Hka|apply F].
  - intros p l1 b l2 Hk. destruct (fo_link _ _ _ F _ _ _ _ Hk) as (cb & Hcb & L). exists cb. split; [|done].
    rewrite lookup_insert. rewrite decide_False; [done|]. intros ->. congruence.
  - intros b cb. rewrite lookup_insert. case_decide; [done|]. intros Hb _ Hr. apply (fo_root _ _ _ F b cb Hb); [|done].
    intros ->. by rewrite (fo_null _ _ _ F) in Hb.
Qed.

Section Moves.
Context {W : Type}.
Implicit Types s : tstate W.

Lemma with_heap_same s : with_heap (heap s) s = s.
Proof. by destruct s. Qed.

Lemma in_kids_dec loose h kids a : forest loose h kids → (∃ p l1 l2, kids p = l1 ++ a :: l2) ∨ (∀ p, a ∉ kids p).
Proof.
  intros F. destruct (decide (Exists (λ pc, a ∈ kids pc.1) (map_to_list h))) as [He|He].
  - left. apply Exists_exists in He as ([p c] & _ & Ha). apply list_elem_of_split in Ha as (l1 & l2 & Hk). eauto.
  - right. intros p Hp. apply He. destruct (fo_in F p a Hp) as (_ & [c Hc] & _). apply Exists_exists. exists (p, c). split; [|done].
    by apply elem_of_map_to_list.
Qed.

Lemma unlink_ok kids a s : forest 0 (heap s) kids → is_Some (heap s !! a) →
  ∃ h', unlink_chunk a s = Ret (with_heap h' s) ∧ forest a h' (kdel a kids) ∧ (∀ x, data <$> h' !! x = data <$> heap s !! x).
Proof.
  intros F [c Hc]. destruct (in_kids_dec _ _ _ a F) as [(p & l1 & l2 & Hk)|Hn].
  - destruct (unlink_effect 0 p a l1 l2 kids s F Hk) as (h' & E & U). exists h'. split; [done|]. split; [|apply U].
    eapply forest_kids_ext; [|by eapply unlink_forest]. intros q. by eapply kdel_kset.
  - destruct (fo_root _ _ _ F a c Hc) as (H1 & H2 & H3); [|done|].
    { intros ->. by rewrite (fo_null _ _ _ F) in Hc. }
    exists (heap s). rewrite with_heap_same. split_and!; [|by apply (forest_kids_ext _ _ kids); [intros q; by rewrite kdel_not_in by apply Hn|apply forest_loosen]|done].
    unfold unlink_chunk. rewrite (chunk_ok a s c Hc), bind_ret, H1, H2, H3. done.
Qed.

(** ** Putting a chunk in front *)

(** What add_child changes. *)
Record linked h h' p a (l : list Z) : Prop := Linked {
  li_data : ∀ x, data <$> h' !! x = data <$> h !! x;
  li_links : ∀ x c, h !! x = Some c → x ≠ a → ∃ c', h' !! x = Some c' ∧ next c' = next c ∧
    prev c' = (if decide (head l = Some x) then a else prev c) ∧
    parent c' = (if decide (head l = Some x) then 0 else parent c) ∧
    child c' = (if decide (x = p) then a else child c);
  li_self : ∀ c, h !! a = Some c → ∃ c', h' !! a = Some c' ∧ next c' = hd 0 l ∧ prev c' = 0 ∧ parent c' = p ∧ child c' = child c;
}.

Lemma add_child_effect kids p a s : forest a (heap s) kids → is_Some (heap s !! a) → is_Some (heap s !! p) → p ≠ a →
  ∃ h', add_child p a s = Ret (with_heap h' s) ∧ linked (heap s) h' p a (kids p).
Proof.
  intros F [ca Hca] [pc Hp] Hpa. pose proof (fo_child _ _ _ F _ _ Hp) as Hch. pose proof (fo_loose _ _ _ F) as Hna.
  pose proof (fo_nonzero F _ _ Hp) as Hp0. pose proof (fo_nonzero F _ _ Hca) as Ha0.
  unfold add_child. rewrite modify_alter by mod_ok. rewrite bind_ret.
  erewrite chunk_ok by (cbn [heap with_heap]; rewrite lookup_alter, decide_False by congruence; exact Hp).
  rewrite bind_ret, Hch. unfold TLIST_ADD. cbn [l_set_next l_set_prev siblings]. destruct (kids p) as [|n l] eqn:Hk; cbn [hd].
  - cbn [Z.eqb]. rewrite bind_ret. rewrite modify_alter by mod_ok. rewrite !bind_ret. cbv beta iota.
    rewrite modify_alter by mod_ok. eexists. split; [reflexivity|]. cbn [heap with_heap]. split.
    + intros y. by rewrite !alter_data by done.
    + intros y cy Hy Hya. look Hy.
    + intros cy Hy. look Hy.
  - assert (Hn : n ∈ kids p) by (rewrite Hk; set_solver). destruct (fo_in F p n Hn) as ([cn Hcn] & _ & Hn0 & _ & Hnp).
    assert (Hna' : n ≠ a) by (intros ->; by apply (Hna p)).
    rewrite (proj2 (Z.eqb_neq n 0)) by done. rewrite modify_alter by mod_ok. rewrite bind_ret.
    rewrite modify_alter by mod_ok. rewrite bind_ret. rewrite modify_alter by mod_ok. rewrite bind_ret. rewrite modify_alter by mod_ok.
    rewrite !bind_ret. cbv beta iota. rewrite modify_alter by mod_ok.
    eexists. split; [reflexivity|]. cbn [heap with_heap]. split.
    + intros y. by rewrite !alter_data by done.
    + intros y cy Hy Hya. look Hy.
    + intros cy Hy. look Hy.
Qed.

Lemma add_forest h h' kids p a : forest a h kids → is_Some (h !! a) → is_Some (h !! p) → p ≠ a → linked h h' p a (kids p) →
  forest 0 h' (kset p (a :: kids p) kids).
Proof.
  intros F [ca Hca] [pc Hp] Hpa [Ud Ul Us]. pose proof (fo_loose _ _ _ F) as Hna.
  assert (Hdom : ∀ x, h' !! x = None ↔ h !! x = None).
  { intros x. rewrite <-(fmap_None data (h' !! x)), <-(fmap_None data (h !! x)). by rewrite Ud. }
  assert (Hsub : ∀ q b, b ∈ kset p (a :: kids p) kids q → (b = a ∧ q = p) ∨ (b ≠ a ∧ b ∈ kids q)).
  { intros q b. destruct (decide (q = p)) as [->|Hq]; [rewrite kset_eq, elem_of_cons|rewrite kset_ne by done].
    - intros [->|Hb]; [by left|right]. split; [|done]. intros ->. by apply (Hna p).
    - intros Hb. right. split; [|done]. intros ->. by apply (Hna q). }
  split.
  - apply Hdom, F.
  - intros q Hq. apply Hdom in Hq. rewrite kset_ne by congruence. by apply F.
  - intros q c' Hq. destruct (h !! q) as [c|] eqn:Eq; [|by apply Hdom in Eq; congruence].
    destruct (decide (q = a)) as [->|Hqa].
    + destruct (Us c Eq) as (c2 & Hc2 & _ & _ & _ & Hch). assert (c' = c2) as -> by congruence.
      rewrite Hch, (fo_child _ _ _ F _ _ Eq). by rewrite kset_ne.
    + destruct (Ul q c Eq Hqa) as (c2 & Hc2 & _ & _ & _ & Hch). assert (c' = c2) as -> by congruence. rewrite Hch. unfold kset.
      case_decide; [done|]. by apply F.
  - intros q. unfold kset. case_decide; [|apply F]. apply NoDup_cons. split; [apply Hna|apply F].
  - intros q Hq. apply Hsub in Hq as [[-> Hq]|[_ Hq]]; [congruence|]. by apply (fo_irrefl _ _ _ F q).
  - intros q m1 b m2 Hkq. assert (Hb : b ∈ kset p (a :: kids p) kids q) by (rewrite Hkq; set_solver).
    destruct (decide (q = p)) as [->|Hqp]; [rewrite kset_eq in Hkq|rewrite kset_ne in Hkq by done].
    + destruct m1 as [|x m1].
      * cbn [app] in Hkq. injection Hkq as <- <-. destruct (Us ca Hca) as (c' & Hc' & L1 & L2 & L3 & _). eauto.
      * cbn [app] in Hkq. injection Hkq as <- Hkq. destruct (fo_link _ _ _ F _ _ _ _ Hkq) as (cb & Hcb & L1 & L2 & L3).
        assert (Hba : b ≠ a) by (intros ->; apply (Hna p); rewrite Hkq; set_solver).
        destruct (Ul b cb Hcb Hba) as (c' & Hc' & N1 & N2 & N3 & _). exists c'. split; [done|]. rewrite N1, N2, N3, Hkq.
        destruct m1 as [|y m1]; cbn [app head].
        -- rewrite !decide_True by done. done.
        -- pose proof (fo_nodup _ _ _ F p) as Hnd. rewrite Hkq in Hnd. cbn [app] in Hnd. apply NoDup_cons in Hnd as [Hnd _].
           rewrite !decide_False by (intros [= ->]; set_solver). rewrite L1, L2, L3. by rewrite last_cons_cons.
    + assert (Hbq : b ∈ kids q) by (rewrite Hkq; set_solver). destruct (fo_link _ _ _ F _ _ _ _ Hkq) as (cb & Hcb & L1 & L2 & L3).
      assert (Hba : b ≠ a) by (intros ->; by apply (Hna q)).
      destruct (Ul b cb Hcb Hba) as (c' & Hc' & N1 & N2 & N3 & _). exists c'. split; [done|]. rewrite N1, N2, N3.
      rewrite !decide_False; [done| |]; intros E; apply head_Some_elem_of in E; apply Hqp; by apply (fo_unique _ _ _ F b).
  - intros b q1 q2 H1 H2. apply Hsub in H1 as [[-> ->]|[Hb H1]], H2 as [[? ->]|[? H2]]; try done. by apply (fo_unique _ _ _ F b).
  - intros b c' Hb _ Hr. destruct (decide (b = a)) as [->|Hba].
    { exfalso. apply (Hr p). rewrite kset_eq. set_solver. }
    destruct (h !! b) as [cb|] eqn:Eb; [|by apply Hdom in Eb; congruence].
    destruct (Ul b cb Eb Hba) as (c2 & Hc2 & N1 & N2 & N3 & _). assert (c' = c2) as -> by congruence. rewrite N1, N2, N3.
    assert (Hnk : ∀ q, b ∉ kids q).
    { intros q Hq. apply (Hr q). destruct (decide (q = p)) as [->|Hqp]; [rewrite kset_eq; set_solver|by rewrite kset_ne]. }
    rewrite !decide_False by (intros E; apply head_Some_elem_of in E; by apply (Hnk p)). by apply (fo_root _ _ _ F b cb).
  - intros q Hq. apply Hsub in Hq as [[<- _]|[_ Hq]]; [|by apply (fo_zero a h kids q)]. by rewrite (fo_null _ _ _ F) in Hca.
Qed.

Lemma add_child_ok kids p a s : forest a (heap s) kids → is_Some (heap s !! a) → is_Some (heap s !! p) → p ≠ a →
  ∃ h', add_child p a s = Ret (with_heap h' s) ∧ forest 0 h' (kset p (a :: kids p) kids) ∧ (∀ x, data <$> h' !! x = data <$> heap s !! x).
Proof.
  intros F Ha Hp Hpa. destruct (add_child_effect kids p a s F Ha Hp Hpa) as (h' & E & L). exists h'. split; [done|].
  split; [by eapply add_forest|apply L].
Qed.
End Moves.
