(* ===== verification/TallocFree.v ===== *)
(** * talloc_free frees a subtree

    [flat kids l xs]: [xs] is the preorder of the chunks at and below [l].  Freeing a
    chunk runs the destructors in this order and removes exactly these chunks. *)

From Stdlib Require Import ZArith Lia.
From S2P Require Import Prelude CStr Mem Talloc Forest.

Implicit Types (h : gmap Z chunk) (kids : Z → list Z) (a p q : Z).

Inductive flat kids : list Z → list Z → Prop :=
| flat_nil : flat kids [] []
| flat_cons a l xs ys : flat kids (kids a) xs → flat kids l ys → flat kids (a :: l) (a :: xs ++ ys).

Section Flat.
Context {kids : Z → list Z}.

Lemma flat_roots l xs : flat kids l xs → ∀ x, x ∈ l → x ∈ xs.
Proof. induction 1; set_solver. Qed.
Lemma flat_fun l xs : flat kids l xs → ∀ ys, flat kids l ys → xs = ys.
Proof.
  induction 1 as [|a l xs ys H1 IH1 H2 IH2]; intros zs Hz; inversion Hz; subst; [done|].
  f_equal. f_equal; [by apply IH1|by apply IH2].
Qed.
Lemma flat_ext kids' l xs : flat kids l xs → (∀ x, x ∈ xs → kids' x = kids x) → flat kids' l xs.
Proof.
  induction 1 as [|a l xs ys H1 IH1 H2 IH2]; intros E; [constructor|]. constructor; [|apply IH2; set_solver].
  rewrite (E a) by set_solver. apply IH1. set_solver.
Qed.
Lemma flat_sub l xs x : flat kids l xs → x ∈ xs → ∃ ys, flat kids (kids x) ys ∧ (length ys < length xs)%nat ∧ (∀ y, y ∈ ys → y ∈ xs).
Proof.
  induction 1 as [|a l xs ys H1 IH1 H2 IH2]; intros Hx; [by apply not_elem_of_nil in Hx|].
  apply elem_of_cons in Hx as [->|Hx]; [exists xs; cbn [length]; rewrite length_app; split_and!; [done|lia|set_solver]|].
  apply elem_of_app in Hx as [Hx|Hx]; [destruct (IH1 Hx) as (zs & ? & ? & ?)|destruct (IH2 Hx) as (zs & ? & ? & ?)];
    exists zs; cbn [length]; rewrite length_app; (split_and!; [done|lia|set_solver]).
Qed.
Lemma flat_up l xs x : flat kids l xs → x ∈ xs → x ∈ l ∨ ∃ w, w ∈ xs ∧ x ∈ kids w.
Proof.
  induction 1 as [|a l xs ys H1 IH1 H2 IH2]; intros Hx; [by apply not_elem_of_nil in Hx|].
  apply elem_of_cons in Hx as [->|Hx]; [left; set_solver|].
  apply elem_of_app in Hx as [Hx|Hx].
  - destruct (IH1 Hx) as [?|(w & ? & ?)]; right; [exists a; set_solver|exists w; set_solver].
  - destruct (IH2 Hx) as [?|(w & ? & ?)]; [left; set_solver|right; exists w; set_solver].
Qed.
(** No chunk is below itself. *)
Lemma flat_acyclic p xs : flat kids (kids p) xs → p ∉ xs.
Proof. intros H Hp. destruct (flat_sub _ _ _ H Hp) as (ys & Hy & Hl & _). rewrite (flat_fun _ _ H _ Hy) in Hl. lia. Qed.

Context (Hu : ∀ a p q, a ∈ kids p → a ∈ kids q → p = q).
Lemma flat_disjoint l1 xs1 l2 xs2 : flat kids l1 xs1 → flat kids l2 xs2 → (∀ z, z ∈ l1 → z ∉ xs2) → (∀ z, z ∈ l2 → z ∉ xs1) →
  ∀ z, z ∈ xs1 → z ∉ xs2.
Proof.
  intros H1 H2 D1 D2.
  assert (G : ∀ n z ys, flat kids (kids z) ys → (length xs1 - length ys <= n)%nat → z ∈ xs1 → z ∈ xs2 → False).
  { induction n as [|n IH]; intros z ys Hy Hn Z1 Z2.
    - destruct (flat_sub _ _ _ H1 Z1) as (ys' & Hy' & Hl & _). rewrite (flat_fun _ _ Hy _ Hy') in Hn. lia.
    - destruct (flat_up _ _ _ H1 Z1) as [?|(w & Hw & Hzw)]; [by apply (D1 z)|].
      destruct (flat_up _ _ _ H2 Z2) as [?|(w2 & Hw2 & Hzw2)]; [by apply (D2 z)|].
      assert (w2 = w) as -> by (by apply (Hu z)). destruct (flat_sub _ _ _ H1 Hw) as (vs & Hv & Hlv & _).
      apply (IH w vs Hv); [|done|done]. pose proof (flat_roots _ _ Hv z Hzw) as Hzv.
      destruct (flat_sub _ _ _ Hv Hzv) as (ys' & Hy' & Hl & _). rewrite (flat_fun _ _ Hy _ Hy') in Hn. lia. }
  intros z Z1 Z2. destruct (flat_sub _ _ _ H1 Z1) as (ys & Hy & _). by apply (G (length xs1) z ys Hy ltac:(lia)).
Qed.
End Flat.

Lemma flat_app_inv kids l1 l2 zs : flat kids (l1 ++ l2) zs → ∃ ys, flat kids l2 ys ∧ ∀ y, y ∈ ys → y ∈ zs.
Proof.
  revert zs. induction l1 as [|a l1 IH]; intros zs Hz; [eauto|]. inversion Hz as [|? ? xs ys H1 H2]; subst.
  destruct (IH _ H2) as (vs & Hv & Hs). exists vs. split; [done|set_solver].
Qed.

(** A child's subtree and those of its later siblings. *)
Lemma siblings_apart loose h kids p l1 a l xs ys zs : forest loose h kids → kids p = l1 ++ a :: l → flat kids (kids p) zs →
  flat kids (kids a) xs → flat kids l ys → (∀ z, z ∈ a :: xs → z ∉ ys) ∧ p ∉ a :: xs ++ ys.
Proof.
  intros F Hk Hzs H1 H2. assert (Hz : flat kids (a :: l) (a :: xs ++ ys)) by (by constructor).
  assert (Hp : p ∉ a :: xs ++ ys).
  { rewrite Hk in Hzs. destruct (flat_app_inv _ _ _ _ Hzs) as (vs & Hv & Hs). rewrite (flat_fun _ _ Hz _ Hv). intros Hp.
    rewrite <-Hk in Hzs. by apply (flat_acyclic _ _ Hzs), Hs. }
  split; [|done]. pose proof (fo_nodup _ _ _ F p) as Hnd. rewrite Hk in Hnd. apply NoDup_app in Hnd as (_ & _ & Hnd).
  apply NoDup_cons in Hnd as [Hal Hnd]. assert (Hu := fo_unique _ _ _ F).
  assert (H1' : flat kids [a] (a :: xs)) by (rewrite <-(app_nil_r xs); by repeat constructor).
  apply (flat_disjoint Hu [a] (a :: xs) l ys); [done|done| |].
  - intros z Hza Hzy. apply list_elem_of_singleton in Hza as ->. destruct (flat_up _ _ _ H2 Hzy) as [?|(w & Hw & Haw)]; [done|].
    assert (w = p) as -> by (apply (Hu a); [done|rewrite Hk; set_solver]). set_solver.
  - intros z Hzl Hzx. destruct (flat_up _ _ _ H1' Hzx) as [Hza|(w & Hw & Hzw)].
    + apply list_elem_of_singleton in Hza as ->. done.
    + assert (w = p) as -> by (apply (Hu z); [done|rewrite Hk; set_solver]). set_solver.
Qed.

(** ** Freeing *)

Definition kfree (D : list Z) kids : Z → list Z := λ q, if decide (q ∈ D) then [] else filter (λ b, b ∉ D) (kids q).

(** Nothing refers to the chunk, and it is not a reference. *)
Definition plain h x : Prop := ∃ c, h !! x = Some c ∧ refs c = 0 ∧ (destructor c = DNull ∨ ∃ f, destructor c = DUser f).

Lemma plain_data h h' x : data <$> h' !! x = data <$> h !! x → plain h x → plain h' x.
Proof.
  intros E (c & Hc & Hr & Hd). rewrite Hc in E. destruct (h' !! x) as [c'|] eqn:Ec; [|done]. apply (inj Some) in E.
  unfold data in E. injection E as E1 _ E3 _ _ _ _ _. exists c'. rewrite E1, E3. done.
Qed.

Section Free.
Context {W : Type} `{Malloc}.
Context (run_destructor : Z → Z → tstate W → outcome (Z * tstate W)) (destroyed : Z → Z → W → W).
Implicit Types s : tstate W.

Definition with_world (w : W) s : tstate W := TState (heap s) (null_context s) (cleanup_context s) w.
(** The program's destructors succeed and leave the allocator alone. *)
Context (benign : ∀ f p s, run_destructor f p s = Ret (0, with_world (destroyed f p (world s)) s)).

Definition destroy h (w : W) x : W :=
  match h !! x with
  | Some c => match destructor c with DUser f => destroyed f x w | _ => w end
  | None => w
  end.

Record freed kids (D : list Z) s s' : Prop := Freed {
  fr_forest : forest 0 (heap s') (kfree D kids);
  fr_gone : ∀ x, x ∈ D → heap s' !! x = None;
  fr_kept : ∀ x, x ∉ D → data <$> heap s' !! x = data <$> heap s !! x;
  fr_world : world s' = foldl (destroy (heap s)) (world s) D;
  fr_null : null_context s' = null_context s;
  fr_cleanup : cleanup_context s' = cleanup_context s;
}.

Lemma freed_nil kids s : forest 0 (heap s) kids → freed kids [] s s.
Proof.
  intros F. split; try done; [|by intros x Hx; apply not_elem_of_nil in Hx].
  apply (forest_kids_ext _ _ kids); [|done]. intros q. unfold kfree. rewrite decide_False by apply not_elem_of_nil.
  symmetry. apply filter_all. apply Forall_forall. intros x _. apply not_elem_of_nil.
Qed.

Lemma freed_app kids D1 D2 s s1 s2 : (∀ x, x ∈ D1 → x ∉ D2) → freed kids D1 s s1 → freed (kfree D1 kids) D2 s1 s2 → freed kids (D1 ++ D2) s s2.
Proof.
  intros Hd [F1 G1 K1 W1 N1 C1] [F2 G2 K2 W2 N2 C2]. split.
  - apply (forest_kids_ext _ _ (kfree D2 (kfree D1 kids))); [|done]. intros q. unfold kfree.
    destruct (decide (q ∈ D2)); [by rewrite decide_True by set_solver|]. destruct (decide (q ∈ D1)); [by rewrite decide_True by set_solver|].
    rewrite decide_False by set_solver. rewrite list_filter_filter. apply list_filter_iff. intros x. set_solver.
  - intros x Hx. apply elem_of_app in Hx as [Hx|Hx]; [|by apply G2]. specialize (K2 x (Hd x Hx)). rewrite (G1 x Hx) in K2.
    by apply fmap_None in K2.
  - intros x Hx. rewrite K2, K1 by set_solver. done.
  - rewrite W2, W1, foldl_app. generalize (foldl (destroy (heap s)) (world s) D1). clear W1 W2 G2 K2 F2 N2 C2.
    assert (Hx : ∀ x, x ∈ D2 → x ∉ D1) by (intros x H1 H2; by apply (Hd x)). clear Hd. revert Hx.
    induction D2 as [|x D2 IH]; intros Hx w; [done|]. cbn [foldl]. rewrite IH by set_solver. f_equal. unfold destroy.
    specialize (K1 x ltac:(set_solver)). destruct (heap s !! x) as [c|], (heap s1 !! x) as [c'|]; try done. apply (inj Some) in K1.
    unfold data in K1. by injection K1 as _ _ -> _ _ _ _ _.
  - congruence.
  - congruence.
Qed.

Lemma flat_length kids l xs : flat kids l xs → (length l <= length xs)%nat.
Proof. induction 1; cbn [length]; rewrite ?length_app; lia. Qed.

Lemma filter_none_in (D l : list Z) : (∀ x, x ∈ l → x ∉ D) → filter (λ b, b ∉ D) l = l.
Proof. intros Hd. apply filter_all. by apply Forall_forall. Qed.

Definition frees_below n : Prop := ∀ a xs kids s, (length xs < n)%nat → flat kids (kids a) xs → forest 0 (heap s) kids →
  (∀ x, x ∈ a :: xs → plain (heap s) x) → ∃ s', talloc_free run_destructor n a s = Ret (0, s') ∧ freed kids (a :: xs) s s'.

Lemma free_children_ok n (IH : frees_below n) : ∀ m l ys kids s p, (length l <= m)%nat → (length ys <= n)%nat → flat kids l ys →
  forest 0 (heap s) kids → kids p = l → is_Some (heap s !! p) → (∀ x, x ∈ ys → plain (heap s) x) →
  ∃ s', talloc_free_children m (talloc_free run_destructor n) p s = Ret s' ∧ freed kids ys s s'.
Proof.
  induction m as [|m IHm]; intros l ys kids s p Hm Hn Hfl F Hk [pc Hp] Hpl;
    pose proof (fo_child _ _ _ F _ _ Hp) as Hch; rewrite Hk in Hch.
  - destruct l; [|cbn [length] in Hm; lia]. inversion Hfl; subst. exists s. split; [|by apply freed_nil].
    cbn [talloc_free_children]. rewrite (chunk_ok p s pc Hp), bind_ret, Hch. done.
  - destruct l as [|a l].
    { inversion Hfl; subst. exists s. split; [|by apply freed_nil]. cbn [talloc_free_children].
      rewrite (chunk_ok p s pc Hp), bind_ret, Hch. done. }
    inversion Hfl as [|? ? xs ys' H1 H2]; subst. cbn [hd] in Hch.
    destruct (siblings_apart 0 _ kids p [] a l xs ys' _ F Hk ltac:(rewrite Hk; exact Hfl) H1 H2) as [Hap Hpx].
    destruct (fo_in F p a ltac:(rewrite Hk; set_solver)) as (_ & _ & Ha0 & _ & _).
    cbn [length] in Hm, Hn. rewrite length_app in Hn.
    destruct (Hpl a ltac:(set_solver)) as (ca & Hca & Hrefs & _).
    cbn [talloc_free_children]. rewrite (chunk_ok p s pc Hp), bind_ret, Hch. rewrite (proj2 (Z.eqb_neq a 0)) by done.
    rewrite (chunk_ok a s ca Hca), bind_ret, Hrefs. cbn [Z.eqb]. rewrite bind_ret.
    destruct (IH a xs kids s ltac:(lia) H1 F) as (s1 & E1 & R1); [intros x Hx; apply Hpl; set_solver|].
    rewrite E1, bind_ret. cbv beta iota. change (0 =? -1) with false. cbv iota. rewrite bind_ret.
    pose proof R1 as [F1 G1 K1 W1 N1 C1].
    destruct (IHm l ys' (kfree (a :: xs) kids) s1 p) as (s2 & E2 & R2); try done; [lia|lia| | | | |].
    + apply (flat_ext (kids := kids)); [done|]. intros x Hx. unfold kfree. rewrite decide_False by (intros Hxx; by apply (Hap x)).
      apply filter_none_in. intros y Hy Hyx. destruct (flat_sub _ _ _ H2 Hx) as (zs & Hz & _ & Hs).
      apply (Hap y Hyx), Hs. by apply (flat_roots _ _ Hz).
    + unfold kfree. rewrite decide_False by set_solver. rewrite Hk, filter_cons, decide_False by set_solver.
      apply filter_none_in. intros y Hy Hyx. apply (Hap y Hyx). by apply (flat_roots _ _ H2).
    + specialize (K1 p ltac:(set_solver)). rewrite Hp in K1. destruct (heap s1 !! p); [eauto|done].
    + intros x Hx. apply (plain_data (heap s)); [|apply Hpl; set_solver]. apply K1. intros Hxx. by apply (Hap x).
    + exists s2. split; [exact E2|]. change (a :: xs ++ ys') with ((a :: xs) ++ ys'). eapply freed_app; [|exact R1|exact R2]. done.
Qed.

(** What is done once the destructor has run. *)
Lemma finish_ok n (IH : frees_below n) a xs kids s : (length xs <= n)%nat → flat kids (kids a) xs → forest 0 (heap s) kids →
  is_Some (heap s !! a) → (∀ x, x ∈ xs → plain (heap s) x) →
  ∃ s', (s ← talloc_free_children n (talloc_free run_destructor n) a s;
         s ← unlink_chunk a s; _ ← talloc_chunk_from_ptr a s; mret (0, with_heap (delete a (heap s)) s)) = Ret (0, s') ∧
    forest 0 (heap s') (kfree (a :: xs) kids) ∧ (∀ x, x ∈ a :: xs → heap s' !! x = None) ∧
    (∀ x, x ∉ a :: xs → data <$> heap s' !! x = data <$> heap s !! x) ∧
    world s' = foldl (destroy (heap s)) (world s) xs ∧ null_context s' = null_context s ∧ cleanup_context s' = cleanup_context s.
Proof.
  intros Hn Hfl F Ha Hpl. pose proof (flat_acyclic _ _ Hfl) as Hax.
  destruct (free_children_ok n IH n (kids a) xs kids s a) as (s1 & E1 & [F1 G1 K1 W1 N1 C1]); try done; [pose proof (flat_length _ _ _ Hfl); lia|].
  assert (Ha1 : is_Some (heap s1 !! a)).
  { specialize (K1 a Hax). destruct Ha as [c Hc]. rewrite Hc in K1. destruct (heap s1 !! a); [eauto|done]. }
  destruct (unlink_ok (kfree xs kids) a s1 F1 Ha1) as (h2 & E2 & F2 & D2).
  assert (Ha2 : ∃ c2, h2 !! a = Some c2).
  { specialize (D2 a). destruct Ha1 as [c Hc]. rewrite Hc in D2. destruct (h2 !! a); [eauto|done]. }
  destruct Ha2 as [c2 Hc2]. assert (Hka : kfree xs kids a = []).
  { unfold kfree. rewrite decide_False by done. apply filter_nothing. apply Forall_forall. intros x Hx Hnx. apply Hnx. by apply (flat_roots _ _ Hfl). }
  exists (with_heap (delete a h2) s1). rewrite E1, bind_ret, E2, bind_ret, (chunk_ok a (with_heap h2 s1) c2) by done.
  rewrite bind_ret. split; [done|]. cbn [heap with_heap world null_context cleanup_context]. split_and!; try done.
  - apply (forest_kids_ext _ _ (kdel a (kfree xs kids))).
    + intros q. unfold kdel. destruct (decide (q = a)) as [->|Hq].
      * rewrite Hka. unfold kfree. by rewrite decide_True by set_solver.
      * unfold kfree. destruct (decide (q ∈ xs)); [by rewrite decide_True by set_solver|]. rewrite decide_False by set_solver.
        rewrite list_filter_filter. apply list_filter_iff. intros x. set_solver.
    + apply forest_delete; [done|]. unfold kdel. by rewrite Hka.
  - intros x Hx. rewrite lookup_delete. case_decide; [done|]. apply elem_of_cons in Hx as [Hx|Hx]; [congruence|].
    specialize (D2 x). rewrite (G1 x Hx) in D2. by apply fmap_None in D2.
  - intros x Hx. rewrite lookup_delete, decide_False by set_solver. rewrite D2. apply K1. set_solver.
Qed.

Lemma set_dtor_links h a d x : links <$> alter (set_dtor d) a h !! x = links <$> h !! x.
Proof. rewrite lookup_alter. case_decide; [subst|done]. by destruct (h !! x). Qed.

Lemma talloc_free_ok n : frees_below n.
Proof using benign.
  induction n as [|n IH]; intros a xs kids s Hl Hfl F Hpl; [lia|].
  destruct (Hpl a ltac:(set_solver)) as (c & Hc & Hr & Hd). pose proof (fo_nonzero F _ _ Hc) as Ha0.
  pose proof (flat_acyclic _ _ Hfl) as Hax.
  cbn [talloc_free]. rewrite (proj2 (Z.eqb_neq a 0)) by done. rewrite (chunk_ok a s c Hc), bind_ret, Hr. cbn [Z.eqb negb]. cbv zeta.
  destruct Hd as [Hd|[f Hd]]; rewrite Hd.
  - destruct (finish_ok n IH a xs kids s) as (s' & E & F' & G & K & Wd & N & C); try done; try lia; [intros x Hx; apply Hpl; set_solver|].
    exists s'. split; [exact E|]. split; try done. cbn [foldl]. rewrite Wd. f_equal. unfold destroy. by rewrite Hc, Hd.
  - unfold talloc_set_destructor. rewrite modify_alter by eauto. rewrite bind_ret. cbn [call_destructor]. rewrite benign, bind_ret.
    cbv beta iota. change (0 =? -1) with false. cbv iota. cbn [heap with_heap with_world world].
    rewrite modify_alter by (cbn [heap with_world with_heap]; rewrite alter_is_Some; eauto). rewrite bind_ret. cbn [heap with_heap with_world].
    match goal with |- context [talloc_free_children n _ a ?s0] => set (s0' := s0) end.
    assert (Hh : ∀ x, x ≠ a → heap s0' !! x = heap s !! x).
    { intros x Hx. cbn [s0' heap with_heap]. by rewrite !lookup_alter, !decide_False by congruence. }
    destruct (finish_ok n IH a xs kids s0') as (s' & E & F' & G & K & Wd & N & C); try done.
    + lia.
    + eapply forest_ext; [|exact F]. intros x. cbn [s0' heap with_heap]. by rewrite !set_dtor_links.
    + cbn [s0' heap with_heap]. rewrite !alter_is_Some. eauto.
    + intros x Hx. apply (plain_data (heap s)); [|apply Hpl; set_solver]. rewrite Hh; [done|]. by intros ->.
    + exists s'. split; [exact E|]. split; try done.
      * intros x Hx. rewrite K by done. rewrite Hh; [done|]. set_solver.
      * rewrite Wd. cbn [foldl s0' world with_heap with_world].
        assert (destroy (heap s) (world s) a = destroyed f a (world s)) as -> by (unfold destroy; by rewrite Hc, Hd).
        clear - Hh Hax. generalize (destroyed f a (world s)). revert Hax. induction xs as [|x xs IHx]; intros Hax w; [done|]. cbn [foldl].
        rewrite IHx by set_solver. f_equal. unfold destroy. rewrite Hh; [done|]. set_solver.
Qed.
End Free.
