(* ===== verification/TallocSpec.v ===== *)
(** * What talloc promises

    An abstract forest and the effect of each operation on it; the operations of
    Talloc.v simulate it. *)

From Stdlib Require Import ZArith Lia.
From S2P Require Import Prelude CStr Mem Talloc Forest TallocFree.

Implicit Types (h : gmap Z chunk) (kids : Z → list Z) (a p q : Z).

(** The children of every chunk, its size and its destructor. *)
Record aforest (W : Type) := AForest { a_kids : Z → list Z; a_info : gmap Z (Z * option Z); a_world : W }.
Arguments AForest {W}. Arguments a_kids {W}. Arguments a_info {W}. Arguments a_world {W}.

Inductive op :=
| OAlloc (ctx sz : Z)
| OSetDestructor (p f : Z)
| OSteal (ctx p : Z)
| OFree (p : Z)
| OParent (p : Z)
| OBlocks (p : Z)
| OSize (p : Z).

Section Spec.
Context {W : Type} (destroyed : Z → Z → W → W).

Definition a_destroy (i : gmap Z (Z * option Z)) (w : W) x : W :=
  match i !! x with Some (_, Some f) => destroyed f x w | _ => w end.
Definition sizes (i : gmap Z (Z * option Z)) (xs : list Z) : Z := foldr (λ x t, default 0 (fst <$> i !! x) + t) 0 xs.

Inductive astep (A : aforest W) : op → Z → aforest W → Prop :=
| AAlloc ctx sz a : a ≠ 0 → a_info A !! a = None → sz < MAX_TALLOC_SIZE →
    astep A (OAlloc ctx sz) a
      (AForest (if ctx =? 0 then a_kids A else kset ctx (a :: a_kids A ctx) (a_kids A)) (<[a := (sz, None)]> (a_info A)) (a_world A))
| AAllocFails ctx sz : astep A (OAlloc ctx sz) 0 A
| ASetDestructor p f sz d : a_info A !! p = Some (sz, d) →
    astep A (OSetDestructor p f) 0 (AForest (a_kids A) (<[p := (sz, Some f)]> (a_info A)) (a_world A))
| ASteal ctx p :
    astep A (OSteal ctx p) p
      (AForest (if ctx =? 0 then kdel p (a_kids A) else kset ctx (p :: kdel p (a_kids A) ctx) (kdel p (a_kids A))) (a_info A) (a_world A))
| AFree p xs i' : flat (a_kids A) (a_kids A p) xs →
    (∀ x, i' !! x = if decide (x ∈ p :: xs) then None else a_info A !! x) →
    astep A (OFree p) 0 (AForest (kfree (p :: xs) (a_kids A)) i' (foldl (a_destroy (a_info A)) (a_world A) (p :: xs)))
| AParent p q : p ∈ a_kids A q → astep A (OParent p) q A
| AParentRoot p : (∀ q, p ∉ a_kids A q) → astep A (OParent p) 0 A
| ABlocks p xs : flat (a_kids A) (a_kids A p) xs → astep A (OBlocks p) (1 + zlen xs) A
| ASize p xs : flat (a_kids A) (a_kids A p) xs → astep A (OSize p) (sizes (a_info A) (p :: xs)) A.

(** Pointers are live; a chunk does not move below itself. *)
Definition legal (A : aforest W) (o : op) : Prop :=
  let live p := is_Some (a_info A !! p) in
  match o with
  | OAlloc ctx sz => (ctx = 0 ∨ live ctx) ∧ 0 <= sz
  | OSetDestructor p _ | OFree p | OParent p | OBlocks p | OSize p => live p
  | OSteal ctx p => live p ∧ (ctx = 0 ∨ live ctx) ∧ ∀ xs, flat (a_kids A) (a_kids A p) xs → ctx ∉ p :: xs
  end.
End Spec.

(** ** Preorders are kept *)

(** Every chunk heads a finite tree. *)
Definition finite kids : Prop := ∀ p, ∃ xs, flat kids (kids p) xs.

Lemma flat_list kids l : (∀ a, a ∈ l → ∃ xs, flat kids (kids a) xs) → ∃ xs, flat kids l xs.
Proof.
  induction l as [|a l IH]; intros Hl; [exists []; constructor|].
  destruct (Hl a ltac:(set_solver)) as [xs H1]. destruct IH as [ys H2]; [intros b Hb; apply Hl; set_solver|]. eexists. by constructor.
Qed.

Lemma flat_filter kids (D : Z → Prop) `{∀ x, Decision (D x)} l xs : flat kids l xs →
  ∃ ys, flat (λ q, filter D (kids q)) (filter D l) ys ∧ ∀ x, x ∈ ys → x ∈ xs.
Proof.
  induction 1 as [|a l xs ys H1 (xs' & I1 & S1) H2 (ys' & I2 & S2)]; [exists []; split; [constructor|done]|].
  rewrite filter_cons. case_decide.
  - exists (a :: xs' ++ ys'). split; [by constructor|set_solver].
  - exists ys'. split; [done|set_solver].
Qed.

Lemma finite_filter kids (D : Z → Prop) `{∀ x, Decision (D x)} : finite kids → finite (λ q, filter D (kids q)).
Proof. intros Hf p. destruct (Hf p) as [xs Hx]. destruct (flat_filter kids D _ _ Hx) as (ys & Hy & _). eauto. Qed.

Lemma finite_ext kids kids' : (∀ q, kids q = kids' q) → finite kids → finite kids'.
Proof. intros E Hf p. destruct (Hf p) as [xs Hx]. exists xs. rewrite <-E. apply (flat_ext (kids := kids)); [done|]. intros. by rewrite E. Qed.

Lemma finite_kfree D kids : finite kids → finite (kfree D kids).
Proof.
  intros Hf p. unfold kfree at 2. case_decide; [exists []; constructor|].
  destruct (Hf p) as [xs Hx]. clear H. remember (kids p) as l eqn:El. clear El p.
  induction Hx as [|a l xs ys H1 (xs' & I1) H2 (ys' & I2)]; [exists []; constructor|].
  rewrite filter_cons. case_decide as Ha; [|eauto]. exists (a :: xs' ++ ys'). constructor; [|done]. unfold kfree at 2. by rewrite decide_False.
Qed.

(** A chunk put in front of [p]'s children, when [p] is not below it. *)
Lemma finite_add kids p a : finite kids → (∀ xs, flat kids (kids a) xs → p ∉ a :: xs) → finite (kset p (a :: kids p) kids).
Proof.
  intros Hf Hp. destruct (Hf a) as [as_ Ha]. specialize (Hp as_ Ha).
  set (K := kset p (a :: kids p) kids).
  assert (Ha' : flat K (kids a) as_).
  { apply (flat_ext (kids := kids)); [done|]. intros x Hx. apply kset_ne. set_solver. }
  assert (HKa : K a = kids a) by (apply kset_ne; set_solver).
  assert (G : ∀ l xs, flat kids l xs → ∃ ys, flat K l ys).
  { induction 1 as [|b l xs ys H1 (xs' & I1) H2 (ys' & I2)]; [exists []; constructor|].
    destruct (decide (b = p)) as [->|Hb].
    - exists (p :: (a :: as_ ++ xs') ++ ys'). constructor; [|done]. unfold K at 2. rewrite kset_eq. constructor; [by rewrite HKa|done].
    - exists (b :: xs' ++ ys'). constructor; [|done]. unfold K at 2. by rewrite kset_ne. }
  intros q. destruct (Hf q) as [xs Hx]. destruct (G _ _ Hx) as [ys Hy]. unfold K at 2. destruct (decide (q = p)) as [->|Hq].
  - rewrite kset_eq. exists (a :: as_ ++ ys). constructor; [by rewrite HKa|done].
  - rewrite kset_ne by done. eauto.
Qed.

(** Preorders have no repetition. *)
Lemma flat_nodup loose h kids l xs : forest loose h kids → finite kids → flat kids l xs → ∀ p l1, kids p = l1 ++ l → NoDup xs.
Proof.
  intros F Hf. induction 1 as [|a l xs ys H1 IH1 H2 IH2]; intros p l1 Hk; [constructor|].
  destruct (Hf p) as [zs Hz]. destruct (siblings_apart _ _ _ _ _ _ _ _ _ _ F Hk Hz H1 H2) as [Hd _].
  apply NoDup_cons. split.
  - rewrite not_elem_of_app. split; [by apply (flat_acyclic _ _ H1)|apply Hd; set_solver].
  - apply NoDup_app. split_and!; [by apply (IH1 a [])|intros z Hz1; apply Hd; set_solver|].
    apply (IH2 p (l1 ++ [a])). by rewrite <-app_assoc.
Qed.

Lemma flat_live loose h kids l xs : forest loose h kids → flat kids l xs → (∀ x, x ∈ l → is_Some (h !! x)) → ∀ x, x ∈ xs → is_Some (h !! x).
Proof.
  intros F Hfl Hl x Hx. destruct (flat_up _ _ _ Hfl Hx) as [?|(w & _ & Hw)]; [by apply Hl|]. by destruct (fo_in F w x Hw).
Qed.

Lemma nodup_size h (xs : list Z) : NoDup xs → (∀ x, x ∈ xs → is_Some (h !! x)) → (length xs <= base.size h)%nat.
Proof.
  intros Hnd Hl. rewrite <-length_map_to_list, <-(length_map fst (map_to_list h)). apply submseteq_length, NoDup_submseteq; [done|].
  intros x Hx. destruct (Hl x Hx) as [c Hc]. apply list_elem_of_fmap. exists (x, c). split; [done|]. by apply elem_of_map_to_list.
Qed.

(** ** Looking around *)

Section Observe.
Context {W : Type}.
Implicit Types s : tstate W.

Lemma first_sibling_ok s kids q l1 : forest 0 (heap s) kids → ∀ fuel a l2, kids q = l1 ++ a :: l2 → (length l1 <= fuel)%nat →
  first_sibling fuel a s = Ret q.
Proof.
  intros F. induction l1 as [|b l1 IH] using rev_ind; intros fuel a l2 Hk Hf;
    destruct (fo_link _ _ _ F _ _ _ _ Hk) as (c & Hc & _ & Hpv & Hpa).
  - destruct fuel; cbn [first_sibling]; rewrite (chunk_ok a s c Hc), bind_ret, Hpv, Hpa; done.
  - rewrite last_snoc in Hpv. change (prev c = b) in Hpv. rewrite length_app in Hf. cbn [length] in Hf.
    destruct fuel as [|fuel]; [lia|]. cbn [first_sibling]. rewrite (chunk_ok a s c Hc), bind_ret, Hpv. rewrite <-app_assoc in Hk.
    destruct (fo_in F q b ltac:(rewrite Hk; set_solver)) as (_ & _ & Hb & _). rewrite (proj2 (Z.eqb_neq b 0)) by done.
    apply (IH fuel b (a :: l2)); [exact Hk|lia].
Qed.

Lemma parent_chunk_ok s kids p : forest 0 (heap s) kids → is_Some (heap s !! p) →
  (∃ q, p ∈ kids q ∧ talloc_parent_chunk p s = Ret q) ∨ ((∀ q, p ∉ kids q) ∧ talloc_parent_chunk p s = Ret 0).
Proof.
  intros F [c Hc]. destruct (in_kids_dec _ _ _ p F) as [(q & l1 & l2 & Hk)|Hn].
  - left. exists q. split; [rewrite Hk; set_solver|]. apply (first_sibling_ok s kids q l1 F _ p l2 Hk).
    pose proof (fo_nodup _ _ _ F q) as Hnd. rewrite Hk in Hnd. apply NoDup_app in Hnd as (Hnd & _ & _).
    apply nodup_size; [done|]. intros x Hx. by destruct (fo_in F q x ltac:(rewrite Hk; set_solver)).
  - right. split; [done|]. destruct (fo_root _ _ _ F p c Hc) as (_ & Hp & Hpa); [|done|].
    { intros ->. by rewrite (fo_null _ _ _ F) in Hc. }
    unfold talloc_parent_chunk. destruct (base.size (heap s)); cbn [first_sibling]; rewrite (chunk_ok p s c Hc), bind_ret, Hp, Hpa; done.
Qed.

Definition wsum (weight : chunk → Z) h (xs : list Z) : Z := foldr (λ x t, default 0 (weight <$> h !! x) + t) 0 xs.
Lemma wsum_app weight h xs ys : wsum weight h (xs ++ ys) = wsum weight h xs + wsum weight h ys.
Proof. unfold wsum. induction xs as [|x xs IH]; [done|]. cbn [app foldr]. rewrite IH. lia. Qed.

Lemma talloc_total_ok weight s kids : forest 0 (heap s) kids → ∀ n p xs, (length xs < n)%nat → flat kids (kids p) xs → is_Some (heap s !! p) →
  talloc_total weight n p s = Ret (wsum weight (heap s) (p :: xs)).
Proof.
  intros F. induction n as [|n IH]; intros p xs Hn Hfl [c Hc]; [lia|]. cbn [talloc_total].
  rewrite (chunk_ok p s c Hc), bind_ret, (fo_child _ _ _ F _ _ Hc). 
  assert (G : ∀ m l l1 ys, kids p = l1 ++ l → flat kids l ys → (length ys <= n)%nat → (length l <= m)%nat →
    total_children (talloc_total weight n) m (hd 0 l) s = Ret (wsum weight (heap s) ys)).
  { induction m as [|m IHm]; intros l l1 ys Hk Hl Hy Hm.
    - destruct l; [|cbn [length] in Hm; lia]. by inversion Hl.
    - destruct l as [|a l]; [by inversion Hl|]. inversion Hl as [|? ? vs ws H1 H2]; subst. cbn [hd]. cbn [length] in Hy, Hm. rewrite length_app in Hy.
      destruct (fo_link _ _ _ F _ _ _ _ Hk) as (ca & Hca & Hnx & _). destruct (fo_in F p a ltac:(rewrite Hk; set_solver)) as (_ & _ & Ha0 & _).
      cbn [total_children]. rewrite (proj2 (Z.eqb_neq a 0)) by done. rewrite (IH a vs ltac:(lia) H1) by eauto. rewrite bind_ret.
      rewrite (chunk_ok a s ca Hca), bind_ret, Hnx. rewrite (IHm l (l1 ++ [a]) ws) by (try lia; try done; by rewrite <-app_assoc).
      rewrite bind_ret. change (a :: vs ++ ws) with ((a :: vs) ++ ws). by rewrite wsum_app. }
  rewrite (G (S n) (kids p) [] xs eq_refl Hfl) by (pose proof (flat_length _ _ _ Hfl); lia). rewrite bind_ret. cbn [wsum foldr].
  rewrite Hc. done.
Qed.
End Observe.

(** ** The simulation *)

Definition info (c : chunk) : Z * option Z := (size c, match destructor c with DUser f => Some f | _ => None end).

Section Simulation.
Context {W : Type} `{ML : MallocLaws}.
Context (run_destructor : Z → Z → tstate W → outcome (Z * tstate W)) (destroyed : Z → Z → W → W).
Context (benign : ∀ f p s, run_destructor f p s = Ret (0, with_world (destroyed f p (world s)) s)).
Implicit Types (s : tstate W) (A : aforest W).

Record represents s A : Prop := Represents {
  re_forest : forest 0 (heap s) (a_kids A);
  re_finite : finite (a_kids A);
  re_info : ∀ x, a_info A !! x = info <$> heap s !! x;
  re_plain : ∀ x, is_Some (heap s !! x) → plain (heap s) x;
  re_null : null_context s = 0;
  re_world : world s = a_world A;
}.

Definition exec (o : op) s : outcome (Z * tstate W) :=
  match o with
  | OAlloc ctx sz => _talloc ctx sz s
  | OSetDestructor p f => s ← talloc_set_destructor p (DUser f) s; mret (0, s)
  | OSteal ctx p => talloc_steal ctx p s
  | OFree p => talloc_free run_destructor (S (base.size (heap s))) p s
  | OParent p => r ← talloc_parent_chunk p s; mret (r, s)
  | OBlocks p => r ← talloc_total_blocks p s; mret (r, s)
  | OSize p => r ← talloc_total_size p s; mret (r, s)
  end.

Lemma re_live s A x : represents s A → is_Some (a_info A !! x) ↔ is_Some (heap s !! x).
Proof. intros R. by rewrite (re_info _ _ R), fmap_is_Some. Qed.
Lemma re_zero s A : represents s A → ¬ is_Some (heap s !! 0).
Proof. intros R. rewrite (fo_null _ _ _ (re_forest _ _ R)). by intros []. Qed.

Lemma info_data c c' : data c = data c' → info c = info c'.
Proof. unfold data, info. by intros [= _ -> -> _ _ _ _ _]. Qed.
Lemma same_info h h' x : data <$> h' !! x = data <$> h !! x → info <$> h' !! x = info <$> h !! x.
Proof. destruct (h !! x) as [c|], (h' !! x) as [c'|]; try done. intros E. apply (inj Some) in E. cbn. f_equal. by apply info_data. Qed.

(** Only the links changed. *)
Lemma represents_links s h' A kids : represents s A → (∀ x, data <$> h' !! x = data <$> heap s !! x) → forest 0 h' kids → finite kids →
  represents (with_heap h' s) (AForest kids (a_info A) (a_world A)).
Proof.
  intros R D F Hf. split; try done; try apply R.
  - intros x. cbn [a_info heap with_heap]. rewrite (same_info (heap s)) by done. apply R.
  - intros x Hx. apply (plain_data (heap s)); [done|]. apply (re_plain _ _ R). cbn [heap with_heap] in Hx. specialize (D x).
    destruct Hx as [c Hc]. rewrite Hc in D. destruct (heap s !! x); [eauto|done].
Qed.

Definition simulates o s A : Prop := ∃ r s' A', exec o s = Ret (r, s') ∧ astep destroyed A o r A' ∧ represents s' A'.

Lemma sim_alloc s A ctx sz : represents s A → legal A (OAlloc ctx sz) → simulates (OAlloc ctx sz) s A.
Proof.
  intros R [Hctx Hsz]. unfold simulates. cbn [exec]. unfold _talloc, or_null_context. rewrite (re_null _ _ R).
  replace (if ctx =? 0 then 0 else ctx) with ctx by (by destruct (Z.eqb_spec ctx 0)).
  destruct (Z.leb_spec MAX_TALLOC_SIZE sz) as [Hm|Hm]; [exists 0, s, A; split_and!; [done|constructor|done]|].
  destruct (malloc (heap s) sz) as [a|] eqn:Em; [|exists 0, s, A; split_and!; [done|constructor|done]].
  destruct (malloc_fresh _ _ _ Em) as [Ha0 Ha]. pose proof (re_forest _ _ R) as F.
  set (h1 := <[a := new_chunk sz (garbage (heap s) a sz)]> (heap s)). cbv zeta.
  pose proof (forest_insert (heap s) (a_kids A) a (new_chunk sz (garbage (heap s) a sz)) F Ha Ha0 eq_refl) as F1.
  assert (Hka : a_kids A a = []) by (by apply F).
  assert (Ha1 : h1 !! a = Some (new_chunk sz (garbage (heap s) a sz))) by (unfold h1; by rewrite lookup_insert, decide_True).
  assert (Hinfo : ∀ x, <[a := (sz, None)]> (a_info A) !! x = info <$> h1 !! x).
  { intros x. unfold h1. rewrite !lookup_insert. case_decide; [done|]. apply R. }
  assert (Hplain : ∀ x, is_Some (h1 !! x) → plain h1 x).
  { intros x Hx. destruct (decide (x = a)) as [->|Hxa]; [exists (new_chunk sz (garbage (heap s) a sz)); split_and!; [done|done|by left]|].
    assert (E : h1 !! x = heap s !! x) by (unfold h1; by rewrite lookup_insert, decide_False by done).
    apply (plain_data (heap s)); [by rewrite E|]. apply (re_plain _ _ R). by rewrite <-E. }
  assert (Hai : a_info A !! a = None) by (by rewrite (re_info _ _ R), Ha).
  destruct (Z.eqb_spec ctx 0) as [->|Hc0]; cbn [negb].
  - eexists _, _, _. split_and!; [reflexivity|by constructor|]. cbn [Z.eqb]. split; try done; try apply R.
    eapply forest_tighten; [exact F1|exact Ha1|done..].
  - destruct Hctx as [?|Hctx]; [done|]. apply (re_live s) in Hctx; [|done].
    assert (Hca : ctx ≠ a) by (intros ->; destruct Hctx; congruence).
    destruct (add_child_ok (a_kids A) ctx a (with_heap h1 s)) as (h2 & E & F2 & D2); [exact F1|eauto| |done|].
    { cbn [heap with_heap]. unfold h1. by rewrite lookup_insert, decide_False by congruence. }
    rewrite E, bind_ret. eexists _, _, _. split_and!; [reflexivity|by constructor|]. rewrite (proj2 (Z.eqb_neq ctx 0)) by done.
    assert (Hlift : represents (with_heap h1 s) (AForest (a_kids A) (<[a := (sz, None)]> (a_info A)) (a_world A)) →
      represents (with_heap h2 s) (AForest (kset ctx (a :: a_kids A ctx) (a_kids A)) (<[a := (sz, None)]> (a_info A)) (a_world A))).
    { intros R1. apply (represents_links _ h2 _ _ R1 D2 F2). apply finite_add; [apply R|]. intros xs. rewrite Hka. inversion 1. set_solver. }
    apply Hlift. split; try done; try apply R. eapply forest_tighten; [exact F1|exact Ha1|done..].
Qed.

Lemma sim_steal s A ctx p : represents s A → legal A (OSteal ctx p) → simulates (OSteal ctx p) s A.
Proof.
  intros R (Hp & Hctx & Hbelow). apply (re_live s) in Hp; [|done]. pose proof (re_forest _ _ R) as F. destruct Hp as [c Hc].
  pose proof (fo_nonzero F _ _ Hc) as Hp0. unfold simulates. cbn [exec]. unfold talloc_steal, or_null_context. rewrite (re_null _ _ R).
  rewrite (proj2 (Z.eqb_neq p 0)) by done. replace (if ctx =? 0 then 0 else ctx) with ctx by (by destruct (Z.eqb_spec ctx 0)). cbv zeta.
  rewrite (chunk_ok p s c Hc), bind_ret. destruct (unlink_ok (a_kids A) p s F) as (h1 & E1 & F1 & D1); [eauto|].
  assert (Hfin : finite (kdel p (a_kids A))) by (apply finite_filter, R).
  assert (Hlive : ∀ x, is_Some (h1 !! x) ↔ is_Some (heap s !! x)).
  { intros x. rewrite <-(fmap_is_Some data (h1 !! x)), <-(fmap_is_Some data (heap s !! x)). by rewrite D1. }
  destruct (Z.eqb_spec ctx 0) as [->|Hc0].
  - rewrite E1, bind_ret. destruct (proj2 (Hlive p) ltac:(eauto)) as [c1 Hc1].
    rewrite modify_alter by (cbn [heap with_heap]; eauto). rewrite bind_ret. eexists _, _, _. split_and!; [reflexivity|constructor|].
    cbn [Z.eqb]. apply (represents_links s _ A); [done| | |done].
    + intros x. cbn [heap with_heap]. by rewrite alter_data by done.
    + cbn [heap with_heap]. eapply (forest_tighten _ _ p); [|by rewrite lookup_alter, decide_True, Hc1|done..].
      apply (forest_loose_ext h1); [done| | |done|eauto].
      * intros x Hx. by rewrite lookup_alter, decide_False by done.
      * intros c' Hc'. eexists. rewrite lookup_alter, decide_True, Hc' by done. split; [reflexivity|done].
  - destruct Hctx as [?|Hctx]; [done|]. apply (re_live s) in Hctx; [|done]. destruct Hctx as [cc Hcc].
    destruct (re_finite _ _ R p) as [xs Hxs]. specialize (Hbelow xs Hxs).
    rewrite (chunk_ok ctx s cc Hcc), bind_ret. rewrite (proj2 (Z.eqb_neq p ctx)) by (intros ->; set_solver).
    rewrite E1, bind_ret. destruct (add_child_ok (kdel p (a_kids A)) ctx p (with_heap h1 s)) as (h2 & E2 & F2 & D2);
      [exact F1|apply Hlive; eauto|apply Hlive; eauto|intros ->; set_solver|].
    rewrite E2, bind_ret. eexists _, _, _. split_and!; [reflexivity|constructor|]. rewrite (proj2 (Z.eqb_neq ctx 0)) by done.
    apply (represents_links s h2 A); [done| |done|].
    + intros x. rewrite D2. apply D1.
    + apply finite_add; [done|]. intros ys Hys Hin. apply elem_of_cons in Hin as [->|Hin]; [set_solver|].
      destruct (flat_filter (a_kids A) (λ b, b ≠ p) _ _ Hxs) as (zs & Hz & Hs). rewrite (flat_fun _ _ Hys _ Hz) in Hin. apply Hs in Hin. set_solver.
Qed.

Lemma sim_set_destructor s A p f : represents s A → legal A (OSetDestructor p f) → simulates (OSetDestructor p f) s A.
Proof.
  intros R Hp. apply (re_live s) in Hp; [|done]. pose proof Hp as [c Hc]. unfold simulates. cbn [exec]. unfold talloc_set_destructor.
  rewrite modify_alter, bind_ret by done. set (h' := alter (set_dtor (DUser f)) p (heap s)).
  assert (Hi : a_info A !! p = Some (info c)) by (by rewrite (re_info _ _ R), Hc). destruct (info c) as [sz d] eqn:Ei.
  eexists _, _, _. split_and!; [reflexivity|by eapply ASetDestructor|]. split; try done; try apply R.
  - cbn [heap with_heap a_kids]. eapply forest_ext; [|apply R]. intros x. unfold h'. by rewrite set_dtor_links.
  - intros x. cbn [a_info heap with_heap]. unfold h'. rewrite lookup_insert, lookup_alter. case_decide; [subst x|by apply R].
    rewrite Hc. cbn. unfold info in Ei. injection Ei as <- _. done.
  - intros x. cbn [heap with_heap]. unfold h'. rewrite alter_is_Some. intros Hx. destruct (re_plain _ _ R x Hx) as (cx & Hcx & Hr & Hd).
    unfold plain. rewrite lookup_alter. case_decide; [subst x; rewrite Hcx; cbn; eexists; split_and!; [done|done|right; by eexists]|eauto].
Qed.

Lemma destroy_info s A xs w : represents s A → foldl (destroy destroyed (heap s)) w xs = foldl (a_destroy destroyed (a_info A)) w xs.
Proof.
  intros R. revert w. induction xs as [|x xs IH]; intros w; [done|]. cbn [foldl]. rewrite IH. f_equal.
  unfold destroy, a_destroy. rewrite (re_info _ _ R). destruct (heap s !! x) as [c|]; [|done]. cbn. by destruct (destructor c).
Qed.

Lemma subtree_fits s A p xs : represents s A → is_Some (heap s !! p) → flat (a_kids A) (a_kids A p) xs → (length xs < base.size (heap s))%nat.
Proof.
  intros R Hp Hfl. pose proof (re_forest _ _ R) as F.
  assert (length (p :: xs) <= base.size (heap s))%nat; [|done]. apply nodup_size.
  - apply NoDup_cons. split; [by apply (flat_acyclic _ _ Hfl)|]. by eapply (flat_nodup _ _ _ _ _ F (re_finite _ _ R) Hfl p []).
  - intros x Hx. apply elem_of_cons in Hx as [->|Hx]; [done|]. eapply (flat_live _ _ _ _ _ F Hfl); [|done].
    intros y Hy. by destruct (fo_in F p y Hy).
Qed.

Lemma sim_free s A p : represents s A → legal A (OFree p) → simulates (OFree p) s A.
Proof using benign ML.
  intros R Hp. apply (re_live s) in Hp; [|done]. destruct (re_finite _ _ R p) as [xs Hfl]. pose proof (re_forest _ _ R) as F.
  assert (Hlive : ∀ x, x ∈ p :: xs → is_Some (heap s !! x)).
  { intros x Hx. apply elem_of_cons in Hx as [->|Hx]; [done|]. eapply (flat_live _ _ _ _ _ F Hfl); [|done].
    intros y Hy. by destruct (fo_in F p y Hy). }
  destruct (talloc_free_ok run_destructor destroyed benign (S (base.size (heap s))) p xs (a_kids A) s) as (s' & E & [F' G K Wd N C]); try done.
  { pose proof (subtree_fits s A p xs R Hp Hfl). lia. }
  { intros x Hx. by apply (re_plain _ _ R), Hlive. }
  set (i' := base.filter (λ xi, xi.1 ∉ p :: xs) (a_info A)).
  assert (Hi' : ∀ x, i' !! x = if decide (x ∈ p :: xs) then None else a_info A !! x).
  { intros x. unfold i'. case_decide as Hx.
    - apply map_lookup_filter_None. right. intros ? _ Hn. by apply Hn.
    - destruct (a_info A !! x) as [v|] eqn:Ev; [by apply map_lookup_filter_Some|apply map_lookup_filter_None; by left]. }
  eexists _, _, _. split_and!; [exact E|by eapply (AFree _ _ _ _ i')|]. split.
  - done.
  - cbn [a_kids]. apply finite_kfree, R.
  - intros x. cbn [a_info]. rewrite Hi'. case_decide as Hx; [by rewrite G|]. rewrite (re_info _ _ R). symmetry. by apply same_info, K.
  - intros x Hx. destruct (decide (x ∈ p :: xs)) as [Hin|Hin]; [rewrite (G x Hin) in Hx; by destruct Hx|].
    apply (plain_data (heap s)); [by apply K|]. apply (re_plain _ _ R). specialize (K x Hin). destruct Hx as [c Hc]. rewrite Hc in K.
    destruct (heap s !! x); [eauto|done].
  - by rewrite N, (re_null _ _ R).
  - cbn [a_world]. rewrite Wd, (re_world _ _ R). by apply destroy_info.
Qed.

Lemma wsum_sizes s A xs : represents s A → wsum Talloc.size (heap s) xs = sizes (a_info A) xs.
Proof.
  intros R. induction xs as [|x xs IH]; [done|]. cbn [wsum sizes foldr]. fold (wsum Talloc.size (heap s) xs) (sizes (a_info A) xs).
  rewrite IH, (re_info _ _ R). by destruct (heap s !! x).
Qed.
Lemma wsum_blocks h xs : (∀ x, x ∈ xs → is_Some (h !! x)) → wsum (λ _, 1) h xs = zlen xs.
Proof.
  induction xs as [|x xs IH]; intros Hl; [done|]. cbn [wsum foldr]. fold (wsum (λ _, 1) h xs). rewrite IH by set_solver.
  destruct (Hl x) as [c ->]; [set_solver|]. unfold zlen. cbn [length]. cbn. lia.
Qed.

Lemma sim_observe s A o : represents s A → legal A o → match o with OParent _ | OBlocks _ | OSize _ => True | _ => False end → simulates o s A.
Proof.
  intros R Hl Ho. pose proof (re_forest _ _ R) as F.
  destruct o as [| | | |p|p|p]; try done; cbn [legal] in Hl; apply (re_live s) in Hl; try done; unfold simulates; cbn [exec].
  - destruct (parent_chunk_ok s (a_kids A) p F Hl) as [(q & Hq & ->)|(Hn & ->)]; rewrite bind_ret; eexists _, s, A; split_and!; try done; by constructor.
  - destruct (re_finite _ _ R p) as [xs Hfl]. unfold talloc_total_blocks.
    rewrite (talloc_total_ok _ _ _ F _ p xs (subtree_fits s A p xs R Hl Hfl) Hfl Hl), bind_ret.
    eexists _, s, A. split_and!; [reflexivity| |done]. rewrite wsum_blocks.
    + replace (zlen (p :: xs)) with (1 + zlen xs) by (unfold zlen; cbn [length]; lia). by constructor.
    + intros x Hx. apply elem_of_cons in Hx as [->|Hx]; [done|]. eapply (flat_live _ _ _ _ _ F Hfl); [|done]. intros y Hy. by destruct (fo_in F p y Hy).
  - destruct (re_finite _ _ R p) as [xs Hfl]. unfold talloc_total_size, or_null_context. rewrite (re_null _ _ R).
    destruct Hl as [c Hc]. pose proof (fo_nonzero F _ _ Hc) as Hp0. rewrite !(proj2 (Z.eqb_neq p 0)) by done.
    rewrite (talloc_total_ok _ _ _ F _ p xs (subtree_fits s A p xs R ltac:(eauto) Hfl) Hfl ltac:(eauto)), bind_ret.
    eexists _, s, A. split_and!; [reflexivity| |done]. rewrite (wsum_sizes s A) by done. by constructor.
Qed.

(** ** What clients use *)

(** Names and contents do not show in the forest. *)
Definition unseen (g : chunk → chunk) : Prop := ∀ c, links c = links (g c) ∧ info c = info (g c) ∧ refs (g c) = refs c ∧ destructor (g c) = destructor c.
Lemma modify_ok s A p g : unseen g → represents s A → is_Some (heap s !! p) →
  modify p g s = Ret (with_heap (alter g p (heap s)) s) ∧ represents (with_heap (alter g p (heap s)) s) A.
Proof.
  intros Hg R Hp. split; [by apply modify_alter|]. set (h' := alter g p (heap s)).
  assert (D : ∀ x, ∃ g', h' !! x = g' <$> heap s !! x ∧ unseen g').
  { intros x. unfold h'. rewrite lookup_alter. case_decide as Hx; [subst x; by exists g|]. exists id. split; [by destruct (heap s !! x)|]. by intros c. }
  split; try apply R; cbn [heap with_heap].
  - eapply forest_ext; [|apply R]. intros x. destruct (D x) as (g' & -> & Hg'). destruct (heap s !! x) as [c|]; [|done]. cbn. f_equal. apply Hg'.
  - intros x. destruct (D x) as (g' & -> & Hg'). rewrite (re_info _ _ R). destruct (heap s !! x) as [c|]; [|done]. cbn. f_equal. apply Hg'.
  - intros x Hx. destruct (D x) as (g' & E & Hg'). rewrite E, fmap_is_Some in Hx. destruct (re_plain _ _ R x Hx) as (c & Hc & Hr & Hd).
    exists (g' c). rewrite E, Hc. destruct (Hg' c) as (_ & _ & -> & ->). done.
Qed.
Lemma set_cname_ok s A p n : represents s A → is_Some (heap s !! p) → ∃ s', talloc_set_name_const p n s = Ret s' ∧ represents s' A.
Proof. intros R Hp. destruct (modify_ok s A p (set_cname n) ltac:(by intros c) R Hp). eauto. Qed.

Lemma represents_world s A (w : W) : represents s A → represents (with_world w s) (AForest (a_kids A) (a_info A) w).
Proof. intros R. by split; try apply R. Qed.

(** With memory left, an allocation is not NULL. *)
Lemma talloc_nonnull ctx sz s r s' : is_Some (malloc (heap s) sz) → sz < MAX_TALLOC_SIZE → _talloc ctx sz s = Ret (r, s') → r ≠ 0.
Proof using ML.
  intros [a Ha] Hsz. unfold _talloc. destruct (Z.leb_spec MAX_TALLOC_SIZE sz); [lia|]. rewrite Ha. destruct (malloc_fresh _ _ _ Ha) as [Ha0 _]. cbv zeta.
  destruct (negb _); [|by intros [= <- _]]. destruct (add_child _ _ _); try done. rewrite bind_ret. by intros [= <- _].
Qed.

(** A named chunk below a live one. *)
Lemma named_ok s A ctx sz n : represents s A → is_Some (malloc (heap s) sz) → 0 <= sz < MAX_TALLOC_SIZE → is_Some (a_info A !! ctx) → ∃ f s',
  talloc_named_const ctx sz n s = Ret (f, s') ∧ f ≠ 0 ∧ a_info A !! f = None ∧ world s' = world s ∧
  represents s' (AForest (kset ctx (f :: a_kids A ctx) (a_kids A)) (<[f := (sz, None)]> (a_info A)) (a_world A)).
Proof using benign ML.
  intros R Hm Hsz Hc. destruct (sim_alloc s A ctx sz R) as (f & s1 & A1 & E & Hs & R1); [split; [by right|lia]|].
  cbn [exec] in E. pose proof (talloc_nonnull _ _ _ _ _ Hm (proj2 Hsz) E) as Hf0. inversion Hs as [? ? ? _ Hfi _| | | | | | | |]; subst; [|done].
  assert (Hc0 : ctx ≠ 0) by (intros ->; by apply (re_zero _ _ R), (re_live s A)).
  rewrite (proj2 (Z.eqb_neq ctx 0)) in R1 by done.
  destruct (set_cname_ok s1 _ f n R1) as (s2 & E2 & R2).
  { apply (re_live _ _ f R1). cbn [a_info]. rewrite lookup_insert, decide_True by done. eauto. }
  exists f, s2. unfold talloc_named_const. rewrite E, bind_ret, (proj2 (Z.eqb_neq f 0)), E2 by done. split_and!; try done.
  rewrite (re_world _ _ R2). by rewrite (re_world _ _ R).
Qed.

(** As many bytes as were asked for. *)
Lemma named_bytes s A ctx sz n f s' : represents s A → (ctx = 0 ∨ is_Some (a_info A !! ctx)) → f ≠ 0 →
  talloc_named_const ctx sz n s = Ret (f, s') → ∃ c, heap s' !! f = Some c ∧ size c = sz ∧ length (bytes c) = Z.to_nat sz.
Proof using ML.
  intros R Hctx Hf. unfold talloc_named_const, _talloc, or_null_context. rewrite (re_null _ _ R).
  replace (if ctx =? 0 then 0 else ctx) with ctx by (by destruct (Z.eqb_spec ctx 0)).
  destruct (MAX_TALLOC_SIZE <=? sz); [rewrite bind_ret; cbn; by intros [= <- _]|].
  destruct (malloc (heap s) sz) as [a|] eqn:Em; [|rewrite bind_ret; cbn; by intros [= <- _]]. destruct (malloc_fresh _ _ _ Em) as [Ha0 Ha]. cbv zeta.
  set (h1 := <[a := new_chunk sz (garbage (heap s) a sz)]> (heap s)). assert (Ha1 : h1 !! a = Some (new_chunk sz (garbage (heap s) a sz))) by (unfold h1; by rewrite lookup_insert, decide_True).
  assert (G : ∀ h2, data <$> h2 !! a = data <$> h1 !! a →
    ∀ s2, (s ← talloc_set_name_const a n (with_heap h2 s); mret (a, s)) = Ret (f, s2) → ∃ c, heap s2 !! f = Some c ∧ size c = sz ∧ length (bytes c) = Z.to_nat sz).
  { intros h2 D s2. rewrite Ha1 in D. destruct (h2 !! a) as [c|] eqn:Ec; [|done]. cbn in D. unfold data in D. injection D as _ D1 _ _ D2 _ _ _.
    unfold talloc_set_name_const. rewrite modify_alter by (cbn; eauto). rewrite bind_ret. intros [= <- <-]. exists (set_cname n c). cbn [heap with_heap].
    rewrite lookup_alter, decide_True, Ec by done. split_and!; [done|by subst|]. cbn [bytes set_cname]. rewrite D2. apply garbage_length. }
  destruct (Z.eqb_spec ctx 0) as [->|Hc0]; cbn [negb].
  - rewrite bind_ret, (proj2 (Z.eqb_neq a 0)) by done. by apply G.
  - destruct Hctx as [?|Hctx]; [done|]. apply (re_live s) in Hctx; [|done].
    assert (Hca : ctx ≠ a) by (intros ->; destruct Hctx; congruence).
    destruct (add_child_ok (a_kids A) ctx a (with_heap h1 s)) as (h2 & E & _ & D2);
      [by apply (forest_insert _ _ a (new_chunk sz (garbage (heap s) a sz)) (re_forest _ _ R))|eauto| |done|].
    { cbn [heap with_heap]. unfold h1. by rewrite lookup_insert, decide_False by congruence. }
    rewrite E, !bind_ret, (proj2 (Z.eqb_neq a 0)) by done. apply G. by rewrite D2.
Qed.
(** _talloc_zero is talloc_named_const, and the bytes are cleared. *)
Lemma zero_ok s A ctx sz n : represents s A → is_Some (malloc (heap s) sz) → 0 <= sz < MAX_TALLOC_SIZE → is_Some (a_info A !! ctx) → ∃ f s',
  _talloc_zero ctx sz n s = Ret (f, s') ∧ f ≠ 0 ∧ a_info A !! f = None ∧ world s' = world s ∧ (bytes <$> heap s' !! f = Some (replicate (Z.to_nat sz) 0)) ∧
  represents s' (AForest (kset ctx (f :: a_kids A ctx) (a_kids A)) (<[f := (sz, None)]> (a_info A)) (a_world A)).
Proof using benign ML.
  intros R Hm Hsz Hc. destruct (named_ok s A ctx sz n R Hm Hsz Hc) as (f & s1 & E & Hf & Hi & Hw & R1).
  destruct (named_bytes s A ctx sz n f s1 R ltac:(by right) Hf E) as (c & Ec & Es & Eb).
  unfold _talloc_zero. rewrite E, bind_ret. cbv beta iota. rewrite (proj2 (Z.eqb_neq f 0)) by done. unfold write_bytes.
  rewrite (chunk_ok f s1 c Ec), bind_ret. set (z := replicate (Z.to_nat sz) 0).
  assert (Hz : zlen z = zlen (bytes c)) by (unfold z, zlen; rewrite length_replicate; lia).
  assert (Ez : store 0 z (bytes c) = Ret z).
  { rewrite store_splice by (rewrite ?Hz; unfold zlen; lia). f_equal. unfold splice, ztake, zdrop. rewrite Z.add_0_l, Hz. unfold zlen. rewrite Nat2Z.id.
    cbn [Z.to_nat take app]. rewrite drop_all. apply app_nil_r. }
  rewrite Ez, bind_ret. exists f. rewrite modify_alter by eauto. eexists. split_and!; [by rewrite bind_ret|done|done|done| |].
  - cbn [heap with_heap]. by rewrite lookup_alter, decide_True, Ec.
  - destruct (modify_ok s1 _ f (λ c, set_data (size c) z c) ltac:(by intros c') R1 ltac:(eauto)) as [_ R2].
    replace (alter (set_data (size c) z) f (heap s1)) with (alter (λ c, set_data (size c) z c) f (heap s1)); [exact R2|].
    apply alter_ext. intros c' Hc'. rewrite Ec in Hc'. by injection Hc' as <-.
Qed.

Definition initial (w : W) : tstate W := TState ∅ 0 0 w.
Lemma initial_represents w : represents (initial w) (AForest (λ _, []) ∅ w).
Proof.
  split; try done.
  - split; cbn [heap initial a_kids]; try done; try (intros; by apply not_elem_of_nil).
    + intros p. constructor.
    + intros p l1 a l2 E. by destruct l1.
    + intros a p q Ha. by apply not_elem_of_nil in Ha.
  - intros p. exists []. constructor.
  - intros x []. done.
Qed.

(** C3: the allocator keeps a forest.  From the empty heap on, every operation on live
    pointers returns and does what the abstract forest says: a new chunk is the first
    child of its context; stealing moves a chunk with all that is below it; freeing a
    chunk runs the destructors of its subtree in preorder and frees exactly the
    subtree; the parent, the number of blocks and the size are those of the tree.
    Nothing may refer to the chunks, and destructors succeed. *)
Theorem talloc_simulates :
  (∀ w, represents (initial w) (AForest (λ _, []) ∅ w)) ∧
  ∀ s A o, represents s A → legal A o → ∃ r s' A', exec o s = Ret (r, s') ∧ astep destroyed A o r A' ∧ represents s' A'.
Proof using benign ML.
  split; [exact initial_represents|]. intros s A o R Hl. destruct o; try (by apply sim_observe).
  - by apply sim_alloc.
  - by apply sim_set_destructor.
  - by apply sim_steal.
  - by apply sim_free.
Qed.
End Simulation.

(** ** Memory without destructors *)

Definition no_destructor {W} (f p : Z) (s : tstate W) : outcome (Z * tstate W) := mret (0, s).
Definition unchanged {W} (f p : Z) (w : W) : W := w.
Lemma no_destructor_benign {W} f p (s : tstate W) : no_destructor f p s = Ret (0, with_world (unchanged f p (world s)) s).
Proof. by destruct s. Qed.
Lemma destroy_nothing {W} i xs (w : W) : foldl (a_destroy unchanged i) w xs = w.
Proof. induction xs as [|x l IH]; [done|]. cbn [foldl]. unfold a_destroy at 2. by destruct (i !! x) as [[? []]|]. Qed.

Section Plain.
Context {W : Type} `{ML : MallocLaws}.
Implicit Types (s : tstate W) (A : aforest W).

(** Freeing a chunk frees its subtree. *)
Lemma free_tree s A q xs : represents s A → is_Some (a_info A !! q) → flat (a_kids A) (a_kids A q) xs → ∃ s' i,
  talloc_free no_destructor (S (base.size (heap s))) q s = Ret (0, s') ∧ (∀ x, i !! x = if decide (x ∈ q :: xs) then None else a_info A !! x) ∧
  represents s' (AForest (TallocFree.kfree (q :: xs) (a_kids A)) i (a_world A)).
Proof using ML.
  intros R Hq Hx. destruct (sim_free no_destructor unchanged no_destructor_benign s A q R Hq) as (r & s' & A' & E & Hs & R').
  inversion Hs as [| | | |? xs' i Hfl Hi| | | |]; subst. rewrite (flat_fun _ _ Hx _ Hfl). exists s', i. split_and!; [exact E|done|].
  replace (a_world A) with (foldl (a_destroy unchanged (a_info A)) (a_world A) (q :: xs')); [done|].
  by rewrite destroy_nothing.
Qed.

(** An allocation fails, or the chunk is below its context. *)
Lemma alloc_try s A c sz n : represents s A → 0 <= sz → is_Some (a_info A !! c) → ∃ f s',
  talloc_named_const c sz n s = Ret (f, s') ∧
  (f = 0 ∧ s' = s ∨
   f ≠ 0 ∧ a_info A !! f = None ∧ world s' = world s ∧
   represents s' (AForest (kset c (f :: a_kids A c) (a_kids A)) (<[f := (sz, None)]> (a_info A)) (a_world A))).
Proof using ML.
  intros R Hsz Hc. destruct (Z.lt_ge_cases sz MAX_TALLOC_SIZE) as [Hlt|Hge]; [destruct (malloc (heap s) sz) eqn:Em|].
  - destruct (named_ok no_destructor unchanged no_destructor_benign s A c sz n R ltac:(eauto) ltac:(lia) Hc) as (f & s' & E & Hf & Hi & Hw & R').
    exists f, s'. split; [done|]. by right.
  - exists 0, s. split; [|by left]. unfold talloc_named_const, _talloc, or_null_context. rewrite (proj2 (Z.leb_gt _ _) Hlt), Em. done.
  - exists 0, s. split; [|by left]. unfold talloc_named_const, _talloc, or_null_context. by rewrite (proj2 (Z.leb_le _ _) Hge).
Qed.
End Plain.

(** An allocator that hands out the address above all live ones, and destructors that
    are logged.  Fresh memory holds 90s. *)
Definition bump h : Z := 1 + foldr Z.max 0 (map fst (map_to_list h)).
#[export] Instance bump_malloc : Malloc := {| malloc h n := Some (bump h); realloc h p n := Some (bump h); garbage h a n := replicate (Z.to_nat n) 90 |}.

Lemma max_above (l : list Z) x : x ∈ l → x <= foldr Z.max 0 l.
Proof. induction l as [|y l IH]; [by intros ?%not_elem_of_nil|]. intros [->|Hx]%elem_of_cons; cbn [foldr]; [lia|]. specialize (IH Hx). lia. Qed.
Lemma max_nonneg (l : list Z) : 0 <= foldr Z.max 0 l.
Proof. induction l as [|y l IH]; cbn [foldr]; lia. Qed.
Lemma bump_fresh h : bump h ≠ 0 ∧ h !! bump h = None.
Proof.
  pose proof (max_nonneg (map fst (map_to_list h))). split; [unfold bump; lia|]. apply eq_None_not_Some. intros [c Hc].
  assert (Hin : bump h ∈ map fst (map_to_list h)) by (apply list_elem_of_fmap; exists (bump h, c); split; [done|by apply elem_of_map_to_list]).
  pose proof (max_above _ _ Hin). unfold bump in *. lia.
Qed.
#[export] Instance bump_laws : MallocLaws.
Proof. split; intros; simplify_eq/=; [destruct (bump_fresh h); auto..|apply length_replicate]. Qed.

Definition log_destructor (f p : Z) (s : tstate (list (Z * Z))) : outcome (Z * tstate (list (Z * Z))) :=
  Ret (0, with_world (world s ++ [(f, p)]) s).

Fixpoint run (ops : list op) (s : tstate (list (Z * Z))) (rs : list Z) : outcome (list Z * list (Z * Z)) :=
  match ops with
  | [] => mret (rs, world s)
  | o :: ops => '(r, s) ← exec log_destructor o s; run ops s (rs ++ [r])
  end.

(** Chunk 1 holds 2 and 3, and 2 holds 4; 4 moves below 3 and 1 is freed. *)
Lemma talloc_simulates_witness :
  run [OAlloc 0 1; OAlloc 1 10; OAlloc 1 20; OAlloc 2 30; OSetDestructor 2 7; OSetDestructor 3 8; OSetDestructor 4 9;
       OSize 1; OSteal 3 4; OParent 4; OBlocks 3; OFree 1] (initial []) [] =
    Ret ([1; 2; 3; 4; 0; 0; 0; 61; 4; 3; 2; 0], [(8, 3); (9, 4); (7, 2)]) ∧
  ∃ r s' A', exec log_destructor (OAlloc 0 16) (initial []) = Ret (r, s') ∧
    astep (λ f p w, w ++ [(f, p)]) (AForest (λ _, []) ∅ []) (OAlloc 0 16) r A' ∧ represents s' A'.
Proof.
  split; [vm_compute; reflexivity|].
  destruct (talloc_simulates log_destructor (λ f p w, w ++ [(f, p)]) (λ _ _ _, eq_refl)) as [Hi Hs].
  apply (Hs (initial []) _ _ (Hi [])). split; [by left|lia].
Defined.

(** talloc_parent does not test for a top-level chunk. *)
Lemma talloc_parent_of_root : talloc_parent 1 (with_heap {[ 1 := new_chunk 8 [] ]} (initial ())) = Fault "talloc_parent: tc + 1 for a null tc".
Proof. vm_compute. reflexivity. Qed.

(** A reference held below the chunk it refers to: freeing the parent puts the chunk
    below its own child. *)
Definition cycle : outcome (Z * Z * Z) :=
  '(p, s) ← _talloc 0 8 (initial []);
  '(a, s) ← _talloc p 8 s;
  '(b, s) ← _talloc a 8 s;
  '(_, s) ← talloc_reference b a s;
  '(r, s) ← talloc_free log_destructor 20 p s;
  ca ← talloc_chunk_from_ptr a s;
  cb ← talloc_chunk_from_ptr b s;
  mret (r, parent ca, parent cb).
Lemma reference_cycle : cycle = Ret (0, 3, 2).
Proof. vm_compute. reflexivity. Qed.
