(* ===== verification/Helpers.v ===== *)
(** * core/utils.c, core/ipv4/ipv4.h, kernelenv.h: helpers

    Reading a whole file, comparing sequence numbers, lengths of headers, tests of addresses
    and names. *)

From Stdlib Require Import ZArith Lia.
From S2P Require Import Prelude CStr Mem Talloc.

(** ** utils.c grab_file *)

Section Grab.
(** How many bytes the k-th read finds, and whether it fails. *)
Context (chunk : nat → Z) (error : nat → bool).
(** What that many bytes of fresh memory hold. *)
Context (garbage : Z → list Z).

Definition GRAB_MAX : Z := 16384.
(** talloc_realloc of an array of [char]. *)
Definition resize (b : list Z) (max : Z) : option (list Z) :=
  if MAX_TALLOC_SIZE <=? max then None else Some (ztake max b ++ garbage (max - zlen b)).
(** The [k]-th read; [rest] is what it would still read.  A read to the null pointer fails. *)
Fixpoint grab_loop (fuel k : nat) (buffer : option (list Z)) (size max : Z) (rest : list Z) : outcome (option (list Z) * Z) :=
  match fuel with O => Fault "grab_file: out of fuel" | S fuel =>
    if error k then mret (None, size) else
    let n := Z.min (Z.min (chunk k) (u64 (max - size))) (zlen rest) in
    if n =? 0 then mret (buffer, size) else
    match buffer with
    | None => mret (None, size)
    | Some b =>
        b ← store size (ztake n rest) b;
        let size := u64 (size + n) in
        if size =? max then let max := u32 (max * (2 + 1)) in grab_loop fuel (k + 1) (resize b max) size max (zdrop n rest)
        else grab_loop fuel (k + 1) (Some b) size max (zdrop n rest)
    end
  end.
(** The buffer, or NULL, and *size. *)
Definition grab_file (contents : list Z) : outcome (option (list Z) * Z) :=
  grab_loop (length contents + 1) 0 (Some (garbage (GRAB_MAX + 1))) 0 GRAB_MAX contents.
End Grab.

(** get_random_bytes fills the buffer from its end; [random] is the number of calls before. *)
Definition get_random_bytes (random : nat → Z) (nbytes : nat) : list Z := rev (map (λ i, u8 (random i)) (seq 0 nbytes)).

Definition strends (a b : text) : bool :=
  if (length a <? length b)%nat then false else streq (drop (length a - length b) a) b.

(** ** Sequence numbers *)

(** is s2<=s1<=s3 ? *)
Definition between (seq1 seq2 seq3 : Z) : bool := u32 (seq1 - seq2) <=? u32 (seq3 - seq2).
Definition before (seq1 seq2 : Z) : bool := s32 (seq1 - seq2) <? 0.
Definition after (seq1 seq2 : Z) : bool := s32 (seq2 - seq1) <? 0.

(** ** Addresses *)

(** A shift by 32 is undefined. *)
Fixpoint bits_loop (fuel : nat) (netmask bit maskbits : Z) : outcome Z :=
  if 32 <=? bit then Fault "netmask_bits: shift by the width" else
  if negb (Z.land (u32 (Z.shiftl netmask bit)) 0x80000000 =? 0) then mret maskbits else
  match fuel with O => Fault "netmask_bits: out of fuel" | S fuel => bits_loop fuel netmask (bit + 1) (maskbits - 1) end.
Definition netmask_bits (netmask : Z) : outcome Z := bits_loop 33 netmask 0 32.

Definition LOOPBACK (htonl : Z → Z) (x : Z) : bool := Z.land x (htonl 0xff000000) =? htonl 0x7f000000.
Definition LOCAL_MCAST (htonl : Z → Z) (x : Z) : bool := Z.land x (htonl 0xffffff00) =? htonl 0xe0000000.

(** The four words. *)
Definition ipv6_addr_equal (a1 a2 : Z * Z * Z * Z) : bool :=
  let '(a, b, c, d) := a1 in let '(x, y, z, w) := a2 in (a =? x) && (b =? y) && (c =? z) && (d =? w).

(** ** DCCP headers *)

Inductive dccp_pkt_type := REQUEST | RESPONSE | DATA | ACK | DATAACK | CLOSEREQ | CLOSE | RESET | SYNC | SYNCACK | INVALID.
Definition dccp_types : list dccp_pkt_type := [REQUEST; RESPONSE; DATA; ACK; DATAACK; CLOSEREQ; CLOSE; RESET; SYNC; SYNCACK; INVALID].
Definition dccp_hdr_ack_bits : Z := 8.
Definition dccp_hdr_request : Z := 4.
Definition dccp_hdr_response : Z := dccp_hdr_ack_bits + 4.
Definition dccp_hdr_reset : Z := dccp_hdr_ack_bits + 4.
(** A type without a constant has the length of a reset. *)
Definition dccp_packet_hdr_len (type : Z) : Z :=
  match dccp_types !! Z.to_nat type with
  | Some DATA => 0
  | Some (DATAACK | ACK | SYNC | SYNCACK | CLOSE | CLOSEREQ) => dccp_hdr_ack_bits
  | Some REQUEST => dccp_hdr_request
  | Some RESPONSE => dccp_hdr_response
  | _ => dccp_hdr_reset
  end.
(** The header's fields that matter here. *)
Record dccp_hdr := DccpHdr { dccph_x : Z; dccph_type : Z }.
Definition DCCP_HDR : Z := 12.
Definition DCCP_HDR_EXT : Z := 4.
Definition __dccp_basic_hdr_len (dh : dccp_hdr) : Z := DCCP_HDR + if negb (dccph_x dh =? 0) then DCCP_HDR_EXT else 0.
Definition __dccp_hdr_len (dh : dccp_hdr) : Z := u32 (__dccp_basic_hdr_len dh + dccp_packet_hdr_len (dccph_type dh)).

(** ** Sequence numbers on a circle *)

Lemma u32_diff a b : u32 (u32 a - u32 b) = u32 (a - b).
Proof. unfold wrap. by rewrite <-Zminus_mod. Qed.

(** Sequence numbers wrap around and are still compared: for numbers that count on
    without bound, taken modulo 2^32, before and after order any two less than 2^31 apart,
    and between says whether a number that lies less than 2^32 behind the lower end is not
    above the upper one, for every interval shorter than 2^32. *)
Theorem sequence_numbers_compare a b :
  (Z.abs (a - b) < 2 ^ 31 → before (u32 a) (u32 b) = (a <? b) ∧ after (u32 a) (u32 b) = (b <? a)) ∧
  (∀ c, b <= a < b + 2 ^ 32 → b <= c < b + 2 ^ 32 → between (u32 a) (u32 b) (u32 c) = (a <=? c)).
Proof.
  split.
  - intros Hab.
    assert (G : ∀ x y, Z.abs (x - y) < 2 ^ 31 → (s32 (u32 x - u32 y) <? 0) = (x <? y)).
    { intros x y Hxy. unfold signed. change (wrap 32 (u32 x - u32 y)) with (u32 (u32 x - u32 y)). rewrite u32_diff. change (2 ^ (32 - 1)) with (2 ^ 31).
      unfold wrap. destruct (Z.ltb_spec x y) as [Hlt|Hge].
      - replace ((x - y) `mod` 2 ^ 32) with (x - y + 2 ^ 32) by (apply (Z.mod_unique _ _ (-1)); lia).
        rewrite (proj2 (Z.ltb_ge (x - y + 2 ^ 32) (2 ^ 31))) by lia. apply Z.ltb_lt. lia.
      - rewrite Z.mod_small by lia. rewrite (proj2 (Z.ltb_lt (x - y) (2 ^ 31))) by lia. apply Z.ltb_ge. lia. }
    unfold before, after. split; apply G; lia.
  - intros c Ha Hc. unfold between. rewrite !u32_diff. unfold wrap. rewrite !Z.mod_small by lia.
    destruct (Z.leb_spec a c); [apply Z.leb_le; lia|apply Z.leb_gt; lia].
Qed.
Lemma sequence_numbers_compare_witness : before 0xfffffff0 0x10 = true ∧ before (u32 0xfffffff0) (u32 0x100000010) = (0xfffffff0 <? 0x100000010).
Proof. split; [reflexivity|]. apply (proj1 (sequence_numbers_compare 0xfffffff0 0x100000010)). lia. Defined.

(** ** netmask_bits finds the highest bit *)

Lemma bits_loop_high netmask : 0 < netmask < 2 ^ 32 → ∀ fuel bit, 0 <= bit <= 31 - Z.log2 netmask → (31 - Z.log2 netmask - bit < Z.of_nat fuel) →
  bits_loop fuel netmask bit (32 - bit) = Ret (Z.log2 netmask + 1).
Proof.
  intros Hn. assert (Hl : 0 <= Z.log2 netmask < 32) by (split; [apply Z.log2_nonneg|apply Z.log2_lt_pow2; lia]).
  assert (Ht : ∀ bit, 0 <= bit <= 31 - Z.log2 netmask → (Z.land (u32 (Z.shiftl netmask bit)) 0x80000000 =? 0) = negb (bit =? 31 - Z.log2 netmask)).
  { intros bit Hb. change 0x80000000 with (2 ^ 31). destruct (Z.eqb_spec bit (31 - Z.log2 netmask)) as [->|Hne]; cbn [negb].
    - apply Z.eqb_neq. intros E. apply (f_equal (λ x, Z.testbit x 31)) in E. rewrite Z.bits_0, Z.land_spec, Z.pow2_bits_true, andb_true_r in E by lia.
      unfold wrap in E. rewrite Z.mod_pow2_bits_low, Z.shiftl_spec in E by lia. replace (31 - (31 - Z.log2 netmask)) with (Z.log2 netmask) in E by lia.
      rewrite Z.bit_log2 in E by lia. done.
    - apply Z.eqb_eq. apply Z.bits_inj'. intros i Hi. rewrite Z.bits_0, Z.land_spec. destruct (Z.eq_dec i 31) as [->|Hi31].
      + unfold wrap. rewrite Z.mod_pow2_bits_low, Z.shiftl_spec by lia. rewrite Z.bits_above_log2 by lia. done.
      + rewrite Z.pow2_bits_false by lia. apply andb_false_r. }
  induction fuel as [|fuel IH]; intros bit Hb Hf; [lia|]. cbn [bits_loop]. rewrite (proj2 (Z.leb_gt _ _)), Ht by lia.
  destruct (Z.eqb_spec bit (31 - Z.log2 netmask)) as [->|Hne]; cbn [negb]; [f_equal; lia|].
  replace (32 - bit - 1) with (32 - (bit + 1)) by lia. apply IH; lia.
Qed.
(** The bits of a mask are counted from its highest one, so a mask of the host's order always
    has 32; the mask 0 shifts by the width. *)
Lemma netmask_bits_high netmask : 0 < netmask < 2 ^ 32 → netmask_bits netmask = Ret (Z.log2 netmask + 1).
Proof. intros Hn. pose proof (Z.log2_nonneg netmask). pose proof (Z.log2_lt_pow2 netmask 32 ltac:(lia)). apply (bits_loop_high netmask Hn 33 0); lia. Qed.
Lemma netmask_bits_host : netmask_bits 0xffffff00 = Ret 32 ∧ netmask_bits 0xff000000 = Ret 32 ∧ netmask_bits 0 = Fault "netmask_bits: shift by the width".
Proof. by split_and!. Qed.

(** A DCCP header fits in 28 bytes. *)
Lemma dccp_hdr_len_bounds dh : 12 <= __dccp_hdr_len dh <= 28.
Proof.
  unfold __dccp_hdr_len, __dccp_basic_hdr_len, dccp_packet_hdr_len, dccp_hdr_reset, dccp_hdr_response, dccp_hdr_request, dccp_hdr_ack_bits, DCCP_HDR, DCCP_HDR_EXT.
  destruct (dccp_types !! _) as [[]|]; destruct (negb _); rewrite wrap_small; lia.
Qed.

(** ** The whole file is read *)

Section GrabAll.
Context (chunk : nat → Z) (Hchunk : ∀ k, 1 <= chunk k).
Context (garbage : Z → list Z) (Hgarbage : ∀ n, length (garbage n) = Z.to_nat n).
Definition no_error (k : nat) : bool := false.

(** The capacities the buffer has: GRAB_MAX, three times that, and so on. *)
Definition GRAB_LIMIT : Z := GRAB_MAX * 3 ^ 8.

(** The buffer holds what was read, and there is room behind it. *)
Record grabbed (b : list Z) (size max : Z) (got : list Z) : Prop := Grabbed {
  gr_got : ztake size b = got;
  gr_size : zlen got = size;
  gr_room : size < max <= zlen b ∧ zlen b <= max + 1;
  gr_small : zlen b < MAX_TALLOC_SIZE;
  gr_max : ∃ k, 0 <= k <= 8 ∧ max = GRAB_MAX * 3 ^ k;
}.

Lemma grab_store b size max got n rest : grabbed b size max got → 1 <= n <= max - size → n <= zlen rest →
  ∃ b', store size (ztake n rest) b = Ret b' ∧ ztake (size + n) b' = got ++ ztake n rest ∧ zlen b' = zlen b.
Proof.
  intros [Hg Hs Hr _ _] Hn Hl. pose proof (zlen_nonneg got). assert (Hz : zlen (ztake n rest) = n) by (apply zlen_ztake; lia).
  destruct (store_ret size (ztake n rest) b) as (b' & E & Hz' & H1 & H2 & _); [lia|lia|]. exists b'. split_and!; [done| |done]. rewrite Hz in H2.
  rewrite ztake_split by lia. congruence.
Qed.
Lemma resize_ok b max : zlen b <= max → max < MAX_TALLOC_SIZE → ∃ b', resize garbage b max = Some b' ∧ zlen b' = max ∧ ∀ n, n <= zlen b → ztake n b' = ztake n b.
Proof.
  intros Hb Hm. unfold resize. rewrite (proj2 (Z.leb_gt _ _)) by lia. pose proof (zlen_nonneg b). eexists. split_and!; [done| |].
  - rewrite ztake_all by lia. unfold zlen. rewrite length_app, Hgarbage. unfold zlen in *. lia.
  - intros n Hn. rewrite (ztake_all max b) by lia. unfold ztake, zlen in *. rewrite take_app_le by lia. done.
Qed.

Lemma grow_ok b max got k : zlen got = max → max = GRAB_MAX * 3 ^ k → 0 <= k <= 8 → ztake max b = got → max <= zlen b <= max + 1 →
  u32 (max * (2 + 1)) = GRAB_MAX * 3 ^ (k + 1) ∧
  (k < 8 → ∃ b', resize garbage b (u32 (max * (2 + 1))) = Some b' ∧ grabbed b' max (u32 (max * (2 + 1))) got) ∧
  (k = 8 → resize garbage b (u32 (max * (2 + 1))) = None).
Proof.
  intros Hg Hm Hk Ht Hz. assert (E : u32 (max * (2 + 1)) = GRAB_MAX * 3 ^ (k + 1)).
  { assert (3 ^ k <= 3 ^ 8) by (apply Z.pow_le_mono_r; lia). assert (0 < 3 ^ k) by lia. change (3 ^ 8) with 6561 in *.
    rewrite wrap_small, Hm, (Z.pow_add_r 3 k 1) by (rewrite ?Hm; unfold GRAB_MAX; lia). change (3 ^ 1) with 3. lia. }
  assert (Hp : 1 <= 3 ^ k) by (pose proof (Z.pow_pos_nonneg 3 k); lia). rewrite Z.pow_add_r in E by lia. change (3 ^ 1) with 3 in E.
  split; [rewrite E, Z.pow_add_r by lia; done|]. split.
  - intros Hk8. assert (3 ^ k <= 3 ^ 7) by (apply Z.pow_le_mono_r; lia). change (3 ^ 7) with 2187 in *. unfold GRAB_MAX in *.
    destruct (resize_ok b (u32 (max * (2 + 1)))) as (b' & Eb & Hb & Hkeep); [lia|unfold MAX_TALLOC_SIZE; lia|]. exists b'. split; [done|].
    split; [by rewrite Hkeep by lia|done|lia|unfold MAX_TALLOC_SIZE; lia|]. exists (k + 1). split; [lia|]. rewrite E, Z.pow_add_r by lia. unfold GRAB_MAX. lia.
  - intros ->. unfold resize. rewrite E. by vm_compute.
Qed.

Lemma grab_loop_ok : ∀ fuel k b size max got rest, (length rest < fuel)%nat → grabbed b size max got →
  if zlen got + zlen rest <? GRAB_LIMIT then
    ∃ b' max', grab_loop chunk no_error garbage fuel k (Some b) size max rest = Ret (Some b', size + zlen rest) ∧ grabbed b' (size + zlen rest) max' (got ++ rest)
  else grab_loop chunk no_error garbage fuel k (Some b) size max rest = Ret (None, GRAB_LIMIT).
Proof using Hchunk Hgarbage.
  induction fuel as [|fuel IH]; intros k b size max got rest Hf G; [lia|]. cbn [grab_loop no_error]. pose proof G as [Hg Hs Hr Hsm (j & Hj & Hm)].
  pose proof (zlen_nonneg got) as Hn. assert (Hlim : max <= GRAB_LIMIT).
  { rewrite Hm. unfold GRAB_LIMIT, GRAB_MAX. assert (3 ^ j <= 3 ^ 8) by (apply Z.pow_le_mono_r; lia). lia. }
  unfold MAX_TALLOC_SIZE in *. replace (u64 (max - size)) with (max - size) by (symmetry; apply wrap_small; lia). cbv zeta. specialize (Hchunk k).
  destruct rest as [|x rest0] eqn:Erest.
  - change (zlen []) with 0. rewrite (proj2 (Z.eqb_eq _ _)), !Z.add_0_r by lia. rewrite (proj2 (Z.ltb_lt _ _)) by lia. exists b, max. by rewrite app_nil_r.
  - rewrite <-Erest in *. assert (Hl : 1 <= zlen rest) by (subst rest; unfold zlen; cbn [length]; lia). set (n := Z.min _ (zlen rest)).
    assert (Hnn : 1 <= n <= max - size ∧ n <= zlen rest) by lia. rewrite (proj2 (Z.eqb_neq _ _)) by lia. clearbody n.
    destruct (grab_store b size max got n rest G) as (b' & E & Ht & Hz); [lia|lia|]. rewrite E, bind_ret. replace (u64 (size + n)) with (size + n) by (symmetry; apply wrap_small; lia).
    assert (Hgl : zlen (got ++ ztake n rest) = size + n) by (rewrite zlen_app, zlen_ztake; lia).
    assert (Hd : zlen (zdrop n rest) = zlen rest - n) by (apply zlen_zdrop; lia).
    assert (Hfd : (length (zdrop n rest) < fuel)%nat) by (unfold zlen in Hd; lia).
    assert (Happ : (got ++ ztake n rest) ++ zdrop n rest = got ++ rest) by (by rewrite <-app_assoc, ztake_zdrop).
    destruct (Z.eqb_spec (size + n) max) as [Efull|Hne].
    + destruct (grow_ok b' max (got ++ ztake n rest) j) as (Emax & Hgrow & Hnull); [lia|done|done|by rewrite <-Efull|lia|].
      destruct (Z.eq_dec j 8) as [->|Hj8].
      * rewrite Hnull by done. assert (max = GRAB_LIMIT) by (by rewrite Hm). rewrite (proj2 (Z.ltb_ge _ _)) by lia.
        destruct fuel as [|fuel]; [lia|]. cbn [grab_loop no_error]. destruct (_ =? 0); do 2 f_equal; lia.
      * destruct Hgrow as (b2 & -> & G2); [lia|]. specialize (IH (k + 1)%nat b2 max _ _ (zdrop n rest) Hfd G2). rewrite Efull, Hgl, Hd in *.
        replace (max + (zlen rest - n)) with (zlen got + zlen rest) in IH by lia. rewrite Hs in *. rewrite Happ in IH. exact IH.
    + assert (G2 : grabbed b' (size + n) max (got ++ ztake n rest)).
      { split; [done|done|lia|unfold MAX_TALLOC_SIZE; lia|by exists j]. }
      specialize (IH (k + 1)%nat b' (size + n) max _ (zdrop n rest) Hfd G2). rewrite Hgl, Hd in IH.
      replace (size + n + (zlen rest - n)) with (zlen got + zlen rest) in IH by lia. rewrite Hs in *. rewrite Happ in IH. exact IH.
Qed.

(** grab_file returns the whole file, however the reads are cut: without an error a file
    shorter than GRAB_LIMIT (107495424 bytes) comes in a buffer that has room for one more
    byte behind it, with its size; from that size on the result is NULL. *)
Theorem grab_file_reads_all contents :
  if zlen contents <? GRAB_LIMIT then
    ∃ b, grab_file chunk no_error garbage contents = Ret (Some b, zlen contents) ∧ ztake (zlen contents) b = contents ∧ zlen contents < zlen b
  else grab_file chunk no_error garbage contents = Ret (None, GRAB_LIMIT).
Proof using Hchunk Hgarbage.
  unfold grab_file. set (b0 := garbage _).
  assert (Hb : zlen b0 = GRAB_MAX + 1) by (unfold b0, zlen; rewrite Hgarbage; unfold GRAB_MAX; lia).
  pose proof (grab_loop_ok (length contents + 1) 0 b0 0 GRAB_MAX [] contents ltac:(lia)) as G. change (zlen []) with 0 in G. rewrite !Z.add_0_l in G.
  assert (H0 : ztake 0 b0 = []) by (by apply ztake_0). clearbody b0.
  specialize (G ltac:(split; [done|done|unfold GRAB_MAX in *; lia|unfold GRAB_MAX, MAX_TALLOC_SIZE in *; lia|by exists 0])).
  destruct (zlen contents <? GRAB_LIMIT); [|exact G]. destruct G as (b & max & E & [Hg _ Hr _ _]). exists b. split_and!; [exact E|exact Hg|lia].
Qed.
End GrabAll.

Lemma grab_file_reads_all_witness :
  grab_file (λ k, 2) no_error (λ n, replicate (Z.to_nat n) 90) [1; 2; 3; 4; 5] = Ret (Some ([1; 2; 3; 4; 5] ++ replicate 16380 90), 5) ∧
  ∃ b, grab_file (λ k, 2) no_error (λ n, replicate (Z.to_nat n) 90) [1; 2; 3; 4; 5] = Ret (Some b, 5) ∧ ztake 5 b = [1; 2; 3; 4; 5] ∧ 5 < zlen b.
Proof. split; [vm_compute; reflexivity|]. apply (grab_file_reads_all (λ k, 2) ltac:(intros; lia) (λ n, replicate (Z.to_nat n) 90) (λ n, length_replicate _ _) [1; 2; 3; 4; 5]). Defined.
