(* ===== verification/Field.v ===== *)
(** * core/field.c: extra fields of a structure

    A field is a chunk with a destructor that takes it off the list of fields.  The
    list, newest first, is the [world] the destructors of talloc act on; an entry
    is the field's address and its contents. *)

From Stdlib Require Import ZArith Lia.
From S2P Require Import Prelude CStr Mem Talloc Forest TallocFree TallocSpec.

Record field := Field { name : text; strct : Z; val : Z }.
Abbreviation fields := (list (Z * field)).
Definition FIELD_SIZE : Z := 40.
(** The number of [field_destroy] among the destructors. *)
Definition FIELD_DESTROY : Z := 1.

Definition list_del_field (f : Z) (l : fields) : fields := filter (λ e, e.1 ≠ f) l.

Section Field.
Context `{Malloc}.
Abbreviation st := (tstate fields).

(** The effect on the list. *)
Definition field_destroyed (f p : Z) (l : fields) : fields := if f =? FIELD_DESTROY then list_del_field p l else l.
Definition field_destroy (f p : Z) (s : st) : outcome (Z * st) :=
  mret (0, with_world (field_destroyed f p (world s)) s).

Definition __field_attach (ctx strct : Z) (name : text) (val : Z) (s : st) : outcome st :=
  '(f, s) ← talloc_named_const ctx FIELD_SIZE (NConst (tx "struct field")) s;
  if f =? 0 then Fault "__field_attach: store through a null pointer" else
  let s := with_world ((f, Field name strct val) :: world s) s in
  s ← talloc_set_destructor f (DUser FIELD_DESTROY) s;
  '(_, s) ← talloc_steal f val s;
  mret s.
Definition field_attach (strct : Z) (name : text) (val : Z) (s : st) : outcome st := __field_attach strct strct name val s.
Definition field_attach_static (field_ctx strct : Z) (name : text) (val : Z) (s : st) : outcome st := __field_attach field_ctx strct name val s.

Definition __field_find (s_ : Z) (n : text) (l : fields) : option (Z * field) :=
  snd <$> list_find (λ e, s_ = strct e.2 ∧ n = name e.2) l.
Definition field_exists (s_ : Z) (n : text) (s : st) : bool := bool_decide (is_Some (__field_find s_ n (world s))).
Definition field_value (s_ : Z) (n : text) (s : st) : Z :=
  match __field_find s_ n (world s) with Some (_, f) => val f | None => 0 end.

Definition field_detach (fuel : nat) (s_ : Z) (n : text) (s : st) : outcome st :=
  '(_, s) ← talloc_free field_destroy fuel (match __field_find s_ n (world s) with Some (f, _) => f | None => 0 end) s; mret s.

Fixpoint entry_at (f : Z) (l : fields) : option field :=
  match l with [] => None | (g, e) :: l => if g =? f then Some e else entry_at f l end.
Fixpoint next_entry (f : Z) (l : fields) : option Z :=
  match l with [] => None | (g, e) :: l => if g =? f then fst <$> head l else next_entry f l end.

(** list_for_each_entry_safe: the next entry is remembered before the visited one is
    freed; it must still be there when it is visited. *)
Fixpoint detach_loop (steps fuel : nat) (s_ : Z) (i : option Z) (s : st) : outcome st :=
  match i, steps with
  | None, _ => mret s
  | _, O => Fault "field_detach_all: out of fuel"
  | Some f, S steps =>
      e ← of_option "field_detach_all: the next entry was freed" (entry_at f (world s));
      let tmp := next_entry f (world s) in
      s ← (if strct e =? s_ then '(_, s) ← talloc_free field_destroy fuel f s; mret s else mret s);
      detach_loop steps fuel s_ tmp s
  end.
Definition field_detach_all (fuel : nat) (s_ : Z) (s : st) : outcome st :=
  detach_loop (length (world s)) fuel s_ (fst <$> head (world s)) s.

Definition setup_field (nfsim_tallocs : Z) (s : st) : outcome (Z * st) :=
  talloc_named_const nfsim_tallocs 1 (NConst (tx "Extra fields")) s.
End Field.

(** ** Fields live as long as their chunk *)

Section Lifetime.
Context `{ML : MallocLaws}.
Implicit Types (s : tstate fields) (A : aforest fields).

(** Every field on the list is a live chunk with the destructor, and is there once. *)
Record fields_live A : Prop := FieldsLive {
  fl_live : ∀ f e, (f, e) ∈ a_world A → ∃ sz, a_info A !! f = Some (sz, Some FIELD_DESTROY);
  fl_nodup : NoDup (map fst (a_world A));
}.

Lemma in_fst f (l : fields) : f ∈ map fst l ↔ ∃ e, (f, e) ∈ l.
Proof.
  split; [intros ([? e] & -> & ?)%list_elem_of_fmap; by exists e|]. intros [e He]. apply list_elem_of_fmap. by exists (f, e).
Qed.

Lemma destroy_fields (i : gmap Z (Z * option Z)) xs (l : fields) : (∀ f e, (f, e) ∈ l → ∃ sz, i !! f = Some (sz, Some FIELD_DESTROY)) →
  foldl (a_destroy field_destroyed i) l xs = filter (λ e, e.1 ∉ xs) l.
Proof.
  revert l. induction xs as [|x xs IH]; intros l Hl; cbn [foldl].
  - symmetry. apply filter_all. apply Forall_forall. intros e _. apply not_elem_of_nil.
  - assert (E : a_destroy field_destroyed i l x = filter (λ e, e.1 ≠ x) l).
    { unfold a_destroy. destruct (i !! x) as [[sz [f|]]|] eqn:Ex.
      - unfold field_destroyed. destruct (Z.eqb_spec f FIELD_DESTROY) as [->|Hf]; [done|]. symmetry. apply filter_all.
        apply Forall_forall. intros [g e] Hg Eg. cbn in Eg. subst g. destruct (Hl _ _ Hg) as [sz' Hi]. congruence.
      - symmetry. apply filter_all. apply Forall_forall. intros [g e] Hg Eg. cbn in Eg. subst g. destruct (Hl _ _ Hg) as [sz' Hi]. congruence.
      - symmetry. apply filter_all. apply Forall_forall. intros [g e] Hg Eg. cbn in Eg. subst g. destruct (Hl _ _ Hg) as [sz' Hi]. congruence. }
    rewrite E, IH.
    + rewrite list_filter_filter. apply list_filter_iff. intros e. rewrite not_elem_of_cons. tauto.
    + intros f e He. apply list_elem_of_filter in He as [_ He]. eauto.
Qed.

(** Operations that leave the fields' destructors alone. *)
Definition keeps_fields A (o : op) : Prop :=
  match o with OSetDestructor p _ => p ∉ map fst (a_world A) | _ => True end.

Lemma fields_live_step A o r A' : fields_live A → keeps_fields A o → astep field_destroyed A o r A' → fields_live A'.
Proof.
  intros [Hl Hn] Hk Hs. destruct Hs as [ctx sz a Ha0 Ha Hsz|ctx sz|p f sz d Hp|ctx p|p xs i' Hfl Hi'| | | |]; try (by split).
  - split; [|done]. intros f e He. cbn [a_info a_world] in *. destruct (Hl f e He) as [sz' Hf]. exists sz'.
    rewrite lookup_insert, decide_False; [done|]. intros ->. congruence.
  - split; [|done]. intros g e He. cbn [a_info a_world keeps_fields] in *. destruct (Hl g e He) as [sz' Hf]. exists sz'.
    rewrite lookup_insert, decide_False; [done|]. intros ->. apply Hk, in_fst. eauto.
  - split; cbn [a_info a_world]; rewrite destroy_fields by done.
    + intros f e He. apply list_elem_of_filter in He as [Hx He]. cbn in Hx. destruct (Hl f e He) as [sz' Hf]. exists sz'.
      rewrite Hi'. by rewrite decide_False.
    + clear - Hn. induction (a_world A) as [|[g e] l IH]; [done|]. cbn [map fst] in Hn. apply NoDup_cons in Hn as [H1 H2].
      rewrite filter_cons. case_decide; [|by apply IH]. cbn [map fst]. apply NoDup_cons. split; [|by apply IH].
      intros Hin. apply H1. apply in_fst in Hin as [e' He']. apply list_elem_of_filter in He' as [_ He']. apply in_fst. eauto.
Qed.

Lemma benign_field f p s : field_destroy f p s = Ret (0, with_world (field_destroyed f p (world s)) s).
Proof. done. Qed.

(** The state after a field's chunk is made. *)
Lemma talloc_field s A ctx : represents s A → is_Some (malloc (heap s) FIELD_SIZE) → is_Some (a_info A !! ctx) → ∃ f s',
  talloc_named_const ctx FIELD_SIZE (NConst (tx "struct field")) s = Ret (f, s') ∧ f ≠ 0 ∧ a_info A !! f = None ∧ world s' = world s ∧
  represents s' (AForest (kset ctx (f :: a_kids A ctx) (a_kids A)) (<[f := (FIELD_SIZE, None)]> (a_info A)) (a_world A)).
Proof using ML. intros. by apply (named_ok field_destroy field_destroyed benign_field). Qed.

(** [attached f str n v A A']: [f] is a new field of [str]. *)
Record attached (f str : Z) (n : text) (v : Z) A A' : Prop := Attached {
  at_fresh : a_info A !! f = None;
  at_world : a_world A' = (f, Field n str v) :: a_world A;
  at_below : f ∈ a_kids A' str;
  at_value : a_kids A' f = [v];
  at_live : fields_live A';
}.

Lemma attach_ok s A str n v : represents s A → fields_live A → is_Some (malloc (heap s) FIELD_SIZE) → is_Some (a_info A !! str) → is_Some (a_info A !! v) →
  (∀ xs, flat (a_kids A) (a_kids A v) xs → str ∉ v :: xs) →
  ∃ f s' A', field_attach str n v s = Ret s' ∧ represents s' A' ∧ attached f str n v A A'.
Proof using ML.
  intros R [Hl Hn] Hm Hstr Hv Hb. destruct (talloc_field s A str R Hm Hstr) as (f & s1 & E1 & Hf0 & Hfi & Hw1 & R1).
  assert (Hfs : f ≠ str) by (intros ->; destruct Hstr; congruence). assert (Hfv : f ≠ v) by (intros ->; destruct Hv; congruence).
  apply (represents_world _ _ ((f, Field n str v) :: world s1)) in R1. cbn [a_kids a_info] in R1.
  match type of R1 with represents ?s ?A => destruct (sim_set_destructor field_destroy field_destroyed s A f FIELD_DESTROY R1) as (r2 & s2 & A2 & E2 & H2 & R2) end.
  { cbn [legal a_info]. rewrite lookup_insert, decide_True by done. eauto. }
  inversion H2 as [| |? ? sz d Hi| | | | | |]; subst. cbn [a_info a_kids a_world] in *. rewrite lookup_insert, decide_True in Hi by done. injection Hi as <- <-.
  set (K1 := kset str (f :: a_kids A str) (a_kids A)) in *.
  assert (HK : ∀ xs, flat K1 (K1 v) xs → f ∉ v :: xs).
  { intros xs Hx. destruct (re_finite _ _ R v) as [ys Hy]. specialize (Hb ys Hy). assert (Hvs : v ≠ str) by (intros ->; set_solver).
    unfold K1 in Hx at 2. rewrite kset_ne in Hx by done.
    assert (Hy' : flat K1 (a_kids A v) ys) by (apply (flat_ext _ _ _ Hy); intros x Hx'; apply kset_ne; set_solver).
    rewrite (flat_fun _ _ Hx _ Hy'). intros [?|Hfy]%elem_of_cons; [done|]. destruct (flat_up _ _ _ Hy Hfy) as [Hin|(w & _ & Hin)];
      destruct (fo_in (re_forest _ _ R) _ _ Hin) as (Hlf & _); apply (re_live s A f R) in Hlf; destruct Hlf; congruence. }
  destruct (sim_steal field_destroy field_destroyed benign_field s2 _ f v R2) as (r3 & s3 & A3 & E3 & H3 & R3).
  { split_and!; cbn [a_info a_kids]; [|right|done]; rewrite !lookup_insert.
    - by rewrite !decide_False by done.
    - rewrite decide_True by done. eauto. }
  inversion H3; subst. rewrite (proj2 (Z.eqb_neq f 0)) in R3 by done.
  exists f, s3. eexists. split_and!; [|exact R3|].
  - unfold field_attach, __field_attach. rewrite E1, bind_ret. cbv beta iota. rewrite (proj2 (Z.eqb_neq f 0)) by done. cbv zeta.
    cbn [exec] in E2, E3. destruct (talloc_set_destructor _ _ _) as [s2'| |]; try done. rewrite bind_ret in E2. injection E2 as ->.
    rewrite bind_ret, E3, bind_ret. done.
  - split; cbn [a_kids a_info a_world]; [done|by rewrite Hw1, (re_world _ _ R)| | |].
    + rewrite kset_ne by done. unfold kdel. apply list_elem_of_filter. split; [done|]. unfold K1. rewrite kset_eq. set_solver.
    + rewrite kset_eq. f_equal. unfold kdel, K1. rewrite kset_ne by done. destruct (a_kids A f) as [|x l] eqn:Ek; [done|]. 
      destruct (fo_in (re_forest _ _ R) f x ltac:(rewrite Ek; set_solver)) as (_ & Hlf & _). apply (re_live s A f R) in Hlf. destruct Hlf; congruence.
    + split; cbn [a_kids a_info a_world]; rewrite Hw1, (re_world _ _ R).
      * intros g e [[= -> ->]|Hg]%elem_of_cons; [eexists; by rewrite lookup_insert, decide_True by done|].
        destruct (Hl _ _ Hg) as [sz Hs]. exists sz. rewrite !lookup_insert. destruct (decide (f = g)) as [->|]; [congruence|done].
      * cbn [map fst]. apply NoDup_cons. split; [|done]. intros [e He]%in_fst. destruct (Hl _ _ He). congruence.
Qed.
Lemma find_some l str n f e : __field_find str n l = Some (f, e) → (f, e) ∈ l ∧ strct e = str ∧ name e = n.
Proof.
  unfold __field_find. intros ([i fe] & (Hi & [-> ->] & _)%list_find_Some & Efe)%fmap_Some. cbn in Efe. subst fe.
  split; [by eapply list_elem_of_lookup_2|done].
Qed.
Lemma value_attached s s' str n v f : world s' = (f, Field n str v) :: world s →
  field_value str n s' = v ∧ ∀ str' n', (str', n') ≠ (str, n) → field_value str' n' s' = field_value str' n' s.
Proof.
  intros E. unfold field_value, __field_find. rewrite E. cbn [list_find snd strct name fst]. split; [by rewrite decide_True by done|].
  intros str' n' Hne. rewrite decide_False by (intros [-> ->]; done). by destruct (list_find _ (world s)) as [[i e]|].
Qed.

(** Freeing a chunk takes the fields in its subtree off the list. *)
Lemma free_fields s A p : represents s A → fields_live A → is_Some (a_info A !! p) → ∃ xs s' A', flat (a_kids A) (a_kids A p) xs ∧
  talloc_free field_destroy (S (base.size (heap s))) p s = Ret (0, s') ∧ represents s' A' ∧ fields_live A' ∧
  world s' = filter (λ e, e.1 ∉ p :: xs) (world s).
Proof using ML.
  intros R Hf Hp. destruct (sim_free field_destroy field_destroyed benign_field s A p R Hp) as (r & s' & A' & E & Hs & R').
  pose proof (fields_live_step A (OFree p) _ _ Hf I Hs) as Hf'. inversion Hs as [| | | |? xs i' Hfl Hi'| | | |]; subst.
  exists xs, s'. eexists. split_and!; [done|exact E|exact R'|done|]. rewrite (re_world _ _ R'), (re_world _ _ R). cbn [a_world].
  apply destroy_fields, Hf.
Qed.

(** C27: a field lives as long as the structure it is attached to.  In a heap in which the
    fields on the list are live chunks with the destructor: attaching a value to a live
    structure that is not below it makes the field a child of the structure and the
    value a child of the field, and the lookup finds the newest value, others as before.
    Whatever talloc does next keeps the list of live fields as it is, except that
    freeing a chunk takes exactly the fields in its subtree off; detaching frees the
    field that the lookup finds. *)
Theorem field_lifetime s A : represents s A → fields_live A →
  (∀ str n v, is_Some (malloc (heap s) FIELD_SIZE) → is_Some (a_info A !! str) → is_Some (a_info A !! v) →
     (∀ xs, flat (a_kids A) (a_kids A v) xs → str ∉ v :: xs) →
     ∃ f s' A', field_attach str n v s = Ret s' ∧ represents s' A' ∧ attached f str n v A A' ∧ field_value str n s' = v ∧
       ∀ str' n', (str', n') ≠ (str, n) → field_value str' n' s' = field_value str' n' s) ∧
  (∀ o, legal A o → keeps_fields A o → (∀ p, o ≠ OFree p) →
     ∃ r s' A', exec field_destroy o s = Ret (r, s') ∧ represents s' A' ∧ fields_live A' ∧ world s' = world s) ∧
  (∀ p, is_Some (a_info A !! p) → ∃ xs s' A', flat (a_kids A) (a_kids A p) xs ∧
     talloc_free field_destroy (S (base.size (heap s))) p s = Ret (0, s') ∧ represents s' A' ∧ fields_live A' ∧
     world s' = filter (λ e, e.1 ∉ p :: xs) (world s)) ∧
  (∀ str n f e, __field_find str n (world s) = Some (f, e) →
     ∃ xs s' A', flat (a_kids A) (a_kids A f) xs ∧ field_detach (S (base.size (heap s))) str n s = Ret s' ∧
       represents s' A' ∧ fields_live A' ∧ world s' = filter (λ e, e.1 ∉ f :: xs) (world s)).
Proof using ML.
  intros R Hf. split_and!.
  - intros str n v Hm Hs Hv Hb. destruct (attach_ok s A str n v R Hf Hm Hs Hv Hb) as (f & s' & A' & E & R' & Hat). exists f, s', A'.
    pose proof (at_world _ _ _ _ _ _ Hat) as Hw. rewrite <-(re_world _ _ R), <-(re_world _ _ R') in Hw.
    destruct (value_attached _ _ _ _ _ _ Hw). done.
  - intros o Hl Hk Hn. assert (Hsim : simulates field_destroy field_destroyed o s A).
    { destruct o; try (by apply sim_observe); [by apply sim_alloc|by apply sim_set_destructor|by apply sim_steal|by destruct (Hn p)]. }
    destruct Hsim as (r & s' & A' & E & Hs & R'). exists r, s', A'. split_and!; [done|done|by eapply fields_live_step|].
    rewrite (re_world _ _ R'), (re_world _ _ R). destruct Hs; try done. by destruct (Hn p).
  - intros p Hp. by apply free_fields.
  - intros str n f e Hfind. destruct (find_some _ _ _ _ _ Hfind) as (Hin & _). rewrite (re_world _ _ R) in Hin.
    destruct (fl_live _ Hf _ _ Hin) as [sz Hi]. destruct (free_fields s A f R Hf ltac:(eauto)) as (xs & s' & A' & Hx & E & R' & Hf' & Hw).
    exists xs, s', A'. unfold field_detach. rewrite Hfind, E, bind_ret. done.
Qed.
End Lifetime.

(** Two structures, a value for each of two names, one name shadowed; the first structure
    is freed. *)
Definition lifetime : outcome (Z * Z * Z * Z * list Z) :=
  let s := initial [] in
  '(a, s) ← _talloc 0 8 s; '(b, s) ← _talloc 0 8 s;
  '(v, s) ← _talloc 0 8 s; '(w, s) ← _talloc 0 8 s; '(x, s) ← _talloc 0 8 s;
  s ← field_attach a (tx "n") v s;
  s ← field_attach b (tx "n") w s;
  s ← field_attach a (tx "n") x s;
  let newest := field_value a (tx "n") s in
  s ← field_detach 20 a (tx "n") s;
  let older := field_value a (tx "n") s in
  '(_, s) ← talloc_free field_destroy 20 a s;
  mret (newest, older, field_value a (tx "n") s, field_value b (tx "n") s, map fst (map_to_list (heap s))).

Lemma field_lifetime_witness : lifetime = Ret (5, 3, 0, 4, [7; 4; 2]) ∧
  ∃ r s' A', exec field_destroy (OAlloc 0 16) (initial []) = Ret (r, s') ∧ represents s' A' ∧ fields_live A' ∧ world s' = [].
Proof.
  split; [vm_compute; reflexivity|].
  destruct (field_lifetime (initial []) _ (initial_represents [])) as (_ & H & _); [split; [by intros f e ?%not_elem_of_nil|constructor]|].
  apply (H (OAlloc 0 16)); [split; [by left|lia]|done|done].
Defined.

(** field_detach_all remembers the next field while it frees one; when the value of the
    field it frees is the structure the next one is attached to, that one is gone. *)
Definition nested : outcome unit :=
  let s := initial [] in
  '(a, s) ← _talloc 0 8 s; '(v, s) ← _talloc 0 8 s; '(w, s) ← _talloc 0 8 s;
  s ← field_attach v (tx "inner") w s;
  s ← field_attach a (tx "outer") v s;
  s ← field_detach_all 20 a s; mret tt.
Lemma detach_all_nested : nested = Fault "field_detach_all: the next entry was freed".
Proof. vm_compute. reflexivity. Qed.
