(* ===== verification/Kmem.v ===== *)
(** * kernelenv: the kernel's allocators on talloc

    kmalloc, vmalloc and pages are chunks of a context each; the objects of a kmem cache
    are chunks below the chunk of the cache, with the memory below them.  The structs of the
    caches are the [world] of talloc; [fail] is what should_i_fail answers. *)

From Stdlib Require Import ZArith Lia.
From S2P Require Import Prelude CStr Mem Talloc Forest TallocFree TallocSpec KernLib.

(** struct kmem_cache_s with its list of struct kmem_cache_obj, newest first: the chunk of
    the object and its ptr.  The functions are numbers; nothing calls them. *)
Record kmem_cache := KmemCache { name : text; objsize : Z; ctor : Z; dtor : Z; objs : list (Z * Z) }.
Abbreviation caches := (gmap Z kmem_cache).
Definition with_objs (l : list (Z * Z)) (k : kmem_cache) : kmem_cache := KmemCache (name k) (objsize k) (ctor k) (dtor k) l.
Definition KMEM_CACHE_SIZE : Z := 48.
Definition KMEM_OBJ_SIZE : Z := 24.

Definition GFP_ATOMIC : Z := 1.
Definition GFP_KERNEL : Z := 2.

Section Kmem.
Context `{Malloc} (run_destructor : Z → Z → tstate caches → outcome (Z * tstate caches)).
Context (__vmalloc_ctx __kmalloc_ctx __kmalloc_atomic_ctx __kmem_cache_ctx : Z).
Abbreviation st := (tstate caches).

(** The size is an unsigned int. *)
Definition __malloc (fail : bool) (size ctx : Z) (location : text) (s : st) : outcome (Z * st) :=
  if fail then mret (0, s) else _talloc_zero ctx (size `mod` 2 ^ 32) (NConst location) s.
Definition vmalloc (fail : bool) (size : Z) (location : text) (s : st) : outcome (Z * st) := __malloc fail size __vmalloc_ctx location s.
Definition kmalloc (fail : bool) (size f : Z) (location : text) (s : st) : outcome (Z * st) :=
  __malloc fail size (if negb (Z.land f GFP_ATOMIC =? 0) then __kmalloc_atomic_ctx else __kmalloc_ctx) location s.
Definition kzalloc (fail : bool) (size flags : Z) (s : st) : outcome (Z * st) :=
  '(ret, s) ← kmalloc fail size flags (tx "kzalloc") s;
  if ret =? 0 then mret (ret, s) else
  s ← write_bytes ret (replicate (Z.to_nat size) 0) s;
  mret (ret, s).
Definition vfree (fuel : nat) (p : Z) (s : st) : outcome st := '(_, s) ← talloc_unlink run_destructor fuel __vmalloc_ctx p s; mret s.
Definition kfree (fuel : nat) (p : Z) (s : st) : outcome st := '(_, s) ← talloc_free run_destructor fuel p s; mret s.

Definition kmem_cache_create (fail : bool) (name : text) (objsize offset flags ctor dtor : Z) (s : st) : outcome (Z * st) :=
  if fail then mret (0, s) else
  '(cache, s) ← talloc_named_const __kmem_cache_ctx KMEM_CACHE_SIZE (NConst (tx "kmem_cache_t")) s;
  if cache =? 0 then Fault "kmem_cache_create: store through a null pointer" else
  mret (cache, with_world (<[cache := KmemCache name objsize ctor dtor []]> (world s)) s).

(** The struct goes with its chunk. *)
Definition kmem_cache_destroy (fuel : nat) (cache : Z) (s : st) : outcome (Z * st) :=
  '(_, s) ← talloc_free run_destructor fuel cache s;
  mret (0, with_world (delete cache (world s)) s).

Definition kmem_cache_alloc (fail : bool) (cache flags : Z) (s : st) : outcome (Z * st) :=
  if fail then mret (0, s) else
  '(obj, s) ← talloc_named_const cache KMEM_OBJ_SIZE (NConst (tx "struct kmem_cache_obj")) s;
  k ← of_option "kmem_cache_alloc: not a cache" (world s !! cache);
  '(ptr, s) ← talloc_named_const obj (objsize k) (NConst (tx "kernelenv/kernelenv.c:1055")) s;
  if obj =? 0 then Fault "kmem_cache_alloc: store through a null pointer" else
  mret (ptr, with_world (<[cache := with_objs ((obj, ptr) :: objs k) k]> (world s)) s).

(** The first object with this pointer goes off the list and is freed. *)
Definition kmem_cache_free (fuel : nat) (cache ptr : Z) (s : st) : outcome st :=
  k ← of_option "kmem_cache_free: not a cache" (world s !! cache);
  match List.find (λ i, i.2 =? ptr) (objs k) with
  | Some i =>
      let s := with_world (<[cache := with_objs (filter (λ j, j.1 ≠ i.1) (objs k)) k]> (world s)) s in
      '(_, s) ← talloc_free run_destructor fuel i.1 s; mret s
  | None => Barf "[cache] attempting to free non-cache memory"
  end.

Definition __get_free_pages (fail : bool) (gfp_mask order : Z) (s : st) : outcome (Z * st) :=
  kmalloc fail (Z.shiftl PAGE_SIZE order) gfp_mask (tx "__get_free_pages") s.
Definition free_pages (fuel : nat) (addr order : Z) (s : st) : outcome st :=
  s ← write_bytes addr (replicate (Z.to_nat (Z.shiftl PAGE_SIZE order)) 0) s;
  kfree fuel addr s.
End Kmem.

(** ** The objects of a cache *)

Section Objects.
Context `{ML : MallocLaws}.
Definition room : Prop := ∀ h n, is_Some (malloc h n).
Context (ctx : Z).
Implicit Types (s : tstate caches) (A : aforest caches) (c o p x : Z) (k : kmem_cache).

(** The children of a cache are its objects, each with its memory below it. *)
Definition chunks k : list Z := map fst (objs k) ++ map snd (objs k).
Record cache_ok A c k : Prop := CacheOk {
  co_live : is_Some (a_info A !! c);
  co_size : 0 <= objsize k < MAX_TALLOC_SIZE;
  co_kids : a_kids A c = map fst (objs k);
  co_objs : ∀ o p, (o, p) ∈ objs k → a_kids A o = [p] ∧ a_kids A p = [] ∧ a_info A !! p = Some (objsize k, None);
}.
Record caches_ok A : Prop := CachesOk {
  ck_ctx : is_Some (a_info A !! ctx) ∧ a_world A !! ctx = None;
  ck_cache : ∀ c k, a_world A !! c = Some k → cache_ok A c k;
  ck_apart : ∀ c k x, a_world A !! c = Some k → x = ctx ∨ is_Some (a_world A !! x) → x ∉ chunks k;
}.

Lemma in_chunks x k : x ∈ chunks k ↔ ∃ o p, (o, p) ∈ objs k ∧ (x = o ∨ x = p).
Proof.
  unfold chunks. rewrite elem_of_app. split.
  - intros [([o p] & -> & Hin)%list_elem_of_fmap|([o p] & -> & Hin)%list_elem_of_fmap]; exists o, p; auto.
  - intros (o & p & Hin & [->| ->]); [left|right]; apply list_elem_of_fmap; by exists (o, p).
Qed.

Lemma chunk_live s A c k x : represents s A → cache_ok A c k → x ∈ chunks k → is_Some (a_info A !! x).
Proof.
  intros R O (o & p & Hin & Hx)%in_chunks. destruct (co_objs _ _ _ O o p Hin) as (Ho & _ & Hp). destruct Hx as [->| ->]; [|eauto].
  apply (re_live s); [done|]. destruct (fo_in (re_forest _ _ R) o p ltac:(rewrite Ho; by left)) as (_ & ? & _). done.
Qed.

(** What is not in the way. *)
Lemma cache_ok_add s A c k q f sz w : represents s A → cache_ok A c k → a_info A !! f = None → q ∉ c :: chunks k →
  cache_ok (AForest (kset q (f :: a_kids A q) (a_kids A)) (<[f := (sz, None)]> (a_info A)) w) c k.
Proof.
  intros R O Hf Hq. apply not_elem_of_cons in Hq as [Hqc Hq].
  assert (Hl : ∀ x, is_Some (a_info A !! x) → (<[f := (sz, None)]> (a_info A)) !! x = a_info A !! x).
  { intros x Hx. rewrite lookup_insert, decide_False; [done|]. intros ->. destruct Hx; congruence. }
  split; cbn [a_info a_kids].
  - rewrite Hl by apply O. apply O.
  - apply O.
  - rewrite kset_ne by done. apply O.
  - intros o p Hin. destruct (co_objs _ _ _ O o p Hin) as (Ho & Hp & Hi).
    assert (o ∈ chunks k) by (apply in_chunks; eauto). assert (p ∈ chunks k) by (apply in_chunks; exists o, p; auto).
    rewrite !kset_ne by (intros ->; done). rewrite Hl by eauto. done.
Qed.
Lemma cache_ok_free A c k D i w : cache_ok A c k → (∀ x, x ∈ c :: chunks k → x ∉ D) →
  (∀ x, i !! x = if decide (x ∈ D) then None else a_info A !! x) → cache_ok (AForest (TallocFree.kfree D (a_kids A)) i w) c k.
Proof.
  intros O HD Hi. assert (Hk : ∀ x l, x ∉ D → a_kids A x = l → (∀ y, y ∈ l → y ∉ D) → TallocFree.kfree D (a_kids A) x = l).
  { intros x l Hx <- Hl. unfold TallocFree.kfree. rewrite decide_False by done. apply filter_all. by apply Forall_forall. }
  split; cbn [a_info a_kids].
  - rewrite Hi, decide_False by (apply HD; left). apply O.
  - apply O.
  - apply Hk; [apply HD; left|apply O|]. intros y Hy. apply HD. right. unfold chunks. apply elem_of_app. by left.
  - intros o p Hin. destruct (co_objs _ _ _ O o p Hin) as (Ho & Hp & Hip).
    assert (Hod : o ∉ D) by (apply HD; right; apply in_chunks; eauto). assert (Hpd : p ∉ D) by (apply HD; right; apply in_chunks; exists o, p; auto).
    rewrite Hi, decide_False by done. split_and!; [|by apply Hk; [|done|intros y ?%not_elem_of_nil]|done].
    apply Hk; [done..|]. by intros y ->%list_elem_of_singleton.
Qed.

(** The chunks of two caches, and of two objects, are different. *)
Lemma chunks_apart s A c c1 k k1 x : represents s A → caches_ok A → a_world A !! c = Some k → a_world A !! c1 = Some k1 → c ≠ c1 →
  x ∈ c1 :: chunks k1 → x ∉ c :: chunks k.
Proof.
  intros R C Hc Hc1 Hne Hx. pose proof (fo_unique _ _ _ (re_forest _ _ R)) as U.
  pose proof (ck_cache _ C _ _ Hc) as O. pose proof (ck_cache _ C _ _ Hc1) as O1.
  assert (A1 : c1 ∉ chunks k) by (eapply ck_apart; [done..|right; eauto]). assert (A2 : c ∉ chunks k1) by (eapply ck_apart; [done..|right; eauto]).
  apply elem_of_cons in Hx as [->|Hx]; [by apply not_elem_of_cons|]. apply not_elem_of_cons. split; [by intros ->|]. intros Hx'.
  assert (K : ∀ c k o p, cache_ok A c k → (o, p) ∈ objs k → o ∈ a_kids A c ∧ p ∈ a_kids A o).
  { intros d l o p Od Hin. rewrite (co_kids _ _ _ Od). destruct (co_objs _ _ _ Od o p Hin) as [-> _]. split; [|by left].
    apply list_elem_of_fmap. by exists (o, p). }
  apply in_chunks in Hx as (o1 & p1 & Hin1 & Hx1). apply in_chunks in Hx' as (o & p & Hin & Hx).
  destruct (K _ _ _ _ O Hin) as [K1 K2], (K _ _ _ _ O1 Hin1) as [K3 K4].
  destruct Hx as [->| ->], Hx1 as [->| ->].
  - by apply Hne, (U o1).
  - apply A2. rewrite (U p1 c o1 K1 K4). apply in_chunks. eauto.
  - apply A1. rewrite (U o1 c1 o K3 K2). apply in_chunks. eauto.
  - rewrite (U p1 o o1 K2 K4) in K1. by apply Hne, (U o1).
Qed.
Lemma objects_apart s A c k o p o1 p1 : represents s A → caches_ok A → a_world A !! c = Some k → (o, p) ∈ objs k → (o1, p1) ∈ objs k → o ≠ o1 →
  ∀ x, x ∈ [o1; p1] → x ∉ [o; p].
Proof.
  intros R C Hc Hin Hin1 Hne x Hx Hx1. pose proof (fo_unique _ _ _ (re_forest _ _ R)) as U. pose proof (ck_cache _ C _ _ Hc) as O.
  assert (Hcc : c ∉ chunks k) by (eapply ck_apart; [done..|right; eauto]).
  assert (K : ∀ o p, (o, p) ∈ objs k → o ∈ a_kids A c ∧ p ∈ a_kids A o ∧ o ≠ c).
  { intros o' p' Hin'. rewrite (co_kids _ _ _ O). destruct (co_objs _ _ _ O o' p' Hin') as [-> _]. split_and!; [|by left|].
    - apply list_elem_of_fmap. by exists (o', p').
    - intros ->. apply Hcc, in_chunks. eauto. }
  destruct (K _ _ Hin) as (K1 & K2 & K3), (K _ _ Hin1) as (K4 & K5 & K6).
  apply elem_of_cons in Hx as [->|Hx]; [|apply list_elem_of_singleton in Hx as ->];
    (apply elem_of_cons in Hx1 as [E|Hx1]; [|apply list_elem_of_singleton in Hx1 as E]); subst; try done.
  - apply K3. symmetry. by apply (U p).
  - apply K6. symmetry. by apply (U o).
  - apply Hne. by apply (U p).
Qed.


Lemma flat_objects K l : (∀ o p, (o, p) ∈ l → K o = [p] ∧ K p = []) → flat K (map fst l) (concat (map (λ i, [i.1; i.2]) l)).
Proof.
  induction l as [|[o p] l IH]; intros Hl; cbn [map concat fst snd app]; [constructor|]. destruct (Hl o p ltac:(left)) as [Ho Hp].
  apply (flat_cons K o (map fst l) [p] (concat (map (λ i, [i.1; i.2]) l))); [|apply IH; intros; apply Hl; by right].
  rewrite Ho. apply (flat_cons K p [] [] []); [rewrite Hp|]; constructor.
Qed.
Lemma in_flat x (l : list (Z * Z)) : x ∈ concat (map (λ i, [i.1; i.2]) l) ↔ x ∈ map fst l ++ map snd l.
Proof.
  induction l as [|[o p] l IH]; [done|]. cbn [map concat fst snd app]. rewrite !elem_of_cons, IH, !elem_of_app, !elem_of_cons. tauto.
Qed.

(** A new state of the caches. *)
Lemma caches_ok_world A K i w' : caches_ok A → is_Some (i !! ctx) → w' !! ctx = None →
  (∀ c k, w' !! c = Some k → cache_ok (AForest K i w') c k) →
  (∀ c k x, w' !! c = Some k → x = ctx ∨ is_Some (w' !! x) → x ∉ chunks k) →
  caches_ok (AForest K i w').
Proof. intros C. split; [done|done|done]. Qed.

Lemma create_ok s A name sz off flags ct dt : room → represents s A → caches_ok A → 0 <= sz < MAX_TALLOC_SIZE → ∃ c s' A',
  kmem_cache_create ctx false name sz off flags ct dt s = Ret (c, s') ∧ represents s' A' ∧ caches_ok A' ∧ a_info A !! c = None ∧
  world s' = <[c := KmemCache name sz ct dt []]> (world s).
Proof using ML.
  intros room R C Hsz. destruct (ck_ctx _ C) as [Hctx Hcw].
  destruct (named_ok no_destructor unchanged no_destructor_benign s A ctx KMEM_CACHE_SIZE (NConst (tx "kmem_cache_t")) R (room _ _) ltac:(done) Hctx)
    as (c & s1 & E & Hc0 & Hfr & Hw & R1).
  apply (represents_world _ _ (<[c := KmemCache name sz ct dt []]> (world s1))) in R1. cbn [a_kids a_info] in R1.
  exists c. do 2 eexists. unfold kmem_cache_create. rewrite E, bind_ret. cbv beta iota. rewrite (proj2 (Z.eqb_neq c 0)) by done. split_and!; [reflexivity|exact R1| |done|cbn; by rewrite Hw].
  assert (Hne : c ≠ ctx) by (intros ->; destruct Hctx; congruence). rewrite Hw, (re_world _ _ R).
  assert (Hold : ∀ d k, a_world A !! d = Some k → d ≠ c ∧ c ∉ chunks k ∧ ctx ∉ d :: chunks k).
  { intros d k Hd. pose proof (ck_cache _ C _ _ Hd) as O. split_and!.
    - intros ->. destruct (co_live _ _ _ O). congruence.
    - intros Hin. destruct (chunk_live _ _ _ _ _ R O Hin). congruence.
    - apply not_elem_of_cons. split; [intros ->; congruence|]. apply (ck_apart _ C d k); auto. }
  apply (caches_ok_world A); [done|rewrite lookup_insert; case_decide; [done|done]|by rewrite lookup_insert, decide_False| |].
  - intros d k. rewrite lookup_insert. case_decide as Hd.
    + intros [= <-]. subst d. split; cbn [a_info a_kids objsize objs]; [by rewrite lookup_insert, decide_True|done| |by intros ? ? ?%not_elem_of_nil].
      rewrite kset_ne by done. apply (fo_kids _ _ _ (re_forest _ _ R)). apply eq_None_not_Some. rewrite <-(re_live s A c R), Hfr. by intros [].
    + intros Hk. destruct (Hold _ _ Hk) as (_ & _ & Hx). eapply (cache_ok_add s); [done|by apply C|done|done].
  - intros d k x. rewrite lookup_insert. case_decide as Hd; [intros [= <-] _; by apply not_elem_of_nil|]. intros Hk Hx.
    destruct (Hold _ _ Hk) as (_ & Hc & _). destruct (decide (x = c)) as [->|Hxc]; [done|].
    apply (ck_apart _ C d k); [done|]. rewrite lookup_insert, decide_False in Hx by done. done.
Qed.

Lemma with_objs_kept A A' c k l : cache_ok A c k → a_info A' !! c = a_info A !! c → a_kids A' c = map fst l →
  (∀ o p, (o, p) ∈ l → a_kids A' o = [p] ∧ a_kids A' p = [] ∧ a_info A' !! p = Some (objsize k, None)) → cache_ok A' c (with_objs l k).
Proof. intros O Hc Hk Ho. split; [rewrite Hc; apply O|apply O|done|done]. Qed.
Lemma fresh_not s A x d l : represents s A → caches_ok A → a_info A !! x = None → a_world A !! d = Some l → x ∉ d :: chunks l.
Proof.
  intros R C Hx Hd. pose proof (ck_cache _ C _ _ Hd) as Od. apply not_elem_of_cons. split; [intros ->; destruct (co_live _ _ _ Od); congruence|].
  intros Hin. destruct (chunk_live _ _ _ _ _ R Od Hin). congruence.
Qed.
Lemma fresh_kids s A x : represents s A → a_info A !! x = None → a_kids A x = [].
Proof.
  intros R Hx. apply (fo_kids _ _ _ (re_forest _ _ R)), eq_None_not_Some. rewrite <-(re_live s A x R), Hx. by intros [].
Qed.

(** The forest after an object [o] with memory [p] was added to [c]. *)
Definition below A c o : aforest caches := AForest (kset c (o :: a_kids A c) (a_kids A)) (<[o := (KMEM_OBJ_SIZE, None)]> (a_info A)) (a_world A).
Definition added A c k o p : aforest caches :=
  AForest (kset o (p :: a_kids (below A c o) o) (a_kids (below A c o))) (<[p := (objsize k, None)]> (a_info (below A c o)))
    (<[c := with_objs ((o, p) :: objs k) k]> (a_world A)).

Lemma added_this s A c k o p : represents s A → caches_ok A → a_world A !! c = Some k → a_info A !! o = None → a_info A !! p = None → p ≠ o →
  cache_ok (added A c k o p) c (with_objs ((o, p) :: objs k) k).
Proof.
  intros R C Hc Ho Hp Hpo. pose proof (ck_cache _ C _ _ Hc) as O.
  pose proof (fresh_not s A o c k R C Ho Hc) as [Hoc Fo]%not_elem_of_cons. pose proof (fresh_not s A p c k R C Hp Hc) as [Hpc Fp]%not_elem_of_cons.
  apply (with_objs_kept A); [done|..]; cbn [added below a_info a_kids].
  - by rewrite !lookup_insert, !decide_False by done.
  - by rewrite kset_ne, kset_eq, (co_kids _ _ _ O) by done.
  - intros o' p' [[= -> ->]|Hin]%elem_of_cons.
    + rewrite kset_eq, (kset_ne c o), (fresh_kids s A o) by done. rewrite !(kset_ne _ p), (fresh_kids s A p) by done. by rewrite lookup_insert, decide_True.
    + destruct (co_objs _ _ _ O o' p' Hin) as (H1' & H2' & H3').
      assert (Ho' : o' ∈ chunks k) by (apply in_chunks; eauto). assert (Hp' : p' ∈ chunks k) by (apply in_chunks; exists o', p'; auto).
      assert (Hcc : c ∉ chunks k) by (eapply ck_apart; [done..|right; eauto]).
      rewrite !kset_ne by (intros ->; done). by rewrite !lookup_insert, !decide_False by (intros ->; done).
Qed.
Lemma added_ok s A c k o p : represents s A → caches_ok A → a_world A !! c = Some k → a_info A !! o = None →
  a_info A !! p = None → p ≠ o → (∃ s1, represents s1 (below A c o)) → caches_ok (added A c k o p).
Proof.
  intros R C Hc Ho Hp Hpo [s1 R1]. pose proof (ck_ctx _ C) as [Hctx Hcw].
  apply (caches_ok_world A); [done|cbn [below a_info]; rewrite !lookup_insert; by repeat case_decide| | |].
  - rewrite lookup_insert, decide_False; [done|]. intros ->. congruence.
  - intros d l. rewrite lookup_insert. case_decide as Hd; [intros [= <-]; subst d; by apply (added_this s)|]. intros Hl.
    apply (cache_ok_add s1 (below A c o)); [done| |cbn [below a_info]; by rewrite lookup_insert, decide_False|by apply (fresh_not s A)].
    apply (cache_ok_add s A); [done|by apply C|done|]. intros Hin. by apply (chunks_apart s A d c l k c R C Hl Hc ltac:(congruence) ltac:(left)).
  - intros d l x Hl Hx.
    assert (Hx' : x = ctx ∨ is_Some (a_world A !! x)).
    { destruct Hx as [->|Hx]; [by left|right]. rewrite lookup_insert in Hx. case_decide; [subst; eauto|done]. }
    rewrite lookup_insert in Hl. case_decide as Hd; [|by apply (ck_apart _ C d l x)]. injection Hl as <-. subst d.
    intros (o' & p' & [[= -> ->]|Hin]%elem_of_cons & Hxx)%in_chunks; [|apply (ck_apart _ C c k x Hc); [done|apply in_chunks; eauto]].
    assert (Hn : a_info A !! x = None) by (by destruct Hxx as [->| ->]). destruct Hx' as [->|[l' Hl']]; [destruct Hctx; congruence|].
    destruct (co_live _ _ _ (ck_cache _ C _ _ Hl')); congruence.
Qed.

Lemma alloc_ok s A c k flags : room → represents s A → caches_ok A → world s !! c = Some k → ∃ o p s' A',
  kmem_cache_alloc false c flags s = Ret (p, s') ∧ represents s' A' ∧ caches_ok A' ∧ p ≠ 0 ∧ a_info A !! p = None ∧
  a_info A' !! p = Some (objsize k, None) ∧ world s' = <[c := with_objs ((o, p) :: objs k) k]> (world s).
Proof using ML.
  intros room R C Hc. rewrite (re_world _ _ R) in Hc. pose proof (ck_cache _ C _ _ Hc) as O.
  destruct (named_ok no_destructor unchanged no_destructor_benign s A c KMEM_OBJ_SIZE (NConst (tx "struct kmem_cache_obj")) R (room _ _) ltac:(done) (co_live _ _ _ O))
    as (o & s1 & E1 & Ho0 & Ho & Hw1 & R1). fold (below A c o) in R1.
  assert (Hio : a_info (below A c o) !! o = Some (KMEM_OBJ_SIZE, None)) by (cbn [below a_info]; by rewrite lookup_insert, decide_True).
  destruct (named_ok no_destructor unchanged no_destructor_benign s1 _ o (objsize k) (NConst (tx "kernelenv/kernelenv.c:1055")) R1 (room _ _) (co_size _ _ _ O) ltac:(eauto))
    as (p & s2 & E2 & Hp0 & Hp & Hw2 & R2).
  apply (represents_world _ _ (<[c := with_objs ((o, p) :: objs k) k]> (a_world A))) in R2. cbn [a_kids a_info] in R2.
  assert (Hpo : p ≠ o) by (intros ->; congruence). cbn [below a_info] in Hp. rewrite lookup_insert, decide_False in Hp by done.
  exists o, p. do 2 eexists. unfold kmem_cache_alloc. rewrite E1, bind_ret. cbv beta iota. rewrite Hw1, (re_world _ _ R), Hc. cbn [of_option]. rewrite bind_ret, E2, bind_ret.
  cbv beta iota. rewrite (proj2 (Z.eqb_neq o 0)), Hw2, Hw1, (re_world _ _ R) by done.
  split_and!; [reflexivity|exact R2| |done|done|cbn [a_info]; by rewrite lookup_insert, decide_True|done].
  apply (added_ok s); try done. by exists s1.
Qed.

(** The forest after the object [o] with memory [p] went. *)
Definition taken A c k o p i : aforest caches :=
  AForest (TallocFree.kfree [o; p] (a_kids A)) i (<[c := with_objs (filter (λ j, j.1 ≠ o) (objs k)) k]> (a_world A)).
Lemma filter_fst (l : list (Z * Z)) o p : p ∉ map fst l → filter (λ b, b ∉ [o; p]) (map fst l) = map fst (filter (λ j, j.1 ≠ o) l).
Proof.
  induction l as [|[o' p'] l IH]; intros Hp; [done|]. cbn [map fst] in *. apply not_elem_of_cons in Hp as [Hp1 Hp].
  rewrite !filter_cons. cbn [fst]. destruct (decide (o' = o)) as [->|Ho]; [rewrite !decide_False by set_solver; by apply IH|].
  rewrite !decide_True by set_solver. cbn [map fst]. f_equal. by apply IH.
Qed.
Lemma taken_this s A c k o p i : represents s A → caches_ok A → a_world A !! c = Some k → (o, p) ∈ objs k →
  (∀ x, i !! x = if decide (x ∈ [o; p]) then None else a_info A !! x) → cache_ok (taken A c k o p i) c (with_objs (filter (λ j, j.1 ≠ o) (objs k)) k).
Proof.
  intros R C Hc Hin Hi. pose proof (ck_cache _ C _ _ Hc) as O. pose proof (fo_unique _ _ _ (re_forest _ _ R)) as U.
  assert (Hcc : c ∉ chunks k) by (eapply ck_apart; [done..|right; eauto]). destruct (co_objs _ _ _ O o p Hin) as (Hko & _).
  assert (Hcn : c ∉ [o; p]) by (intros Hx; apply Hcc, in_chunks; set_solver).
  apply (with_objs_kept A); [done|..]; cbn [taken a_info a_kids].
  - by rewrite Hi, decide_False.
  - unfold TallocFree.kfree. rewrite decide_False, (co_kids _ _ _ O) by done. apply filter_fst.
    rewrite <-(co_kids _ _ _ O). intros Hp. apply Hcc. rewrite (U p c o Hp) by (rewrite Hko; by left). apply in_chunks. eauto.
  - intros o' p' [Hne Hin']%list_elem_of_filter. destruct (co_objs _ _ _ O o' p' Hin') as (H1' & H2' & H3').
    pose proof (objects_apart s A c k o p o' p' R C Hc Hin Hin' (not_eq_sym Hne)) as Hx. pose proof (Hx o' ltac:(left)). pose proof (Hx p' ltac:(right; left)).
    unfold TallocFree.kfree. rewrite !decide_False, H1', H2', Hi, decide_False by done. split_and!; [|done|done]. by rewrite filter_cons, decide_True.
Qed.
Lemma taken_ok s A c k o p i : represents s A → caches_ok A → a_world A !! c = Some k → (o, p) ∈ objs k →
  (∀ x, i !! x = if decide (x ∈ [o; p]) then None else a_info A !! x) → caches_ok (taken A c k o p i).
Proof.
  intros R C Hc Hin Hi. pose proof (ck_ctx _ C) as [Hctx Hcw]. apply (caches_ok_world A); [done| | | |].
  - rewrite Hi, decide_False; [done|]. intros Hx. apply (ck_apart _ C c k ctx Hc); [by left|]. apply in_chunks. set_solver.
  - rewrite lookup_insert, decide_False; [done|]. intros ->. congruence.
  - intros d l. rewrite lookup_insert. case_decide as Hd; [intros [= <-]; subst d; by apply (taken_this s)|].
    intros Hl. apply (cache_ok_free A); [by apply C| |done]. intros x Hx Hxx.
    apply (chunks_apart s A c d k l x R C Hc Hl Hd Hx). right. apply in_chunks. set_solver.
  - intros d l x Hl Hx.
    assert (Hx' : x = ctx ∨ is_Some (a_world A !! x)).
    { destruct Hx as [->|Hx]; [by left|right]. rewrite lookup_insert in Hx. case_decide; [subst; eauto|done]. }
    rewrite lookup_insert in Hl. case_decide as Hd; [|by apply (ck_apart _ C d l x)]. injection Hl as <-. subst d.
    intros (o' & p' & [_ Hin']%list_elem_of_filter & Hxx)%in_chunks. apply (ck_apart _ C c k x Hc Hx'), in_chunks. eauto.
Qed.

Lemma free_ok s A c k o p : represents s A → caches_ok A → world s !! c = Some k → (o, p) ∈ objs k → ∃ s' A',
  kmem_cache_free no_destructor (S (base.size (heap s))) c p s = Ret s' ∧ represents s' A' ∧ caches_ok A' ∧
  (∀ x, a_info A' !! x = if decide (x ∈ [o; p]) then None else a_info A !! x) ∧
  world s' = <[c := with_objs (filter (λ j, j.1 ≠ o) (objs k)) k]> (world s).
Proof using ML.
  intros R C Hc Hin. rewrite (re_world _ _ R) in *. pose proof (ck_cache _ C _ _ Hc) as O. pose proof (fo_unique _ _ _ (re_forest _ _ R)) as U.
  destruct (co_objs _ _ _ O o p Hin) as (Hko & Hkp & _). set (k' := with_objs (filter (λ j, j.1 ≠ o) (objs k)) k).
  assert (Hfind : List.find (λ i, i.2 =? p) (objs k) = Some (o, p)).
  { destruct (List.find _ (objs k)) as [[o' p']|] eqn:E.
    - apply find_some in E as [Hin' Ep]. apply list_elem_of_In in Hin'. apply Z.eqb_eq in Ep. cbn in Ep. subst p'.
      destruct (co_objs _ _ _ O o' p Hin') as (Hko' & _). f_equal. f_equal. apply (U p); [rewrite Hko'|rewrite Hko]; by left.
    - exfalso. eapply find_none in E; [|by apply list_elem_of_In]. cbn in E. by rewrite Z.eqb_refl in E. }
  apply (represents_world _ _ (<[c := k']> (a_world A))) in R as R1.
  destruct (free_tree _ _ o [p] R1) as (s' & i & E & Hi & R').
  { cbn [a_info]. eapply (chunk_live s A); [exact R|exact O|apply in_chunks; eauto]. }
  { cbn [a_kids]. rewrite Hko. apply (flat_cons _ p [] [] []); [rewrite Hkp|]; constructor. }
  cbn [a_info a_kids a_world heap with_world] in *.
  exists s', (taken A c k o p i). split_and!; [|exact R'|by apply (taken_ok s)|exact Hi|by rewrite (re_world _ _ R')].
  unfold kmem_cache_free. rewrite (re_world _ _ R), Hc. cbn [of_option]. rewrite bind_ret, Hfind. cbv zeta. cbn [fst]. unfold k' in E. by rewrite E, bind_ret.
Qed.

(** The whole cache. *)
Lemma destroy_ok s A c k : represents s A → caches_ok A → world s !! c = Some k → ∃ s' A',
  kmem_cache_destroy no_destructor (S (base.size (heap s))) c s = Ret (0, s') ∧ represents s' A' ∧ caches_ok A' ∧
  (∀ x, a_info A' !! x = if decide (x ∈ c :: chunks k) then None else a_info A !! x) ∧ world s' = delete c (world s).
Proof using ML.
  intros R C Hc. rewrite (re_world _ _ R) in *. pose proof (ck_cache _ C _ _ Hc) as O. pose proof (ck_ctx _ C) as [Hctx Hcw].
  set (D := c :: concat (map (λ i, [i.1; i.2]) (objs k))).
  assert (HD : ∀ x, x ∈ D ↔ x ∈ c :: chunks k) by (intros x; unfold D; rewrite !elem_of_cons, in_flat; done).
  destruct (free_tree s A c (concat (map (λ i, [i.1; i.2]) (objs k))) R (co_live _ _ _ O)) as (s1 & i & E & Hi & R').
  { rewrite (co_kids _ _ _ O). apply flat_objects. intros o p Hin. by destruct (co_objs _ _ _ O o p Hin) as (? & ? & _). }
  fold D in Hi, R'. apply (represents_world _ _ (delete c (a_world A))) in R' as R2. cbn [a_kids a_info] in R2.
  assert (Hi' : ∀ x, i !! x = if decide (x ∈ c :: chunks k) then None else a_info A !! x).
  { intros x. rewrite Hi. pose proof (HD x). repeat case_decide; tauto. }
  do 2 eexists. split_and!; [|exact R2| |exact Hi'|done].
  { unfold kmem_cache_destroy. by rewrite E, bind_ret, (re_world _ _ R'). }
  apply (caches_ok_world A); [done| | | |].
  - rewrite Hi', decide_False; [done|]. apply not_elem_of_cons. split; [intros ->; congruence|]. apply (ck_apart _ C c k ctx Hc). by left.
  - rewrite lookup_delete. by case_decide.
  - intros d l. rewrite lookup_delete. case_decide as Hd; [done|]. intros Hl. apply (cache_ok_free A); [by apply C| |done].
    intros x Hx Hxx%HD. by apply (chunks_apart s A c d k l x R C Hc Hl Hd Hx).
  - intros d l x. rewrite !lookup_delete. case_decide as Hd; [done|]. intros Hl Hx. apply (ck_apart _ C d l x Hl).
    destruct Hx as [->|Hx]; [by left|right]. case_decide; [by destruct Hx|done].
Qed.

(** Zeroed memory from a context of its own. *)
Lemma malloc_zeroed s A kctx size loc : room → represents s A → caches_ok A → 0 <= size < MAX_TALLOC_SIZE → is_Some (a_info A !! kctx) →
  (∀ c k, a_world A !! c = Some k → kctx ∉ c :: chunks k) → ∃ p s' A',
  __malloc false size kctx loc s = Ret (p, s') ∧ represents s' A' ∧ caches_ok A' ∧ p ≠ 0 ∧ a_info A !! p = None ∧ world s' = world s ∧
  a_kids A' kctx = p :: a_kids A kctx ∧ bytes <$> heap s' !! p = Some (replicate (Z.to_nat size) 0).
Proof using ML.
  intros room R C Hsz Hk Hap. unfold __malloc. rewrite Z.mod_small by (unfold MAX_TALLOC_SIZE in Hsz; lia).
  destruct (zero_ok no_destructor unchanged no_destructor_benign s A kctx size (NConst loc) R (room _ _) Hsz Hk) as (p & s' & E & Hp0 & Hp & Hw & Hb & R').
  exists p, s'. eexists. split_and!; [exact E|exact R'| |done|done|done|cbn [a_kids]; by rewrite kset_eq|done].
  destruct (ck_ctx _ C) as [Hctx Hcw]. apply (caches_ok_world A); [done| |done| |].
  - rewrite lookup_insert. by case_decide.
  - intros c k Hc. apply (cache_ok_add s A); [done|by apply C|done|by apply Hap].
  - intros c k x Hc Hx. by apply (ck_apart _ C c k x).
Qed.

(** C17: a kmem cache is the set of its objects.  While the C library has memory and every
    cache keeps its objects as chunks below its own (true when there is no cache, and kept by
    all operations): a new cache is empty; an allocation returns fresh memory of the cache's
    size and puts it into this cache alone; freeing an object's memory takes exactly this
    object off, and memory of any other kind stops the program; destroying a cache frees its
    chunk, its objects and their memory, and nothing else.  A failure that is simulated
    changes nothing.  The memory that kmalloc and vmalloc return is zeroed, whatever the C
    library left in it, and the caches stay as they are. *)
Theorem kmem_caches_own_objects s A : room → represents s A → caches_ok A →
  (∀ name sz off flags ct dt, 0 <= sz < MAX_TALLOC_SIZE → ∃ c s' A',
     kmem_cache_create ctx false name sz off flags ct dt s = Ret (c, s') ∧ represents s' A' ∧ caches_ok A' ∧ a_info A !! c = None ∧
     world s' = <[c := KmemCache name sz ct dt []]> (world s)) ∧
  (∀ c k flags, world s !! c = Some k →
     kmem_cache_alloc true c flags s = Ret (0, s) ∧
     ∃ o p s' A', kmem_cache_alloc false c flags s = Ret (p, s') ∧ represents s' A' ∧ caches_ok A' ∧ p ≠ 0 ∧ a_info A !! p = None ∧
       a_info A' !! p = Some (objsize k, None) ∧ world s' = <[c := with_objs ((o, p) :: objs k) k]> (world s)) ∧
  (∀ c k p, world s !! c = Some k → p ∉ map snd (objs k) →
     kmem_cache_free no_destructor (S (base.size (heap s))) c p s = Barf "[cache] attempting to free non-cache memory") ∧
  (∀ c k o p, world s !! c = Some k → (o, p) ∈ objs k → ∃ s' A',
     kmem_cache_free no_destructor (S (base.size (heap s))) c p s = Ret s' ∧ represents s' A' ∧ caches_ok A' ∧
     (∀ x, a_info A' !! x = if decide (x ∈ [o; p]) then None else a_info A !! x) ∧
     world s' = <[c := with_objs (filter (λ j, j.1 ≠ o) (objs k)) k]> (world s)) ∧
  (∀ c k, world s !! c = Some k → ∃ s' A',
     kmem_cache_destroy no_destructor (S (base.size (heap s))) c s = Ret (0, s') ∧ represents s' A' ∧ caches_ok A' ∧
     (∀ x, a_info A' !! x = if decide (x ∈ c :: chunks k) then None else a_info A !! x) ∧ world s' = delete c (world s)) ∧
  (∀ kctx size loc, 0 <= size < MAX_TALLOC_SIZE → is_Some (a_info A !! kctx) → (∀ c k, a_world A !! c = Some k → kctx ∉ c :: chunks k) → ∃ p s' A',
     __malloc false size kctx loc s = Ret (p, s') ∧ represents s' A' ∧ caches_ok A' ∧ p ≠ 0 ∧ a_info A !! p = None ∧ world s' = world s ∧
     a_kids A' kctx = p :: a_kids A kctx ∧ bytes <$> heap s' !! p = Some (replicate (Z.to_nat size) 0)).
Proof using ML.
  intros room R C. split_and!.
  - intros. by apply create_ok.
  - intros c k flags Hc. split; [done|]. by apply (alloc_ok s A).
  - intros c k p Hc Hp. unfold kmem_cache_free. rewrite Hc. cbn [of_option]. rewrite bind_ret. destruct (List.find _ (objs k)) as [i|] eqn:E; [|done].
    exfalso. apply find_some in E as [Hin Ei]. apply Hp. apply Z.eqb_eq in Ei. subst p. apply list_elem_of_fmap_2. by apply list_elem_of_In.
  - intros. by apply (free_ok s A).
  - intros. by apply (destroy_ok s A).
  - intros. by apply (malloc_zeroed s A).
Qed.
End Objects.

(** The heap with the chunk of the contexts, 1. *)
Definition one_context : tstate caches := TState {[1 := new_chunk 1 [90] ]} 0 0 ∅.
Definition one_context_forest : aforest caches := AForest (λ _, []) {[1 := (1, None)]} ∅.
Lemma one_context_ok : represents one_context one_context_forest ∧ caches_ok 1 one_context_forest.
Proof.
  destruct (sim_alloc no_destructor unchanged no_destructor_benign (initial (∅ : caches)) _ 0 1 (initial_represents _)) as (r & s' & A' & E & Hs & R); [split; [by left|lia]|].
  vm_compute in E. injection E as <- <-. inversion Hs; subst. cbn [Z.eqb a_kids a_info a_world] in R. split; [exact R|]. split; [split; [by eexists|done]|done|done].
Qed.

(** Two objects, one freed, the cache destroyed; only the contexts' chunk is left. *)
Definition cache_life : outcome (list Z * list (Z * Z) * list Z) :=
  '(c, s) ← kmem_cache_create 1 false (tx "conntrack") 64 0 0 0 0 one_context;
  '(p, s) ← kmem_cache_alloc false c GFP_ATOMIC s;
  '(q, s) ← kmem_cache_alloc false c GFP_ATOMIC s;
  '(r, s) ← kmem_cache_alloc true c GFP_ATOMIC s;
  s ← kmem_cache_free no_destructor 20 c p s;
  let left := from_option objs [] (world s !! c) in
  '(_, s) ← kmem_cache_destroy no_destructor 20 c s;
  mret ([c; p; q; r], left, map fst (map_to_list (heap s))).

(** The bytes of a chunk that kmalloc returns, and of one that _talloc returns. *)
Definition fresh_bytes : outcome (list Z * list Z) :=
  '(p, s) ← __malloc false 4 1 (tx "k") one_context; '(q, s) ← _talloc 1 4 s;
  cp ← talloc_chunk_from_ptr p s; cq ← talloc_chunk_from_ptr q s; mret (bytes cp, bytes cq).

Lemma kmem_caches_own_objects_witness : cache_life = Ret ([2; 4; 6; 0], [(5, 6)], [1]) ∧ fresh_bytes = Ret ([0; 0; 0; 0], [90; 90; 90; 90]) ∧
  ∃ c s' A', kmem_cache_create 1 false (tx "conntrack") 64 0 0 0 0 one_context = Ret (c, s') ∧ represents s' A' ∧ caches_ok 1 A' ∧
    a_info one_context_forest !! c = None ∧ world s' = <[c := KmemCache (tx "conntrack") 64 0 0 []]> (world one_context).
Proof.
  split; [vm_compute; reflexivity|]. split; [vm_compute; reflexivity|]. destruct one_context_ok as [R C].
  destruct (kmem_caches_own_objects 1 one_context one_context_forest) as (H & _); [intros h n; by eexists|exact R|exact C|].
  apply H. split; [lia|reflexivity].
Defined.

(** vfree only frees what vmalloc's context holds: memory of kmalloc stays. *)
Lemma vfree_of_kmalloc : (
  '(v, s) ← _talloc 0 1 one_context;
  '(p, s) ← vmalloc v false 8 (tx "v") s;
  '(q, s) ← kmalloc 1 1 false 8 GFP_KERNEL (tx "k") s;
  s ← vfree no_destructor v 20 p s; s ← vfree no_destructor v 20 q s;
  mret (p, q, map fst (map_to_list (heap s)))) = Ret (3, 4, [4; 2; 1]).
Proof. vm_compute. reflexivity. Qed.
(** 2^20 pages: the size, an unsigned int, becomes 0, and free_pages clears 4 GB. *)
Lemma too_many_pages : (
  '(p, s) ← __get_free_pages 1 1 false GFP_KERNEL 20 one_context;
  c ← talloc_chunk_from_ptr p s; mret (size c)) = Ret 0.
Proof. vm_compute. reflexivity. Qed.
