(* ===== verification/SeqFile.v ===== *)
(** * core/seq_file.c: files made of records

    The buffer is the text of [size] characters that talloc gave; [W] is what the
    iterator of the file's owner keeps. *)

From Stdlib Require Import ZArith Lia.
From S2P Require Import Prelude CStr Mem KernLib.

Definition ENOMEM : Z := 12.
Definition EAGAIN : Z := 11.
Definition SEQ_EINVAL : Z := 22.

(** A [void *] that may be NULL or an ERR_PTR. *)
Inductive ptr (A : Type) := PNull | PErr (e : Z) | PItem (a : A).
Arguments PNull {A}. Arguments PErr {A}. Arguments PItem {A}.
Definition PTR_ERR {A} (p : ptr A) : Z := match p with PErr e => e | _ => 0 end.

Record seq_file := SeqFile {
  buf : option text;
  size : Z;
  from : Z;
  count : Z;
  index : Z;
  (** the semaphore is held *)
  sem : bool;
}.
Definition set_buf (b : option text) (sz : Z) (m : seq_file) : seq_file := SeqFile b sz (from m) (count m) (index m) (sem m).
Definition set_from (x : Z) (m : seq_file) : seq_file := SeqFile (buf m) (size m) x (count m) (index m) (sem m).
Definition set_count (x : Z) (m : seq_file) : seq_file := SeqFile (buf m) (size m) (from m) x (index m) (sem m).
Definition set_index (x : Z) (m : seq_file) : seq_file := SeqFile (buf m) (size m) (from m) (count m) x (sem m).
Definition set_sem (x : bool) (m : seq_file) : seq_file := SeqFile (buf m) (size m) (from m) (count m) (index m) x.

Record file := File { f_pos : Z; private_data : seq_file }.

(** [start] and [next] also move the position they are given. *)
Record seq_operations (A W : Type) := SeqOps {
  start : Z → W → outcome (ptr A * Z * W);
  next : A → Z → W → outcome (ptr A * Z * W);
  stop : W → outcome W;
  show : A → seq_file → W → outcome (Z * seq_file * W);
}.
Arguments SeqOps {A W}. Arguments start {A W}. Arguments next {A W}. Arguments stop {A W}. Arguments show {A W}.

Definition get_buf (m : seq_file) : outcome text := of_option "seq_file: no buffer" (buf m).

(** ** Writing to the buffer *)

Definition seq_puts (s : text) (m : seq_file) : outcome (Z * seq_file) :=
  let len := zlen s in
  if count m + len <? size m then
    b ← get_buf m; b ← store (count m) s b;
    mret (0, set_count (count m + len) (set_buf (Some b) (size m) m))
  else mret (-1, set_count (size m) m).

Definition seq_putc (c : ascii) (m : seq_file) : outcome (Z * seq_file) :=
  if count m <? size m then
    b ← get_buf m; b ← store (count m) [c] b;
    mret (0, set_count (count m + 1) (set_buf (Some b) (size m) m))
  else mret (-1, m).

(** [s] is the formatted text; vsnprintf stores what fits, and a NUL. *)
Definition seq_printf (s : text) (m : seq_file) : outcome (Z * seq_file) :=
  let len := zlen s in
  if count m <? size m then
    b ← get_buf m; b ← store (count m) (ztake (size m - count m - 1) s ++ [NUL]) b;
    let m := set_buf (Some b) (size m) m in
    if count m + len <? size m then mret (0, set_count (count m + len) m) else mret (-1, set_count (size m) m)
  else mret (-1, set_count (size m) m).

Definition octal (c : ascii) : text :=
  let o sh := chr (48 + Z.land (Z.shiftr (code c) sh) 7) in ["\"%char; o 6; o 3; o 0].
(** Position and buffer after the characters. *)
Fixpoint escape_loop (s esc : text) (p : Z) (sz : Z) (b : text) : outcome (option Z * text) :=
  match s with
  | [] => mret (Some p, b)
  | c :: s =>
      if sz <=? p then mret (Some p, b) else
      if negb (mem c esc) then b ← store p [c] b; escape_loop s esc (p + 1) sz b
      else if p + 3 <? sz then b ← store p (octal c) b; escape_loop s esc (p + 4) sz b
      else mret (None, b)
  end.
Definition seq_escape (s esc : text) (m : seq_file) : outcome (Z * seq_file) :=
  b ← get_buf m;
  '(p, b) ← escape_loop s esc (count m) (size m) b;
  let m := set_buf (Some b) (size m) m in
  match p with Some p => mret (0, set_count p m) | None => mret (-1, set_count (size m) m) end.

Section SeqFile.
Context {A W : Type} (op : seq_operations A W).
(** What talloc gives for a size. *)
Context (talloc_size : Z → option text).

Definition down (m : seq_file) : outcome seq_file := if sem m then Barf "write lock already held" else mret (set_sem true m).
Definition up (m : seq_file) : seq_file := set_sem false m.

(** The state behind an opened file; [talloced]: talloc gave it.  The mode loses
    FMODE_PREAD and FMODE_PWRITE. *)
Definition opened : file := File 0 (SeqFile None 0 0 0 0 false).
Definition seq_open (talloced : bool) (f_mode : Z) : Z * Z * option file :=
  if talloced then (0, Z.land f_mode (cnot 32 8), Some opened) else (- ENOMEM, f_mode, None).

(** A buffer of [sz] in place of the old one; the size is set whether there is one or not. *)
Definition new_buf (sz : Z) (m : seq_file) : bool * seq_file :=
  let b := talloc_size sz in (bool_decide (is_Some b), set_buf b sz m).

(** How the search for a first record ended: its position, NULL or an error, no memory. *)
Inductive filled := Filled (p : A) (pos : Z) | Ended (err : Z) | Enomem.

(** while (1): the size doubles until the record fits. *)
Fixpoint first_record (fuel : nat) (m : seq_file) (w : W) : outcome (filled * seq_file * W) :=
  let pos := index m in
  '(p, pos, w) ← start op pos w;
  match p with
  | PItem a =>
      '(err, m, w) ← show op a m w;
      if negb (err =? 0) then w ← stop op w; mret (Ended err, set_count 0 m, w) else
      if count m <? size m then mret (Filled a pos, m, w) else
      w ← stop op w;
      let '(ok, m) := new_buf (u64 (Z.shiftl (size m) 1)) m in
      if negb ok then mret (Enomem, m, w) else
      match fuel with
      | O => Fault "seq_read: out of fuel"
      | S fuel => first_record fuel (set_count 0 m) w
      end
  | p => w ← stop op w; mret (Ended (PTR_ERR p), set_count 0 m, w)
  end.

(** while (m->count < size): the position of the last record in the buffer. *)
Fixpoint more_records (fuel : nat) (n : Z) (p : A) (pos err : Z) (m : seq_file) (w : W) : outcome (Z * Z * seq_file * W) :=
  if n <=? count m then mret (pos, err, m, w) else
  let offs := count m in
  '(p, next_, w) ← next op p pos w;
  match p with
  | PItem a =>
      '(err, m, w) ← show op a m w;
      if negb (err =? 0) || (count m =? size m) then mret (pos, err, set_count offs m, w) else
      match fuel with
      | O => Fault "seq_read: out of fuel"
      | S fuel => more_records fuel n a next_ err m w
      end
  | p => mret (pos, PTR_ERR p, m, w)
  end.

(** memcpy to the user of [n] characters from [off]. *)
Definition copy_out (off n : Z) (m : seq_file) : outcome text := b ← get_buf m; slice off n b.

(** What [Done] does; [out] is what was copied. *)
Definition done (out : text) (err : Z) (f : file) (m : seq_file) (w : W) : outcome (Z * text * file * W) :=
  if zlen out =? 0 then mret (err, out, File (f_pos f) (up m), w)
  else mret (zlen out, out, File (f_pos f + zlen out) (up m), w).

(** The return value and what was put in the caller's buffer. *)
Definition seq_read (fuel : nat) (n : Z) (f : file) (w : W) : outcome (Z * text * file * W) :=
  m ← down (private_data f);
  let '(ok, m) := match buf m with Some _ => (true, m) | None => new_buf PAGE_SIZE m end in
  if negb ok then done [] (- ENOMEM) f m w else
  let pending := negb (count m =? 0) in
  '(out, m) ← (if pending then
      let k := Z.min (count m) n in
      out ← copy_out (from m) k m;
      let m := set_from (from m + k) (set_count (count m - k) m) in
      mret (out, if count m =? 0 then set_index (index m + 1) m else m)
    else mret ([], m));
  let n := n - zlen out in
  if pending && (n =? 0) then done out 0 f m w else
  '(r, m, w) ← first_record fuel m w;
  match r with
  | Enomem => done out (- ENOMEM) f m w
  | Ended err => done out err f m w
  | Filled p pos =>
      '(pos, err, m, w) ← more_records fuel n p pos 0 m w;
      w ← stop op w;
      let k := Z.min (count m) n in
      out' ← copy_out 0 k m;
      let m := set_count (count m - k) m in
      let '(m, pos) := if negb (count m =? 0) then (set_from k m, pos) else (m, pos + 1) in
      done (out ++ out') err f (set_index pos m) w
  end.

(** while (p) of traverse; [None]: the record did not fit. *)
Fixpoint traverse_loop (fuel : nat) (p : ptr A) (pos offset : Z) (m : seq_file) (w : W) : outcome (option Z * seq_file * W) :=
  match p with
  | PNull => mret (Some 0, m, w)
  | PErr e => mret (Some e, m, w)
  | PItem a =>
      '(error, m, w) ← show op a m w;
      if negb (error =? 0) then mret (Some error, m, w) else
      if count m =? size m then mret (None, m, w) else
      if offset <? pos + count m then
        let m := set_from (offset - pos) m in mret (Some 0, set_count (count m - from m) m, w)
      else
        let pos := pos + count m in
        let m := set_count 0 m in
        if pos =? offset then mret (Some 0, set_index (index m + 1) m, w) else
        '(p, i, w) ← next op a (index m) w;
        let m := set_index i m in
        match fuel with
        | O => Fault "traverse: out of fuel"
        | S fuel => traverse_loop fuel p pos offset m w
        end
  end.

Definition traverse (fuel : nat) (offset : Z) (m : seq_file) (w : W) : outcome (Z * seq_file * W) :=
  let m := set_from 0 (set_count 0 (set_index 0 m)) in
  if offset =? 0 then mret (0, m, w) else
  let '(ok, m) := match buf m with Some _ => (true, m) | None => new_buf PAGE_SIZE m end in
  if negb ok then mret (- ENOMEM, m, w) else
  '(p, i, w) ← start op (index m) w;
  '(r, m, w) ← traverse_loop fuel p 0 offset (set_index i m) w;
  w ← stop op w;
  match r with
  | Some error => mret (error, m, w)
  | None => let '(ok, m) := new_buf (u64 (Z.shiftl (size m) 1)) m in mret (if ok then - EAGAIN else - ENOMEM, m, w)
  end.

(** while ((retval = traverse (m, offset)) == -EAGAIN); *)
Fixpoint traverse_again (steps fuel : nat) (offset : Z) (m : seq_file) (w : W) : outcome (Z * seq_file * W) :=
  '(r, m, w) ← traverse fuel offset m w;
  if negb (r =? - EAGAIN) then mret (r, m, w) else
  match steps with O => Fault "seq_lseek: out of fuel" | S steps => traverse_again steps fuel offset m w end.

Definition seq_lseek (steps fuel : nat) (offset origin : Z) (f : file) (w : W) : outcome (Z * file * W) :=
  m ← down (private_data f);
  let offset := if origin =? 1 then offset + f_pos f else offset in
  if negb ((origin =? 0) || (origin =? 1)) || (offset <? 0) then mret (- SEQ_EINVAL, File (f_pos f) (up m), w) else
  if offset =? f_pos f then mret (offset, File (f_pos f) (up m), w) else
  '(r, m, w) ← traverse_again steps fuel offset m w;
  if negb (r =? 0) then mret (r, File 0 (up (set_count 0 (set_index 0 m))), w)
  else mret (offset, File offset (up m), w).
End SeqFile.

(** A file with one record: the position 0 is the pointer 1. *)
Definition single_open {W} (show : seq_file → W → outcome (Z * seq_file * W)) : seq_operations unit W := {|
  start := λ pos w, mret (if pos =? 0 then PItem () else PNull, pos, w);
  next := λ _ pos w, mret (PNull, pos + 1, w);
  stop := mret;
  show := λ _, show;
|}.

(** ** Reading gives the records one after the other *)

Section Reading.
Context {A W : Type} (op : seq_operations A W) (talloc_size : Z → option text).
Context (rs : list text) (rep : A → Z → Prop) (K : Z).

Definition record_at (i : Z) : option text := rs !! Z.to_nat i.
(** The text from record [i] on. *)
Definition rest (i : Z) : text := concat (drop (Z.to_nat i) rs).
Definition buf_size (j : Z) : Z := PAGE_SIZE * 2 ^ j.

Inductive delivers (i : Z) : ptr A → Z → Prop :=
| delivers_item a r : record_at i = Some r → rep a i → delivers i (PItem a) i
| delivers_end pos : record_at i = None → record_at pos = None → 0 <= pos → delivers i PNull pos.

(** The owner's iterator goes over [rs]; show prints a record with the functions above. *)
Record seq_laws : Prop := SeqLaws {
  start_ok : ∀ i w, 0 <= i → ∃ p pos w', start op i w = Ret (p, pos, w') ∧ delivers i p pos;
  next_ok : ∀ a i w, 0 <= i → rep a i → ∃ p pos w', next op a i w = Ret (p, pos, w') ∧ delivers (i + 1) p pos;
  stop_ok : ∀ w, ∃ w', stop op w = Ret w';
  show_ok : ∀ a i r m b w, rep a i → record_at i = Some r → buf m = Some b → zlen b = size m → 0 <= count m < size m →
    ∃ b' w', zlen b' = zlen b ∧
      (count m + zlen r < size m ∧ show op a m w = Ret (0, set_count (count m + zlen r) (set_buf (Some b') (size m) m), w') ∧
         ztake (count m + zlen r) b' = ztake (count m) b ++ r ∨
       size m <= count m + zlen r ∧ show op a m w = Ret (0, set_count (size m) (set_buf (Some b') (size m) m), w') ∧
         ztake (count m) b' = ztake (count m) b);
}.
Context (laws : seq_laws).
Context (HK : 0 <= K <= 40).
Context (records : ∀ i r, record_at i = Some r → 0 < zlen r < buf_size K).
Context (memory : ∀ j, 0 <= j <= K → ∃ b, talloc_size (buf_size j) = Some b ∧ zlen b = buf_size j).

Lemma rest_step i r : 0 <= i → record_at i = Some r → rest i = r ++ rest (i + 1).
Proof. unfold record_at, rest. intros Hi Hr. rewrite (drop_S _ _ _ Hr). cbn [concat]. do 3 f_equal. lia. Qed.
Lemma rest_end i : record_at i = None → rest i = [].
Proof. unfold record_at, rest. intros Hr%lookup_ge_None. by rewrite drop_ge. Qed.

(** A buffer of one of the sizes. *)
Definition sized (m : seq_file) (b : text) (j : Z) : Prop := buf m = Some b ∧ zlen b = size m ∧ size m = buf_size j ∧ 0 <= j <= K.

Lemma buf_size_pos j : 0 <= j → 0 < buf_size j.
Proof. intros. unfold buf_size. pose proof (Z.pow_pos_nonneg 2 j). assert (0 < PAGE_SIZE) by done. lia. Qed.
Lemma buf_size_double j : 0 <= j < K → u64 (Z.shiftl (buf_size j) 1) = buf_size (j + 1).
Proof using HK.
  intros Hj. rewrite Z.shiftl_mul_pow2 by lia. unfold buf_size. rewrite Z.pow_add_r by lia. rewrite wrap_small; [lia|lia|].
  assert (2 ^ j <= 2 ^ 40) by (apply Z.pow_le_mono_r; lia). pose proof (Z.pow_pos_nonneg 2 j).
  change PAGE_SIZE with 4096. change (2 ^ 1) with 2. assert (2 ^ 40 * 8192 < 2 ^ 64) by done. lia.
Qed.
Lemma buf_size_last : ∀ j r i, record_at i = Some r → 0 <= j <= K → buf_size j <= zlen r → j < K.
Proof using records.
  intros j r i Hr Hj Hle. destruct (Z.eq_dec j K) as [->|]; [|lia]. apply records in Hr. lia.
Qed.

Lemma new_buf_ok j m : 0 <= j <= K → ∃ b, new_buf talloc_size (buf_size j) m = (true, set_buf (Some b) (buf_size j) m) ∧ zlen b = buf_size j.
Proof using memory. intros Hj. destruct (memory j Hj) as (b & Hb & Hl). exists b. unfold new_buf. rewrite Hb. done. Qed.

(** The first record is found, whatever its length. *)
Lemma first_record_ok fuel m b j w : sized m b j → count m = 0 → 0 <= index m → K - j <= Z.of_nat fuel →
  ∃ res m' b' j' w', first_record op talloc_size fuel m w = Ret (res, m', w') ∧ sized m' b' j' ∧ index m' = index m ∧ sem m' = sem m ∧
    match record_at (index m) with
    | Some r => ∃ a, res = Filled a (index m) ∧ rep a (index m) ∧ count m' = zlen r ∧ zlen r < size m' ∧ ztake (zlen r) b' = r
    | None => res = Ended 0 ∧ count m' = 0
    end.
Proof using laws HK records memory.
  revert m b j w. induction fuel as [|fuel IH]; intros m b j w (Hb & Hl & Hs & Hj) Hc Hi Hf; cbn [first_record];
    destruct (start_ok laws (index m) w Hi) as (p & pos & w1 & -> & Hd); rewrite bind_ret; cbv beta iota zeta.
  all: destruct Hd as [a r Hr Ha|pos Hn _ _]; [|destruct (stop_ok laws w1) as [w2 ->]; rewrite bind_ret, Hn;
    eexists _, (set_count 0 m), b, j, w2; unfold sized; split_and!; first [done|lia]].
  all: pose proof (buf_size_pos j ltac:(lia)) as Hpos;
    destruct (show_ok laws a (index m) r m b w1 Ha Hr Hb Hl ltac:(lia)) as (b' & w2 & Hl' & [(Hfit & -> & Ht)|(Hfit & -> & _)]);
    rewrite bind_ret; cbn [Z.eqb negb count set_count size set_buf index sem].
  1,3: rewrite (proj2 (Z.ltb_lt _ _)) by lia; rewrite Hr, Hc, Z.add_0_l in *; rewrite (ztake_0 0) in Ht by lia;
    eexists _, _, b', j, w2; split_and!; [reflexivity| |done|done|];
    [unfold sized; cbn; split_and!; first [done|lia]|exists a; cbn; split_and!; done].
  all: rewrite Z.ltb_irrefl; destruct (stop_ok laws w2) as [w3 ->]; rewrite bind_ret; rewrite Hc, Z.add_0_l, Hs in Hfit;
    pose proof (buf_size_last j r _ Hr Hj Hfit) as HjK; try (exfalso; lia).
  rewrite Hs, buf_size_double by lia. match goal with |- context [new_buf _ _ ?m0] => destruct (new_buf_ok (j + 1) m0 ltac:(lia)) as (b2 & -> & Hb2) end.
  cbn [negb]. match goal with |- context [first_record _ _ _ ?m0] => destruct (IH m0 b2 (j + 1) w3) as (res & m' & b'' & j' & w' & E & Hrest) end;
    [unfold sized; cbn; split_and!; try done; lia|done|done|lia|]. cbn [index set_count set_buf sem] in Hrest. rewrite E. by eexists _, _, _, _, _.
Qed.
(** The buffer holds records up to the [i]th, [r]; [n] characters reach into it. *)
Definition holds (n : Z) (m : seq_file) (b : text) (i : Z) (pre r : text) : Prop :=
  record_at i = Some r ∧ ztake (count m) b = pre ++ r ∧ count m = zlen pre + zlen r ∧ count m < size m ∧ (zlen pre < n ∨ pre = []).

Lemma more_records_ok n fuel m b j w i a pre r : sized m b j → 0 <= i → rep a i → holds n m b i pre r →
  zlen rs - i <= Z.of_nat fuel → 0 <= n →
  ∃ i' m' b' w' pre' r', more_records op fuel n a i 0 m w = Ret (i', 0, m', w') ∧ i <= i' ∧ sized m' b' j ∧ sem m' = sem m ∧
    holds n m' b' i' pre' r' ∧ pre ++ r ++ rest (i + 1) = pre' ++ r' ++ rest (i' + 1).
Proof using laws.
  intros Hsz Hi Ha Hh Hf Hn. revert m b w i a pre r Hsz Hi Ha Hh Hf. induction fuel as [|fuel IH]; intros m b w i a pre r Hsz Hi Ha Hh Hf.
  - destruct Hh as (Hr & _). apply lookup_lt_Some in Hr. unfold zlen in Hf. lia.
  - cbn [more_records]. destruct (Z.leb_spec n (count m)) as [Hc|Hc]; [eexists i, m, b, w, pre, r; split_and!; done|].
    destruct (next_ok laws a i w Hi Ha) as (p & pos & w1 & -> & Hd); rewrite bind_ret; cbv beta iota zeta.
    destruct Hd as [a' r' Hr' Ha'|pos Hr' _ _]; [|eexists i, m, b, w1, pre, r; split_and!; done].
    destruct Hh as (Hr & Ht & Hcl & Hlt & Hp). destruct Hsz as (Hb & Hl & Hs & Hj). pose proof (zlen_nonneg pre). pose proof (zlen_nonneg r).
    destruct (show_ok laws a' (i + 1) r' m b w1 Ha' Hr' Hb Hl ltac:(lia)) as (b' & w2 & Hl' & [(Hfit & -> & Ht')|(Hfit & -> & Ht')]);
      rewrite bind_ret; cbn [Z.eqb negb count set_count size set_buf index sem orb].
    + rewrite (proj2 (Z.eqb_neq _ (size m))) by lia. 
      match goal with |- context [more_records _ _ _ _ _ _ ?m0] => destruct (IH m0 b' w2 (i + 1) a' (pre ++ r) r') as (i' & m' & b'' & w' & pre' & r'' & E & Hii & G) end.
      * unfold sized; cbn; split_and!; first [done|lia].
      * lia.
      * done.
      * unfold holds. cbn. rewrite Ht', Ht. rewrite zlen_app. split_and!; try done; try lia.
      * lia.
      * eexists i', m', b'', w', pre', r''. split_and!; [done|lia|apply G..|]. destruct G as (_ & _ & _ & G).
        rewrite <-app_assoc in G. rewrite (rest_step (i + 1) r') by (try done; lia). done.
    + rewrite Z.eqb_refl. eexists i, _, b', w2, pre, r. split_and!; [reflexivity|lia| |done| |done].
      * unfold sized; cbn; split_and!; first [done|lia].
      * unfold holds. cbn. rewrite Ht'. split_and!; first [done|lia].
Qed.

(** What is left in the buffer, and what a reader has still to see. *)
Definition pending (m : seq_file) : text := match buf m with Some b => ztake (count m) (zdrop (from m) b) | None => [] end.
Definition remaining (m : seq_file) : text := if count m =? 0 then rest (index m) else pending m ++ rest (index m + 1).

(** No buffer yet, or one of the [j]th size. *)
Definition rank (m : seq_file) (j : Z) : Prop := (buf m = None ∧ count m = 0 ∧ j = 0) ∨ ∃ b, sized m b j.

Record ready (m : seq_file) : Prop := Ready {
  rd_index : 0 <= index m;
  rd_buf : ∃ j, rank m j;
  rd_count : 0 <= count m;
  rd_pending : count m ≠ 0 → 0 <= from m ∧ from m + count m <= size m;
}.

Definition idle (f : file) : Prop := sem (private_data f) = false ∧ ready (private_data f).
Lemma ready_sem x m : ready m → ready (set_sem x m).
Proof. by intros []. Qed.

Lemma copy_out_ok off n m b : buf m = Some b → 0 <= off → 0 <= n → off + n <= zlen b → copy_out off n m = Ret (ztake n (zdrop off b)).
Proof. intros Hb ???. unfold copy_out, get_buf. rewrite Hb. cbn [of_option]. rewrite bind_ret. by apply slice_ret. Qed.

(** After [k] of the characters were copied. *)
Lemma leftover_ok n m b j i pre r : sized m b j → 0 <= i → 0 <= n → sem m = true → holds n m b i pre r →
  let k := Z.min (count m) n in
  copy_out 0 k m = Ret (ztake k (pre ++ r)) ∧
  let m1 := set_count (count m - k) m in
  let '(m2, pos) := if negb (count m1 =? 0) then (set_from k m1, i) else (m1, i + 1) in
  ready (up (set_index pos m2)) ∧ zlen (ztake k (pre ++ r)) = k ∧ pre ++ r ++ rest (i + 1) = ztake k (pre ++ r) ++ remaining (up (set_index pos m2)).
Proof using HK.
  intros (Hb & Hl & Hs & Hj) Hi Hn Hsem (Hr & Ht & Hcl & Hlt & Hp). cbv zeta. pose proof (zlen_nonneg pre). pose proof (zlen_nonneg r).
  set (k := Z.min (count m) n). assert (Hk : 0 <= k <= count m) by lia. split.
  { rewrite (copy_out_ok _ _ m b) by (try done; lia). rewrite zdrop_0 by lia. f_equal.
    rewrite <-Ht. by rewrite ztake_ztake by lia. }
  assert (Hz : zlen (ztake k (pre ++ r)) = k) by (apply zlen_ztake; rewrite zlen_app; lia).
  cbn [count set_count]. destruct (Z.eqb_spec (count m - k) 0) as [E|E]; cbn [negb].
  - split_and!; [|done|].
    + split; cbn; try done; try lia. exists j. right. exists b. unfold sized; cbn; split_and!; first [done|lia].
    + unfold remaining. cbn [count up set_sem set_index set_count index]. rewrite E. cbn [Z.eqb]. rewrite ztake_all by (rewrite zlen_app; lia). by rewrite <-app_assoc.
  - split_and!; [|done|].
    + split; cbn; try done; try lia. exists j. right. exists b. unfold sized; cbn; split_and!; first [done|lia].
    + unfold remaining, pending. cbn [count up set_sem set_index set_count set_from index buf from]. rewrite (proj2 (Z.eqb_neq _ 0)) by done. rewrite Hb.
      rewrite app_assoc, (app_assoc (ztake k _)). f_equal. rewrite <-(ztake_zdrop k (pre ++ r)) at 1. f_equal.
      rewrite <-Ht, zdrop_ztake by lia. done.
Qed.

(** [seq_read]: some of what remains, and nothing only at the end. *)
Definition reads (n : Z) (f : file) (res : outcome (Z * text * file * W)) : Prop :=
  ∃ out f' w', res = Ret (zlen out, out, f', w') ∧ idle f' ∧ f_pos f' = f_pos f + zlen out ∧ zlen out <= n ∧
    remaining (private_data f) = out ++ remaining (private_data f') ∧ (0 < n → remaining (private_data f) ≠ [] → out ≠ []).

Lemma zlen_nil_iff {B} (l : list B) : zlen l = 0 ↔ l = [].
Proof. unfold zlen. destruct l; cbn [length]; split; try done; lia. Qed.

Lemma done_ok out f m (w : W) : done out 0 f m w = Ret (zlen out, out, File (f_pos f + zlen out) (up m), w).
Proof.
  unfold done. destruct (Z.eqb_spec (zlen out) 0) as [E|E]; [|reflexivity]. rewrite E, Z.add_0_r. reflexivity.
Qed.

(** The part of seq_read behind the flush: [out] has been copied. *)
Lemma fill_ok fuel n out f m b j w : sized m b j → count m = 0 → 0 <= index m → sem m = true → 0 <= n → K + zlen rs <= Z.of_nat fuel →
  (n = 0 → out = []) → 
  ∃ out' f' w',
   ('(r, m, w) ← first_record op talloc_size fuel m w;
    match r with
    | Enomem => done out (- ENOMEM) f m w
    | Ended err => done out err f m w
    | Filled p pos =>
        '(pos, err, m, w) ← more_records op fuel n p pos 0 m w;
        w ← stop op w;
        let k := Z.min (count m) n in
        out' ← copy_out 0 k m;
        let m := set_count (count m - k) m in
        let '(m, pos) := if negb (count m =? 0) then (set_from k m, pos) else (m, pos + 1) in
        done (out ++ out') err f (set_index pos m) w
    end) = Ret (zlen (out ++ out'), out ++ out', f', w') ∧
   idle f' ∧ f_pos f' = f_pos f + zlen (out ++ out') ∧ zlen out' <= n ∧ rest (index m) = out' ++ remaining (private_data f') ∧
   (0 < n → rest (index m) ≠ [] → out' ≠ []).
Proof using laws HK records memory.
  intros Hsz Hc Hi Hsem Hn Hf Hn0. pose proof (zlen_nonneg rs).
  destruct (first_record_ok fuel m b j w Hsz Hc Hi) as (res & m1 & b1 & j1 & w1 & -> & Hsz1 & Hi1 & Hs1 & Hres);
    [destruct Hsz as (_ & _ & _ & ?); lia|].
  rewrite bind_ret; cbv beta iota. destruct (record_at (index m)) as [r|] eqn:Hr.
  - destruct Hres as (a & -> & Ha & Hc1 & Hlt & Ht). assert (Hrs : zlen r < size m1) by lia.
    destruct (more_records_ok n fuel m1 b1 j1 w1 (index m) a [] r) as (i' & m2 & b2 & w2 & pre & r' & -> & Hii & Hsz2 & Hs2 & Hh & Heq); try done; try lia.
    { unfold holds. rewrite Hc1, Ht. pose proof (eq_refl : zlen (@nil ascii) = 0). split_and!; try done; try lia. by right. }
    rewrite bind_ret; cbv beta iota. destruct (stop_ok laws w2) as [w3 ->]. rewrite bind_ret. cbv zeta.
    destruct (leftover_ok n m2 b2 j1 i' pre r' Hsz2 ltac:(lia) Hn ltac:(congruence) Hh) as [-> Hlo]. rewrite bind_ret.
    cbv zeta in Hlo.
    lazymatch type of Hlo with match ?x with _ => _ end => destruct x as [m3 pos] end.
    destruct Hlo as (Hrd & Hz & Hrem). rewrite done_ok. exists (ztake (Z.min (count m2) n) (pre ++ r')). eexists _, _. split_and!; [reflexivity|done|done|lia| |].
    + rewrite (rest_step (index m) r) by done. cbn [app] in Heq. rewrite Heq. exact Hrem.
    + intros Hn1 _ Hnil. apply zlen_nil_iff in Hnil. rewrite Hz in Hnil. destruct Hh as (Hr' & _ & Hcl & _). apply records in Hr'.
      pose proof (zlen_nonneg pre). lia.
  - destruct Hres as [-> Hc1]. rewrite done_ok. exists []. rewrite app_nil_r. eexists _, _. split_and!; [reflexivity| |done|done| |].
    + split; [done|]. split; cbn; try done; try lia; try congruence. exists j1. right. by exists b1.
    + rewrite (rest_end _ Hr). unfold remaining. cbn [private_data up set_sem count index]. rewrite Hc1, Hi1. cbn [Z.eqb]. by rewrite (rest_end _ Hr).
    + by rewrite (rest_end _ Hr).
Qed.

(** The buffer seq_read and traverse work with. *)
Lemma have_buf m j : rank m j → ∃ m' b, match buf m with Some _ => (true, m) | None => new_buf talloc_size PAGE_SIZE m end = (true, m') ∧
  sized m' b j ∧ count m' = count m ∧ index m' = index m ∧ from m' = from m ∧ sem m' = sem m ∧ (count m ≠ 0 → m' = m).
Proof using HK memory.
  intros [(-> & Hc & ->)|(b & Hs)].
  - destruct (new_buf_ok 0 m ltac:(lia)) as (b & E & Hl). exists (set_buf (Some b) PAGE_SIZE m), b. change (buf_size 0) with PAGE_SIZE in *.
    rewrite E. split_and!; try done. unfold sized; cbn; split_and!; first [done|lia].
  - pose proof Hs as (Hb & _). rewrite Hb. by exists m, b.
Qed.

Lemma seq_read_ok fuel n f w : idle f → 0 <= n → K + zlen rs <= Z.of_nat fuel → reads n f (seq_read op talloc_size fuel n f w).
Proof using laws HK records memory.
  intros [Hsm Hrd] Hn Hf. unfold reads, seq_read, down. rewrite Hsm, bind_ret. apply (ready_sem true) in Hrd.
  assert (Hrem : remaining (private_data f) = remaining (set_sem true (private_data f))) by done. rewrite Hrem. clear Hrem Hsm.
  assert (Hsem0 : sem (set_sem true (private_data f)) = true) by done. revert Hrd Hsem0. generalize (set_sem true (private_data f)) as m. intros m Hrd' Hsem0.
  destruct (rd_buf _ Hrd') as [j Hj]. destruct (have_buf _ _ Hj) as (m' & b & -> & Hsz & Hc & Hi & Hfr & Hsem & Heq'). rewrite Hsem0 in Hsem.
  cbn [negb]. cbv zeta. destruct (Z.eqb_spec (count m') 0) as [Ec|Ec]; cbn [negb andb].
  - rewrite bind_ret; cbv beta iota. change (zlen (@nil ascii)) with 0. rewrite Z.sub_0_r.
    destruct (fill_ok fuel n [] f m' b j w Hsz Ec) as (out & f' & w' & G & G1 & G2 & G3 & G4 & G5); try done; [rewrite Hi; apply Hrd'|].
    cbn [app] in *. exists out, f', w'. split; [exact G|]. unfold remaining at 1 3. rewrite <-Hc, Ec, <-Hi. done.
  - assert (m' = m) as -> by (apply Heq'; by rewrite <-Hc). clear Heq' Hc Hi Hfr. pose proof (rd_pending _ Hrd' Ec) as Hp. cbn in Hp. pose proof (rd_count _ Hrd') as Hcm. cbn in Hcm.
    destruct Hsz as (Hb & Hl & Hs & Hjj). set (k := Z.min (count m) n). rewrite (copy_out_ok _ _ m b) by (try done; lia).
    rewrite bind_ret. cbv zeta. rewrite bind_ret; cbv beta iota. set (out := ztake k (zdrop (from m) b)).
    assert (Hz : zlen out = k) by (apply zlen_ztake; rewrite zlen_zdrop; lia). rewrite Hz.
    assert (Hpend : pending m = out ++ ztake (count m - k) (zdrop (from m + k) b)).
    { unfold pending. rewrite Hb. replace (count m) with (k + (count m - k)) at 1 by lia. rewrite ztake_split by lia. by rewrite zdrop_zdrop by lia. }
    destruct (Z.eqb_spec (n - k) 0) as [Enk|Enk].
    + rewrite done_ok. eexists out, _, w. split_and!; [reflexivity| | |lia| |].
      * destruct (_ =? 0); (split; [done|]; split; cbn; [pose proof (rd_index _ Hrd'); cbn in *; lia|exists j; right; exists b; done|lia|lia]).
      * cbn. by rewrite Hz.
      * unfold remaining at 1. rewrite (proj2 (Z.eqb_neq _ 0)), Hpend, <-app_assoc by done. f_equal. cbn [private_data count set_from set_count].
        destruct (Z.eqb_spec (count m - k) 0) as [E0|E0]; unfold remaining, pending; cbn [up set_sem count set_index set_from set_count index buf from].
        -- rewrite E0. cbn [Z.eqb]. by rewrite ztake_0 by lia.
        -- rewrite (proj2 (Z.eqb_neq _ 0)) by done. by rewrite Hb.
      * intros Hn0 _ Hnil. apply zlen_nil_iff in Hnil. lia.
    + assert (Hk : count m - k = 0) by lia. cbn [count set_from set_count]. rewrite Hk. cbn [Z.eqb].
      match goal with |- context [first_record _ _ _ ?m0] => destruct (fill_ok fuel (n - k) out f m0 b j w) as (out' & f' & w' & G & G1 & G2 & G3 & G4 & G5) end; try done; try lia.
      { cbn. pose proof (rd_index _ Hrd'). cbn in *. lia. }
      exists (out ++ out'), f', w'. split; [exact G|]. split_and!; try done.
      * rewrite zlen_app. lia.
      * unfold remaining at 1. rewrite (proj2 (Z.eqb_neq _ 0)), Hpend, <-!app_assoc by done. f_equal. rewrite Hk, ztake_0 by lia. exact G4.
      * intros _ _ Hnil. apply app_nil in Hnil as [Hnil _]. apply zlen_nil_iff in Hnil. lia.
Qed.
(** The whole file, and where [traverse] is in it. *)
Definition whole : text := concat rs.
Lemma rest_0 : rest 0 = whole.
Proof. done. Qed.

(** What [traverse_loop] leaves: the place is found, or a record did not fit. *)
Definition traversed (offset j : Z) (m : seq_file) (res : outcome (option Z * seq_file * W)) : Prop :=
  ∃ r m' b' w', res = Ret (r, m', w') ∧ sized m' b' j ∧ sem m' = sem m ∧
    match r with
    | Some e => e = 0 ∧ ready m' ∧ remaining m' = zdrop offset whole
    | None => j < K
    end.

Lemma traverse_end i pos offset m b j w : record_at i = None → record_at (index m) = None → 0 <= index m → sized m b j → count m = 0 →
  0 <= pos < offset → zdrop pos whole = rest i → traversed offset j m (Ret (Some 0, m, w)).
Proof.
  intros Hn Hn' H0 Hsz Hc Hp Hw. exists (Some 0), m, b, w. split_and!; try done.
  - split; try lia; try done. exists j. right. by exists b.
  - unfold remaining. rewrite Hc. cbn [Z.eqb]. rewrite (rest_end _ Hn'). rewrite (rest_end _ Hn) in Hw. symmetry.
    replace offset with (pos + (offset - pos)) by lia. rewrite <-zdrop_zdrop, Hw by lia. by apply drop_nil.
Qed.

Lemma traverse_loop_ok fuel p i pos offset m b j w : delivers i p (index m) → 0 <= i → sized m b j → count m = 0 →
  0 <= pos < offset → zdrop pos whole = rest i → zlen rs - i < Z.of_nat fuel → traversed offset j m (traverse_loop op fuel p pos offset m w).
Proof using laws HK records.
  intros Hd Hi Hsz Hc Hp Hw Hf. revert p i pos m b w Hd Hi Hsz Hc Hp Hw Hf.
  induction fuel as [|fuel IH]; intros p i pos m b w Hd Hi Hsz Hc Hp Hw Hf;
    (inversion Hd as [a r Hr Ha|? Hn Hn' H0]; subst; cbn [traverse_loop]; [|by eapply (traverse_end i)]).
  { apply lookup_lt_Some in Hr. unfold zlen in Hf. lia. }
  pose proof Hsz as (Hb & Hl & Hs & Hj). pose proof (buf_size_pos j ltac:(lia)).
  destruct (show_ok laws a _ r m b w Ha Hr Hb Hl ltac:(lia)) as (b' & w1 & Hl' & [(Hfit & -> & Ht)|(Hfit & -> & _)]);
    rewrite bind_ret; cbn [Z.eqb negb count set_count size set_buf index sem]; rewrite ?Hc, ?Z.add_0_l in *.
  2: { rewrite Z.eqb_refl. eexists None, _, b', w1. split_and!; [reflexivity| |done|].
    - unfold sized; cbn; split_and!; first [done|lia].
    - rewrite Hs in Hfit. by apply (buf_size_last j r (index m)). }
  rewrite (ztake_0 0) in Ht by lia. cbn [app] in Ht. rewrite (proj2 (Z.eqb_neq _ _)) by lia. pose proof (records _ _ Hr) as Hrl.
  set (m1 := set_count (zlen r) (set_buf (Some b') (size m) m)). assert (Hsz1 : sized m1 b' j) by (unfold sized; cbn; split_and!; first [done|lia]).
  rewrite (rest_step (index m) r) in Hw by done.
  assert (Hskip : zdrop (pos + zlen r) whole = rest (index m + 1)).
  { rewrite <-zdrop_zdrop, Hw by lia. by rewrite zdrop_app_ge, Z.sub_diag, zdrop_0 by lia. }
  destruct (Z.ltb_spec offset (pos + zlen r)) as [Hlt|Hge].
  { cbn [count set_from from]. eexists (Some 0), _, b', w1. split_and!; [reflexivity|exact Hsz1|done|done| |].
    - split; cbn; try lia. exists j. right. by exists b'.
    - unfold remaining, pending. cbn [count set_count set_from from buf set_buf index]. rewrite (proj2 (Z.eqb_neq _ 0)) by (cbn; lia). cbn [m1 count set_count set_buf buf index].
      rewrite <-zdrop_ztake, Ht by lia. replace offset with (pos + (offset - pos)) at 2 by lia.
      rewrite <-zdrop_zdrop, Hw by lia. by rewrite zdrop_app_le by lia. }
  destruct (Z.eqb_spec (pos + zlen r) offset) as [Eo|Eo].
  { eexists (Some 0), _, b', w1. split_and!; [reflexivity|exact Hsz1|done|done| |].
    - split; cbn; try done; try lia. exists j. right. by exists b'.
    - unfold remaining. cbn. by rewrite <-Hskip, Eo. }
  destruct (next_ok laws a (index m) w1 Hi Ha) as (p' & i' & w2 & E & Hd'). cbn [index set_count m1 set_buf]. rewrite E, bind_ret. cbv beta iota zeta.
  match goal with |- traversed _ _ _ (traverse_loop _ _ _ ?ps _ ?m0 _) => destruct (IH p' (index m + 1) ps m0 b' w2) as (r' & m' & b'' & w' & E' & G) end; try done; try lia.
  rewrite E'. exists r', m', b'', w'. by split.
Qed.

Lemma traverse_ok fuel m j offset w : rank m j → 0 <= offset → zlen rs < Z.of_nat fuel → 
  ∃ r m' w', traverse op talloc_size fuel offset m w = Ret (r, m', w') ∧ sem m' = sem m ∧
    (r = 0 ∧ ready m' ∧ remaining m' = zdrop offset whole ∨ r = - EAGAIN ∧ j < K ∧ rank m' (j + 1)).
Proof using laws HK records memory.
  intros Hr Ho Hf. unfold traverse. set (m1 := set_from 0 (set_count 0 (set_index 0 m))).
  assert (Hr1 : rank m1 j) by (destruct Hr as [(? & _ & ?)|?]; [by left|by right]).
  destruct (Z.eqb_spec offset 0) as [->|Ho0].
  { exists 0, m1, w. split_and!; try done. left. split_and!; try done. by split; eauto. }
  destruct (have_buf _ _ Hr1) as (m2 & b2 & -> & Hsz & Hc & Hi & _ & Hs & _). cbn [negb]. change (index m1) with 0 in Hi. change (count m1) with 0 in Hc. change (sem m1) with (sem m) in Hs.
  destruct (start_ok laws (index m2) w ltac:(lia)) as (p & i & w1 & -> & Hd). rewrite bind_ret. cbv beta iota. rewrite Hi in Hd.
  destruct (traverse_loop_ok fuel p 0 0 offset (set_index i m2) b2 j w1 Hd) as (r & m3 & b3 & w3 & -> & Hsz3 & Hs3 & Hres); try done; try lia.
  rewrite bind_ret. cbv beta iota. destruct (stop_ok laws w3) as [w4 ->]. rewrite bind_ret. change (sem (set_index i m2)) with (sem m2) in Hs3.
  destruct r as [e|]; [destruct Hres as (-> & H1 & H2); exists 0, m3, w4; split_and!; [done|congruence|by left]|].
  destruct Hsz3 as (Hb3 & Hl3 & Hs3' & Hj3). rewrite Hs3', buf_size_double by lia.
  destruct (new_buf_ok (j + 1) m3 ltac:(lia)) as (b4 & -> & Hl4). eexists _, _, w4. split_and!; [reflexivity|cbn; congruence|].
  right. split_and!; [done|done|]. right. exists b4. unfold sized; cbn; split_and!; first [done|lia].
Qed.

Lemma traverse_again_ok steps fuel m j offset w : rank m j → 0 <= offset → zlen rs < Z.of_nat fuel → K - j <= Z.of_nat steps →
  ∃ m' w', traverse_again op talloc_size steps fuel offset m w = Ret (0, m', w') ∧ sem m' = sem m ∧ ready m' ∧ remaining m' = zdrop offset whole.
Proof using laws HK records memory.
  revert m j w. induction steps as [|steps IH]; intros m j w Hr Ho Hf Hst; cbn [traverse_again];
    destruct (traverse_ok fuel m j offset w Hr Ho Hf) as (r & m1 & w1 & -> & Hs & [(-> & Hrd & Hrem)|(-> & Hj & Hr1)]);
    rewrite bind_ret; cbn [Z.eqb negb]; try (by exists m1, w1); [lia|].
  rewrite Z.eqb_refl. cbn [negb]. destruct (IH m1 (j + 1) w1 Hr1 Ho Hf ltac:(lia)) as (m2 & w2 & E & Hs2 & G). exists m2, w2. by split; [|split; [congruence|]].
Qed.
(** The reader is at [f_pos]. *)
Definition at_pos (f : file) : Prop := idle f ∧ 0 <= f_pos f ∧ remaining (private_data f) = zdrop (f_pos f) whole.

Lemma at_open : at_pos opened.
Proof. split; [split; [done|]|done]. split; cbn; try lia. exists 0. by left. Qed.

(** A read returns a piece of the file, at the position and empty only at the end. *)
Definition reads_piece (n : Z) (f : file) (res : outcome (Z * text * file * W)) : Prop :=
  ∃ out f' w', res = Ret (zlen out, out, f', w') ∧ at_pos f' ∧ f_pos f' = f_pos f + zlen out ∧ zlen out <= n ∧
    zdrop (f_pos f) whole = out ++ zdrop (f_pos f') whole ∧ (0 < n → f_pos f < zlen whole → out ≠ []).

Lemma read_piece fuel n f w : at_pos f → 0 <= n → K + zlen rs <= Z.of_nat fuel → reads_piece n f (seq_read op talloc_size fuel n f w).
Proof using laws HK records memory.
  intros (Hid & Hp & Hrem) Hn Hf. destruct (seq_read_ok fuel n f w Hid Hn Hf) as (out & f' & w' & E & Hid' & Hp' & Hl & Hrem' & Hne).
  rewrite Hrem in *. pose proof (zlen_nonneg out).
  assert (Hat : remaining (private_data f') = zdrop (f_pos f') whole).
  { rewrite Hp', <-zdrop_zdrop, Hrem' by lia. by rewrite zdrop_app_ge, Z.sub_diag, zdrop_0 by lia. }
  exists out, f', w'. split; [done|]. split; [split; [done|split; [lia|done]]|]. split; [done|]. split; [done|]. split.
  - by rewrite <-Hat.
  - intros Hn0 Hlt. apply Hne; [done|]. intros Hnil. apply zlen_nil_iff in Hnil. rewrite zlen_zdrop in Hnil; lia.
Qed.

(** Reads of [n] characters until one returns 0. *)
Fixpoint read_all (steps fuel : nat) (n : Z) (f : file) (w : W) : outcome text :=
  match steps with
  | O => Fault "read_all: out of fuel"
  | S steps =>
      '(r, out, f, w) ← seq_read op talloc_size fuel n f w;
      if r =? 0 then mret [] else t ← read_all steps fuel n f w; mret (out ++ t)
  end.

Lemma read_all_ok steps fuel n f w : at_pos f → 0 < n → K + zlen rs <= Z.of_nat fuel → zlen (zdrop (f_pos f) whole) < Z.of_nat steps →
  read_all steps fuel n f w = Ret (zdrop (f_pos f) whole).
Proof using laws HK records memory.
  revert f w. induction steps as [|steps IH]; intros f w Hat Hn Hf Hs; [pose proof (zlen_nonneg (zdrop (f_pos f) whole)); lia|].
  cbn [read_all]. destruct (read_piece fuel n f w Hat ltac:(lia) Hf) as (out & f' & w' & -> & Hat' & Hp & Hl & E & Hne). rewrite bind_ret. cbv beta iota.
  rewrite E in Hs. rewrite E. rewrite zlen_app in Hs. destruct (Z.eqb_spec (zlen out) 0) as [Ez|Ez].
  - apply zlen_nil_iff in Ez as ->. cbn [app]. f_equal. symmetry. apply zdrop_all.
    destruct (Z.lt_ge_cases (f_pos f) (zlen whole)); [by destruct (Hne Hn)|]. change (zlen (@nil ascii)) with 0 in Hp. lia.
  - pose proof (zlen_nonneg out). rewrite (IH f' w' Hat' Hn Hf) by lia. by rewrite bind_ret.
Qed.

Lemma lseek_ok steps fuel offset origin f w : at_pos f → origin = 0 ∨ origin = 1 → K <= Z.of_nat steps → zlen rs < Z.of_nat fuel →
  let target := if origin =? 1 then offset + f_pos f else offset in
  ∃ f' w', seq_lseek op talloc_size steps fuel offset origin f w = Ret (if target <? 0 then - SEQ_EINVAL else target, f', w') ∧ at_pos f' ∧
    f_pos f' = (if target <? 0 then f_pos f else target).
Proof using laws HK records memory.
  intros ([Hsm Hrd] & Hp & Hrem) Ho Hst Hf target. unfold seq_lseek, down. rewrite Hsm, bind_ret. fold target.
  assert (negb ((origin =? 0) || (origin =? 1)) = false) as -> by (by destruct Ho as [-> | ->]). cbn [orb].
  set (m := set_sem true (private_data f)).
  assert (Hsame : at_pos (File (f_pos f) (up m))).
  { split; [split; [done|]|done]. split; apply Hrd. }
  destruct (Z.ltb_spec target 0) as [Ht|Ht]; [by eexists _, w|].
  destruct (Z.eqb_spec target (f_pos f)) as [Et|Et]; [by eexists _, w|].
  destruct (rd_buf _ Hrd) as [j Hj]. assert (0 <= j) by (destruct Hj as [(_ & _ & ->)|(b & _ & _ & _ & ?)]; lia).
  destruct (traverse_again_ok steps fuel m j target w) as (m' & w' & -> & Hs' & Hrd' & Hrem'); try done; try lia.
  rewrite bind_ret. cbn [Z.eqb negb]. eexists _, w'. split; [reflexivity|]. split; [|done]. split; [split; [done|]; split; apply Hrd'|]. split; [done|exact Hrem'].
Qed.

(** C21: a file made of records reads as their text.  For records that are not empty and
    fit a buffer that talloc can give: the reader's place is [f_pos] from opening on; a
    read of any size returns a piece of the text from there, as long as it wants at
    most, and something unless the end is reached; seeking moves to the place; and reads
    of any positive size until one returns 0 come to an end and give all that is left. *)
Theorem seq_file_text fuel : K + zlen rs < Z.of_nat fuel →
  (∀ f_mode r m f, seq_open true f_mode = (r, m, Some f) → r = 0 ∧ f_pos f = 0 ∧ at_pos f) ∧
  (∀ n f w, at_pos f → 0 <= n → reads_piece n f (seq_read op talloc_size fuel n f w)) ∧
  (∀ offset origin f w, at_pos f → origin = 0 ∨ origin = 1 →
     let target := if origin =? 1 then offset + f_pos f else offset in
     ∃ f' w', seq_lseek op talloc_size (Z.to_nat K) fuel offset origin f w = Ret (if target <? 0 then - SEQ_EINVAL else target, f', w') ∧
       at_pos f' ∧ f_pos f' = (if target <? 0 then f_pos f else target)) ∧
  (∀ n f w, at_pos f → 0 < n → read_all (S (length whole)) fuel n f w = Ret (zdrop (f_pos f) whole)).
Proof using laws HK records memory.
  intros Hf. split_and!.
  - intros f_mode r m f [= <- _ <-]. split; [done|]. split; [done|exact at_open].
  - intros n f w Hat Hn. apply read_piece; [done..|lia].
  - intros offset origin f w Hat Ho. apply lseek_ok; [done..|lia|lia].
  - intros n f w Hat Hn. apply read_all_ok; [done..|lia|]. pose proof (zlen_nonneg whole). destruct Hat as (_ & Hp & _).
    destruct (Z.lt_ge_cases (f_pos f) (zlen whole)).
    + rewrite zlen_zdrop by lia. unfold zlen in *. lia.
    + rewrite zdrop_all by lia. change (zlen []) with 0. lia.
Qed.
End Reading.

(** ** A file of given records *)

Definition list_ops (rs : list text) : seq_operations Z unit := {|
  start := λ pos w, mret (match rs !! Z.to_nat pos with Some _ => PItem pos | None => PNull end, pos, w);
  next := λ a pos w, mret (match rs !! Z.to_nat (pos + 1) with Some _ => PItem (pos + 1) | None => PNull end, pos + 1, w);
  stop := mret;
  show := λ a m w, '(_, m) ← seq_puts (default [] (rs !! Z.to_nat a)) m; mret (0, m, w);
|}.

Lemma list_ops_laws rs : seq_laws (list_ops rs) rs (λ a i, a = i).
Proof.
  split.
  - intros i w Hi. cbn [start list_ops]. eexists _, _, w. split; [reflexivity|]. destruct (rs !! Z.to_nat i) eqn:E; [by eapply delivers_item|by apply delivers_end].
  - intros a i w Hi ->. cbn [next list_ops]. eexists _, _, w. split; [reflexivity|].
    destruct (rs !! Z.to_nat (i + 1)) eqn:E; [by eapply delivers_item|apply delivers_end; try done; lia].
  - intros w. by exists w.
  - intros a i r m b w -> Hr Hb Hl Hc. cbn [show list_ops]. unfold record_at in Hr. rewrite Hr. cbn [default]. unfold id, seq_puts.
    pose proof (zlen_nonneg r). destruct (Z.ltb_spec (count m + zlen r) (size m)).
    + unfold get_buf. rewrite Hb. cbn [of_option]. rewrite bind_ret. destruct (store_ret (count m) r b) as (b' & -> & Hl' & Ht & Hm & _); [lia..|].
      rewrite !bind_ret. exists b', w. split; [done|]. left. split_and!; [done|done|]. rewrite ztake_split, Ht, Hm by lia. done.
    + rewrite bind_ret. exists b, w. split; [done|]. right. split_and!; [done| |done]. cbv beta iota. destruct m; cbn in *. by subst.
Qed.

Definition get_text (sz : Z) : option text := Some (replicate (Z.to_nat sz) NUL).
Definition three : list text := [tx "first "; tx "second "; tx "third"].

Lemma seq_file_text_witness :
  reads_piece three 0 3 opened (seq_read (list_ops three) get_text 20 3 opened ()) ∧
  read_all (list_ops three) get_text 100 20 4 opened () = Ret (tx "first second third").
Proof.
  split; [|vm_compute; reflexivity]. eapply (seq_file_text (list_ops three) get_text three (λ a i, a = i) 0).
  - apply list_ops_laws.
  - lia.
  - intros i r Hr. apply list_elem_of_lookup_2 in Hr. unfold three in Hr. repeat (apply elem_of_cons in Hr as [->|Hr]; [by vm_compute|]).
    by apply not_elem_of_nil in Hr.
  - intros j Hj. eexists. split; [reflexivity|]. unfold zlen. rewrite length_replicate, Z2Nat.id; [done|]. pose proof (buf_size_pos j). lia.
  - by vm_compute.
  - apply at_open.
  - lia.
Defined.

(** One read is not the whole file: it ends with the buffer, here after the first of two
    records, though the caller's 16383 characters had room for both. *)
Definition long : list text := [replicate 3000 "a"%char; replicate 3000 "b"%char].
Lemma one_read_one_page : match seq_read (list_ops long) get_text 20 16383 opened () with Ret (n, _, _, _) => n = 3000 | _ => False end.
Proof. vm_compute. reflexivity. Qed.

(** When there is no memory for a larger buffer the count of the old one stays: the next
    read copies that many characters out of the new buffer of a page. *)
Definition up_to_8192 (sz : Z) : option text := if 8192 <? sz then None else get_text sz.
Definition read_9000 (f : file) := seq_read (list_ops [replicate 9000 "a"%char]) up_to_8192 20 16383 f ().
Lemma enomem_then_overrun : ∃ f, read_9000 opened = Ret (- ENOMEM, [], f, ()) ∧ ∃ e, read_9000 f = Fault e.
Proof. eexists. split; [vm_compute; reflexivity|]. eexists. vm_compute. reflexivity. Qed.
