(* ===== verification/SeqOpen.v ===== *)
(** * core/seq_file.c: the memory of a sequential file

    seq_open, single_open, the buffer and the release functions on the allocator of
    Talloc.v.  The structs are the [world] of talloc, at the address of their chunk; SeqFile.v
    has what reading does with them. *)

From Stdlib Require Import ZArith Lia.
From S2P Require Import Prelude CStr Mem KernLib Talloc Forest TallocFree TallocSpec.

(** struct seq_file: the pointers op, buf and private, and the size of the buffer. *)
Record seq_file := SeqFile { op : Z; buf : Z; size : Z; private : Z }.
Abbreviation files := (gmap Z seq_file).
Definition set_buf (b sz : Z) (m : seq_file) : seq_file := SeqFile (op m) b sz (private m).
Definition set_private (p : Z) (m : seq_file) : seq_file := SeqFile (op m) (buf m) (size m) p.
Definition ENOMEM : Z := 12.

Section SeqOpen.
Context `{Malloc} (__seq_file_ctx sizeof_seq_file sizeof_seq_operations : Z).
Abbreviation st := (tstate files).

Definition put (p : Z) (m : seq_file) (s : st) : st := with_world (<[p := m]> (world s)) s.
Definition file_at (p : Z) (s : st) : outcome seq_file := of_option "seq_file: bad private_data" (world s !! p).
Definition kfree (p : Z) (s : st) : outcome st := '(_, s) ← talloc_free no_destructor (S (base.size (heap s))) p s; mret s.

(** The result and file->private_data, if it was set. *)
Definition seq_open (op : Z) (s : st) : outcome (Z * option Z * st) :=
  '(p, s) ← talloc_named_const __seq_file_ctx sizeof_seq_file (NConst (tx "struct seq_file")) s;
  if p =? 0 then mret (- ENOMEM, None, s) else
  mret (0, Some p, put p (SeqFile op 0 0 0) s).

Definition single_open (data : Z) (s : st) : outcome (Z * option Z * st) :=
  '(op, s) ← talloc_named_const __seq_file_ctx sizeof_seq_operations (NConst (tx "struct seq_operations")) s;
  if op =? 0 then mret (- ENOMEM, None, s) else
  '(res, private_data, s) ← seq_open op s;
  match private_data with
  | Some p => m ← file_at p s; mret (res, private_data, put p (set_private data m) s)
  | None => s ← kfree op s; mret (res, None, s)
  end.

(** m->buf = talloc_size(ctx, m->size = sz) of seq_read and traverse. *)
Definition new_buf (p sz : Z) (location : text) (s : st) : outcome (bool * st) :=
  m ← file_at p s;
  '(b, s) ← talloc_named_const __seq_file_ctx sz (NConst location) s;
  mret (negb (b =? 0), put p (set_buf b sz m) s).
Definition first_buf (p : Z) (s : st) : outcome (bool * st) :=
  m ← file_at p s;
  if buf m =? 0 then new_buf p PAGE_SIZE (tx "core/seq_file.c:73") s else mret (true, s).
(** The old buffer is freed before there is one of twice the size. *)
Definition next_buf (p : Z) (s : st) : outcome (bool * st) :=
  m ← file_at p s;
  s ← kfree (buf m) s;
  new_buf p (u64 (Z.shiftl (size m) 1)) (tx "core/seq_file.c:105") s.

Definition seq_release (p : Z) (s : st) : outcome (Z * st) :=
  m ← file_at p s;
  s ← kfree (buf m) s;
  s ← kfree p s;
  mret (0, with_world (delete p (world s)) s).
Definition single_release (p : Z) (s : st) : outcome (Z * st) :=
  m ← file_at p s;
  '(res, s) ← seq_release p s;
  s ← kfree (op m) s;
  mret (res, s).
Definition seq_release_private (p : Z) (s : st) : outcome (Z * st) :=
  m ← file_at p s;
  s ← kfree (private m) s;
  seq_release p (put p (set_private 0 m) s).

(** Not in seq_file.c: who opened the file gives it private data of the kernel's memory. *)
Definition give_private (kmalloc_ctx p sz : Z) (s : st) : outcome st :=
  m ← file_at p s;
  '(d, s) ← talloc_named_const kmalloc_ctx sz (NConst (tx "private")) s;
  mret (put p (set_private d m) s).
End SeqOpen.

(** ** What an open file owns *)

(** By which function a file was opened: a single_open has its operations, and the private
    data of the last kind are freed by seq_release_private. *)
Inductive kind := Plain | Single | Private.
Abbreviation opens := (gmap Z kind).

Definition some_chunk (x : Z) : list Z := if x =? 0 then [] else [x].
Definition chunks (k : kind) (p : Z) (m : seq_file) : list Z :=
  p :: some_chunk (buf m) ++ match k with Plain => [] | Single => [op m] | Private => some_chunk (private m) end.
Definition owned (w : files) (k : opens) : list Z := concat (map (λ i, chunks i.2.2 i.1 i.2.1) (map_to_list (map_zip w k))).

Lemma owned_open w k p m K : w !! p = None → owned (<[p := m]> w) (<[p := K]> k) ≡ₚ chunks K p m ++ owned w k.
Proof.
  intros Hp. unfold owned. rewrite <-map_insert_zip_with, map_to_list_insert; [done|]. by apply map_lookup_zip_with_None; left.
Qed.
Lemma owned_close w k p m K : w !! p = Some m → k !! p = Some K → owned w k ≡ₚ chunks K p m ++ owned (delete p w) (delete p k).
Proof.
  intros Hm HK. unfold owned. rewrite <-map_delete_zip_with, <-(map_to_list_delete _ p (m, K)); [done|].
  apply map_lookup_zip_with_Some. eauto.
Qed.
Lemma owned_put w k p m m' K : w !! p = Some m → k !! p = Some K → owned (<[p := m']> w) k ≡ₚ chunks K p m' ++ owned (delete p w) (delete p k).
Proof.
  intros Hm HK. rewrite (owned_close _ _ p m' K); [|by rewrite lookup_insert_eq|done]. by rewrite delete_insert_eq.
Qed.

Lemma in_owned w k p : is_Some (w !! p) → is_Some (k !! p) → p ∈ owned w k.
Proof. intros [m Hm] [K HK]. rewrite (owned_close w k p m K) by done. unfold chunks. by left. Qed.

(** The memory: what was there before, and [L], chunks with nothing below them. *)
Section Held.
Context `{ML : MallocLaws} (ctx kctx : Z) (base : Z → Prop).
Implicit Types (s : tstate files) (A : aforest files).
Definition held (L : list Z) s : Prop := ∃ A,
  represents s A ∧ base ctx ∧ base kctx ∧ (∀ x, is_Some (a_info A !! x) ↔ base x ∨ x ∈ L) ∧ (∀ x, x ∈ L → a_kids A x = [] ∧ ¬ base x) ∧ NoDup L.

Lemma held_perm L L' s : L ≡ₚ L' → held L s → held L' s.
Proof.
  intros E (A & R & Hc & Hk & Hl & Hf & Hn). exists A. setoid_rewrite <-E. split_and!; done.
Qed.
#[export] Instance held_proper : Proper ((≡ₚ) ==> eq ==> iff) held.
Proof. intros L L' E s _ <-. split; by apply held_perm. Qed.
Lemma held_world L s w : held L s → held L (with_world w s).
Proof. intros (A & R & Hr). exists (AForest (a_kids A) (a_info A) w). split; [by apply represents_world|exact Hr]. Qed.
Lemma held_nonzero x L s : held L s → x ∈ L → x ≠ 0.
Proof. intros (A & R & _ & _ & Hl & _) Hx ->. apply (re_zero _ _ R), (re_live s A 0 R), Hl. by right. Qed.

Lemma held_alloc L s c sz n : held L s → base c → 0 <= sz → ∃ f s',
  talloc_named_const c sz n s = Ret (f, s') ∧ world s' = world s ∧ held (some_chunk f ++ L) s'.
Proof using ML.
  intros (A & R & Hc & Hk & Hl & Hf & Hn) Hb Hsz.
  destruct (alloc_try s A c sz n R Hsz) as (f & s' & E & Hcase); [by apply Hl; left|]. exists f, s'. split; [done|].
  destruct Hcase as [[-> ->]|(Hf0 & Hi & Hw & R')]; [split; [done|]; by exists A|]. split; [done|].
  unfold some_chunk. rewrite (proj2 (Z.eqb_neq f 0)) by done. eexists. split; [exact R'|]. cbn [a_info a_kids app].
  assert (Hfr : ¬ (base f ∨ f ∈ L)) by (rewrite <-Hl, Hi; by intros []). assert (c ≠ f) by (intros ->; tauto).
  split_and!; [done|done| | |apply NoDup_cons; tauto].
  - intros x. rewrite lookup_insert, elem_of_cons. case_decide; [subst; split; [by auto|by eexists]|]. rewrite Hl. naive_solver.
  - intros x [->|Hx]%elem_of_cons.
    + rewrite kset_ne by done. split; [|tauto]. apply (fo_kids _ _ _ (re_forest _ _ R)), eq_None_not_Some. rewrite <-(re_live s A f R), Hi. by intros [].
    + rewrite kset_ne; [by apply Hf|]. intros ->. by apply (Hf _ Hx).
Qed.
Lemma held_free x L s : held (some_chunk x ++ L) s → ∃ s', kfree x s = Ret s' ∧ world s' = world s ∧ held L s'.
Proof using ML.
  unfold some_chunk, kfree. destruct (Z.eqb_spec x 0) as [->|Hx]; [intros Hs; by exists s|].
  intros (A & R & Hc & Hk & Hl & Hf & Hn). cbn [app] in *. apply NoDup_cons in Hn as [Hxl Hn]. destruct (Hf x ltac:(left)) as [Hkx Hbx].
  destruct (free_tree s A x [] R) as (s' & i & E & Hi & R'); [by apply Hl; right; left|rewrite Hkx; constructor|].
  exists s'. rewrite E, bind_ret. split; [done|]. split; [by rewrite (re_world _ _ R'), (re_world _ _ R)|].
  eexists. split; [exact R'|]. cbn [a_info a_kids]. split_and!; [done|done| | |done].
  - intros y. rewrite Hi. case_decide as Hy; [apply list_elem_of_singleton in Hy as ->; split; [by intros []|tauto]|].
    rewrite Hl, elem_of_cons. set_solver.
  - intros y Hy. destruct (Hf y ltac:(by right)) as [Hky Hby]. split; [|done]. unfold TallocFree.kfree. case_decide; [done|]. by rewrite Hky.
Qed.
End Held.

Section Life.
Context `{ML : MallocLaws} (ctx kctx sizeof_seq_file sizeof_seq_operations : Z).
Context (Hsf : 0 <= sizeof_seq_file) (Hso : 0 <= sizeof_seq_operations).
Abbreviation st := (tstate files).
Implicit Types (s : st) (A : aforest files) (k : opens).

(** The files that are open, and what happens to them.  A file of private data gets them
    once, right after it was opened. *)
Inductive event := Open (op : Z) | OpenSingle (data : Z) | OpenPrivate (op sz : Z) | First (p : Z) | Next (p : Z) | Release (p : Z).
Definition legal k (e : event) : Prop :=
  match e with Open _ | OpenSingle _ => True | OpenPrivate _ sz => 0 <= sz | First p | Next p | Release p => is_Some (k !! p) end.
Definition opened_as (K : kind) k (p : option Z) : opens := match p with Some p => <[p := K]> k | None => k end.
Definition exec (e : event) (x : st * opens) : outcome (Z * (st * opens)) :=
  let '(s, k) := x in
  match e with
  | Open op => '(r, p, s) ← seq_open ctx sizeof_seq_file op s; mret (r, (s, opened_as Plain k p))
  | OpenSingle data => '(r, p, s) ← single_open ctx sizeof_seq_file sizeof_seq_operations data s; mret (r, (s, opened_as Single k p))
  | OpenPrivate op sz =>
      '(r, p, s) ← seq_open ctx sizeof_seq_file op s;
      match p with Some p => s ← give_private kctx p sz s; mret (r, (s, <[p := Private]> k)) | None => mret (r, (s, k)) end
  | First p => '(ok, s) ← first_buf ctx p s; mret (if ok : bool then 0 else - ENOMEM, (s, k))
  | Next p => '(ok, s) ← next_buf ctx p s; mret (if ok : bool then 0 else - ENOMEM, (s, k))
  | Release p =>
      K ← of_option "not open" (k !! p);
      '(r, s) ← match K with Plain => seq_release p s | Single => single_release p s | Private => seq_release_private p s end;
      mret (r, (s, delete p k))
  end.
Inductive steps : st * opens → st * opens → Prop :=
| steps_refl x : steps x x
| steps_step x e r y z : steps x y → legal y.2 e → exec e y = Ret (r, z) → steps x z.


Context (base : Z → Prop).
Abbreviation held := (held ctx kctx base).
Definition balanced (x : st * opens) : Prop :=
  (∀ p, is_Some (world x.1 !! p) ↔ is_Some (x.2 !! p)) ∧ held (owned (world x.1) x.2) x.1.

(** A new file, with chunks that were allocated before. *)
Lemma open_ok L s op : held L s → ∃ p s',
  seq_open ctx sizeof_seq_file op s = Ret (if p =? 0 then - ENOMEM else 0, if p =? 0 then None else Some p, s') ∧ held (some_chunk p ++ L) s' ∧
  world s' = if p =? 0 then world s else <[p := SeqFile op 0 0 0]> (world s).
Proof using ML Hsf.
  intros Hh. assert (Hb : base ctx) by (destruct Hh as (A & _ & ? & _); done).
  destruct (held_alloc ctx kctx base _ _ ctx _ (NConst (tx "struct seq_file")) Hh Hb Hsf) as (p & s1 & E & Ew & H1).
  exists p. unfold seq_open. rewrite E, bind_ret. cbv beta iota. destruct (p =? 0); eexists; (split; [reflexivity|]); [done|].
  split; [by apply held_world|]. cbn. by rewrite Ew.
Qed.

Lemma new_buf_owned L p m s sz loc : held L s → world s !! p = Some m → 0 <= sz → ∃ ok b s',
  new_buf ctx p sz loc s = Ret (ok, s') ∧ held (some_chunk b ++ L) s' ∧ world s' = <[p := set_buf b sz m]> (world s).
Proof using ML.
  intros Hh Hm Hsz. assert (Hb : base ctx) by (destruct Hh as (A & _ & ? & _); done).
  destruct (held_alloc ctx kctx base _ _ ctx sz (NConst loc) Hh Hb Hsz) as (b & s1 & E & Ew & H1).
  do 3 eexists. unfold new_buf, file_at. rewrite Hm. cbn [of_option]. rewrite bind_ret, E, bind_ret. split; [reflexivity|].
  split; [by apply held_world|]. cbn. by rewrite Ew.
Qed.
(** The file [p] now is [m], and owns what the memory holds beside the other files. *)
Lemma balanced_put s k p m m' K : (∀ p, is_Some (world s !! p) ↔ is_Some (k !! p)) → world s !! p = Some m → k !! p = Some K → ∀ s',
  world s' = <[p := m']> (world s) → held (chunks K p m' ++ owned (delete p (world s)) (delete p k)) s' → balanced (s', k).
Proof.
  intros Hd Hm HK s' Hw Hh. split; cbn [fst snd]; rewrite Hw.
  - intros q. rewrite lookup_insert. case_decide; [subst; rewrite HK; split; by eauto|done].
  - eapply held_perm; [|exact Hh]. by rewrite (owned_put _ _ p m).
Qed.
Lemma balanced_open s k p m K : (∀ p, is_Some (world s !! p) ↔ is_Some (k !! p)) → world s !! p = None → ∀ s',
  world s' = <[p := m]> (world s) → held (chunks K p m ++ owned (world s) k) s' → balanced (s', <[p := K]> k).
Proof.
  intros Hd Hm s' Hw Hh. split; cbn [fst snd]; rewrite Hw.
  - intros q. rewrite !lookup_insert. case_decide; [split; by eauto|done].
  - eapply held_perm; [|exact Hh]. by rewrite owned_open.
Qed.
Lemma fresh_file s k p L s' : (∀ p, is_Some (world s !! p) ↔ is_Some (k !! p)) → held (some_chunk p ++ L ++ owned (world s) k) s' → p ≠ 0 → world s !! p = None.
Proof.
  intros Hd (A & _ & _ & _ & _ & _ & Hn) Hp. apply eq_None_not_Some. intros Hs. unfold some_chunk in Hn. rewrite (proj2 (Z.eqb_neq p 0)) in Hn by done.
  apply NoDup_cons in Hn as [Hn _]. apply Hn, elem_of_app. right. apply in_owned; [done|]. by apply Hd.
Qed.
Lemma release_ok s p m L : held (p :: some_chunk (buf m) ++ L) s → world s !! p = Some m → ∃ s',
  seq_release p s = Ret (0, s') ∧ held L s' ∧ world s' = delete p (world s).
Proof using ML.
  intros Hh Hm. unfold seq_release, file_at. rewrite Hm. cbn [of_option]. rewrite bind_ret.
  assert (Hp : some_chunk p = [p]). { unfold some_chunk. rewrite (proj2 (Z.eqb_neq p 0)); [done|]. eapply held_nonzero; [exact Hh|by left]. }
  destruct (held_free ctx kctx base (buf m) (some_chunk p ++ L) s) as (s1 & E1 & W1 & H1); [eapply held_perm; [|exact Hh]; rewrite Hp; solve_Permutation|].
  rewrite E1, bind_ret. destruct (held_free ctx kctx base _ _ _ H1) as (s2 & E2 & W2 & H2). rewrite E2, bind_ret. eexists. split; [reflexivity|].
  split; [by apply held_world|]. cbn. by rewrite W2, W1.
Qed.

Lemma exec_open k s op : balanced (s, k) → ∃ r y, exec (Open op) (s, k) = Ret (r, y) ∧ balanced y.
Proof using ML Hsf.
  intros [Hd Hh]. cbn [fst snd] in *. destruct (open_ok _ s op Hh) as (p & s1 & E & H1 & W). cbn [exec]. rewrite E, bind_ret. do 2 eexists. split; [reflexivity|].
  destruct (Z.eqb_spec p 0) as [->|Hp]; cbn [opened_as].
  - split; cbn [fst snd]; by rewrite W.
  - eapply (balanced_open s); [done|by apply (fresh_file s k p [] s1)|done|].
    unfold some_chunk in H1. by rewrite (proj2 (Z.eqb_neq p 0)) in H1.
Qed.
Lemma exec_single k s data : balanced (s, k) → ∃ r y, exec (OpenSingle data) (s, k) = Ret (r, y) ∧ balanced y.
Proof using ML Hsf Hso.
  intros [Hd Hh]. cbn [fst snd] in *. assert (Hb : base ctx) by (destruct Hh as (A & _ & ? & _); done).
  destruct (held_alloc ctx kctx base _ s ctx _ (NConst (tx "struct seq_operations")) Hh Hb Hso) as (o & s0 & E0 & W0 & H0).
  cbn [exec]. unfold single_open. rewrite E0, bind_ret. cbv beta iota. destruct (Z.eqb_spec o 0) as [->|Ho].
  { rewrite bind_ret. do 2 eexists. split; [reflexivity|]. split; cbn [fst snd]; by rewrite W0. }
  destruct (open_ok _ s0 o H0) as (p & s1 & E & H1 & W). rewrite E, bind_ret. cbv beta iota. destruct (Z.eqb_spec p 0) as [->|Hp].
  - destruct (held_free ctx kctx base o _ s1 H1) as (s2 & E2 & W2 & H2). rewrite E2, !bind_ret. do 2 eexists. split; [reflexivity|].
    split; cbn [fst snd opened_as]; by rewrite W2, W, W0.
  - unfold file_at. rewrite W, lookup_insert_eq. cbn [of_option]. rewrite !bind_ret. do 2 eexists. split; [reflexivity|]. cbn [opened_as].
    eapply (balanced_open s); [done|by apply (fresh_file s k p (some_chunk o) s1)|cbn; by rewrite W, insert_insert_eq, W0|].
    apply held_world. eapply held_perm; [|exact H1]. unfold some_chunk. by rewrite (proj2 (Z.eqb_neq p 0)), (proj2 (Z.eqb_neq o 0)).
Qed.
Lemma exec_private k s op sz : balanced (s, k) → 0 <= sz → ∃ r y, exec (OpenPrivate op sz) (s, k) = Ret (r, y) ∧ balanced y.
Proof using ML Hsf.
  intros [Hd Hh] Hsz. cbn [fst snd] in *. assert (Hb : base kctx) by (destruct Hh as (A & _ & _ & ? & _); done).
  destruct (open_ok _ s op Hh) as (p & s1 & E & H1 & W). cbn [exec]. rewrite E, bind_ret. cbv beta iota. destruct (Z.eqb_spec p 0) as [->|Hp].
  { do 2 eexists. split; [reflexivity|]. split; cbn [fst snd]; by rewrite W. }
  destruct (held_alloc ctx kctx base _ s1 kctx sz (NConst (tx "private")) H1 Hb Hsz) as (d & s2 & E2 & W2 & H2).
  unfold give_private, file_at. rewrite W, lookup_insert_eq. cbn [of_option]. rewrite !bind_ret, E2, !bind_ret. do 2 eexists. split; [reflexivity|].
  eapply (balanced_open s); [done|by apply (fresh_file s k p [] s1)|cbn; by rewrite W2, W, insert_insert_eq|].
  apply held_world. eapply held_perm; [|exact H2]. unfold chunks, some_chunk at 2. rewrite (proj2 (Z.eqb_neq p 0)) by done. cbn. solve_Permutation.
Qed.
Lemma chunks_buf K p b sz m : chunks K p (set_buf b sz m) ≡ₚ some_chunk b ++ chunks K p (set_buf 0 0 m).
Proof. unfold chunks. cbn [buf set_buf op private]. change (some_chunk 0) with (@nil Z). destruct K; solve_Permutation. Qed.
Lemma chunks_of_buf K p m : chunks K p m ≡ₚ some_chunk (buf m) ++ chunks K p (set_buf 0 0 m).
Proof. rewrite <-(chunks_buf K p (buf m) (size m)). by destruct m. Qed.
(** The file gets a new buffer while it has none. *)
Lemma rebuf_ok s k p m K sz loc s1 : (∀ p, is_Some (world s !! p) ↔ is_Some (k !! p)) → world s !! p = Some m → k !! p = Some K → 0 <= sz →
  world s1 = world s → held (chunks K p (set_buf 0 0 m) ++ owned (delete p (world s)) (delete p k)) s1 →
  ∃ ok s', new_buf ctx p sz loc s1 = Ret (ok, s') ∧ balanced (s', k).
Proof using ML.
  intros Hd Hm HK Hsz Hw HL. destruct (new_buf_owned _ p m s1 sz loc HL) as (ok & b & s2 & E & H2 & W2); [by rewrite Hw|done|].
  exists ok, s2. split; [done|]. eapply (balanced_put s k p m); [done..|by rewrite W2, Hw|]. eapply held_perm; [|exact H2].
  by rewrite (chunks_buf K p b sz), (assoc_L (++)).
Qed.
Lemma exec_buf (e : event) s k p : e = First p ∨ e = Next p → balanced (s, k) → is_Some (k !! p) → ∃ r y, exec e (s, k) = Ret (r, y) ∧ balanced y.
Proof using ML.
  intros He Hb [K HK]. pose proof Hb as [Hd Hh]. cbn [fst snd] in *. destruct (proj2 (Hd p) ltac:(eauto)) as [m Hm].
  eapply held_perm in Hh as H1; [|by apply (owned_close _ _ p m K)]. rewrite (chunks_of_buf K p m), <-(assoc_L (++)) in H1.
  destruct He as [-> | ->]; cbn [exec]; [unfold first_buf|unfold next_buf]; unfold file_at; rewrite Hm; cbn [of_option]; rewrite bind_ret.
  - destruct (Z.eqb_spec (buf m) 0) as [E0|]; [|rewrite bind_ret; by do 2 eexists]. rewrite E0 in H1.
    destruct (rebuf_ok s k p m K PAGE_SIZE (tx "core/seq_file.c:73") s Hd Hm HK ltac:(done) ltac:(done) H1) as (ok & s' & E & Hb').
    rewrite E, bind_ret. by do 2 eexists.
  - destruct (held_free ctx kctx base _ _ _ H1) as (s1 & E1 & W1 & H2). rewrite E1, bind_ret.
    destruct (rebuf_ok s k p m K (u64 (Z.shiftl (size m) 1)) (tx "core/seq_file.c:105") s1 Hd Hm HK) as (ok & s' & E & Hb'); [|done..|].
    + apply wrap_range. lia.
    + rewrite E, bind_ret. by do 2 eexists.
Qed.
Lemma exec_release s k p : balanced (s, k) → is_Some (k !! p) → ∃ r y, exec (Release p) (s, k) = Ret (r, y) ∧ balanced y.
Proof using ML.
  intros [Hd Hh] [K HK]. cbn [fst snd exec] in *. destruct (proj2 (Hd p) ltac:(eauto)) as [m Hm]. rewrite HK. cbn [of_option]. rewrite bind_ret.
  eapply held_perm in Hh as H1; [|by apply (owned_close _ _ p m K)]. set (rest := owned (delete p (world s)) (delete p k)) in *.
  assert (Hend : ∀ (r : Z) s', held rest s' → world s' = delete p (world s) → ∃ r' y, (mret (r, (s', delete p k)) : outcome (Z * (st * opens))) = Ret (r', y) ∧ balanced y).
  { intros r s' H' W. do 2 eexists. split; [reflexivity|]. split; cbn [fst snd]; rewrite W; [|done].
    intros q. rewrite !lookup_delete. by case_decide. }
  destruct K; unfold chunks in H1.
  - destruct (release_ok s p m rest) as (s' & E & H' & W); [|done|]; [eapply held_perm; [|exact H1]; unfold chunks; solve_Permutation|].
    rewrite E, bind_ret. by apply Hend.
  - unfold single_release, file_at. rewrite Hm. cbn [of_option]. rewrite bind_ret.
    assert (Hop : some_chunk (op m) = [op m]).
    { unfold some_chunk. rewrite (proj2 (Z.eqb_neq _ 0)); [done|]. eapply held_nonzero; [exact H1|]. apply elem_of_app. left. right. apply elem_of_app. right. by left. }
    destruct (release_ok s p m (some_chunk (op m) ++ rest)) as (s' & E & H' & W); [|done|]; [eapply held_perm; [|exact H1]; rewrite Hop; solve_Permutation|].
    rewrite E, bind_ret. destruct (held_free ctx kctx base _ _ _ H') as (s2 & E2 & W2 & H2). rewrite E2, !bind_ret. apply Hend; [done|]. by rewrite W2.
  - unfold seq_release_private, file_at. rewrite Hm. cbn [of_option]. rewrite bind_ret.
    destruct (held_free ctx kctx base (private m) (p :: some_chunk (buf m) ++ rest) s) as (s1 & E1 & W1 & H2); [eapply held_perm; [|exact H1]; solve_Permutation|].
    rewrite E1, bind_ret. apply (held_world _ _ _ _ _ (<[p := set_private 0 m]> (world s1))) in H2.
    destruct (release_ok _ p (set_private 0 m) rest H2) as (s' & E & H' & W); [by cbn; rewrite lookup_insert_eq|].
    unfold put. rewrite E, bind_ret. apply Hend; [done|]. rewrite W. cbn. by rewrite delete_insert_eq, W1.
Qed.
Lemma exec_ok e x : balanced x → legal x.2 e → ∃ r y, exec e x = Ret (r, y) ∧ balanced y.
Proof using ML Hsf Hso.
  destruct x as [s k]. intros Hb Hl. destruct e; cbn [legal snd] in Hl.
  - by apply exec_open.
  - by apply exec_single.
  - by apply exec_private.
  - apply (exec_buf _ s k p); auto.
  - apply (exec_buf _ s k p); auto.
  - by apply exec_release.
Qed.
Lemma steps_balanced x y : balanced x → steps x y → balanced y.
Proof using ML Hsf Hso.
  induction 2 as [|x e r y z _ IH Hl E]; [done|]. destruct (exec_ok e y (IH ltac:(done)) Hl) as (r' & z' & E' & Hb).
  rewrite E in E'. by injection E' as -> ->.
Qed.
End Life.

(** C22: sequential files give back what they take.  Whatever files are opened (plainly, with
    single_open, or with private data of the kernel's memory), get their first and their next
    larger buffers and are released, each by the release function that belongs to it, and
    whichever of the allocations fail: no call goes wrong, the memory in use is what was in
    use before and the struct, the buffer, the operations and the private data of every open
    file, all apart from each other, and after the last file was released it is what was in
    use before. *)
Theorem seq_files_give_back `{ML : MallocLaws} ctx kctx sizeof_seq_file sizeof_seq_operations (s0 : tstate files) A0 :
  0 <= sizeof_seq_file → 0 <= sizeof_seq_operations → represents s0 A0 → world s0 = ∅ → is_Some (heap s0 !! ctx) → is_Some (heap s0 !! kctx) →
  ∀ s k, steps ctx kctx sizeof_seq_file sizeof_seq_operations (s0, ∅) (s, k) →
  (∀ e, legal k e → ∃ r y, exec ctx kctx sizeof_seq_file sizeof_seq_operations e (s, k) = Ret (r, y)) ∧
  (∀ x, is_Some (heap s !! x) ↔ is_Some (heap s0 !! x) ∨ x ∈ owned (world s) k) ∧
  NoDup (owned (world s) k) ∧ (∀ x, x ∈ owned (world s) k → heap s0 !! x = None) ∧
  (k = ∅ → ∀ x, is_Some (heap s !! x) ↔ is_Some (heap s0 !! x)).
Proof.
  intros Hsf Hso R Hw Hc Hk s k Hs. set (base x := is_Some (heap s0 !! x)).
  assert (Hb : balanced ctx kctx base (s, k)).
  { eapply (steps_balanced ctx kctx sizeof_seq_file sizeof_seq_operations Hsf Hso base); [|exact Hs]. split; cbn [fst snd]; rewrite Hw; [intros p; rewrite !lookup_empty; split; by intros []|]. exists A0. split_and!; [done..| |by intros x ?%not_elem_of_nil|constructor].
    intros x. rewrite (re_live _ _ x R). unfold owned. rewrite map_zip_with_empty, map_to_list_empty. cbn. rewrite elem_of_nil. tauto. }
  pose proof Hb as [_ (A & R' & _ & _ & Hl & Hf & Hn)]. cbn [fst snd] in *.
  assert (Hlive : ∀ x, is_Some (heap s !! x) ↔ is_Some (heap s0 !! x) ∨ x ∈ owned (world s) k) by (intros x; by rewrite <-(re_live _ _ x R'), Hl).
  split_and!; [|done|done| |].
  - intros e He. destruct (exec_ok ctx kctx sizeof_seq_file sizeof_seq_operations Hsf Hso base e (s, k) Hb He) as (r & y & E & _). eauto.
  - intros x Hx. apply eq_None_not_Some. by apply (Hf x Hx).
  - intros -> x. rewrite Hlive. unfold owned. rewrite map_zip_with_empty_r, map_to_list_empty. cbn. rewrite elem_of_nil. tauto.
Qed.

(** Two contexts, 1 and 2. *)
Definition two_contexts : tstate files := TState {[1 := new_chunk 1 [90]; 2 := new_chunk 1 [90] ]} 0 0 ∅.
Definition two_contexts_forest : aforest files := AForest (λ _, []) {[2 := (1, None); 1 := (1, None)]} ∅.
Lemma two_contexts_ok : represents two_contexts two_contexts_forest.
Proof.
  destruct (sim_alloc no_destructor unchanged no_destructor_benign (initial (∅ : files)) _ 0 1 (initial_represents _)) as (r & s' & A' & E & Hs & R); [split; [by left|lia]|].
  vm_compute in E. injection E as <- <-. inversion Hs; subst. cbn [Z.eqb a_kids a_info a_world] in R.
  destruct (sim_alloc no_destructor unchanged no_destructor_benign _ _ 0 1 R) as (r & s' & A' & E & Hs' & R'); [split; [by left|lia]|].
  vm_compute in E. injection E as <- <-. inversion Hs'; subst. cbn [Z.eqb a_kids a_info a_world] in R'. exact R'.
Qed.

#[export] Instance legal_dec k e : Decision (legal k e).
Proof. destruct e; cbn [legal]; apply _. Defined.
Fixpoint run (es : list event) (x : tstate files * opens) : outcome (tstate files * opens) :=
  match es with
  | [] => mret x
  | e :: es => if decide (legal x.2 e) then '(_, x) ← exec 1 2 80 32 e x; run es x else Fault "run: not legal"
  end.
Lemma run_steps es x y z : steps 1 2 80 32 x y → run es y = Ret z → steps 1 2 80 32 x z.
Proof.
  revert y. induction es as [|e es IH]; intros y Hs Hr; cbn [run] in Hr; [by injection Hr as <-|]. destruct (decide (legal y.2 e)); [|done].
  destruct (exec 1 2 80 32 e y) as [[r y']| |] eqn:E; [|done..]. rewrite bind_ret in Hr. eapply IH; [|exact Hr]. by eapply steps_step.
Qed.
(** The second file gets a larger buffer. *)
Definition two_files : list event := [OpenSingle 7; OpenPrivate 8 16; First 5; First 4; Next 5; Release 4; Release 5].

Lemma seq_files_give_back_witness : ∃ s, run two_files (two_contexts, ∅) = Ret (s, ∅) ∧ ∀ x, is_Some (heap s !! x) ↔ is_Some (heap two_contexts !! x).
Proof.
  eexists. split; [vm_compute; reflexivity|].
  eapply (seq_files_give_back 1 2 80 32 two_contexts two_contexts_forest); [done|done|exact two_contexts_ok|done|by eexists|by eexists| |reflexivity].
  eapply (run_steps two_files); [apply steps_refl|vm_compute; reflexivity].
Defined.
