(* ===== verification/Sysctl.v ===== *)
(** * kernelenv/proc_stuff.c: integers behind /proc/sys

    A table's data is a vector of C ints; the user's buffer is an object of
    characters, and what is read beyond it is undefined. *)

From Stdlib Require Import ZArith Lia.
From S2P Require Import Prelude CStr Mem Timer.

Definition EINVAL : Z := 22.
Definition TMPBUFLEN : Z := 21.
Definition INT_MIN : Z := - 2 ^ 31.

(** struct ctl_table, as far as the integer handlers look at it. *)
Record ctl_table := CtlTable {
  data : option (list Z);
  maxlen : Z;
  extra1 : option Z;
  extra2 : option Z;
}.
Definition set_data (d : list Z) (t : ctl_table) : ctl_table := CtlTable (Some d) (maxlen t) (extra1 t) (extra2 t).

(** [conv]: the sign and magnitude of an int, or the int for a sign and magnitude;
    [None] is an error. *)
Record conv := Conv {
  to_user : Z → outcome (bool * Z);
  of_user : bool → Z → option Z;
}.
Definition magnitude (val : Z) : outcome (bool * Z) :=
  if val <? 0 then if val =? INT_MIN then Fault "-val overflows" else mret (true, - val) else mret (false, val).
Definition negate (neg : bool) (lval : Z) : Z := s32 (if neg then u64 (- lval) else lval).

Definition do_proc_dointvec_conv : conv := Conv magnitude (λ neg lval, Some (negate neg lval)).
Definition do_proc_dointvec_jiffies_conv : conv :=
  Conv (λ val, '(neg, lval) ← magnitude val; mret (neg, lval / HZ)) (λ neg lval, Some (negate neg (u64 (lval * HZ)))).
Definition do_proc_dointvec_minmax_conv (min max : option Z) : conv :=
  Conv magnitude (λ neg lval,
    let val := negate neg lval in
    if match min with Some m => val <? m | None => false end || match max with Some m => m <? val | None => false end then None else Some val).

(** ** Writing *)

(** Step over spaces as long as something is left. *)
Fixpoint skip_spaces (rem : Z) (s : text) : outcome (Z * text) :=
  if rem =? 0 then mret (rem, s) else
  match s with
  | [] => Fault "read beyond the buffer"
  | c :: s' => if negb (isspace c) then mret (rem, s) else skip_spaces (rem - 1) s'
  end.

(** One number, from behind the spaces: sign and magnitude, or [None] for break, and what
    is left. *)
Definition scan_number (rem : Z) (s : text) : outcome (option (bool * Z) * Z * text) :=
  let len := Z.min rem (TMPBUFLEN - 1) in
  buf ← slice 0 len s;
  let neg := ascii_eqb (hd0 buf) "-" && (1 <? rem) in
  let rem := if neg then rem - 1 else rem in
  let p := if neg then drop 1 buf else buf in
  if negb (isdigit (hd0 p)) then mret (None, rem, s) else
  let '(lval, n) := strtoul p 0 in
  let len := c_bool neg + Z.of_nat n in
  let c := char_at p n in
  if (len <? rem) && negb (ascii_eqb c NUL) && negb (isspace c) then mret (None, rem, s) else
  mret (Some (neg, lval), u64 (rem - len), zdrop len s).

(** The vector after the loop, whether it still is the first round, and the rest. *)
Fixpoint write_loop (cv : conv) (vleft : nat) (i : list Z) (first : bool) (rem : Z) (s : text) : outcome (list Z * bool * Z * text) :=
  match vleft with
  | O => mret (i, first, rem, s)
  | S vleft =>
      if rem =? 0 then mret (i, first, rem, s) else
      '(rem, s) ← skip_spaces rem s;
      if rem =? 0 then mret (i, first, rem, s) else
      '(r, rem, s) ← scan_number rem s;
      match r with
      | None => mret (i, first, rem, s)
      | Some (neg, lval) =>
          match of_user cv neg lval with
          | None => mret (i, first, rem, s)
          | Some val =>
              match i with
              | [] => Fault "write beyond the vector"
              | _ :: i => '(i, first, rem, s) ← write_loop cv vleft i false rem s; mret (val :: i, first, rem, s)
              end
          end
      end
  end.

(** ** Reading *)

(** The text of the integers before it is cut to the buffer's size. *)
Definition number_text (cv : conv) (first : bool) (v : Z) : outcome text :=
  '(neg, lval) ← to_user cv v;
  let t := (if first then [] else [chr 9]) ++ (if neg : bool then tx "-" else []) ++ print_u lval in
  if TMPBUFLEN <=? zlen t then Fault "sprintf beyond buf" else mret t.

Fixpoint read_loop (cv : conv) (vleft : nat) (i : list Z) (first : bool) (rem s : Z) (m : text) : outcome (bool * Z * Z * text) :=
  match vleft with
  | O => mret (first, rem, s, m)
  | S vleft =>
      if rem =? 0 then mret (first, rem, s, m) else
      match i with
      | [] => Fault "read beyond the vector"
      | v :: i =>
          t ← number_text cv first v;
          let len := Z.min (zlen t) rem in
          m ← store s (ztake len t) m;
          read_loop cv vleft i false (rem - len) (s + len) m
      end
  end.

(** Result, table, buffer, [*lenp] and [*ppos]. *)
Definition do_proc_dointvec (table : ctl_table) (write : bool) (buffer : text) (lenp ppos : Z) (cv : conv) : outcome (Z * ctl_table * text * Z * Z) :=
  match data table with
  | None => mret (0, table, buffer, 0, ppos)
  | Some i =>
      if (maxlen table =? 0) || (lenp =? 0) || negb (ppos =? 0) && negb write then mret (0, table, buffer, 0, ppos) else
      let vleft := Z.to_nat (s32 (u64 (maxlen table) / 4)) in
      if write then
        '(i, first, rem, s) ← write_loop cv vleft i true lenp buffer;
        '(rem, _) ← skip_spaces rem s;
        if (first : bool) then mret (- EINVAL, set_data i table, buffer, lenp, ppos) else
        let lenp := u64 (lenp - rem) in mret (0, set_data i table, buffer, lenp, ppos + lenp)
      else
        '(first, rem, s, m) ← read_loop cv vleft i true lenp 0 buffer;
        '(rem, m) ← ((if negb first && negb (rem =? 0) then m ← store s [chr 10] m; mret (rem - 1, m) else mret (rem, m)) : outcome (Z * text));
        let lenp := lenp - rem in mret (0, table, m, lenp, ppos + lenp)
  end.

Definition proc_dointvec (table : ctl_table) (write : bool) (buffer : text) (lenp ppos : Z) :=
  do_proc_dointvec table write buffer lenp ppos do_proc_dointvec_conv.
Definition proc_dointvec_jiffies (table : ctl_table) (write : bool) (buffer : text) (lenp ppos : Z) :=
  do_proc_dointvec table write buffer lenp ppos do_proc_dointvec_jiffies_conv.
Definition proc_dointvec_minmax (table : ctl_table) (write : bool) (buffer : text) (lenp ppos : Z) :=
  do_proc_dointvec table write buffer lenp ppos (do_proc_dointvec_minmax_conv (extra1 table) (extra2 table)).

(** [min] and [max] are vectors here: an entry for every value. *)
Fixpoint intvec_ok (vec : list Z) (length : nat) (min max : option (list Z)) : outcome bool :=
  match length with
  | O => mret true
  | S length =>
      match vec with
      | [] => Fault "sysctl_intvec: read beyond newval"
      | value :: vec =>
          let entry o := match o with None => mret None | Some [] => Fault "sysctl_intvec: read beyond extra" | Some (x :: _) => mret (Some x) end in
          mn ← entry min;
          if match mn with Some m => value <? m | None => false end then mret false else
          mx ← entry max;
          if match mx with Some m => m <? value | None => false end then mret false else
          intvec_ok vec length (tail <$> min) (tail <$> max)
      end
  end.
Definition sysctl_intvec (maxlen : Z) (extra1 extra2 : option (list Z)) (newval : option (list Z)) (newlen : Z) : outcome Z :=
  match newval with
  | None => mret 0
  | Some vec =>
      if newlen =? 0 then mret 0 else
      if negb (newlen mod 4 =? 0) then mret (- EINVAL) else
      match extra1, extra2 with
      | None, None => mret 0
      | _, _ =>
          let newlen := if u64 maxlen <? newlen then u64 maxlen else newlen in
          ok ← intvec_ok vec (Z.to_nat (newlen / 4)) extra1 extra2;
          mret (if (ok : bool) then 0 else - EINVAL)
      end
  end.

(** ** The range of proc_dointvec_minmax *)

(** The entries a write may leave: those there were, and those the conversion makes. *)
Definition written (cv : conv) (i i' : list Z) : Prop :=
  Forall2 (λ v v', v' = v ∨ ∃ neg lval, of_user cv neg lval = Some v') i i'.
Lemma written_refl cv i : written cv i i.
Proof. unfold written. induction i; constructor; auto. Qed.

Lemma write_loop_written cv vleft i first rem s i' first' rem' s' :
  write_loop cv vleft i first rem s = Ret (i', first', rem', s') → written cv i i'.
Proof.
  revert i first rem s i' first' rem' s'. induction vleft as [|vleft IH]; intros i first rem s i' first' rem' s'; cbn [write_loop].
  { intros [= <- _ _ _]. apply written_refl. }
  destruct (rem =? 0); [intros [= <- _ _ _]; apply written_refl|].
  intros ([rem1 s1] & _ & H)%bind_Ret_inv. destruct (rem1 =? 0); [injection H as <- _ _ _; apply written_refl|].
  apply bind_Ret_inv in H as ([[r rem2] s2] & _ & H). destruct r as [[neg lval]|]; [|injection H as <- _ _ _; apply written_refl].
  destruct (of_user cv neg lval) as [val|] eqn:Ev; [|injection H as <- _ _ _; apply written_refl].
  destruct i as [|v i]; [done|]. apply bind_Ret_inv in H as ([[[i1 f1] l1] s3] & Hr & H). injection H as <- _ _ _.
  constructor; [right; eauto|by eapply IH].
Qed.

Definition in_range (min max : option Z) (v : Z) : Prop :=
  INT_MIN <= v < 2 ^ 31 ∧ (∀ m, min = Some m → m <= v) ∧ (∀ m, max = Some m → v <= m).

Lemma s32_range x : INT_MIN <= s32 x < 2 ^ 31.
Proof. unfold signed, INT_MIN. pose proof (wrap_range 32 ltac:(lia) x). destruct (Z.ltb_spec (u32 x) (2 ^ (32 - 1))); lia. Qed.

Lemma minmax_in_range min max neg lval v : of_user (do_proc_dointvec_minmax_conv min max) neg lval = Some v → in_range min max v.
Proof.
  cbn [of_user do_proc_dointvec_minmax_conv]. cbv zeta. destruct (_ || _) eqn:E; [done|]. intros [= <-]. apply orb_false_iff in E as [E1 E2].
  split; [apply s32_range|]. split; intros m ->; [apply Z.ltb_ge in E1|apply Z.ltb_ge in E2]; lia.
Qed.

(** whatever is written to a table with limits, a value changes only to one within them.
    Every call of proc_dointvec_minmax that returns leaves each integer as it was or puts
    an int between the minimum and the maximum there, and reading changes none. *)
Theorem minmax_keeps_range table write buffer lenp ppos r table' buffer' lenp' ppos' i :
  data table = Some i →
  proc_dointvec_minmax table write buffer lenp ppos = Ret (r, table', buffer', lenp', ppos') →
  ∃ i', data table' = Some i' ∧ Forall2 (λ v v', v' = v ∨ write = true ∧ in_range (extra1 table) (extra2 table) v') i i'.
Proof.
  intros Hd. unfold proc_dointvec_minmax, do_proc_dointvec. rewrite Hd.
  assert (Hsame : Forall2 (λ v v', v' = v ∨ write = true ∧ in_range (extra1 table) (extra2 table) v') i i).
  { clear. induction i; constructor; auto. }
  destruct (_ || _); [intros [= _ <- _ _ _]; eauto|]. destruct write.
  - intros ([[[i' first] rem] s] & Hw%write_loop_written & H)%bind_Ret_inv. apply bind_Ret_inv in H as ([rem1 s1] & _ & H).
    exists i'. split; [destruct first; injection H as _ <- _ _ _; done|].
    eapply Forall2_impl; [exact Hw|]. intros v v' [->|(neg & lval & Hu)]; [by left|]. right. split; [done|]. by eapply minmax_in_range.
  - intros ([[[first rem] s] m] & _ & H)%bind_Ret_inv. apply bind_Ret_inv in H as ([rem1 m1] & _ & H). injection H as _ <- _ _ _. eauto.
Qed.

Definition limits (d : list Z) : ctl_table := CtlTable (Some d) 8 (Some 0) (Some 100).
Lemma minmax_keeps_range_witness :
  proc_dointvec_minmax (limits [5; 6]) true (tx "70 101" ++ [chr 10]) 7 0 = Ret (0, limits [70; 6], tx "70 101" ++ [chr 10], 7, 7) ∧
  ∃ i', data (limits [70; 6]) = Some i' ∧ Forall2 (λ v v', v' = v ∨ true = true ∧ in_range (Some 0) (Some 100) v') [5; 6] i'.
Proof.
  split; [vm_compute; reflexivity|].
  apply (minmax_keeps_range (limits [5; 6]) true (tx "70 101" ++ [chr 10]) 7 0 0 (limits [70; 6]) (tx "70 101" ++ [chr 10]) 7 7 [5; 6] eq_refl).
  vm_compute. reflexivity.
Defined.

(** ** What is read can be written back *)

Definition separated (v : Z) : text := chr 9 :: print_d v.
Definition vector_text (vs : list Z) : text := match vs with [] => [] | v :: vs => print_d v ++ concat (map separated vs) end.
Definition newline : text := [chr 10].


Lemma print_int v : 0 <= v < 2 ^ 31 → (1 <= length (print_u v) <= 10)%nat ∧ Forall (λ c, isdigit c = true) (print_u v).
Proof.
  intros Hv. split; [|apply print_u_digits; lia]. split; [|apply print_u_length; [|lia]; split; [lia|]; change (10 ^ Z.of_nat 10) with 10000000000; lia].
  destruct (print_u_spec v ltac:(lia)) as (Hne & _). destruct (print_u v); [done|cbn [length]; lia].
Qed.

Lemma digit_plain c : isdigit c = true → isspace c = false ∧ c ≠ "-"%char.
Proof.
  unfold isdigit, isspace. intros [H1 H2]%andb_true_iff. apply Z.leb_le in H1, H2. split; [|intros ->; by vm_compute in H1].
  apply orb_false_iff. split; [apply Z.eqb_neq; lia|]. apply andb_false_iff. right. apply Z.leb_gt. lia.
Qed.

(** A number is scanned up to the space behind it. *)
Lemma scan_ok v d rest : 0 <= v < 2 ^ 31 → isspace d = true → digit_val d = None → zlen (print_u v ++ d :: rest) < 2 ^ 64 →
  scan_number (zlen (print_u v ++ d :: rest)) (print_u v ++ d :: rest) = Ret (Some (false, v), zlen (d :: rest), d :: rest).
Proof.
  intros Hv Hd Hdv Hlen. destruct (print_int v Hv) as [Hl HF]. unfold scan_number. pose proof (zlen_nonneg (d :: rest)) as Hn. pose proof (zlen_nonneg (print_u v ++ d :: rest)).
  rewrite slice_ret by (unfold TMPBUFLEN in *; lia). rewrite zdrop_0, bind_ret by lia.
  set (k := Z.min (zlen (print_u v ++ d :: rest)) (TMPBUFLEN - 1)).
  assert (Hk : ztake k (print_u v ++ d :: rest) = print_u v ++ d :: take (Z.to_nat (k - zlen (print_u v)) - 1) rest).
  { assert (zlen (print_u v) < k) by (unfold k, TMPBUFLEN, zlen in *; rewrite length_app; cbn [length]; lia).
    rewrite ztake_app_ge by lia. f_equal. unfold ztake. destruct (Z.to_nat (k - zlen (print_u v))) as [|j] eqn:Ej; [lia|]. cbn [take]. do 2 f_equal. lia. }
  rewrite Hk. assert (Hhd : hd0 (print_u v ++ d :: take (Z.to_nat (k - zlen (print_u v)) - 1) rest) = hd0 (print_u v)) by (destruct (print_u v); [cbn in Hl; lia|done]).
  rewrite Hhd. assert (Hc : isdigit (hd0 (print_u v)) = true) by (destruct (print_u v); [cbn in Hl; lia|by inversion HF]).
  assert (ascii_eqb (hd0 (print_u v)) "-" = false) as -> by (unfold ascii_eqb; apply bool_decide_eq_false; by apply digit_plain).
  cbn [andb]. rewrite Hhd, Hc. cbn [negb]. rewrite strtoul_print_u_0 by (unfold ULONG_MAX; try done; lia). cbv zeta. cbn [c_bool].
  assert (Hca : char_at (print_u v ++ d :: take (Z.to_nat (k - zlen (print_u v)) - 1) rest) (length (print_u v)) = d) by (unfold char_at; by rewrite drop_app_length).
  rewrite Hca, Hd. rewrite !andb_false_r. rewrite Z.add_0_l. fold (zlen (print_u v)). rewrite zlen_app in *. rewrite Z.add_simpl_l.
  rewrite wrap_small by (unfold zlen in *; lia). rewrite zdrop_app_ge by lia. by rewrite Z.sub_diag, zdrop_0 by lia.
Qed.

Lemma negate_small v : 0 <= v < 2 ^ 31 → negate false v = v.
Proof. intros Hv. unfold negate, signed. rewrite wrap_small by lia. by rewrite (proj2 (Z.ltb_lt _ _)) by lia. Qed.

(** One round of the writing loop, with or without a tab in front. *)
Lemma write_step vleft w i first pre v d rest : pre = [] ∨ pre = [chr 9] → 0 <= v < 2 ^ 31 → isspace d = true → digit_val d = None →
  let s := pre ++ print_u v ++ d :: rest in zlen s < 2 ^ 64 →
  write_loop do_proc_dointvec_conv (S vleft) (w :: i) first (zlen s) s =
    ('(i, first, rem, s) ← write_loop do_proc_dointvec_conv vleft i false (zlen (d :: rest)) (d :: rest); mret (v :: i, first, rem, s)).
Proof.
  intros Hpre Hv Hd Hdv s Hs. destruct (print_int v Hv) as [Hl HF]. cbn [write_loop].
  assert (Hpos : 0 < zlen (print_u v ++ d :: rest)) by (unfold zlen; rewrite length_app; lia).
  assert (Hskip : skip_spaces (zlen s) s = Ret (zlen (print_u v ++ d :: rest), print_u v ++ d :: rest)).
  { assert (Hstop : ∀ n, skip_spaces n (print_u v ++ d :: rest) = Ret (n, print_u v ++ d :: rest)).
    { intros n. destruct (print_u v) as [|c t]; [cbn in Hl; lia|]. inversion HF as [|? ? Hc]; subst. cbn [app skip_spaces].
      destruct (digit_plain c Hc) as [-> _]. cbn [negb]. by destruct (n =? 0). }
    destruct Hpre as [-> | ->]; unfold s; cbn [app]; [apply Hstop|]. unfold zlen in Hpos |- *. cbn [skip_spaces length].
    rewrite (proj2 (Z.eqb_neq _ 0)) by lia. change (isspace (chr 9)) with true. cbn [negb].
    replace (Z.of_nat (S (length (print_u v ++ d :: rest))) - 1) with (Z.of_nat (length (print_u v ++ d :: rest))) by lia. apply Hstop. }
  assert (zlen (print_u v ++ d :: rest) <= zlen s) by (unfold s; rewrite (zlen_app pre); pose proof (zlen_nonneg pre); lia).
  rewrite (proj2 (Z.eqb_neq (zlen s) 0)) by lia. rewrite Hskip, bind_ret. cbv beta iota. rewrite (proj2 (Z.eqb_neq _ 0)) by lia.
  rewrite (scan_ok v d rest Hv Hd Hdv) by lia. rewrite bind_ret. cbn [of_user do_proc_dointvec_conv]. by rewrite negate_small.
Qed.

Lemma separated_space vs : ∃ d rest, concat (map separated vs) ++ newline = d :: rest ∧ isspace d = true ∧ digit_val d = None.
Proof. destruct vs as [|v vs]; [by exists (chr 10), []|]. cbn [map concat separated app]. by eexists _, _. Qed.

Lemma print_d_pos v : 0 <= v → print_d v = print_u v.
Proof. intros Hv. unfold print_d. destruct (Z.ltb_spec v 0); [lia|done]. Qed.

Lemma write_vector vs : ∀ ws, length ws = length vs → Forall (λ v, 0 <= v < 2 ^ 31) vs →
  let s := concat (map separated vs) ++ newline in zlen s < 2 ^ 64 →
  write_loop do_proc_dointvec_conv (length vs) ws false (zlen s) s = Ret (vs, false, 1, newline).
Proof.
  induction vs as [|v vs IH]; intros ws Hl Hv s Hs; [by destruct ws|].
  destruct ws as [|w ws]; [done|]. inversion Hv as [|? ? Hv1 Hv2]; subst. injection Hl as Hl. specialize (IH ws Hl Hv2).
  destruct (separated_space vs) as (d & rest & E & Hd & Hdv).
  assert (Es : s = [chr 9] ++ print_u v ++ d :: rest).
  { unfold s. cbn [map concat]. unfold separated at 1. rewrite print_d_pos by lia. cbn [app]. by rewrite <-app_assoc, E. }
  cbn [length]. rewrite Es in Hs |- *. rewrite write_step by (try done; by right). rewrite <-E in *. cbv zeta in IH.
  rewrite IH; [done|]. rewrite !zlen_app in Hs. pose proof (zlen_nonneg (print_u v)). pose proof (zlen_nonneg [chr 9]). rewrite zlen_app. lia.
Qed.

(** The loop that reads: as much of the text as fits. *)
Lemma number_text_ok first v : INT_MIN < v < 2 ^ 31 →
  number_text do_proc_dointvec_conv first v = Ret (if first then print_d v else separated v).
Proof.
  intros Hv. unfold number_text. cbn [to_user do_proc_dointvec_conv]. unfold magnitude, print_d, separated, print_d, INT_MIN in *.
  destruct (Z.ltb_spec v 0) as [Hn|Hn].
  - rewrite (proj2 (Z.eqb_neq _ _)) by lia. rewrite bind_ret. cbv zeta. destruct (print_int (- v) ltac:(lia)) as [Hl _].
    rewrite (proj2 (Z.leb_gt _ _)); [by destruct first|]. unfold zlen, TMPBUFLEN. rewrite !length_app. destruct first; cbn [length String.list_ascii_of_string]; lia.
  - rewrite bind_ret. cbv zeta. destruct (print_int v ltac:(lia)) as [Hl _].
    rewrite (proj2 (Z.leb_gt _ _)); [by destruct first|]. unfold zlen, TMPBUFLEN. rewrite !length_app. destruct first; cbn [length]; lia.
Qed.

(** [t] stored over [m] from [s] on. *)
Definition over (s : Z) (t m : text) : text := ztake s m ++ t ++ zdrop (s + zlen t) m.
Lemma store_over s t m : 0 <= s → s + zlen t <= zlen m → store s t m = Ret (over s t m).
Proof. intros ??. pose proof (zlen_nonneg t). unfold store. rewrite (proj2 (in_object_spec s (zlen t) m)) by lia. done. Qed.
Lemma zlen_over s t m : 0 <= s → s + zlen t <= zlen m → zlen (over s t m) = zlen m.
Proof. intros ??. pose proof (zlen_nonneg t). unfold over. rewrite !zlen_app, zlen_ztake, zlen_zdrop; lia. Qed.
Lemma over_over s t1 t2 m : 0 <= s → s + zlen t1 + zlen t2 <= zlen m → over (s + zlen t1) t2 (over s t1 m) = over s (t1 ++ t2) m.
Proof.
  intros ??. pose proof (zlen_nonneg t1). pose proof (zlen_nonneg t2). unfold over. assert (Hs : zlen (ztake s m) = s) by (apply zlen_ztake; lia).
  rewrite ztake_app_ge by lia. rewrite Hs, Z.add_simpl_l, ztake_app_le, (ztake_all _ t1) by lia. rewrite <-!app_assoc. do 3 f_equal.
  rewrite zdrop_app_ge by lia. rewrite Hs, zdrop_app_ge by lia. rewrite zdrop_zdrop, zlen_app by lia. f_equal. lia.
Qed.
Lemma over_nil s m : over s [] m = m.
Proof. unfold over. cbn [app]. rewrite Z.add_0_r. apply ztake_zdrop. Qed.

Lemma read_step_text (first : bool) v vs rem : 0 <= rem →
  let t := if first then print_d v else separated v in let X := concat (map separated vs) in let len := Z.min (zlen t) rem in
  ztake rem (t ++ X) = ztake len t ++ ztake (rem - len) X ∧ zlen (ztake len t) = len.
Proof.
  intros Hr t X len. pose proof (zlen_nonneg t). split; [|apply zlen_ztake; lia]. destruct (Z.le_gt_cases rem (zlen t)).
  - rewrite ztake_app_le, (ztake_0 (rem - len)), app_nil_r by lia. f_equal. lia.
  - rewrite ztake_app_ge by lia. rewrite (ztake_all len t) by lia. do 2 f_equal. lia.
Qed.

Lemma read_vector vs : ∀ (first : bool) rem s m, Forall (λ v, INT_MIN < v < 2 ^ 31) vs → 0 <= rem → 0 <= s → s + rem <= zlen m →
  let X := if first then vector_text vs else concat (map separated vs) in let t := ztake rem X in
  read_loop do_proc_dointvec_conv (length vs) vs first rem s m =
    Ret (first && bool_decide (vs = [] ∨ rem = 0), rem - zlen t, s + zlen t, over s t m).
Proof.
  induction vs as [|v vs IH]; intros first rem s m Hv Hr Hs Hm; cbv zeta; cbn [length read_loop].
  - assert ((if first then vector_text [] else concat (map separated [])) = []) as -> by (by destruct first).
    replace (ztake rem []) with (@nil ascii) by (symmetry; apply take_nil). rewrite over_nil, bool_decide_eq_true_2, andb_true_r by (by left).
    change (zlen (@nil ascii)) with 0. by rewrite Z.sub_0_r, Z.add_0_r.
  - destruct (Z.eqb_spec rem 0) as [->|Hr0].
    { rewrite ztake_0 by lia. rewrite over_nil, bool_decide_eq_true_2, andb_true_r by (by right). change (zlen (@nil ascii)) with 0. by rewrite Z.add_0_r. }
    inversion Hv as [|? ? Hv1 Hv2]; subst. rewrite number_text_ok, bind_ret by done. cbv zeta.
    destruct (read_step_text first v vs rem Hr) as [Et El]. set (t := if first then print_d v else separated v) in *.
    assert (HX : (if first then vector_text (v :: vs) else concat (map separated (v :: vs))) = t ++ concat (map separated vs)) by (by destruct first).
    rewrite HX, Et. set (len := Z.min (zlen t) rem) in *. assert (0 <= len) by (unfold len; pose proof (zlen_nonneg t); lia).
    rewrite store_over, bind_ret by lia. specialize (IH false (rem - len) (s + len) (over s (ztake len t) m) Hv2 ltac:(lia) ltac:(lia)).
    rewrite zlen_over in IH by lia. cbv zeta in IH. rewrite IH by lia. clear IH. rewrite zlen_app, El.
    cbn [andb]. rewrite bool_decide_eq_false_2 by (intros [?|?]; done). rewrite andb_false_r.
    set (u := ztake (rem - len) (concat (map separated vs))). assert (zlen u <= rem - len) by (unfold u, zlen, ztake; rewrite length_take; lia).
    rewrite <-(over_over s (ztake len t) u m) by lia. rewrite El. do 3 f_equal; [f_equal; lia|lia].
Qed.

Definition int_table (vs : list Z) : ctl_table := CtlTable (Some vs) (4 * zlen vs) None None.

Lemma vleft_ok (vs : list Z) : 4 * zlen vs < 2 ^ 31 → Z.to_nat (s32 (u64 (4 * zlen vs) / 4)) = length vs.
Proof.
  intros Hl. pose proof (zlen_nonneg vs). rewrite (wrap_small 64) by lia. rewrite Z.mul_comm, Z.div_mul by lia.
  unfold signed. rewrite wrap_small by lia. rewrite (proj2 (Z.ltb_lt _ _)) by lia. unfold zlen. lia.
Qed.

Lemma vector_text_length vs : Forall (λ v, 0 <= v < 2 ^ 31) vs → zlen (vector_text vs) <= 11 * zlen vs.
Proof.
  assert (G : Forall (λ v, 0 <= v < 2 ^ 31) vs → zlen (concat (map separated vs)) <= 11 * zlen vs).
  { induction 1 as [|v vs Hv Hvs IH]; [done|]. cbn [map concat]. rewrite zlen_app. unfold separated at 1. rewrite print_d_pos by lia.
    destruct (print_int v Hv) as [Hl _]. unfold zlen in *. cbn [length]. lia. }
  intros Hvs. destruct Hvs as [|v vs Hv Hvs]; [done|]. specialize (G ltac:(by constructor)). cbn [vector_text map concat] in *.
  rewrite zlen_app in *. unfold separated in G at 1. unfold zlen in *. cbn [length] in *. lia.
Qed.

Lemma dointvec_reads : ∀ vs buffer lenp, vs ≠ [] → 4 * zlen vs < 2 ^ 31 → Forall (λ v, INT_MIN < v < 2 ^ 31) vs → 0 < lenp <= zlen buffer →
     let t := ztake lenp (vector_text vs ++ newline) in
     proc_dointvec (int_table vs) false buffer lenp 0 = Ret (0, int_table vs, over 0 t buffer, zlen t, zlen t) ∧
     proc_dointvec (int_table vs) false buffer lenp (zlen t) = Ret (0, int_table vs, buffer, 0, zlen t).
Proof.
  intros vs buffer lenp Hne Hl Hv Hb t. assert (Hvs : 0 < zlen vs) by (destruct vs; [done|unfold zlen; cbn [length]; lia]).
  unfold proc_dointvec, do_proc_dointvec. cbn [data int_table maxlen]. rewrite (proj2 (Z.eqb_neq _ 0)), (proj2 (Z.eqb_neq lenp 0)) by lia. cbn [orb Z.eqb negb andb].
  rewrite vleft_ok by done. split.
  - rewrite (read_vector vs true lenp 0 buffer Hv) by lia. rewrite bind_ret. rewrite bool_decide_eq_false_2 by (intros [?|?]; [done|lia]). cbn [andb negb].
    set (u := ztake lenp (vector_text vs)). assert (Hu : 0 <= zlen u <= lenp) by (pose proof (zlen_nonneg u); unfold u, zlen, ztake in *; rewrite length_take; lia).
    destruct (Z.eqb_spec (lenp - zlen u) 0) as [E|E]; cbn [negb].
    + rewrite bind_ret. cbv beta iota zeta. assert (t = u) as ->; [|repeat f_equal; lia]. unfold t, u. apply ztake_app_le. unfold u, zlen, ztake in E. rewrite length_take in E. unfold zlen. lia.
    + assert (Hut : u = vector_text vs) by (apply ztake_all; unfold u, zlen, ztake in *; rewrite length_take in *; lia).
      assert (Et : t = u ++ newline) by (unfold t; rewrite <-Hut; apply ztake_all; rewrite zlen_app; change (zlen newline) with 1; lia).
      change [chr 10] with newline. assert (Hz : zlen newline = 1) by done. rewrite store_over; [|lia|rewrite zlen_over; lia]. rewrite !bind_ret. cbv beta iota zeta.
      rewrite over_over by lia. rewrite <-Et. assert (zlen t = zlen u + 1) by (by rewrite Et, zlen_app). repeat f_equal; lia.
  - assert (Ht : 0 < zlen t).
    { unfold t, zlen, ztake. rewrite length_take, length_app. change (length newline) with 1%nat. lia. }
    rewrite (proj2 (Z.eqb_neq (zlen t) 0)) by lia. done.
Qed.

Lemma dointvec_writes : ∀ vs ws, vs ≠ [] → 4 * zlen vs < 2 ^ 31 → Forall (λ v, 0 <= v < 2 ^ 31) vs → length ws = length vs →
     let t := vector_text vs ++ newline in
     proc_dointvec (int_table ws) true t (zlen t) 0 = Ret (0, int_table vs, t, zlen t, zlen t).
Proof.
  intros vs ws Hne Hl Hv Hlen t. pose proof (vector_text_length vs Hv) as Hvl. destruct vs as [|v vs]; [done|]. destruct ws as [|w ws]; [done|].
  assert (Hws : zlen (w :: ws) = zlen (v :: vs)) by (unfold zlen; lia). inversion Hv as [|? ? Hv1 Hv2]; subst. injection Hlen as Hlen.
  assert (Ht : zlen t < 2 ^ 64) by (unfold t; rewrite zlen_app; change (zlen newline) with 1; lia).
  assert (Ht0 : 0 < zlen t) by (unfold t; rewrite zlen_app; change (zlen newline) with 1; pose proof (zlen_nonneg (vector_text (v :: vs))); lia).
  unfold proc_dointvec, do_proc_dointvec. cbn [data int_table maxlen]. rewrite Hws, vleft_ok by done.
  rewrite (proj2 (Z.eqb_neq (4 * _) 0)) by (unfold zlen; cbn [length]; lia). rewrite (proj2 (Z.eqb_neq (zlen t) 0)) by lia. cbn [orb Z.eqb negb andb].
  destruct (separated_space vs) as (d & rest & E & Hd & Hdv).
  assert (Es : t = [] ++ print_u v ++ d :: rest) by (unfold t; cbn [vector_text app]; rewrite print_d_pos by lia; by rewrite <-app_assoc, E).
  assert (Hrest : zlen (d :: rest) <= zlen t) by (rewrite Es; cbn [app]; rewrite zlen_app; pose proof (zlen_nonneg (print_u v)); lia).
  pose proof Ht as Ht'. cbn [length]. rewrite Es in Ht |- * at 1. rewrite Es at 1. rewrite write_step by (try done; by left). rewrite <-E.
  rewrite write_vector; [|done|done|rewrite E; lia].
  rewrite !bind_ret. cbv beta iota. change (skip_spaces 1 newline) with (@Ret (Z * text) (0, [])). rewrite bind_ret. cbv beta iota zeta. rewrite Z.sub_0_r, wrap_small by lia.
  unfold set_data, int_table. cbn [maxlen extra1 extra2]. rewrite Hws. done.
Qed.

(** C33: what a table of integers that are not negative shows can be written back.  Reading
    any vector gives the decimal numbers with tabs between them and a newline, cut to the
    size of the buffer, and nothing on the second read; the text of a vector without
    negative numbers, written to a vector of the same length, is taken as a whole and stores
    that vector.  The restriction is the program's: it counts a minus sign twice, so that
    what it shows of negative numbers cannot be written back in general
    ([negative_drops_next], [negatives_not_back]). *)
Theorem dointvec_roundtrip :
  (∀ vs buffer lenp, vs ≠ [] → 4 * zlen vs < 2 ^ 31 → Forall (λ v, INT_MIN < v < 2 ^ 31) vs → 0 < lenp <= zlen buffer →
     let t := ztake lenp (vector_text vs ++ newline) in
     proc_dointvec (int_table vs) false buffer lenp 0 = Ret (0, int_table vs, over 0 t buffer, zlen t, zlen t) ∧
     proc_dointvec (int_table vs) false buffer lenp (zlen t) = Ret (0, int_table vs, buffer, 0, zlen t)) ∧
  (∀ vs ws, vs ≠ [] → 4 * zlen vs < 2 ^ 31 → Forall (λ v, 0 <= v < 2 ^ 31) vs → length ws = length vs →
     let t := vector_text vs ++ newline in
     proc_dointvec (int_table ws) true t (zlen t) 0 = Ret (0, int_table vs, t, zlen t, zlen t)).
Proof. split; [exact dointvec_reads|exact dointvec_writes]. Qed.

Lemma dointvec_roundtrip_witness :
  proc_dointvec (int_table [0; 0; 0]) true (tx "7" ++ chr 9 :: tx "0" ++ chr 9 :: tx "4096" ++ newline) 9 0 =
    Ret (0, int_table [7; 0; 4096], tx "7" ++ chr 9 :: tx "0" ++ chr 9 :: tx "4096" ++ newline, 9, 9) ∧
  let t := ztake 3 (vector_text [-5; 6] ++ newline) in
    proc_dointvec (int_table [-5; 6]) false (tx "....") 3 0 = Ret (0, int_table [-5; 6], over 0 t (tx "...."), zlen t, zlen t).
Proof.
  destruct dointvec_roundtrip as [Hr Hw]. split.
  - apply (Hw [7; 0; 4096] [0; 0; 0]); [done|vm_compute; reflexivity|repeat constructor; lia|done].
  - apply (Hr [-5; 6] (tx "....") 3); [done|vm_compute; reflexivity|repeat constructor; unfold INT_MIN; lia|vm_compute; split; [reflexivity|done]].
Defined.

(** The sign is counted twice: the number behind a negative one is lost, and without a
    newline the write reports more than it was given. *)
Lemma negative_drops_next :
  proc_dointvec (int_table [0; 0]) true (tx "-5 6" ++ [NUL]) 4 0 = Ret (0, int_table [-5; 0], tx "-5 6" ++ [NUL], 4, 4) ∧
  proc_dointvec (int_table [0]) true (tx "-5" ++ [NUL]) 2 0 = Ret (0, int_table [-5], tx "-5" ++ [NUL], 3, 3).
Proof. vm_compute. split; reflexivity. Qed.

(** What is shown of two negative numbers is not taken: the write reads beyond its end. *)
Lemma negatives_not_back :
  let t := vector_text [-5; -6] ++ newline in
  proc_dointvec (int_table [-5; -6]) false (replicate 6 NUL) 6 0 = Ret (0, int_table [-5; -6], t, 6, 6) ∧
  proc_dointvec (int_table [0; 0]) true t 6 0 = Fault "read beyond the buffer".
Proof. vm_compute. split; reflexivity. Qed.

(** The least int cannot be shown. *)
Lemma int_min_overflows : proc_dointvec (int_table [INT_MIN]) false (replicate 40 NUL) 40 0 = Fault "-val overflows".
Proof. vm_compute. reflexivity. Qed.
