(* ===== verification/Proc.v ===== *)
(** * kernelenv/proc_stuff.c: the /proc tree

    An entry is its fields and, in order, the entries of [subdir]; [addr] is its
    address.  The tables of sysctl are arrays that end before a zero [ctl_name],
    here lists. *)

From Stdlib Require Import ZArith Lia.
From S2P Require Import Prelude CStr Mem KernLib Sysctl.

Definition S_IFDIR : Z := 0x4000.
Definition S_IFREG : Z := 0x8000.
Definition S_IRUGO_XUGO : Z := 0x16d.
Definition ENOENT : Z := 2.
Definition EIO : Z := 5.
Definition EACCES : Z := 13.
Definition EPERM : Z := 1.
Definition ENOTDIR : Z := 20.
Definition FMODE_READ : Z := 1.
Definition FMODE_WRITE : Z := 2.

(** [proc_fops]: the functions of this file, those of sysctl, or others. *)
Inductive file_ops := ProcFileOperations | ProcSysFileOperations | OtherOperations (f : Z).

Record info := Info {
  addr : Z;
  name : text;
  namelen : Z;
  mode : Z;
  proc_fops : file_ops;
  get_info : option Z;
  read_proc : option Z;
  write_proc : option Z;
}.
Inductive entry := Entry (i : info) (subdir : list entry).
Definition e_info (e : entry) : info := match e with Entry i _ => i end.
Definition e_subdir (e : entry) : list entry := match e with Entry _ s => s end.

(** ** Names *)

Definition proc_match (len : Z) (nm : text) (de : entry) : bool :=
  (namelen (e_info de) =? len) && streq (ztake len nm) (ztake len (name (e_info de))).

(** The first match in a directory, and the entries before and behind it. *)
Fixpoint find_match (len : Z) (nm : text) (sub : list entry) : option (list entry * entry * list entry) :=
  match sub with
  | [] => None
  | e :: sub =>
      if proc_match len nm e then Some ([], e, sub)
      else (λ '(l1, d, l2), (e :: l1, d, l2)) <$> find_match len nm sub
  end.

(** Down to the directory of the last component: the entry and the component. *)
Fixpoint xlate_proc_name (fuel : nat) (cp : text) (de : entry) : option (entry * text) :=
  match strchr cp "/" with
  | None => Some (de, cp)
  | Some len =>
      match find_match (Z.of_nat len) cp (e_subdir de), fuel with
      | Some (_, de, _), S fuel => xlate_proc_name fuel (drop (len + 1) cp) de
      | _, _ => None
      end
  end.

(** Behind "/proc/", component by component. *)
Fixpoint find_components (fuel : nat) (nm : text) (ent : entry) : option entry :=
  let '(len, last) := match strchr nm "/" with Some len => (len, false) | None => (length nm, true) end in
  match find_match (Z.of_nat len) nm (e_subdir ent) with
  | None => None
  | Some (_, ent, _) => if last : bool then Some ent else match fuel with O => None | S fuel => find_components fuel (drop (len + 1) nm) ent end
  end.
Definition find_proc_entry (nm : text) (root : entry) : outcome (option entry) :=
  if (length nm <? 6)%nat then Fault "find_proc_entry: beyond the name" else mret (find_components (length nm) (drop 6 nm) root).

(** ** Entries come and go *)

Record state := State { proc_root : entry; fresh : Z }.
Definition ROOT : Z := 1.
Definition root_info : info := Info ROOT (tx "/proc") 5 0 ProcFileOperations None None None.

(** [f] at the entry with address [a]. *)
Fixpoint update (a : Z) (f : entry → entry) (e : entry) : entry :=
  let e' := match e with Entry i sub => Entry i (map (update a f) sub) end in
  if addr (e_info e) =? a then f e' else e'.
Fixpoint lookup_addr (a : Z) (e : entry) : option entry :=
  if addr (e_info e) =? a then Some e
  else match e with Entry _ sub => (fix go l := match l with [] => None | e :: l => match lookup_addr a e with Some d => Some d | None => go l end end) sub end.

Definition new_info (a : Z) (nm : text) (len md : Z) : info := Info a nm (u16 len) md ProcFileOperations None None None.

(** The new entry's fields and its directory; [fail]: should_i_fail. *)
Definition proc_create (fail : bool) (parent : option Z) (nm : text) (md : Z) (s : state) : option (info * Z) :=
  match nm with
  | [] => None
  | _ =>
      match (match parent with Some p => Some (p, nm) | None => (λ '(d, fn), (addr (e_info d), fn)) <$> xlate_proc_name (length nm) nm (proc_root s) end) with
      | None => None
      | Some (p, fn) => if fail then None else Some (new_info (fresh s) nm (zlen fn) md, p)
      end
  end.
Definition proc_register (dir : Z) (i : info) (s : state) : state :=
  State (update dir (λ d, Entry (e_info d) (Entry i [] :: e_subdir d)) (proc_root s)) (Z.max (fresh s) (addr i + 1)).

Definition create_proc_entry (fail : bool) (nm : text) (md : Z) (parent : option Z) (s : state) : option Z * state :=
  match proc_create fail parent nm md s with None => (None, s) | Some (i, p) => (Some (addr i), proc_register p i s) end.
Definition proc_mkdir (fail : bool) (nm : text) (parent : option Z) (s : state) : option Z * state :=
  match proc_create fail parent nm (Z.lor S_IFDIR S_IRUGO_XUGO) s with None => (None, s) | Some (i, p) => (Some (addr i), proc_register p i s) end.

(** *p = de->next at the first match. *)
Definition remove_from (ignore_proc_issues : bool) (nm : text) (sub : list entry) : outcome (list entry) :=
  match find_match (zlen nm) nm sub with
  | Some (l1, _, l2) => mret (l1 ++ l2)
  | None => if ignore_proc_issues then mret sub else Barf "Cannot find entry to remove"
  end.
Definition remove_proc_entry (ignore : bool) (nm : text) (parent : option Z) (s : state) : outcome state :=
  '(p, fn) ← (match parent with
     | Some p => mret (p, nm)
     | None => match xlate_proc_name (length nm) nm (proc_root s) with Some (d, fn) => mret (addr (e_info d), fn) | None => Barf "Cannot remove non-existent entry" end
     end);
  d ← of_option "remove_proc_entry: no such directory" (lookup_addr p (proc_root s));
  sub ← remove_from ignore fn (e_subdir d);
  mret (State (update p (λ d, Entry (e_info d) sub) (proc_root s)) (fresh s)).

Definition set_get_info (g : Z) (i : info) : info := Info (addr i) (name i) (namelen i) (mode i) (proc_fops i) (Some g) (read_proc i) (write_proc i).
Definition set_fops (f : file_ops) (i : info) : info := Info (addr i) (name i) (namelen i) (mode i) f (get_info i) (read_proc i) (write_proc i).
Definition on_info (a : Z) (f : info → info) (s : state) : state := State (update a (λ d, Entry (f (e_info d)) (e_subdir d)) (proc_root s)) (fresh s).
Definition create_proc_info_entry (fail : bool) (nm : text) (md : Z) (base : option Z) (g : Z) (s : state) : option Z * state :=
  let '(res, s) := create_proc_entry fail nm md base s in
  match res with Some a => (res, on_info a (set_get_info g) s) | None => (None, s) end.
Definition proc_net_create (fail : bool) (proc_net : Z) (nm : text) (md g : Z) (s : state) := create_proc_info_entry fail nm md (Some proc_net) g s.
Definition proc_net_fops_create (fail : bool) (proc_net : Z) (nm : text) (md : Z) (f : file_ops) (s : state) : option Z * state :=
  let '(res, s) := create_proc_entry fail nm md (Some proc_net) s in
  match res with Some a => (res, on_info a (set_fops f) s) | None => (None, s) end.
Definition proc_net_remove (ignore : bool) (proc_net : Z) (nm : text) (s : state) := remove_proc_entry ignore nm (Some proc_net) s.

(** net, net/stat and sys, and the addresses of the first and the last. *)
Definition proc_init : state * option Z * option Z * option Z :=
  let s := State (Entry root_info []) (ROOT + 1) in
  let '(net, s) := proc_mkdir false (tx "net") None s in
  let '(stat, s) := proc_mkdir false (tx "stat") net s in
  let '(sys, s) := proc_mkdir false (tx "sys") None s in
  (s, net, stat, sys).
Definition proc_cleanup (ignore_proc_issues : bool) (s : state) : state := if ignore_proc_issues then proc_init.1.1.1 else s.

(** ** Tables of sysctl *)

Record ctl := CtlEntry { procname : option text; ctl_mode : Z; proc_handler : bool; de : option Z }.
Definition set_de (d : option Z) (c : ctl) : ctl := CtlEntry (procname c) (ctl_mode c) (proc_handler c) d.
Inductive ctl_tree := Ctl (c : ctl) (child : option (list ctl_tree)).

Definition is_dir (e : entry) : bool := negb (Z.land (mode (e_info e)) S_IFDIR =? 0).
(** The entries of a directory and the next address. *)
Abbreviation dirst := (list entry * Z)%type.

Fixpoint register_list (reg : ctl_tree → dirst → outcome (ctl_tree * dirst)) (l : list ctl_tree) (s : dirst) : outcome (list ctl_tree * dirst) :=
  match l with
  | [] => mret ([], s)
  | t :: l => '(t, s) ← reg t s; '(l, s) ← register_list reg l s; mret (t :: l, s)
  end.

Definition sysctl_info (a : Z) (nm : text) (md : Z) (handler : bool) : info :=
  Info a nm (u16 (zlen nm)) md (if handler then ProcSysFileOperations else ProcFileOperations) None None None.

(** One round of register_proc_table. *)
Fixpoint register_entry (t : ctl_tree) (s : dirst) : outcome (ctl_tree * dirst) :=
  match t with
  | Ctl c child =>
      let '(sub, n) := s in
      match procname c with
      | None => mret (t, s)
      | Some nm =>
          if negb (proc_handler c) && bool_decide (child = None) then Barf "SYSCTL: Can't register" else
          let md := Z.lor (ctl_mode c) (if proc_handler c then S_IFREG else S_IFDIR) in
          (* what registering the children does to the entry *)
          let fill (e : entry) (n : Z) :=
            if is_dir e then
              match child with
              | None => Fault "register_proc_table: null table"
              | Some l => '(l, (sub', n)) ← register_list register_entry l (e_subdir e, n); mret (Some l, Entry (e_info e) sub', n)
              end
            else mret (child, e, n) in
          match (if proc_handler c then None else find_match (zlen nm) nm sub) with
          | Some (l1, e, l2) =>
              '(child, e', n) ← fill e n;
              mret (Ctl (set_de (Some (addr (e_info e))) c) child, (l1 ++ e' :: l2, n))
          | None =>
              match nm with
              | [] => mret (t, s)
              | _ =>
                  '(child, e, n') ← fill (Entry (sysctl_info n nm md (proc_handler c)) []) (n + 1);
                  mret (Ctl (set_de (Some n) c) child, (e :: sub, n'))
              end
          end
      end
  end.
Definition register_proc_table (l : list ctl_tree) (s : dirst) : outcome (list ctl_tree * dirst) := register_list register_entry l s.

Fixpoint find_addr (a : Z) (sub : list entry) : option (list entry * entry * list entry) :=
  match sub with
  | [] => None
  | e :: sub => if addr (e_info e) =? a then Some ([], e, sub) else (λ '(l1, d, l2), (e :: l1, d, l2)) <$> find_addr a sub
  end.

Fixpoint unregister_list (unreg : ctl_tree → list entry → outcome (ctl_tree * list entry)) (l : list ctl_tree) (sub : list entry) :
    outcome (list ctl_tree * list entry) :=
  match l with
  | [] => mret ([], sub)
  | t :: l => '(t, sub) ← unreg t sub; '(l, sub) ← unregister_list unreg l sub; mret (t :: l, sub)
  end.

(** One round of unregister_proc_table; an entry that was freed is not to be found. *)
Fixpoint unregister_entry (ignore : bool) (t : ctl_tree) (sub : list entry) : outcome (ctl_tree * list entry) :=
  match t with
  | Ctl c child =>
      match de c with
      | None => mret (t, sub)
      | Some a =>
          '(l1, e, l2) ← of_option "unregister_proc_table: the entry was freed" (find_addr a sub);
          let remove child sub :=
            nm ← of_option "unregister_proc_table: null name" (procname c);
            sub ← remove_from ignore nm sub;
            mret (Ctl (set_de None c) child, sub) in
          if is_dir e then
            match child with
            | None => mret (t, sub)
            | Some l =>
                '(l, sub_e) ← unregister_list (unregister_entry ignore) l (e_subdir e);
                let sub := l1 ++ Entry (e_info e) sub_e :: l2 in
                if bool_decide (sub_e = []) then remove (Some l) sub else mret (Ctl c (Some l), sub)
            end
          else remove child sub
      end
  end.
Definition unregister_proc_table (ignore : bool) (l : list ctl_tree) (sub : list entry) : outcome (list ctl_tree * list entry) :=
  unregister_list (unregister_entry ignore) l sub.

(** The table in its header goes below /proc/sys; [sys] is the address of proc_sys_root. *)
Definition register_sysctl_table (fail : bool) (table : list ctl_tree) (sys : Z) (s : state) : outcome (option (list ctl_tree) * state) :=
  if fail then mret (None, s) else
  d ← of_option "no /proc/sys" (lookup_addr sys (proc_root s));
  '(table, (sub, n)) ← register_proc_table table (e_subdir d, fresh s);
  mret (Some table, State (update sys (λ d, Entry (e_info d) sub) (proc_root s)) n).
Definition unregister_sysctl_table (ignore : bool) (header : list ctl_tree) (sys : Z) (s : state) : outcome (list ctl_tree * state) :=
  d ← of_option "no /proc/sys" (lookup_addr sys (proc_root s));
  '(table, sub) ← unregister_proc_table ignore header (e_subdir d);
  mret (table, State (update sys (λ d, Entry (e_info d) sub) (proc_root s)) (fresh s)).

(** ** A table can be taken back *)

Section CtlInd.
Context (P : ctl_tree → Prop).
Context (P_ctl : ∀ c child, (∀ l, child = Some l → Forall P l) → P (Ctl c child)).
Fixpoint ctl_ind' (t : ctl_tree) : P t :=
  match t with
  | Ctl c child =>
      P_ctl c child
        (match child as o return ∀ l, o = Some l → Forall P l with
         | None => λ l H, match H in _ = o return match o with None => True | Some l => Forall P l end with eq_refl => I end
         | Some l0 => λ l H,
             match H in _ = o return match o with None => True | Some l => Forall P l end with
             | eq_refl => (fix go l := match l return Forall P l with [] => Forall_nil_2 P | t :: l => Forall_cons_2 P t l (ctl_ind' t) (go l) end) l0
             end
         end)
  end.
End CtlInd.

Definition tree_ctl (t : ctl_tree) : ctl := match t with Ctl c _ => c end.
Definition named (t : ctl_tree) (nm : text) : Prop := procname (tree_ctl t) = Some nm.
(** Nothing in [X] goes by the name of [t]. *)
Definition ignores (t : ctl_tree) (X : list entry) : Prop := ∀ nm e, named t nm → e ∈ X → proc_match (zlen nm) nm e = false.

Lemma find_match_spec len nm sub : match find_match len nm sub with
  | Some (l1, e, l2) => sub = l1 ++ e :: l2 ∧ proc_match len nm e = true ∧ ∀ x, x ∈ l1 → proc_match len nm x = false
  | None => ∀ x, x ∈ sub → proc_match len nm x = false
  end.
Proof.
  induction sub as [|e sub IH]; cbn [find_match]; [by intros x ?%not_elem_of_nil|].
  destruct (proc_match len nm e) eqn:E; [split_and!; try done; by intros x ?%not_elem_of_nil|].
  destruct (find_match len nm sub) as [[[l1 d] l2]|]; cbn [fmap option_fmap option_map].
  - destruct IH as (-> & ? & H). split_and!; [done|done|]. intros x [->|Hx]%elem_of_cons; auto.
  - intros x [->|Hx]%elem_of_cons; auto.
Qed.

Lemma find_match_app len nm l1 e l2 : (∀ x, x ∈ l1 → proc_match len nm x = false) → proc_match len nm e = true →
  find_match len nm (l1 ++ e :: l2) = Some (l1, e, l2).
Proof.
  intros H1 He. induction l1 as [|x l1 IH]; cbn [app find_match]; [by rewrite He|]. rewrite (H1 x) by set_solver. rewrite IH by set_solver. done.
Qed.
Lemma find_match_none len nm sub : (∀ x, x ∈ sub → proc_match len nm x = false) → find_match len nm sub = None.
Proof. induction sub as [|x sub IH]; intros H; cbn [find_match]; [done|]. rewrite (H x) by set_solver. rewrite IH by set_solver. done. Qed.

(** Entries without a match do not matter. *)
Lemma find_match_frame len nm l1 l2 :
  let frame Z := ∀ x, x ∈ Z → proc_match len nm x = false in
  (∃ k1 e k, l1 = k1 ++ e :: k ∧ ∀ Z, frame Z → find_match len nm (l1 ++ Z ++ l2) = Some (k1, e, k ++ Z ++ l2)) ∨
  (∃ k e k2, l2 = k ++ e :: k2 ∧ ∀ Z, frame Z → find_match len nm (l1 ++ Z ++ l2) = Some (l1 ++ Z ++ k, e, k2)) ∨
  (∀ Z, frame Z → find_match len nm (l1 ++ Z ++ l2) = None).
Proof.
  intros frame. pose proof (find_match_spec len nm l1) as H1. pose proof (find_match_spec len nm l2) as H2.
  destruct (find_match len nm l1) as [[[k1 e] k]|].
  - destruct H1 as (-> & He & H1). left. exists k1, e, k. split; [done|]. intros Z _. rewrite <-!app_assoc. cbn [app]. by rewrite find_match_app.
  - right. destruct (find_match len nm l2) as [[[k1 e] k2]|].
    + destruct H2 as (-> & He & H2). left. exists k1, e, k2. split; [done|]. intros Z HZ.
      rewrite (app_assoc Z), (app_assoc l1). rewrite find_match_app; [done| |done].
      intros x [?|[?|?]%elem_of_app]%elem_of_app; auto.
    + right. intros Z HZ. apply find_match_none. intros x [?|[?|?]%elem_of_app]%elem_of_app; auto.
Qed.

Lemma proc_match_info len nm e e' : e_info e = e_info e' → proc_match len nm e = proc_match len nm e'.
Proof. unfold proc_match. by intros ->. Qed.

(** [m1] and [m2] are [l1] and [l2] with new entries in front, named from [N], and other contents. *)
Definition grown (N : text → Prop) (n n' : Z) (l1 l2 m1 m2 : list entry) : Prop :=
  n <= n' ∧ map e_info m2 = map e_info l2 ∧
  ∃ news, map e_info m1 = news ++ map e_info l1 ∧ ∀ i, i ∈ news → n <= addr i < n' ∧ N (name i) ∧ namelen i = u16 (zlen (name i)).

Lemma grown_refl N n l1 l2 : grown N n n l1 l2 l1 l2.
Proof. split_and!; [lia|done|]. exists []. split; [done|]. by intros i ?%not_elem_of_nil. Qed.
Lemma grown_trans (N N1 N2 : text → Prop) n1 n2 n3 l1 l2 m1 m2 k1 k2 : (∀ x, N1 x → N x) → (∀ x, N2 x → N x) →
  grown N1 n1 n2 l1 l2 m1 m2 → grown N2 n2 n3 m1 m2 k1 k2 → grown N n1 n3 l1 l2 k1 k2.
Proof.
  intros H1 H2 (Hn & E2 & news & E1 & Ha) (Hn' & E2' & news' & E1' & Ha'). split_and!; [lia|congruence|]. exists (news' ++ news).
  rewrite E1', E1, app_assoc. split; [done|]. intros i [Hi|Hi]%elem_of_app; [apply Ha' in Hi|apply Ha in Hi]; destruct Hi as (? & ? & ?); split_and!; auto; lia.
Qed.

(** What [fill] does to an entry when [reg] registers the children. *)
Definition fill (child : option (list ctl_tree)) (e : entry) (n : Z) : outcome (option (list ctl_tree) * entry * Z) :=
  if is_dir e then
    match child with
    | None => Fault "register_proc_table: null table"
    | Some l => '(l, (sub', n)) ← register_list register_entry l (e_subdir e, n); mret (Some l, Entry (e_info e) sub', n)
    end
  else mret (child, e, n).

Lemma register_entry_eq c child sub n : register_entry (Ctl c child) (sub, n) =
  match procname c with
  | None => mret (Ctl c child, (sub, n))
  | Some nm =>
      if negb (proc_handler c) && bool_decide (child = None) then Barf "SYSCTL: Can't register" else
      let md := Z.lor (ctl_mode c) (if proc_handler c then S_IFREG else S_IFDIR) in
      match (if proc_handler c then None else find_match (zlen nm) nm sub) with
      | Some (l1, e, l2) => '(child, e', n) ← fill child e n; mret (Ctl (set_de (Some (addr (e_info e))) c) child, (l1 ++ e' :: l2, n))
      | None =>
          match nm with
          | [] => mret (Ctl c child, (sub, n))
          | _ => '(child, e, n') ← fill child (Entry (sysctl_info n nm md (proc_handler c)) []) (n + 1);
                 mret (Ctl (set_de (Some n) c) child, (e :: sub, n'))
          end
      end
  end.
Proof. reflexivity. Qed.

(** Registration does not go below the addresses in use. *)
Lemma register_grows : ∀ t sub n t' sub' n', register_entry t (sub, n) = Ret (t', (sub', n')) → n <= n'.
Proof.
  apply (ctl_ind' (λ t, ∀ sub n t' sub' n', register_entry t (sub, n) = Ret (t', (sub', n')) → n <= n')).
  intros c child IH sub n t' sub' n'. rewrite register_entry_eq.
  assert (Hfill : ∀ e m ch e' m', fill child e m = Ret (ch, e', m') → m <= m' ∧ e_info e' = e_info e).
  { intros e m ch e' m'. unfold fill. destruct (is_dir e); [|by intros [= _ <- <-]]. destruct child as [l|]; [|done]. specialize (IH l eq_refl).
    intros ([l' [s2 n2]] & Hr & [= _ <- <-])%bind_Ret_inv. split; [|done]. clear -IH Hr. revert l' s2 n2 Hr. generalize (e_subdir e) as s. intros s. revert s m.
    induction IH as [|t l Ht Hl IHl]; intros s m l' s2 n2; cbn [register_list]; [intros [= _ _ <-]; lia|].
    intros ([t1 [s1 n1]] & E1 & H)%bind_Ret_inv. apply bind_Ret_inv in H as ([l1 [s3 n3]] & E2 & H). injection H as _ _ <-.
    apply Ht in E1. apply IHl in E2. lia. }
  destruct (procname c) as [nm|]; [|intros [= _ _ <-]; lia]. destruct (_ && _); [done|]. cbv zeta.
  destruct (if proc_handler c then None else _) as [[[l1 e] l2]|].
  - intros ([[ch e'] m'] & E & [= _ _ <-])%bind_Ret_inv. by apply Hfill in E as [? _].
  - destruct nm as [|x nm]; [intros [= _ _ <-]; lia|]. intros ([[ch e'] m'] & E & [= _ _ <-])%bind_Ret_inv. apply Hfill in E as [? _]. lia.
Qed.
Lemma register_list_grows l sub n l' sub' n' : register_list register_entry l (sub, n) = Ret (l', (sub', n')) → n <= n'.
Proof.
  revert sub n l' sub' n'. induction l as [|t l IH]; intros sub n l' sub' n'; cbn [register_list]; [intros [= _ _ <-]; lia|].
  intros ([t1 [s1 n1]] & E1 & H)%bind_Ret_inv. apply bind_Ret_inv in H as ([l1 [s3 n3]] & E2 & H). injection H as _ _ <-.
  apply register_grows in E1. apply IH in E2. lia.
Qed.
Lemma fill_grows child e n ch e' n' : fill child e n = Ret (ch, e', n') → n <= n' ∧ e_info e' = e_info e.
Proof.
  unfold fill. destruct (is_dir e); [|by intros [= _ <- <-]]. destruct child as [l|]; [|done].
  intros ([l' [s2 n2]] & Hr & [= _ <- <-])%bind_Ret_inv. by apply register_list_grows in Hr.
Qed.

Lemma grown_left N n n' k1 e e' k l2 : n <= n' → e_info e' = e_info e → grown N n n' (k1 ++ e :: k) l2 (k1 ++ e' :: k) l2.
Proof.
  intros Hn He. split_and!; [done|done|]. exists []. split; [by rewrite !map_app, !map_cons, He|]. by intros i ?%not_elem_of_nil.
Qed.
Lemma grown_right N n n' l1 k e e' k2 : n <= n' → e_info e' = e_info e → grown N n n' l1 (k ++ e :: k2) l1 (k ++ e' :: k2).
Proof.
  intros Hn He. split_and!; [done|by rewrite !map_app, !map_cons, He|]. exists []. split; [done|]. by intros i ?%not_elem_of_nil.
Qed.
Lemma grown_new (N : text → Prop) n n' l1 l2 e : n <= addr (e_info e) < n' → N (name (e_info e)) → namelen (e_info e) = u16 (zlen (name (e_info e))) →
  grown N n n' l1 l2 (e :: l1) l2.
Proof.
  intros Hn HN Hl. split_and!; [lia|done|]. exists [e_info e]. split; [done|]. by intros i ->%list_elem_of_singleton.
Qed.

(** Registration passes over entries that are not concerned. *)
Lemma register_frame t l1 X l2 n t' sub' n' : ignores t X → register_entry t (l1 ++ X ++ l2, n) = Ret (t', (sub', n')) →
  ∃ m1 m2, sub' = m1 ++ X ++ m2 ∧ grown (named t) n n' l1 l2 m1 m2 ∧
    ∀ Y, ignores t Y → register_entry t (l1 ++ Y ++ l2, n) = Ret (t', (m1 ++ Y ++ m2, n')).
Proof.
  destruct t as [c child]. intros HX. rewrite register_entry_eq. destruct (procname c) as [nm|] eqn:Enm.
  2: { intros [= <- <- <-]. exists l1, l2. split_and!; [done|apply grown_refl|]. intros Y _. by rewrite register_entry_eq, Enm. }
  destruct (_ && _) eqn:Ebarf; [done|]. cbv zeta.
  assert (Hframe : ∀ Z, ignores (Ctl c child) Z → ∀ x, x ∈ Z → proc_match (zlen nm) nm x = false) by (intros Z HZ x Hx; by apply (HZ nm x)).
  assert (Hnew : (if proc_handler c then None else find_match (zlen nm) nm (l1 ++ X ++ l2)) = None →
    (∀ Y, ignores (Ctl c child) Y → (if proc_handler c then None else find_match (zlen nm) nm (l1 ++ Y ++ l2)) = None) →
    match nm with
    | [] => mret (Ctl c child, (l1 ++ X ++ l2, n))
    | _ => '(child, e, n') ← fill child (Entry (sysctl_info n nm (Z.lor (ctl_mode c) (if proc_handler c then S_IFREG else S_IFDIR)) (proc_handler c)) []) (n + 1);
           mret (Ctl (set_de (Some n) c) child, (e :: l1 ++ X ++ l2, n'))
    end = Ret (t', (sub', n')) → ∃ m1 m2, sub' = m1 ++ X ++ m2 ∧ grown (named (Ctl c child)) n n' l1 l2 m1 m2 ∧
      ∀ Y, ignores (Ctl c child) Y → register_entry (Ctl c child) (l1 ++ Y ++ l2, n) = Ret (t', (m1 ++ Y ++ m2, n'))).
  { intros _ HN. destruct nm as [|x nm]; [intros [= <- <- <-]; exists l1, l2; split_and!; [done|apply grown_refl|];
      intros Y HY; rewrite register_entry_eq, Enm, Ebarf; cbv zeta; by rewrite HN|].
    intros ([[ch e] m'] & E & [= <- <- <-])%bind_Ret_inv. pose proof (fill_grows _ _ _ _ _ _ E) as [Hg He].
    exists (e :: l1), l2. split_and!; [done|apply grown_new; rewrite He; cbn [e_info sysctl_info addr name namelen]; [lia|done|done]|].
    intros Y HY. rewrite register_entry_eq, Enm, Ebarf. cbv zeta. rewrite HN, E by done. done. }
  destruct (proc_handler c) eqn:Eh; [by apply Hnew|].
  destruct (find_match_frame (zlen nm) nm l1 l2) as [(k1 & e & k & -> & HF)|[(k & e & k2 & -> & HF)|HF]].
  - rewrite (HF X) by auto. intros ([[ch e'] m'] & E & [= <- <- <-])%bind_Ret_inv. pose proof (fill_grows _ _ _ _ _ _ E) as [Hg He].
    exists (k1 ++ e' :: k), l2. split_and!; [by rewrite <-app_assoc|by apply grown_left|].
    intros Y HY. rewrite register_entry_eq, Enm, Eh, Ebarf. cbv zeta. rewrite (HF Y), E by auto. rewrite bind_ret, <-app_assoc. done.
  - rewrite (HF X) by auto. intros ([[ch e'] m'] & E & [= <- <- <-])%bind_Ret_inv. pose proof (fill_grows _ _ _ _ _ _ E) as [Hg He].
    exists l1, (k ++ e' :: k2). split_and!; [by rewrite <-!app_assoc|by apply grown_right|].
    intros Y HY. rewrite register_entry_eq, Enm, Eh, Ebarf. cbv zeta. rewrite (HF Y), E by auto. rewrite bind_ret, <-!app_assoc. done.
  - rewrite (HF X) by auto. apply Hnew; [by apply HF, Hframe|]. intros Y HY. by apply HF, Hframe.
Qed.

Definition among (l : list ctl_tree) (nm : text) : Prop := ∃ t, t ∈ l ∧ named t nm.

Lemma register_list_frame l l1 X l2 n l' sub' n' : (∀ t, t ∈ l → ignores t X) → register_list register_entry l (l1 ++ X ++ l2, n) = Ret (l', (sub', n')) →
  ∃ m1 m2, sub' = m1 ++ X ++ m2 ∧ grown (among l) n n' l1 l2 m1 m2 ∧
    ∀ Y, (∀ t, t ∈ l → ignores t Y) → register_list register_entry l (l1 ++ Y ++ l2, n) = Ret (l', (m1 ++ Y ++ m2, n')).
Proof.
  revert l1 l2 n l' sub' n'. induction l as [|t l IH]; intros l1 l2 n l' sub' n' HX; cbn [register_list].
  { intros [= <- <- <-]. exists l1, l2. split_and!; [done|apply grown_refl|done]. }
  intros ([t1 [s1 n1]] & E1 & H)%bind_Ret_inv. apply bind_Ret_inv in H as ([l3 [s3 n3]] & E2 & H). injection H as <- <- <-.
  destruct (register_frame t l1 X l2 n t1 s1 n1) as (k1 & k2 & -> & G1 & F1); [apply HX; set_solver|done|].
  destruct (IH k1 k2 n1 l3 s3 n3) as (m1 & m2 & -> & G2 & F2); [intros; apply HX; set_solver|done|].
  exists m1, m2. split_and!; [done|eapply grown_trans; [| |exact G1|exact G2]; [intros x Hx; exists t; split; [set_solver|done]|intros x (u & ? & ?); exists u; split; [set_solver|done]]|]. intros Y HY.
  rewrite F1 by (apply HY; set_solver). rewrite bind_ret. cbv beta iota. rewrite F2 by (intros; apply HY; set_solver). by rewrite bind_ret.
Qed.

(** Addresses in a directory and below are apart and in use. *)
Inductive tidy (n : Z) : list entry → Prop :=
| Tidy sub : NoDup (map (λ e, addr (e_info e)) sub) → (∀ e, e ∈ sub → addr (e_info e) < n) → (∀ e, e ∈ sub → tidy n (e_subdir e)) → tidy n sub.
Lemma tidy_mono n n' sub : n <= n' → tidy n sub → tidy n' sub.
Proof. intros Hn. induction 1 as [sub Hd Ha Hs IH]. constructor; [done| |done]. intros e He. specialize (Ha e He). lia. Qed.

(** Tables that can be registered below [sub]: the names of a table are different; a file
    has a handler, a directory a table; a directory that exists already is not empty. *)
Definition good_name (nm : text) : Prop := nm ≠ [] ∧ zlen nm < 2 ^ 16.
Inductive wf_entry (sub : list entry) : ctl_tree → Prop :=
| wf_anon c child : procname c = None → de c = None → wf_entry sub (Ctl c child)
| wf_file c child nm : procname c = Some nm → good_name nm → proc_handler c = true → de c = None →
    Z.land (Z.lor (ctl_mode c) S_IFREG) S_IFDIR = 0 → wf_entry sub (Ctl c child)
| wf_new_dir c l nm : procname c = Some nm → good_name nm → proc_handler c = false → de c = None → find_match (zlen nm) nm sub = None →
    NoDup (omap (λ t, procname (tree_ctl t)) l) → (∀ t, t ∈ l → wf_entry [] t) → wf_entry sub (Ctl c (Some l))
| wf_old_dir c l nm l1 e l2 : procname c = Some nm → good_name nm → proc_handler c = false → de c = None →
    find_match (zlen nm) nm sub = Some (l1, e, l2) → is_dir e = true → e_subdir e ≠ [] →
    NoDup (omap (λ t, procname (tree_ctl t)) l) → (∀ t, t ∈ l → wf_entry (e_subdir e) t) → wf_entry sub (Ctl c (Some l)).
Definition wf_table (sub : list entry) (l : list ctl_tree) : Prop :=
  NoDup (omap (λ t, procname (tree_ctl t)) l) ∧ ∀ t, t ∈ l → wf_entry sub t.

Lemma match_inj nm nm' e : proc_match (zlen nm) nm e = true → proc_match (zlen nm') nm' e = true → nm = nm'.
Proof.
  unfold proc_match. intros [H1%Z.eqb_eq H2%streq_spec]%andb_true_iff [H3%Z.eqb_eq H4%streq_spec]%andb_true_iff.
  rewrite ztake_all in H2 by lia. rewrite ztake_all in H4 by lia. rewrite H2, H4. f_equal. lia.
Qed.
Lemma match_self nm nm' e : name (e_info e) = nm → namelen (e_info e) = u16 (zlen nm) → zlen nm < 2 ^ 16 →
  proc_match (zlen nm') nm' e = bool_decide (nm' = nm).
Proof.
  intros Hn Hl Hlt. unfold proc_match. pose proof (zlen_nonneg nm). rewrite Hl, Hn, wrap_small by lia. case_bool_decide as E.
  - subst. apply andb_true_iff. split; [by apply Z.eqb_eq|]. by apply streq_spec.
  - destruct (Z.eqb_spec (zlen nm) (zlen nm')) as [Ez|]; [|done]. cbn [andb]. unfold streq. apply bool_decide_eq_false. intros Et.
    rewrite !ztake_all in Et by lia. done.
Qed.

Lemma wf_name sub t nm : wf_entry sub t → named t nm → good_name nm.
Proof. intros Hwf Hn. unfold named in Hn. inversion Hwf; subst; cbn [tree_ctl] in Hn; congruence. Qed.

(** The names behind the first of a table are other names. *)
Lemma other_names (t : ctl_tree) l nm nm' : NoDup (omap (λ t, procname (tree_ctl t)) (t :: l)) → named t nm → among l nm' → nm ≠ nm'.
Proof.
  cbn [omap list_omap]. unfold named, among. intros Hd Hn (u & Hu & Hn') ->. rewrite Hn in Hd. cbn in Hd. apply NoDup_cons in Hd as [Hd _].
  apply Hd. apply list_elem_of_omap. by exists u.
Qed.
Lemma names_tail (t : ctl_tree) l : NoDup (omap (λ t, procname (tree_ctl t)) (t :: l)) → NoDup (omap (λ t, procname (tree_ctl t)) l).
Proof. cbn [omap list_omap]. destruct (procname (tree_ctl t)); [|done]. by intros [_ ?]%NoDup_cons. Qed.

Lemma find_addr_app a l1 e l2 : (∀ i, i ∈ map e_info l1 → addr i ≠ a) → addr (e_info e) = a → find_addr a (l1 ++ e :: l2) = Some (l1, e, l2).
Proof.
  intros H1 He. induction l1 as [|x l1 IH]; cbn [app find_addr]; [by rewrite He, Z.eqb_refl|].
  rewrite (proj2 (Z.eqb_neq _ a)) by (apply H1; cbn [map]; set_solver). rewrite IH; [done|]. intros i Hi. apply H1. cbn [map]. set_solver.
Qed.

Section TakeBack.
Context (ignore : bool).

(** Registered and taken back. *)
Definition taken_back (l : list ctl_tree) : Prop := ∀ sub n, wf_table sub l → tidy n sub →
  ∃ l' sub' n' l'', register_list register_entry l (sub, n) = Ret (l', (sub', n')) ∧
    unregister_list (unregister_entry ignore) l' sub' = Ret (l'', sub).

(** A new entry [e] for [x], and the rest of the table: taking [x] back leaves what the
    rest made. *)
Lemma take_back_new sub x l nm e n n1 l' sub' n' : NoDup (omap (λ t, procname (tree_ctl t)) (x :: l)) → (∀ t, t ∈ l → wf_entry sub t) →
  named x nm → name (e_info e) = nm → namelen (e_info e) = u16 (zlen nm) → good_name nm → addr (e_info e) = n → n < n1 →
  register_list register_entry l (sub, n1) = Ret (l', (sub', n')) →
  ∃ m1 m2, register_list register_entry l (e :: sub, n1) = Ret (l', (m1 ++ e :: m2, n')) ∧ sub' = m1 ++ m2 ∧
    find_addr n (m1 ++ e :: m2) = Some (m1, e, m2) ∧ ∀ e', e_info e' = e_info e → remove_from ignore nm (m1 ++ e' :: m2) = Ret (m1 ++ m2).
Proof.
  intros Hd Hwf Hx Hn Hl [Hne Hlt] Ha Hn1 Hreg.
  destruct (register_list_frame l [] [] sub n1 l' sub' n') as (m1 & m2 & -> & (Hnn & _ & news & Hm1 & Hnews) & F); [by intros t _ k d _ ?%not_elem_of_nil|done|].
  cbn [map app] in *. rewrite app_nil_r in Hm1. exists m1, m2. specialize (F [e]). cbn [app] in F. split_and!.
  - apply F. intros t Ht nm' d Ht' ->%list_elem_of_singleton. rewrite (match_self nm) by done. apply bool_decide_eq_false. intros E.
    apply (other_names x l nm nm' Hd Hx); [by exists t|done].
  - done.
  - apply find_addr_app; [|done]. rewrite Hm1. intros i Hi. apply Hnews in Hi as [? _]. lia.
  - intros e' He'. unfold remove_from. rewrite (find_match_app _ _ m1 e' m2); [done| |].
    + intros d Hdm. assert (Hi : e_info d ∈ news) by (rewrite <-Hm1; apply list_elem_of_fmap; by exists d).
      apply Hnews in Hi as (_ & (t & Ht & Hnt) & Hi). assert (Hg : good_name (name (e_info d))) by (eapply wf_name; eauto).
      rewrite (match_self (name (e_info d))) by (done || apply Hg). apply bool_decide_eq_false. apply (other_names x l nm _ Hd Hx). by exists t.
    + rewrite (match_self nm) by (rewrite ?He'; done). by apply bool_decide_eq_true.
Qed.

Lemma new_is_dir a nm md h : is_dir (Entry (sysctl_info a nm (Z.lor md S_IFDIR) h) []) = true.
Proof.
  unfold is_dir. cbn [e_info sysctl_info mode]. apply negb_true_iff, Z.eqb_neq. intros E. apply (f_equal (λ z, Z.testbit z 14)) in E.
  rewrite Z.land_spec, Z.lor_spec, Z.bits_0 in E. change (Z.testbit S_IFDIR 14) with true in E. by rewrite orb_true_r in E.
Qed.

Lemma take_back_list l : Forall (λ t, match t with Ctl _ child => ∀ lc, child = Some lc → taken_back lc end) l → taken_back l.
Proof.
  induction 1 as [|x l Hx Hl IH]; intros sub n [Hd Hwf] Ht; [by exists [], sub, n, []|].
  assert (Hwl : ∀ t, t ∈ l → wf_entry sub t) by (intros; apply Hwf; set_solver). pose proof (names_tail _ _ Hd) as Hdl.
  assert (Hwx : wf_entry sub x) by (apply Hwf; set_solver). cbn [register_list].
  destruct Hwx as [c child Hp Hde|c child nm Hp Hg Hh Hde Hm|c lc nm Hp Hg Hh Hde Hnone Hdc Hwc|c lc nm a1 e a2 Hp Hg Hh Hde Hfind Hdir Hne Hdc Hwc].
  - rewrite register_entry_eq, Hp, bind_ret. destruct (IH sub n (conj Hdl Hwl) Ht) as (l' & sub' & n' & l'' & E1 & E2).
    rewrite E1, bind_ret. do 3 eexists. exists (Ctl c child :: l''). split; [reflexivity|]. cbn [unregister_list unregister_entry]. rewrite Hde, bind_ret. by rewrite E2.
  - rewrite register_entry_eq, Hp, Hh. cbn [negb andb]. cbv zeta. destruct nm as [|ch nm]; [by destruct Hg|].
    set (e := Entry (sysctl_info n (ch :: nm) (Z.lor (ctl_mode c) S_IFREG) true) []).
    assert (Hnd : is_dir e = false) by (unfold is_dir; cbn [e e_info sysctl_info mode]; by rewrite Hm).
    unfold fill. rewrite Hnd, !bind_ret. cbv beta iota.
    destruct (IH sub (n + 1) (conj Hdl Hwl)) as (l' & sub' & n' & l'' & E1 & E2); [eapply tidy_mono; [|done]; lia|].
    destruct (take_back_new sub (Ctl c child) l _ e n (n + 1) l' sub' n' Hd Hwl Hp) as (m1 & m2 & E3 & -> & E4 & E5); try done; [lia|].
    rewrite E3, bind_ret. do 3 eexists. eexists (_ :: l''). split; [reflexivity|]. cbn [unregister_list unregister_entry de set_de]. rewrite E4. cbn [of_option].
    rewrite bind_ret, Hnd. cbn [procname set_de]. rewrite Hp. cbn [of_option]. rewrite bind_ret, E5, !bind_ret by done. rewrite E2. reflexivity.
  - rewrite register_entry_eq, Hp, Hh. cbn [negb andb bool_decide]. rewrite bool_decide_eq_false_2 by done. cbv zeta. rewrite Hnone.
    destruct nm as [|ch nm]; [by destruct Hg|]. set (i := sysctl_info n (ch :: nm) (Z.lor (ctl_mode c) S_IFDIR) false).
    assert (Hnd : is_dir (Entry i []) = true) by apply new_is_dir. unfold fill. rewrite Hnd. cbn [e_subdir e_info].
    destruct (Hx lc eq_refl [] (n + 1) (conj Hdc Hwc)) as (lc' & sc & n1 & lc'' & E6 & E7); [constructor; [constructor|by intros ? ?%not_elem_of_nil..]|].
    pose proof (register_list_grows _ _ _ _ _ _ E6). rewrite E6, !bind_ret. cbv beta iota.
    destruct (IH sub n1 (conj Hdl Hwl)) as (l' & sub' & n' & l'' & E1 & E2); [eapply tidy_mono; [|done]; lia|].
    destruct (take_back_new sub (Ctl c (Some lc)) l _ (Entry i sc) n n1 l' sub' n' Hd Hwl Hp) as (m1 & m2 & E3 & -> & E4 & E5); try done; [lia|].
    rewrite E3, bind_ret. do 3 eexists. eexists (_ :: l''). split; [reflexivity|]. cbn [unregister_list unregister_entry de set_de]. rewrite E4. cbn [of_option].
    rewrite bind_ret. change (is_dir (Entry i sc)) with (is_dir (Entry i [])). rewrite Hnd. cbn [e_subdir e_info]. rewrite E7, bind_ret. cbv beta iota zeta.
    rewrite bool_decide_eq_true_2 by done. cbn [procname set_de]. rewrite Hp. cbn [of_option]. rewrite bind_ret, E5, !bind_ret by done. rewrite E2. reflexivity.
  - rewrite register_entry_eq, Hp, Hh. cbn [negb andb]. rewrite bool_decide_eq_false_2 by done. cbv zeta. rewrite Hfind.
    pose proof (find_match_spec (zlen nm) nm sub) as Hs. rewrite Hfind in Hs. destruct Hs as (Esub & Hme & _). inversion Ht as [? Hnd Hlt Hsub]; subst.
    unfold fill. rewrite Hdir. destruct (Hx lc eq_refl (e_subdir e) n (conj Hdc Hwc)) as (lc' & sc & n1 & lc'' & E6 & E7); [apply Hsub; set_solver|].
    pose proof (register_list_grows _ _ _ _ _ _ E6). rewrite E6, !bind_ret. cbv beta iota.
    destruct (IH (a1 ++ e :: a2) n1 (conj Hdl Hwl)) as (l' & sub' & n' & l'' & E1 & E2); [eapply tidy_mono; [|done]; lia|].
    assert (Hig : ∀ d, e_info d = e_info e → ∀ t, t ∈ l → ignores t [d]).
    { intros d Hde' t Ht' nm' y Hn' ->%list_elem_of_singleton. rewrite (proc_match_info _ _ d e) by done. destruct (proc_match (zlen nm') nm' e) eqn:Em; [|done].
      exfalso. apply (other_names (Ctl c (Some lc)) l nm nm' Hd Hp); [by exists t|by eapply match_inj]. }
    destruct (register_list_frame l a1 [e] a2 n1 l' sub' n' (Hig e eq_refl) E1) as (m1 & m2 & -> & (Hnn & _ & news & Hm1 & Hnews) & F).
    specialize (F [Entry (e_info e) sc] (Hig (Entry (e_info e) sc) eq_refl)). cbn [app] in F, E2. rewrite F, bind_ret. do 3 eexists. eexists (_ :: l''). split; [reflexivity|].
    cbn [unregister_list unregister_entry de set_de]. rewrite find_addr_app; [|rewrite Hm1|done].
    2: { intros i [Hi|Hi]%elem_of_app; [apply Hnews in Hi as [? _]; specialize (Hlt e ltac:(set_solver)); lia|]. rewrite map_app, map_cons in Hnd.
      apply NoDup_app in Hnd as (_ & Hnd & _). intros Ea. apply list_elem_of_fmap in Hi as (d & -> & Hd'). apply (Hnd (addr (e_info d))).
      - apply list_elem_of_fmap. by exists d.
      - rewrite Ea. set_solver. }
    cbn [of_option]. rewrite bind_ret. change (is_dir (Entry (e_info e) sc)) with (is_dir e). rewrite Hdir. cbn [e_subdir e_info]. rewrite E7, bind_ret. cbv beta iota zeta.
    rewrite bool_decide_eq_false_2 by done. rewrite bind_ret. cbv beta iota. assert (Entry (e_info e) (e_subdir e) = e) as -> by (by destruct e). rewrite E2. reflexivity.
Qed.

Lemma take_back_all l : taken_back l.
Proof.
  apply take_back_list. apply Forall_forall. intros t _. apply (ctl_ind' (λ t, match t with Ctl _ child => ∀ lc, child = Some lc → taken_back lc end)).
  intros c child IH lc Hc. apply take_back_list. by apply IH.
Qed.
End TakeBack.

(** An entry and all below it. *)
Fixpoint entries (e : entry) : list entry := e :: match e with Entry _ sub => flat_map entries sub end.

Section EntryInd.
Context (P : entry → Prop) (P_entry : ∀ i sub, Forall P sub → P (Entry i sub)).
Fixpoint entry_ind' (e : entry) : P e :=
  match e with Entry i sub =>
    P_entry i sub ((fix go l := match l return Forall P l with [] => Forall_nil_2 P | e :: l => Forall_cons_2 P e l (entry_ind' e) (go l) end) sub)
  end.
End EntryInd.

Definition with_subdir (sub : list entry) (d : entry) : entry := Entry (e_info d) sub.

Lemma update_twice a s1 s2 e : update a (with_subdir s2) (update a (with_subdir s1) e) = update a (with_subdir s2) e.
Proof.
  induction e as [i sub IH] using entry_ind'. cbn [update e_info]. destruct (addr i =? a) eqn:E.
  - cbn [update with_subdir e_info]. by rewrite E.
  - cbn [update e_info]. rewrite E. f_equal. rewrite map_map. apply map_ext_in. intros x Hx. rewrite Forall_forall in IH. apply IH. by apply list_elem_of_In.
Qed.

Lemma update_same a d e : (∀ x, x ∈ entries e → addr (e_info x) = a → x = d) → update a (with_subdir (e_subdir d)) e = e.
Proof.
  induction e as [i sub IH] using entry_ind'. intros Hu. cbn [update e_info]. destruct (Z.eqb_spec (addr i) a) as [E|E].
  - assert (Hd : Entry i sub = d) by (apply Hu; [cbn [entries]; set_solver|done]). by rewrite <-Hd.
  - f_equal. rewrite Forall_forall in IH. rewrite <-(map_id sub) at 2. apply map_ext_in. intros x Hx. apply list_elem_of_In in Hx. apply IH; [done|].
    intros y Hy. apply Hu. cbn [entries]. apply elem_of_cons. right. apply list_elem_of_In, in_flat_map. exists x. split; by apply list_elem_of_In.
Qed.

Lemma lookup_addr_sub a i sub : lookup_addr a (Entry i sub) =
  if addr i =? a then Some (Entry i sub) else (fix go l := match l with [] => None | e :: l => match lookup_addr a e with Some d => Some d | None => go l end end) sub.
Proof. reflexivity. Qed.

Lemma lookup_update a sub e : lookup_addr a (update a (with_subdir sub) e) = with_subdir sub <$> lookup_addr a e.
Proof.
  induction e as [i l IH] using entry_ind'. cbn [update e_info]. rewrite (lookup_addr_sub a i l). destruct (addr i =? a) eqn:E.
  - unfold with_subdir at 1. cbn [e_info]. rewrite lookup_addr_sub, E. done.
  - rewrite lookup_addr_sub, E. induction IH as [|x l Hx Hl IHl]; [done|]. cbn [map]. rewrite Hx. destruct (lookup_addr a x); [done|]. exact IHl.
Qed.

(** C13: a table of sysctl can be taken back.  Where /proc/sys is one directory and the
    addresses in use are below the next one, a table whose names differ, whose files have
    handlers and whose directories are new or exist and are not empty is registered
    without complaint; unregistering what was registered leaves every entry of /proc as
    it was, in the same order. *)
Theorem sysctl_taken_back ignore table sys s d :
  lookup_addr sys (proc_root s) = Some d → (∀ x, x ∈ entries (proc_root s) → addr (e_info x) = sys → x = d) →
  wf_table (e_subdir d) table → tidy (fresh s) (e_subdir d) →
  ∃ header s' table' n', register_sysctl_table false table sys s = Ret (Some header, s') ∧
    unregister_sysctl_table ignore header sys s' = Ret (table', State (proc_root s) n').
Proof.
  intros Hd Hu Hwf Ht. unfold register_sysctl_table, unregister_sysctl_table, register_proc_table, unregister_proc_table.
  destruct (take_back_all ignore table (e_subdir d) (fresh s) Hwf Ht) as (l' & sub' & n' & l'' & E1 & E2).
  rewrite Hd. cbn [of_option]. rewrite bind_ret, E1, bind_ret. cbv beta iota. do 4 eexists. split; [reflexivity|]. cbn [proc_root fresh].
  change (λ d, Entry (e_info d) sub') with (with_subdir sub'). rewrite lookup_update, Hd. cbn [fmap option_fmap option_map of_option].
  rewrite bind_ret. change (e_subdir (with_subdir sub' d)) with sub'. rewrite E2, bind_ret. cbv beta iota. do 2 f_equal. f_equal.
  rewrite <-(update_same sys d (proc_root s) Hu) at 2. apply (update_twice sys sub' (e_subdir d)).
Qed.

(** A file, a new directory with a file in it and a directory that is there. *)
Definition file_ctl (nm : text) : ctl_tree := Ctl (CtlEntry (Some nm) 0x1a4 true None) None.
Definition dir_ctl (nm : text) (l : list ctl_tree) : ctl_tree := Ctl (CtlEntry (Some nm) 0x16d false None) (Some l).
Definition old_table : list ctl_tree := [dir_ctl (tx "net") [file_ctl (tx "x")]].
Definition new_table : list ctl_tree := [file_ctl (tx "alpha"); dir_ctl (tx "net") [file_ctl (tx "y")]; dir_ctl (tx "beta") [file_ctl (tx "alpha")]].
Definition SYS : Z := 4.
Definition with_old : state := match register_sysctl_table false old_table SYS proc_init.1.1.1 with Ret (_, s) => s | _ => proc_init.1.1.1 end.

Lemma sysctl_taken_back_witness : ∃ header s' table' n', register_sysctl_table false new_table SYS with_old = Ret (Some header, s') ∧
  unregister_sysctl_table false header SYS s' = Ret (table', State (proc_root with_old) n').
Proof.
  assert (Hf : ∀ sub nm, nm ≠ [] → zlen nm < 2 ^ 16 → wf_entry sub (file_ctl nm)) by (intros; by eapply wf_file).
  apply (sysctl_taken_back false new_table SYS with_old (Entry (new_info SYS (tx "sys") 3 (Z.lor S_IFDIR S_IRUGO_XUGO))
    [Entry (sysctl_info 5 (tx "net") (Z.lor 0x16d S_IFDIR) false) [Entry (sysctl_info 6 (tx "x") (Z.lor 0x1a4 S_IFREG) true) []]])).
  - vm_compute. reflexivity.
  - intros x Hx E. vm_compute in Hx. repeat (apply elem_of_cons in Hx as [->|Hx]; [first [by vm_compute in E|reflexivity]|]). by apply not_elem_of_nil in Hx.
  - split; [vm_compute; repeat constructor; set_solver|]. intros t Ht. cbn [e_subdir].
    repeat (apply elem_of_cons in Ht as [->|Ht]); [by apply Hf| | |by apply not_elem_of_nil in Ht].
    + eapply wf_old_dir; try done; [vm_compute; repeat constructor; set_solver|]. intros t ->%list_elem_of_singleton. by apply Hf.
    + eapply wf_new_dir; try done; [vm_compute; repeat constructor; set_solver|]. intros t ->%list_elem_of_singleton. by apply Hf.
  - assert (Hleaf : ∀ n i, addr i < n → tidy n [Entry i []]).
    { intros n i Hi. constructor; [repeat constructor; set_solver|by intros e ->%list_elem_of_singleton|].
      intros e ->%list_elem_of_singleton. constructor; [constructor|by intros ? ?%not_elem_of_nil..]. }
    constructor; [vm_compute; repeat constructor; set_solver|by intros e ->%list_elem_of_singleton|]. intros e ->%list_elem_of_singleton. by apply Hleaf.
Defined.

(** An entry that is created by its path keeps the whole path as its name but the length
    of the last component, so nothing finds it. *)
Lemma created_by_path :
  let s := (create_proc_entry false (tx "net/arp") 0x124 None proc_init.1.1.1).2 in
  find_proc_entry (tx "/proc/net/arp") (proc_root s) = Ret None ∧
  remove_proc_entry false (tx "net/arp") None s = Barf "Cannot find entry to remove".
Proof. vm_compute. split; reflexivity. Qed.

(** A directory of somebody else that was empty goes with the table that used it. *)
Lemma empty_directory_removed : ∀ c, c = CtlEntry (Some (tx "net")) 0x16d false None →
  let sub := [Entry (sysctl_info 5 (tx "net") S_IFDIR false) []] in
  match register_proc_table [Ctl c (Some [file_ctl (tx "x")])] (sub, 6) with
  | Ret (l, (sub', _)) => unregister_proc_table false l sub' = Ret ([Ctl c (Some [file_ctl (tx "x")])], [])
  | _ => False
  end.
Proof. intros c ->. vm_compute. reflexivity. Qed.

(** ** Reading and writing files *)

Definition PROC_BLOCK_SIZE : Z := PAGE_SIZE - 1024.

(** What a read function leaves in [*start]: NULL, an address below the page, or one in it. *)
Inductive start := StNull | StSmall (z : Z) | StPage (off : Z).
(** Buffer, position and count to the length, [*start], the page and [*eof]. *)
Definition read_proc_t := text → Z → Z → outcome (Z * start * text * bool).

(** The bytes for the user, and how far the position moves; [None]: break. *)
Definition page_piece (n count ppos : Z) (st : start) (page : text) : outcome (option (text * Z)) :=
  match st with
  | StNull =>
      let n := Z.min n PAGE_SIZE - ppos in
      if n <=? 0 then mret None else
      let n := Z.min n count in
      t ← slice ppos n page; mret (Some (t, n))
  | StSmall z => t ← slice 0 (Z.min n PAGE_SIZE) page; mret (Some (t, z))
  | StPage off =>
      let n := Z.min (if PAGE_SIZE - off <? n then PAGE_SIZE - off else n) count in
      t ← slice off n page; mret (Some (t, n))
  end.

(** Return value, what was copied and the position.  get_info and read_proc are both
    [read]; [None] when there is neither. *)
Fixpoint proc_file_loop (fuel : nat) (read : read_proc_t) (nbytes ppos retval : Z) (eof : bool) (page : text) : outcome (Z * text * Z) :=
  if (nbytes <=? 0) || eof then mret (retval, [], ppos) else
  let count := Z.min PROC_BLOCK_SIZE nbytes in
  '(n, st, page, eof) ← read page ppos count;
  if n =? 0 then mret (retval, [], ppos) else
  if n <? 0 then mret (if retval =? 0 then n else retval, [], ppos) else
  r ← page_piece n count ppos st page;
  match r with
  | None => mret (retval, [], ppos)
  | Some (t, move) =>
      if nbytes <? zlen t then Fault "proc_file_read: beyond the buffer" else
      match fuel with
      | O => Fault "proc_file_read: out of fuel"
      | S fuel => '(r, t', p) ← proc_file_loop fuel read (nbytes - zlen t) (ppos + move) (retval + zlen t) eof page; mret (r, t ++ t', p)
      end
  end.
Definition proc_file_read (fuel : nat) (read : option read_proc_t) (nbytes ppos : Z) : outcome (Z * text * Z) :=
  match read with
  | None => mret (0, [], ppos)
  | Some read => proc_file_loop fuel read nbytes ppos 0 false (replicate (Z.to_nat PAGE_SIZE) NUL)
  end.

(** The owner's bits of the mode against [op]. *)
Definition test_perm (md op : Z) : Z := if Z.land (Z.land (Z.shiftr md 6) op) 7 =? op then 0 else - EACCES.

(** A handler of sysctl: write, buffer, *lenp and *ppos to the error and the new ones. *)
Definition handler_t := bool → text → Z → Z → outcome (Z * text * Z * Z).
Definition do_rw_proc (write : bool) (table : option (Z * option handler_t)) (buf : text) (count ppos : Z) : outcome (Z * text * Z) :=
  match table with
  | Some (md, Some h) =>
      if negb (test_perm md (if write then 2 else 4) =? 0) then mret (- EPERM, buf, ppos) else
      '(error, buf, res, ppos) ← h write buf count ppos;
      mret (if error =? 0 then res else error, buf, ppos)
  | _ => mret (- ENOTDIR, buf, ppos)
  end.
Definition proc_opensys (f_mode i_mode : Z) : Z :=
  if negb (Z.land f_mode FMODE_WRITE =? 0) && (Z.land i_mode 0x80 =? 0) then - EPERM else 0.

Section Files.
(** The functions behind the pointers of an entry: get_info or read_proc, write_proc, the
    table of a sysctl file, and the operations of others. *)
Context (reader : info → option read_proc_t) (writer : info → option (text → Z → outcome Z)) (table : info → option (Z * option handler_t)).
Context (other_read : Z → Z → outcome (Z * text)) (other_write : Z → text → Z → outcome Z) (other_open : Z → Z → Z).

Definition proc_file_write (i : info) (buffer : text) (count : Z) : outcome Z :=
  match writer i with None => mret (- EIO) | Some w => w buffer count end.

Definition fops_open (i : info) (f_mode : Z) : Z :=
  match proc_fops i with ProcFileOperations => 0 | ProcSysFileOperations => proc_opensys f_mode (mode i) | OtherOperations f => other_open f f_mode end.
(** The return value and what is in the caller's buffer of [size] bytes. *)
Definition fops_read (i : info) (size : Z) : outcome (Z * text) :=
  match proc_fops i with
  | ProcFileOperations => '(r, t, _) ← proc_file_read (Z.to_nat size) (reader i) size 0; mret (r, t)
  | ProcSysFileOperations => '(r, buf, _) ← do_rw_proc false (table i) (replicate (Z.to_nat size) NUL) size 0; mret (r, ztake r buf)
  | OtherOperations f => other_read f size
  end.
Definition fops_write (i : info) (str : text) : outcome Z :=
  match proc_fops i with
  | ProcFileOperations => proc_file_write i str (zlen str)
  | ProcSysFileOperations => '(r, _, _) ← do_rw_proc true (table i) (str ++ [NUL]) (zlen str) 0; mret r
  | OtherOperations f => other_write f str (zlen str)
  end.

Definition nfsim_proc_open (nm : text) (md : Z) (root : entry) : outcome (info + string) :=
  d ← find_proc_entry nm root;
  match d with
  | None => mret (inr "proc file not found"%string)
  | Some d =>
      let i := e_info d in
      if Z.land (mode i) 0xf000 =? S_IFDIR then mret (inr "proc entry is a directory"%string) else
      if (md =? FMODE_WRITE) && (Z.land (mode i) 0x80 =? 0) then mret (inr "proc entry not writable"%string) else
      if fops_open i md <? 0 then mret (inr "proc entry open failed!"%string) else mret (inl i)
  end.

(** Success, and what is printed: an error or the text. *)
Definition nfsim_proc_cat (nm : text) (root : entry) : outcome (bool * (text + string)) :=
  r ← nfsim_proc_open nm FMODE_READ root;
  match r with
  | inr msg => mret (false, inr msg)
  | inl i =>
      '(ret, buf) ← fops_read i (16384 - 1);
      if ret <? 0 then mret (false, inr "proc entry read failed"%string) else
      let t := ztake ret buf in mret (true, inl (take (strcspn t [NUL]) t))
  end.

Fixpoint join_args (argv : list text) : text :=
  match argv with [] => [] | [a] => a | a :: argv => a ++ tx " " ++ join_args argv end.
Definition nfsim_proc_write (nm : text) (argv : list text) (root : entry) : outcome (bool * option string) :=
  r ← nfsim_proc_open nm FMODE_WRITE root;
  match r with
  | inr msg => mret (false, Some msg)
  | inl i =>
      match argv with
      | [] => Fault "nfsim_proc_write: strlen of a null pointer"
      | _ => ret ← fops_write i (join_args argv); if ret <? 0 then mret (false, Some "proc entry write failed"%string) else mret (true, None)
      end
  end.
End Files.

(** The handler for a table of ints, and what a write leaves in it. *)
Definition int_handler (vs : list Z) : handler_t := λ write buf lenp ppos,
  '(r, _, buf, lenp, ppos) ← proc_dointvec (int_table vs) write buf lenp ppos; mret (r, buf, lenp, ppos).

(** A read function that puts the whole text [c] at the start of the page. *)
Definition gives_text (read : read_proc_t) (c : text) : Prop :=
  ∀ page ppos count, ∃ page' eof, read page ppos count = Ret (zlen c, StNull, page', eof) ∧ zlen page' = PAGE_SIZE ∧ ztake (zlen c) page' = c ∧
    (eof = true → zlen c - ppos <= count).

Lemma proc_file_loop_ok fuel read c : gives_text read c → 0 < zlen c <= PAGE_SIZE → ∀ nbytes ppos retval eof page,
  0 <= ppos → 0 <= nbytes → 0 <= retval → nbytes <= Z.of_nat fuel → (eof = true → zlen c <= ppos) →
  let t := ztake nbytes (zdrop ppos c) in
  proc_file_loop fuel read nbytes ppos retval eof page = Ret (retval + zlen t, t, ppos + zlen t).
Proof.
  intros Hread Hc. induction fuel as [|fuel IH]; intros nbytes ppos retval eof page Hp Hn Hr Hf Heof t.
  { assert (nbytes = 0) as -> by lia. cbn. change (zlen t) with 0. unfold t. rewrite ztake_0 by lia. by rewrite !Z.add_0_r. }
  cbn [proc_file_loop]. destruct (Z.leb_spec nbytes 0) as [Hn0|Hn0]; cbn [orb].
  { assert (t = []) as -> by (by apply ztake_0). change (zlen (@nil ascii)) with 0. by rewrite !Z.add_0_r. }
  destruct eof.
  { assert (t = []) as -> by (unfold t; rewrite zdrop_all by auto; apply take_nil). change (zlen (@nil ascii)) with 0. by rewrite !Z.add_0_r. }
  set (count := Z.min PROC_BLOCK_SIZE nbytes). assert (Hcount : 0 < count) by (unfold count; change PROC_BLOCK_SIZE with 3072; lia).
  destruct (Hread page ppos count) as (page' & eof' & -> & Hl & Ht & He). rewrite bind_ret. cbv beta iota.
  rewrite (proj2 (Z.eqb_neq _ 0)), (proj2 (Z.ltb_ge _ 0)) by lia. unfold page_piece. cbv zeta. rewrite Z.min_l by lia.
  destruct (Z.leb_spec (zlen c - ppos) 0) as [Hend|Hend].
  { rewrite bind_ret. assert (t = []) as -> by (unfold t; rewrite zdrop_all by lia; apply take_nil). change (zlen (@nil ascii)) with 0. by rewrite !Z.add_0_r. }
  set (n := Z.min (zlen c - ppos) count). rewrite slice_ret by lia. rewrite !bind_ret.
  assert (Hpiece : ztake n (zdrop ppos page') = ztake n (zdrop ppos c)).
  { rewrite <-Ht at 1. rewrite zdrop_ztake by lia. by rewrite ztake_ztake by lia. }
  rewrite Hpiece. assert (Hz : zlen (ztake n (zdrop ppos c)) = n) by (apply zlen_ztake; rewrite zlen_zdrop; lia).
  rewrite Hz. rewrite (proj2 (Z.ltb_ge nbytes n)) by lia. rewrite IH; [|lia..|intros ->; specialize (He eq_refl); lia].
  cbv zeta. rewrite bind_ret. cbv beta iota.
  assert (Et : ztake n (zdrop ppos c) ++ ztake (nbytes - n) (zdrop (ppos + n) c) = t).
  { unfold t. replace nbytes with (n + (nbytes - n)) at 2 by lia. rewrite ztake_split by lia. by rewrite zdrop_zdrop by lia. }
  rewrite <-Et, zlen_app, Hz. do 2 f_equal; [f_equal|]; lia.
Qed.

Lemma strcspn_none t : NUL ∉ t → take (strcspn t [NUL]) t = t.
Proof.
  induction t as [|c t IH]; intros Hn; [done|]. cbn [strcspn]. assert (mem c [NUL] = false) as -> by (apply mem_false; set_solver). cbn [take]. f_equal. apply IH. set_solver.
Qed.

Lemma print_d_plain v : NUL ∉ print_d v.
Proof.
  assert (H : ∀ n, 0 <= n → NUL ∉ print_u n).
  { intros n Hn Hin. pose proof (print_u_digits n Hn) as Hd. rewrite Forall_forall in Hd. specialize (Hd _ Hin). by vm_compute in Hd. }
  unfold print_d. destruct (Z.ltb_spec v 0) as [Hv|Hv]; [intros [?|?]%elem_of_cons; [done|by apply (H (- v)); [lia|]]|by apply H].
Qed.
Lemma vector_plain vs : NUL ∉ vector_text vs ++ newline.
Proof.
  assert (H : NUL ∉ concat (map separated vs)).
  { induction vs as [|v vs IH]; [by apply not_elem_of_nil|]. cbn [map concat]. intros [Hin|?]%elem_of_app; [|done].
    apply elem_of_cons in Hin as [?|?]; [done|by apply (print_d_plain v)]. }
  destruct vs as [|v vs]; cbn [vector_text]; rewrite !not_elem_app; split.
  - by apply not_elem_of_nil.
  - intros ?%list_elem_of_singleton. done.
  - split; [apply print_d_plain|]. intros Hin. apply H. cbn [map concat]. apply elem_of_app. by right.
  - intros ?%list_elem_of_singleton. done.
Qed.

(** C32: what "proc cat" prints.  A read function that gives the text of a file in a page is
    printed as that text, in as many rounds as the blocks need; the table of a vector of
    ints that the owner may read is printed as its decimal numbers. *)
Theorem cat_prints reader table oread oopen nm root d :
  find_proc_entry nm root = Ret (Some d) → Z.land (mode (e_info d)) 0xf000 ≠ S_IFDIR →
  let i := e_info d in
  let cat := nfsim_proc_cat reader table oread oopen nm root in
  (∀ read c, proc_fops i = ProcFileOperations → reader i = Some read → gives_text read c → 0 < zlen c <= PAGE_SIZE → NUL ∉ c → cat = Ret (true, inl c)) ∧
  (∀ md vs, proc_fops i = ProcSysFileOperations → table i = Some (md, Some (int_handler vs)) → test_perm md 4 = 0 → vs ≠ [] → 4 * zlen vs < 2 ^ 31 →
     Forall (λ v, INT_MIN < v < 2 ^ 31) vs → zlen (vector_text vs ++ newline) < 16384 → cat = Ret (true, inl (vector_text vs ++ newline))).
Proof.
  intros Hfind Hdir i cat.
  assert (Hopen : ∀ md, fops_open oopen i md = 0 → (md = FMODE_WRITE → Z.land (mode i) 0x80 ≠ 0) → nfsim_proc_open oopen nm md root = Ret (inl i)).
  { intros md Ho Hw. unfold nfsim_proc_open. rewrite Hfind, bind_ret. cbv beta iota zeta. fold i. rewrite (proj2 (Z.eqb_neq _ _)) by done. 
    rewrite Ho. destruct (Z.eqb_spec md FMODE_WRITE) as [E|E]; cbn [andb]; [|done]. rewrite (proj2 (Z.eqb_neq _ 0)); [done|by apply Hw]. }
  split_and!.
  - intros read c Hops Hrd Hg Hc Hnul. unfold cat, nfsim_proc_cat. rewrite Hopen; [|unfold fops_open; by rewrite Hops|done].
    rewrite bind_ret. cbv beta iota. unfold fops_read. rewrite Hops, Hrd. cbn [proc_file_read].
    rewrite (proc_file_loop_ok _ read c Hg Hc) by (first [lia|done]). rewrite zdrop_0 by lia. change PAGE_SIZE with 4096 in Hc. rewrite ztake_all by lia. rewrite !bind_ret. cbv beta iota.
    rewrite (proj2 (Z.ltb_ge _ 0)) by lia. cbv zeta. rewrite ztake_all by lia. by rewrite strcspn_none.
  - intros md vs Hops Htab Hperm Hne Hl Hv Hlen. unfold cat, nfsim_proc_cat. rewrite Hopen; [|unfold fops_open; by rewrite Hops|done].
    rewrite bind_ret. cbv beta iota. unfold fops_read. rewrite Hops, Htab. unfold do_rw_proc. rewrite Hperm. cbn [Z.eqb negb].
    unfold int_handler. set (t := vector_text vs ++ newline) in *. set (b := replicate (Z.to_nat (16384 - 1)) NUL).
    assert (Hb : zlen b = 16383) by (unfold b, zlen; by rewrite length_replicate).
    destruct (dointvec_reads vs b (16384 - 1) Hne Hl Hv ltac:(lia)) as [E _]. fold t in E. rewrite (ztake_all _ t) in E by lia. 
    rewrite E. unfold mbind, outcome_bind, mret, outcome_ret. cbv beta iota. cbn [Z.eqb]. pose proof (zlen_nonneg t). rewrite (proj2 (Z.ltb_ge _ 0)) by lia. cbv zeta.
    assert (Ht : ztake (zlen t) (ztake (zlen t) (over 0 t b)) = t).
    { rewrite ztake_ztake by lia. unfold over. rewrite (ztake_0 0) by lia. cbn [app]. rewrite ztake_app_le by lia. by apply ztake_all. }
    rewrite Ht. by rewrite strcspn_none by apply vector_plain.
Qed.

Definition hello : read_proc_t := λ page ppos count, Ret (5, StNull, tx "hello" ++ drop 5 (replicate (Z.to_nat PAGE_SIZE) NUL), false).
Definition shown (i : info) : option read_proc_t := if streq (name i) (tx "hello") then Some hello else None.
Definition vec_table (i : info) : option (Z * option handler_t) := Some (0x1a4, Some (int_handler [7; -12; 65536])).
Definition hello_root : entry := (create_proc_entry false (tx "hello") 0x124 (Some 2) proc_init.1.1.1).2.(proc_root).

Lemma cat_prints_witness :
  nfsim_proc_cat shown vec_table (λ _ _, Ret (0, [])) (λ _ _, 0) (tx "/proc/net/hello") hello_root = Ret (true, inl (tx "hello")) ∧
  nfsim_proc_cat shown vec_table (λ _ _, Ret (0, [])) (λ _ _, 0) (tx "/proc/sys/alpha")
    (match register_sysctl_table false [file_ctl (tx "alpha")] SYS proc_init.1.1.1 with Ret (_, s) => proc_root s | _ => hello_root end) =
    Ret (true, inl (tx "7" ++ chr 9 :: tx "-12" ++ chr 9 :: tx "65536" ++ newline)).
Proof.
  split.
  - pose proof (cat_prints shown vec_table (λ _ _, Ret (0, [])) (λ _ _, 0) (tx "/proc/net/hello") hello_root (Entry (new_info 5 (tx "hello") 5 0x124) []) eq_refl) as H.
    apply (H ltac:(by vm_compute)) with (read := hello); try done.
    + intros page ppos count. do 2 eexists. split_and!; [reflexivity|vm_compute; reflexivity|vm_compute; reflexivity|done].
    + intros Hin. repeat (apply elem_of_cons in Hin as [?|Hin]; [done|]). by apply not_elem_of_nil in Hin.
  - vm_compute. reflexivity.
Defined.
