(* ===== verification/Route.v ===== *)
(** * core/ipv4/ipv4.c, tools/route.c, tools/ifconfig.c: interfaces, routes, the route cache

    Addresses are 32-bit numbers as the machine holds the bytes of the network;
    [big] is the byte order of the build.  A device or route that was freed is gone
    from the interfaces, or no longer [live] in the list of routes: following a pointer
    to it is undefined.  inet_aton is a parameter.  The build has no
    CONFIG_IP_ROUTE_FWMARK; the counters of a device are not followed. *)

From Stdlib Require Import ZArith Lia.
From S2P Require Import Prelude CStr Mem KernLib.

Definition IFNAMSIZ : nat := 16.
Definition ETH_HLEN : Z := 14.
Definition NETDEV_UP : Z := 1.
Definition NETDEV_DOWN : Z := 2.

Record in_ifaddr := InIfaddr { ifa_local : Z; ifa_address : Z; ifa_mask : Z; ifa_broadcast : Z }.
Record net_device := NetDevice {
  dev_addr : Z; dev_name : text; ifindex : Z; hard_header_len : Z;
  (** ip_ptr: the addresses of the in_device *)
  ip_ptr : option (list in_ifaddr);
}.
Record ipv4_route := Ipv4Route {
  route_addr : Z; network : Z; netmask : Z; interface : Z; gateway : Z;
  (** the device whose in_device it is a child of; destroy_route is set; not freed *)
  child_of : option Z; has_destructor : bool; live : bool;
}.
Record flowi := Flowi { oif : Z; iif : Z; fl4_dst : Z; fl4_src : Z; fl4_tos : Z }.
Inductive dst_fn := FnNone | IpOutput | IpLocalDeliver | IpForward.
Record rtable := Rtable {
  dst_dev : Z; dst_input : dst_fn; dst_output : dst_fn;
  rt_dst : Z; rt_src : Z; rt_iif : Z; rt_gateway : Z; fl : flowi;
  (** the device or route it is a talloc child of *)
  owner : Z;
}.
Record rstate := RState {
  interfaces : list net_device;
  routes : list ipv4_route;
  rcache : list rtable;
  loopback_dev : Z;
  ifindex_counter : Z;
  next_addr : Z;
  (** the calls of the inetaddr chain: event and local address *)
  notified : list (Z * Z);
}.
Definition with_routes (r : list ipv4_route) (s : rstate) : rstate := RState (interfaces s) r (rcache s) (loopback_dev s) (ifindex_counter s) (next_addr s) (notified s).
Definition with_rcache (c : list rtable) (s : rstate) : rstate := RState (interfaces s) (routes s) c (loopback_dev s) (ifindex_counter s) (next_addr s) (notified s).
Definition with_interfaces (i : list net_device) (s : rstate) : rstate := RState i (routes s) (rcache s) (loopback_dev s) (ifindex_counter s) (next_addr s) (notified s).

Definition get_dev (a : Z) (s : rstate) : outcome net_device :=
  of_option "device was freed" (snd <$> list_find (λ d, dev_addr d = a) (interfaces s)).
(** The first route with [P]; the list is walked through routes that are not freed. *)
Fixpoint find_route (P : ipv4_route → bool) (l : list ipv4_route) : outcome (option ipv4_route) :=
  match l with
  | [] => mret None
  | r :: l => if negb (live r) then Fault "route was freed" else if P r then mret (Some r) else find_route P l
  end.

(** ** Addresses of interfaces *)

Definition inet_ifa_match (addr : Z) (ifa : in_ifaddr) : bool := Z.land (Z.lxor addr (ifa_address ifa)) (ifa_mask ifa) =? 0.

Fixpoint select_addr (dst addr : Z) (l : list in_ifaddr) : Z :=
  match l with
  | [] => addr
  | ifa :: l => if (dst =? 0) || inet_ifa_match dst ifa then ifa_local ifa else select_addr dst (if addr =? 0 then ifa_local ifa else addr) l
  end.
Definition inet_select_addr (dev dst : Z) (s : rstate) : outcome Z :=
  d ← get_dev dev s; mret (match ip_ptr d with None => 0 | Some l => select_addr dst 0 l end).

(** The device with the local address. *)
Fixpoint local_dev (dst : Z) (devs : list net_device) : option net_device :=
  match devs with
  | [] => None
  | d :: devs =>
      if existsb (λ ifa, dst =? ifa_local ifa) (default [] (ip_ptr d)) then Some d else local_dev dst devs
  end.

Definition RTN_UNICAST : Z := 1.
Definition RTN_LOCAL : Z := 2.
Definition RTN_BROADCAST : Z := 3.
Definition RTN_MULTICAST : Z := 5.
Definition ZERONET (big : bool) (x : Z) : bool := Z.land x (htonl big 0xff000000) =? htonl big 0.
Definition BADCLASS (big : bool) (x : Z) : bool := Z.land x (htonl big 0xf0000000) =? htonl big 0xf0000000.
Definition MULTICAST (big : bool) (x : Z) : bool := Z.land x (htonl big 0xf0000000) =? htonl big 0xe0000000.
Definition inet_addr_type (big : bool) (addr : Z) (s : rstate) : Z :=
  if ZERONET big addr || BADCLASS big addr then RTN_BROADCAST
  else if MULTICAST big addr then RTN_MULTICAST
  else match local_dev addr (interfaces s) with Some _ => RTN_LOCAL | None => RTN_UNICAST end.

(** ** Finding a route *)

Definition matches (dst : Z) (r : ipv4_route) : bool := Z.land dst (netmask r) =? network r.

(** __ip_route_output_key without the cache. *)
Definition fresh_output (flp : flowi) (s : rstate) : outcome (option rtable) :=
  match local_dev (fl4_dst flp) (interfaces s) with
  | Some d =>
      mret (Some (Rtable (loopback_dev s) IpLocalDeliver IpOutput (fl4_dst flp) (fl4_src flp) (iif flp) (fl4_dst flp)
        (Flowi 0 (iif flp) (fl4_dst flp) (fl4_src flp) (fl4_tos flp)) (dev_addr d)))
  | None =>
      r ← find_route (matches (fl4_dst flp)) (routes s);
      match r with
      | None => mret None
      | Some route =>
          src ← (if fl4_src flp =? 0 then inet_select_addr (interface route) (fl4_dst flp) s else mret (fl4_src flp));
          _ ← get_dev (interface route) s;
          mret (Some (Rtable (interface route) FnNone IpOutput (fl4_dst flp) src 0 (gateway route)
            (Flowi (oif flp) 0 (fl4_dst flp) (fl4_src flp) (fl4_tos flp)) (route_addr route)))
      end
  end.
Definition output_hit (flp : flowi) (rth : rtable) : bool :=
  (fl4_dst (fl rth) =? fl4_dst flp) && (fl4_src (fl rth) =? fl4_src flp) && (iif (fl rth) =? 0) && (oif (fl rth) =? oif flp) && (fl4_tos (fl rth) =? fl4_tos flp).

Definition ENOMEM : Z := 12.
(** [fail]: should_i_fail. *)
Definition __ip_route_output_key (fail : bool) (flp : flowi) (s : rstate) : outcome (Z * option rtable * rstate) :=
  if fail then mret (- ENOMEM, None, s) else
  match List.find (output_hit flp) (rcache s) with
  | Some rth => mret (0, Some rth, s)
  | None =>
      r ← fresh_output flp s;
      match r with
      | Some rth => mret (0, Some rth, with_rcache (rth :: rcache s) s)
      | None => mret (1, None, s)
      end
  end.

(** The older interface, with a key of its own, and the newer one; xfrm_lookup. *)
Record rt_key := RtKey { key_dst : Z; key_src : Z; key_oif : Z; key_tos : Z }.
Definition ip_route_output_key_2_4 (fail : bool) (key : rt_key) (s : rstate) : outcome (Z * option rtable * rstate) :=
  __ip_route_output_key fail (Flowi (s32 (key_oif key)) 0 (key_dst key) (key_src key) (key_tos key)) s.
Definition ip_route_output (fail : bool) (daddr saddr tos oif : Z) (s : rstate) : outcome (Z * option rtable * rstate) :=
  ip_route_output_key_2_4 fail (RtKey daddr saddr (u32 oif) (u8 tos)) s.
Definition ip_route_output_key (fail : bool) (flp : flowi) (s : rstate) : outcome (Z * option rtable * rstate) := __ip_route_output_key fail flp s.
Definition xfrm_lookup (fail : bool) (fl : flowi) (s : rstate) : outcome (Z * option rtable * rstate) := __ip_route_output_key fail fl s.

(** ip_route_input without the cache; a local destination is not put there. *)
Definition fresh_input (daddr saddr tos : Z) (s : rstate) : outcome (option rtable * bool) :=
  match local_dev daddr (interfaces s) with
  | Some d =>
      mret (Some (Rtable (loopback_dev s) IpLocalDeliver FnNone daddr saddr (ifindex d) daddr (Flowi 0 (ifindex d) daddr saddr tos) (dev_addr d)), false)
  | None =>
      r ← find_route (matches daddr) (routes s);
      match r with
      | None => mret (None, false)
      | Some route =>
          d ← get_dev (interface route) s;
          mret (Some (Rtable (interface route) IpForward IpOutput daddr saddr (ifindex d) (gateway route) (Flowi 0 (ifindex d) daddr saddr tos) (route_addr route)), true)
      end
  end.
Definition input_hit (daddr saddr tos dev_iif : Z) (rth : rtable) : bool :=
  (fl4_dst (fl rth) =? daddr) && (fl4_src (fl rth) =? saddr) && (iif (fl rth) =? dev_iif) && (oif (fl rth) =? 0) && (fl4_tos (fl rth) =? tos).
Definition ip_route_input (daddr saddr tos dev : Z) (s : rstate) : outcome (Z * option rtable * rstate) :=
  d ← get_dev dev s;
  match List.find (input_hit daddr saddr tos (ifindex d)) (rcache s) with
  | Some rth => mret (0, Some rth, s)
  | None =>
      '(r, cached) ← fresh_input daddr saddr tos s;
      match r with
      | Some rth => mret (0, Some rth, if (cached : bool) then with_rcache (rth :: rcache s) s else s)
      | None => mret (1, None, s)
      end
  end.

(** ** Routes and devices come and go *)

(** The rtables that are children of [o] go with it; their destructor empties the cache of them. *)
Definition destroy_rtables (o : Z) (s : rstate) : rstate := with_rcache (filter (λ rt, owner rt ≠ o) (rcache s)) s.
(** talloc_free (route): without the destructor it stays in the list. *)
Definition free_route (r : ipv4_route) (s : rstate) : rstate :=
  let s := destroy_rtables (route_addr r) s in
  if has_destructor r then with_routes (filter (λ x, route_addr x ≠ route_addr r) (routes s)) s
  else with_routes (map (λ x, if route_addr x =? route_addr r then Ipv4Route (route_addr x) (network x) (netmask x) (interface x) (gateway x) (child_of x) (has_destructor x) false else x) (routes s)) s.

Definition add_route_for_device (d : net_device) (s : rstate) : outcome rstate :=
  match ip_ptr d with
  | Some (ifa :: _) =>
      let r := Ipv4Route (next_addr s) (Z.land (ifa_address ifa) (ifa_mask ifa)) (ifa_mask ifa) (dev_addr d) (ifa_address ifa) (Some (dev_addr d)) true true in
      mret (RState (interfaces s) (routes s ++ [r]) (rcache s) (loopback_dev s) (ifindex_counter s) (next_addr s + 1) (notified s))
  | _ => Fault "add_route_for_device: no address"
  end.

Definition interface_by_name (nm : text) (s : rstate) : option net_device :=
  snd <$> list_find (λ d, take IFNAMSIZ (dev_name d) = take IFNAMSIZ nm) (interfaces s).

(** ** The route command *)

Section Commands.
Context (big : bool) (inet_aton : text → option Z).

Definition mask_of (maskbits : Z) : Z := if maskbits =? 32 then htonl big 0xffffffff else htonl big (cnot 32 (Z.shiftr 0xffffffff maskbits)).

(** while (((ntohl (maskaddr) << maskbits) & 0x80000000) && maxbits--); a shift by the
    width is undefined. *)
Fixpoint leading_ones (maxbits : nat) (mask maskbits : Z) : outcome Z :=
  if 32 <=? maskbits then Fault "shift by 32" else
  if Z.land (Z.shiftl mask maskbits) 0x80000000 =? 0 then mret maskbits else
  match maxbits with O => mret maskbits | Datatypes.S maxbits => leading_ones maxbits mask (maskbits + 1) end.

(** Network and mask, or an error. *)
Definition get_route_dest (argv : list text) : outcome ((Z * Z) + string) :=
  match argv with
  | [a] =>
      match strchr a "/" with
      | None => mret (inr "no netmask bits given"%string)
      | Some i =>
          match inet_aton (take i a) with
          | None => mret (inr "can't parse network address"%string)
          | Some n =>
              let maskbits := atoi (drop (i + 1) a) in
              if (maskbits <? 0) || (32 <? maskbits) then mret (inr "invalid mask bits"%string) else
              let m := mask_of maskbits in mret (inl (Z.land n m, m))
          end
      end
  | [a; k; b] =>
      if negb (streq k (tx "mask")) then mret (inr "cant parse route destination"%string) else
      match inet_aton a, inet_aton b with
      | None, _ => mret (inr "can't parse network address"%string)
      | _, None => mret (inr "can't parse netmask address"%string)
      | Some n, Some m =>
          maskbits ← leading_ones 32 (htonl big m) 0;
          let m := mask_of maskbits in mret (inl (Z.land n m, m))
      end
  | _ => mret (inr "cant parse route destination"%string)
  end.

Definition find_matching_route (n m : Z) (s : rstate) : outcome (option ipv4_route) :=
  find_route (λ r, (n =? network r) && (m =? netmask r)) (routes s).

(** The lines printed by "route" and "route print": network, mask and interface. *)
Fixpoint print_routes (l : list ipv4_route) (s : rstate) : outcome (list (Z * Z * text)) :=
  match l with
  | [] => mret []
  | r :: l =>
      if negb (live r) then Fault "route was freed" else
      d ← get_dev (interface r) s; rest ← print_routes l s; mret ((network r, netmask r, dev_name d) :: rest)
  end.

(** "route add <dest> <device>"; [garbage] is the gateway, which is not set. *)
Definition route_add (garbage : Z) (argv : list text) (s : rstate) : outcome (bool * rstate) :=
  let argc := length argv in
  if negb ((argc =? 4)%nat || (argc =? 6)%nat) then mret (false, s) else
  dest ← get_route_dest (take (argc - 3) (drop 2 argv));
  match dest with
  | inr _ => mret (false, s)
  | inl (n, m) =>
      old ← find_matching_route n m s;
      match old with
      | Some _ => mret (false, s)
      | None =>
          match interface_by_name (default [] (last argv)) s with
          | None => mret (false, s)
          | Some d =>
              let r := Ipv4Route (next_addr s) n m (dev_addr d) garbage None false true in
              mret (true, RState (interfaces s) (r :: routes s) (rcache s) (loopback_dev s) (ifindex_counter s) (next_addr s + 1) (notified s))
          end
      end
  end.
Definition route_del (argv : list text) (s : rstate) : outcome (bool * rstate) :=
  dest ← get_route_dest (drop 2 argv);
  match dest with
  | inr _ => mret (false, s)
  | inl (n, m) =>
      old ← find_matching_route n m s;
      mret (true, match old with Some r => free_route r s | None => s end)
  end.
Definition route (garbage : Z) (argv : list text) (s : rstate) : outcome (bool * list (Z * Z * text) * rstate) :=
  let arg1 := default [] (argv !! 1%nat) in
  if (length argv =? 1)%nat || ((length argv =? 2)%nat && streq arg1 (tx "print")) then lines ← print_routes (routes s) s; mret (true, lines, s)
  else if streq arg1 (tx "add") then '(ok, s) ← route_add garbage argv s; mret (ok, [], s)
  else if streq arg1 (tx "del") then '(ok, s) ← route_del argv s; mret (ok, [], s)
  else mret (false, [], s).

(** ** The ifconfig command *)

Definition call_inetaddr_notifier (event : Z) (ifa : in_ifaddr) (s : rstate) : rstate :=
  RState (interfaces s) (routes s) (rcache s) (loopback_dev s) (ifindex_counter s) (next_addr s) (notified s ++ [(event, ifa_local ifa)]).

Definition mask_bits (w : text) : option Z :=
  let mask := atoi w in if (mask <? 8) || (31 <? mask) then None else Some (htonl big (cnot 32 (Z.shiftr 0xffffffff mask))).

(** The broadcast address is the word behind; "mask" takes two words but is counted as one. *)
Definition set_broadcast (ifa : in_ifaddr) (w : option text) : outcome (bool * in_ifaddr) :=
  match w with
  | None => Fault "set_device: inet_aton of a null pointer"
  | Some w =>
      match inet_aton w with
      | None => mret (false, ifa)
      | Some bc => mret (true, InIfaddr (ifa_local ifa) (ifa_address ifa) (ifa_mask ifa) bc)
      end
  end.
(** Success, the first address of the device after the words, and the state; the chain is
    called in between. *)
Definition set_device (ifa : in_ifaddr) (argv : list text) (s : rstate) : outcome (bool * in_ifaddr * rstate) :=
  match argv with
  | [] => Fault "set_device: argc below zero"
  | a :: argv =>
      match inet_aton a with
      | None => mret (false, ifa, s)
      | Some n =>
          let ifa := InIfaddr n n (ifa_mask ifa) (ifa_broadcast ifa) in
          let s := call_inetaddr_notifier NETDEV_UP ifa s in
          let set_mask m ifa := InIfaddr (ifa_local ifa) (ifa_address ifa) m (ifa_broadcast ifa) in
          match argv with
          | [] => mret (true, ifa, s)
          | [k] => match mask_bits k with None => mret (false, ifa, s) | Some m => mret (true, set_mask m ifa, s) end
          | k :: b :: rest =>
              if streq k (tx "mask") then
                match inet_aton b with
                | None => mret (false, ifa, s)
                | Some m => '(ok, ifa) ← set_broadcast (set_mask m ifa) (head rest); mret (ok, ifa, s)
                end
              else
                match mask_bits k with
                | None => mret (false, ifa, s)
                | Some m => '(ok, ifa) ← set_broadcast (set_mask m ifa) (Some b); mret (ok, ifa, s)
                end
          end
      end
  end.

(** The address of the new device; [garbage] is what talloc left in the address. *)
Definition create_device (garbage : in_ifaddr) (nm : text) (argv : list text) (s : rstate) : outcome (option Z * rstate) :=
  let a := next_addr s in
  let s := RState (interfaces s) (routes s) (rcache s) (loopback_dev s) (ifindex_counter s + 1) (a + 1) (notified s) in
  '(ok, ifa, s) ← set_device garbage argv s;
  if negb (ok : bool) then mret (None, s) else
  let d := NetDevice a (take IFNAMSIZ nm) (ifindex_counter s - 1) ETH_HLEN (Some [ifa]) in
  s ← add_route_for_device d s;
  mret (Some a, with_interfaces (interfaces s ++ [d]) s).

(** list_del and talloc_free of a device: its in_device, the routes and rtables below go. *)
Definition free_device (d : net_device) (s : rstate) : rstate :=
  let below := filter (λ r, child_of r = Some (dev_addr d)) (routes s) in
  let s := fold_right free_route s below in
  destroy_rtables (dev_addr d) (with_interfaces (filter (λ x, dev_addr x ≠ dev_addr d) (interfaces s)) s).

Definition ifconfig (garbage : in_ifaddr) (argv : list text) (s : rstate) : outcome (bool * rstate) :=
  match argv with
  | [] | [_] => mret (true, s)
  | _ :: nm :: words =>
      let dev := interface_by_name nm s in
      if strstarts (default [] (last argv)) (tx "up") then
        match dev with
        | Some _ => mret (false, s)
        | None =>
            if (length argv <? 4)%nat then mret (false, s)
            else '(_, s) ← create_device garbage nm words s; mret (true, s)
        end
      else
        match dev with
        | None => mret (false, s)
        | Some d =>
            match words, ip_ptr d with
            | [], _ => mret (true, s)
            | _, Some (ifa :: l) =>
                let s := call_inetaddr_notifier NETDEV_DOWN ifa s in
                if (length words =? 1)%nat && strstarts (default [] (head words)) (tx "down") then mret (true, free_device d s) else
                '(ok, ifa, s) ← set_device ifa words s;
                let changed x := NetDevice (dev_addr x) (dev_name x) (ifindex x) (hard_header_len x) (Some (ifa :: l)) in
                mret (ok, with_interfaces (map (λ x, if dev_addr x =? dev_addr d then changed x else x) (interfaces s)) s)
            | _, _ => Fault "ifconfig: no address"
            end
        end
  end.
End Commands.

(** ** The cache does not show *)

(** Nothing dangles: routes are not freed and lead to interfaces, whose indices are not 0. *)
Record tables_ok (s : rstate) : Prop := TablesOk {
  to_live : ∀ r, r ∈ routes s → live r = true ∧ ∃ d, get_dev (interface r) s = Ret d;
  to_index : ∀ d, d ∈ interfaces s → ifindex d ≠ 0;
}.
(** What the cache holds is what a search would find. *)
Definition consistent (s : rstate) : Prop := ∀ rt, rt ∈ rcache s →
  (iif (fl rt) = 0 → fresh_output (fl rt) s = Ret (Some rt)) ∧
  (iif (fl rt) ≠ 0 → oif (fl rt) = 0 ∧ fresh_input (fl4_dst (fl rt)) (fl4_src (fl rt)) (fl4_tos (fl rt)) s = Ret (Some rt, true)).

(** Routes found the same way. *)
Definition same_search (s s' : rstate) : Prop := interfaces s' = interfaces s ∧ loopback_dev s' = loopback_dev s.

Lemma get_dev_same s s' a : same_search s s' → get_dev a s' = get_dev a s.
Proof. intros [E _]. unfold get_dev. by rewrite E. Qed.
Lemma select_same s s' a dst : same_search s s' → inet_select_addr a dst s' = inet_select_addr a dst s.
Proof. intros E. unfold inet_select_addr. by rewrite (get_dev_same s s'). Qed.

Lemma fresh_output_same s s' flp : same_search s s' → (∀ P, find_route P (routes s') = find_route P (routes s)) → fresh_output flp s' = fresh_output flp s.
Proof.
  intros E Hr. pose proof E as [E1 E2]. unfold fresh_output. rewrite E1, E2, Hr. destruct (local_dev _ _); [done|].
  destruct (find_route _ _) as [[r|]| |]; try done. rewrite !bind_ret. by rewrite (select_same s s'), (get_dev_same s s').
Qed.
Lemma fresh_input_same s s' d sr t : same_search s s' → (∀ P, find_route P (routes s') = find_route P (routes s)) → fresh_input d sr t s' = fresh_input d sr t s.
Proof.
  intros E Hr. pose proof E as [E1 E2]. unfold fresh_input. rewrite E1, E2, Hr. destruct (local_dev _ _); [done|].
  destruct (find_route _ _) as [[r|]| |]; try done. rewrite !bind_ret. by rewrite (get_dev_same s s').
Qed.

(** The owner of what a search finds: a device or the route that was found. *)
Lemma fresh_output_found flp s rt : fresh_output flp s = Ret (Some rt) →
  (local_dev (fl4_dst flp) (interfaces s) = None → ∃ r, find_route (matches (fl4_dst flp)) (routes s) = Ret (Some r) ∧ owner rt = route_addr r) ∧
  (iif (fl rt) = 0 → oif flp = 0 ∨ local_dev (fl4_dst flp) (interfaces s) = None → iif flp = 0 ∨ local_dev (fl4_dst flp) (interfaces s) = None →
     fl rt = Flowi (oif flp) 0 (fl4_dst flp) (fl4_src flp) (fl4_tos flp)).
Proof.
  unfold fresh_output. destruct (local_dev _ _) as [d|].
  - intros [= <-]. split; [done|]. cbn. intros H [->|?] [_|?]; congruence.
  - intros ([r|] & Hf & H)%bind_Ret_inv; [|done]. apply bind_Ret_inv in H as (src & _ & H). apply bind_Ret_inv in H as (d & _ & H).
    injection H as <-. split; [intros _; by exists r|done].
Qed.

Lemma find_route_live P s : tables_ok s → ∃ o, find_route P (routes s) = Ret o ∧ ∀ r, o = Some r → r ∈ routes s.
Proof.
  intros Ht. assert (Hl : ∀ r, r ∈ routes s → live r = true) by (intros r Hr; by apply (to_live _ Ht)). clear Ht. induction (routes s) as [|r l IH]; cbn [find_route].
  - exists None. done.
  - rewrite (Hl r) by set_solver. cbn [negb]. destruct (P r); [exists (Some r); split; [done|intros ? [= <-]; set_solver]|].
    destruct IH as (o & Ho & Hin); [intros; apply Hl; set_solver|]. exists o. split; [done|]. intros x Hx. specialize (Hin x Hx). set_solver.
Qed.

Lemma fresh_output_ret flp s : tables_ok s → ∃ o, fresh_output flp s = Ret o.
Proof.
  intros Ht. unfold fresh_output. destruct (local_dev _ _); [eauto|]. destruct (find_route_live (matches (fl4_dst flp)) s Ht) as (o & -> & Hin).
  rewrite bind_ret. destruct o as [r|]; [|eauto]. destruct (to_live _ Ht r (Hin r eq_refl)) as [_ [d Hd]]. unfold inet_select_addr. rewrite Hd.
  destruct (_ =? 0); rewrite !bind_ret; eauto.
Qed.
Lemma fresh_input_ret d sr t s : tables_ok s → ∃ o c, fresh_input d sr t s = Ret (o, c).
Proof.
  intros Ht. unfold fresh_input. destruct (local_dev _ _); [eauto|]. destruct (find_route_live (matches d) s Ht) as (o & -> & Hin).
  rewrite bind_ret. destruct o as [r|]; [|eauto]. destruct (to_live _ Ht r (Hin r eq_refl)) as [_ [x Hx]]. rewrite Hx, bind_ret. eauto.
Qed.

Lemma cached_same s c rt : consistent s → rt ∈ c → (rt ∈ rcache s) →
  (iif (fl rt) = 0 → fresh_output (fl rt) (with_rcache c s) = Ret (Some rt)) ∧
  (iif (fl rt) ≠ 0 → oif (fl rt) = 0 ∧ fresh_input (fl4_dst (fl rt)) (fl4_src (fl rt)) (fl4_tos (fl rt)) (with_rcache c s) = Ret (Some rt, true)).
Proof. intros H _ Hin. exact (H rt Hin). Qed.

(** A found entry has the key of the search. *)
Lemma fresh_output_key flp s rt : iif flp = 0 → fresh_output flp s = Ret (Some rt) → iif (fl rt) = 0 ∧ fresh_output (fl rt) s = Ret (Some rt).
Proof.
  intros Hi. unfold fresh_output. destruct (local_dev (fl4_dst flp) (interfaces s)) as [d|] eqn:Ed.
  - intros [= <-]. cbn. rewrite Hi, Ed. done.
  - intros ([r|] & Hf & H)%bind_Ret_inv; [|done]. apply bind_Ret_inv in H as (src & Hs & H). apply bind_Ret_inv in H as (d & Hd & H). injection H as <-. cbn.
    rewrite Ed, Hf, bind_ret, Hs, bind_ret, Hd. done.
Qed.
Lemma fresh_input_key d sr t s rt : tables_ok s → fresh_input d sr t s = Ret (Some rt, true) →
  iif (fl rt) ≠ 0 ∧ oif (fl rt) = 0 ∧ fresh_input (fl4_dst (fl rt)) (fl4_src (fl rt)) (fl4_tos (fl rt)) s = Ret (Some rt, true).
Proof.
  intros Ht. unfold fresh_input. destruct (local_dev d (interfaces s)) eqn:Ed; [done|].
  intros ([r|] & Hf & H)%bind_Ret_inv; [|done]. apply bind_Ret_inv in H as (x & Hx & H). injection H as <-. cbn.
  rewrite Ed, Hf, bind_ret, Hx. split_and!; [|done|done]. apply (to_index _ Ht). unfold get_dev in Hx. apply of_option_Ret in Hx.
  apply fmap_Some in Hx as ([i y] & (Hy & _)%list_find_Some & ->). by eapply list_elem_of_lookup_2.
Qed.

Lemma find_hit {A} (f : A → bool) l x : List.find f l = Some x → x ∈ l ∧ f x = true.
Proof. intros H. apply find_some in H as [Hin Hf]. split; [by apply list_elem_of_In|done]. Qed.

Ltac key := repeat match goal with H : _ && _ = true |- _ => apply andb_true_iff in H as [? ?] | H : (_ =? _) = true |- _ => apply Z.eqb_eq in H end.

(** A search ends in the same place when a route is taken out that was not found. *)
Lemma find_route_without P l a r : find_route P l = Ret (Some r) → route_addr r ≠ a → find_route P (filter (λ x, route_addr x ≠ a) l) = Ret (Some r).
Proof.
  induction l as [|x l IH]; cbn [find_route]; [done|]. destruct (live x) eqn:El; [|done]. cbn [negb]. rewrite filter_cons. destruct (P x) eqn:Ep.
  - intros [= ->] Hr. rewrite decide_True by done. cbn [find_route]. by rewrite El, Ep.
  - intros H Hr. case_decide; [|by apply IH]. cbn [find_route]. rewrite El, Ep. by apply IH.
Qed.
Lemma find_route_app P l r x : find_route P l = Ret (Some r) → find_route P (l ++ x) = Ret (Some r).
Proof. induction l as [|y l IH]; cbn [app find_route]; [done|]. destruct (live y); [|done]. cbn [negb]. destruct (P y); [done|exact IH]. Qed.

(** Another list of routes in which what was found is found. *)
Lemma consistent_routes s l' c' : consistent s → (∀ rt, rt ∈ c' → rt ∈ rcache s) →
  (∀ rt P r, rt ∈ c' → find_route P (routes s) = Ret (Some r) → owner rt = route_addr r → find_route P l' = Ret (Some r)) →
  consistent (with_rcache c' (with_routes l' s)).
Proof.
  intros Hc Hsub Hfind rt Hin. cbn [rcache with_rcache] in Hin. destruct (Hc rt (Hsub rt Hin)) as [Ho Hi]. split.
  - intros H0. specialize (Ho H0). revert Ho. unfold fresh_output. cbn [interfaces with_rcache with_routes routes loopback_dev].
    destruct (local_dev _ _); [done|]. intros ([r|] & Hf & H)%bind_Ret_inv; [|done]. assert (Hown : owner rt = route_addr r).
    { clear -H. apply bind_Ret_inv in H as (src & _ & H). apply bind_Ret_inv in H as (d & _ & H). by injection H as <-. }
    rewrite (Hfind rt _ r Hin Hf Hown), bind_ret. exact H.
  - intros H0. specialize (Hi H0) as [Hoif Hi]. split; [done|]. revert Hi. unfold fresh_input. cbn [interfaces with_rcache with_routes routes loopback_dev].
    destruct (local_dev _ _); [done|]. intros ([r|] & Hf & H)%bind_Ret_inv; [|done]. assert (Hown : owner rt = route_addr r).
    { clear -H. apply bind_Ret_inv in H as (d & _ & H). by injection H as <-. }
    rewrite (Hfind rt _ r Hin Hf Hown), bind_ret. exact H.
Qed.

(** Looking up is searching, with the cache or without. *)
Lemma output_lookup s flp : tables_ok s → consistent s → iif flp = 0 →
  ∃ o s', fresh_output flp s = Ret o ∧ consistent s' ∧ same_search s s' ∧ routes s' = routes s ∧
    __ip_route_output_key false flp s = Ret (if o then 0 else 1, o, s').
Proof.
  intros Ht Hc Hi. destruct (fresh_output_ret flp s Ht) as [o Ho]. unfold __ip_route_output_key. destruct (List.find _ _) as [rth|] eqn:Ef.
  - apply find_hit in Ef as [Hin Hk]. unfold output_hit in Hk. key. destruct (Hc rth Hin) as [Hfo _]. assert (Hiz : iif (fl rth) = 0) by done. specialize (Hfo Hiz).
    assert (fl rth = flp) as Efl by (destruct flp, (fl rth); cbn in *; congruence). rewrite Efl, Ho in Hfo. injection Hfo as ->.
    exists (Some rth), s. done.
  - exists o. rewrite Ho, bind_ret. destruct o as [rt|]; [|by exists s]. exists (with_rcache (rt :: rcache s) s). split; [done|]. split; [|done].
    destruct (fresh_output_key flp s rt Hi Ho) as [Hz Hk]. intros x [->|Hx]%elem_of_cons; [|by apply (cached_same s _ x Hc ltac:(set_solver))].
    split; [intros _; exact Hk|done].
Qed.
Lemma get_dev_in s d : d ∈ interfaces s → (∀ x, x ∈ interfaces s → dev_addr x = dev_addr d → x = d) → get_dev (dev_addr d) s = Ret d.
Proof.
  intros Hd Hu. unfold get_dev. apply of_option_Ret. apply fmap_Some. destruct (list_find (λ x, dev_addr x = dev_addr d) (interfaces s)) as [[i x]|] eqn:El.
  - exists (i, x). split; [done|]. apply list_find_Some in El as (Hx & Ea & _). symmetry. apply Hu; [by eapply list_elem_of_lookup_2|done].
  - apply list_find_None in El. rewrite Forall_forall in El. by destruct (El d Hd).
Qed.
Lemma input_lookup s a d daddr saddr tos : tables_ok s → consistent s → get_dev a s = Ret d →
  ∃ o c s', fresh_input daddr saddr tos s = Ret (o, c) ∧ consistent s' ∧ same_search s s' ∧ routes s' = routes s ∧
    ip_route_input daddr saddr tos a s = Ret (if o then 0 else 1, o, s').
Proof.
  intros Ht Hc Ha. destruct (fresh_input_ret daddr saddr tos s Ht) as (o & c & Ho). unfold ip_route_input. rewrite Ha, bind_ret.
  assert (Hd : d ∈ interfaces s).
  { unfold get_dev in Ha. apply of_option_Ret in Ha. apply fmap_Some in Ha as ([i y] & (Hy & _)%list_find_Some & ->). by eapply list_elem_of_lookup_2. }
  destruct (List.find _ _) as [rth|] eqn:Ef.
  - apply find_hit in Ef as [Hin Hk]. unfold input_hit in Hk. key. destruct (Hc rth Hin) as [_ Hfi].
    destruct (Hfi ltac:(pose proof (to_index _ Ht d Hd); congruence)) as [_ Hfound]. assert (E : fresh_input daddr saddr tos s = Ret (Some rth, true)) by congruence.
    exists (Some rth), true, s. done.
  - exists o, c. rewrite Ho, bind_ret. cbv beta iota. destruct o as [rt|]; [|by exists s]. exists (if c then with_rcache (rt :: rcache s) s else s).
    split; [done|]. split; [|by destruct c]. destruct c; [|done].
    destruct (fresh_input_key _ _ _ _ rt Ht Ho) as (H1 & H2 & H3). intros x [->|Hx]%elem_of_cons; [|by apply (cached_same s _ x Hc ltac:(set_solver))].
    split; [done|]. intros _. by split.
Qed.

(** C5: the route cache does not show.  With tables in which nothing dangles and a cache
    that agrees with them, looking up a route for output or input gives what a search of
    interfaces and routes gives, and leaves a cache that agrees; so does the empty cache,
    and it stays so when a route that has its destructor is freed and when one is added at
    the end of the list. *)
Theorem route_cache_transparent s : tables_ok s →
  consistent (with_rcache [] s) ∧
  (consistent s →
   (∀ flp, iif flp = 0 → ∃ o s', fresh_output flp s = Ret o ∧ consistent s' ∧ same_search s s' ∧ routes s' = routes s ∧
      __ip_route_output_key false flp s = Ret (if o then 0 else 1, o, s')) ∧
   (∀ d daddr saddr tos, d ∈ interfaces s → (∀ x, x ∈ interfaces s → dev_addr x = dev_addr d → x = d) →
      ∃ o c s', fresh_input daddr saddr tos s = Ret (o, c) ∧ consistent s' ∧ same_search s s' ∧ routes s' = routes s ∧
      ip_route_input daddr saddr tos (dev_addr d) s = Ret (if o then 0 else 1, o, s')) ∧
   (∀ r, has_destructor r = true → consistent (free_route r s)) ∧
   (∀ r, consistent (with_routes (routes s ++ [r]) s))).
Proof.
  intros Ht. split; [by intros rt ?%not_elem_of_nil|]. intros Hc. split_and!.
  - intros flp Hi. by apply output_lookup.
  - intros d daddr saddr tos Hd Hu. apply (input_lookup s (dev_addr d) d daddr saddr tos Ht Hc). by apply get_dev_in.
  - intros r Hr. unfold free_route, destroy_rtables. rewrite Hr.
    apply (consistent_routes s (filter (λ x, route_addr x ≠ route_addr r) (routes s)) (filter (λ rt, owner rt ≠ route_addr r) (rcache s)) Hc).
    + intros rt Hin. by apply list_elem_of_filter in Hin as [_ ?].
    + intros rt P r' Hin Hf Hown. apply find_route_without; [done|]. apply list_elem_of_filter in Hin as [Hne _]. congruence.
  - intros r. apply (consistent_routes s (routes s ++ [r]) (rcache s) Hc); [done|]. intros rt P r' _ Hf _. by apply find_route_app.
Qed.

(** ** A host with loopback and one Ethernet device *)

Module Sample.
Definition lo_ifa := InIfaddr 0x7f000001 0x7f000001 0xff000000 0.
Definition eth_ifa := InIfaddr 0xc0a80001 0xc0a80001 0xffffff00 0xc0a800ff.
Definition lo := NetDevice 1 (tx "lo") 1 ETH_HLEN (Some [lo_ifa]).
Definition eth0 := NetDevice 2 (tx "eth0") 2 ETH_HLEN (Some [eth_ifa]).
Definition lo_route := Ipv4Route 3 0x7f000000 0xff000000 1 0x7f000001 (Some 1) true true.
Definition eth_route := Ipv4Route 4 0xc0a80000 0xffffff00 2 0xc0a80001 (Some 2) true true.
Definition host : rstate := RState [lo; eth0] [lo_route; eth_route] [] 1 3 5 [].
Definition aton (w : text) : option Z :=
  if streq w (tx "10.0.0.1") then Some 0x0a000001 else if streq w (tx "10.0.0.0") then Some 0x0a000000
  else if streq w (tx "192.168.0.0") then Some 0xc0a80000 else if streq w (tx "255.255.255.255") then Some 0xffffffff
  else if streq w (tx "255.0.0.0") then Some 0xff000000 else None.
Definition word (s : string) : text := tx s.
Definition flow (dst : Z) : flowi := Flowi 0 0 dst 0 0.
(** Commands one after the other; the build is big endian. *)
Definition after {A} (o : outcome (bool * A * rstate)) : outcome rstate := '(_, _, s) ← o; mret s.
Definition run_route (ws : list string) (s : rstate) : outcome rstate := after (route true aton 0 (map word ws) s).
Definition run_ifconfig (ws : list string) (s : rstate) : outcome rstate := '(_, s) ← ifconfig true aton eth_ifa (map word ws) s; mret s.
Definition look (dst : Z) (s : rstate) : outcome (option (Z * Z * Z) * rstate) :=
  '(_, r, s) ← __ip_route_output_key false (flow dst) s; mret (option_map (λ r, (dst_dev r, rt_src r, rt_gateway r)) r, s).
End Sample.
Import Sample.

Lemma host_ok : tables_ok host.
Proof.
  split.
  - intros r Hr. cbn in Hr. apply elem_of_cons in Hr as [->|Hr]; [split; [done|by exists lo]|].
    apply elem_of_cons in Hr as [->|Hr]; [split; [done|by exists eth0]|]. by apply not_elem_of_nil in Hr.
  - intros d Hd. cbn in Hd. apply elem_of_cons in Hd as [->|Hd]; [done|]. apply elem_of_cons in Hd as [->|Hd]; [done|]. by apply not_elem_of_nil in Hd.
Qed.

Lemma route_cache_transparent_witness :
  (∃ o s', fresh_output (flow 0xc0a80005) host = Ret o ∧ consistent s' ∧ same_search host s' ∧ routes s' = routes host ∧
     __ip_route_output_key false (flow 0xc0a80005) host = Ret (if o then 0 else 1, o, s')) ∧
  (r ← look 0xc0a80005 host; look 0xc0a80005 (snd r)) = (r ← look 0xc0a80005 host; Ret (Some (2, 0xc0a80001, 0xc0a80001), snd r)).
Proof.
  split; [|by vm_compute]. assert (Hc : consistent host) by (intros rt Hrt; by apply not_elem_of_nil in Hrt).
  apply (route_cache_transparent host host_ok); [exact Hc|done].
Defined.

(** ** What the commands leave behind *)

(** "route add" sets no destructor: "route del" frees the route inside the list. *)
Lemma route_del_dangles : (s ← run_route ["route"; "add"; "10.0.0.0/8"; "eth0"] host; s ← run_route ["route"; "del"; "10.0.0.0/8"] s; look 0xc0a80005 s)
  = Fault "route was freed".
Proof. by vm_compute. Qed.

(** An added route is no child of its device: it stays when the device goes. *)
Lemma ifconfig_down_dangles : (s ← run_route ["route"; "add"; "10.0.0.0/8"; "eth0"] host; s ← run_ifconfig ["ifconfig"; "eth0"; "down"] s; look 0x0a000005 s)
  = Fault "device was freed".
Proof. by vm_compute. Qed.

(** "route add" does not flush the cache: a destination looked up before keeps its way. *)
Lemma route_add_stale :
  ('(_, s) ← look 0xc0a80005 host; s ← run_route ["route"; "add"; "192.168.0.0/28"; "lo"] s; fst <$> look 0xc0a80005 s) = Ret (Some (2, 0xc0a80001, 0xc0a80001)) ∧
  (s ← run_route ["route"; "add"; "192.168.0.0/28"; "lo"] host; fst <$> look 0xc0a80005 s) = Ret (Some (1, 0x7f000001, 0)).
Proof. split; by vm_compute. Qed.

(** "mask 255.255.255.255" shifts a 32-bit number by 32. *)
Lemma host_mask_shift : run_route ["route"; "add"; "10.0.0.1"; "mask"; "255.255.255.255"; "eth0"] host = Fault "shift by 32".
Proof. by vm_compute. Qed.

(** A forwarded packet's route is cached under the device it leaves by. *)
Lemma input_cache_miss : ∃ s' rt, ip_route_input 0xc0a80005 0x7f000009 0 1 host = Ret (0, Some rt, s') ∧
  rt_iif rt = 2 ∧ ∃ s'', ip_route_input 0xc0a80005 0x7f000009 0 1 s' = Ret (0, Some rt, s'') ∧ length (rcache s'') = 2%nat.
Proof. do 2 eexists. split; [by vm_compute|]. split; [done|]. eexists. split; by vm_compute. Qed.

(** Without a broadcast address the word "up" is taken for one: no device, and no error. *)
Lemma ifconfig_up_silent : ifconfig true aton eth_ifa (map word ["ifconfig"; "eth1"; "10.0.0.1"; "8"; "up"]) host =
  Ret (true, RState [lo; eth0] [lo_route; eth_route] [] 1 4 6 [(NETDEV_UP, 0x0a000001)]).
Proof. by vm_compute. Qed.

(** "mask" and no broadcast address: inet_aton of the null pointer behind the words. *)
Lemma ifconfig_mask_null : run_ifconfig ["ifconfig"; "eth0"; "10.0.0.1"; "mask"; "255.0.0.0"] host = Fault "set_device: inet_aton of a null pointer".
Proof. by vm_compute. Qed.

(** A new address for a device: the cache still answers for the old one, and the routes stay. *)
Lemma ifconfig_address_stale :
  ('(_, s) ← look 0xc0a80001 host; s ← run_ifconfig ["ifconfig"; "eth0"; "10.0.0.1"; "8"] s; fst <$> look 0xc0a80001 s) = Ret (Some (1, 0, 0xc0a80001)) ∧
  (s ← run_ifconfig ["ifconfig"; "eth0"; "10.0.0.1"; "8"] host; fst <$> look 0xc0a80001 s) = Ret (Some (2, 0x0a000001, 0xc0a80001)).
Proof. split; by vm_compute. Qed.
