(* ===== verification/IpPath.v ===== *)
(** * core/ipv4/ipv4.c, core/core.c: the way of a packet through IPv4

    A packet is its socket buffer and the route it was given; the device is a member
    of the buffer.  The netfilter hooks are kernel code: [nf_hook_slow] is a parameter,
    and every call of it, like a packet received, sent or freed, leaves an event.  An
    event of a packet holds its bytes; Describe has the text that is logged. *)

From Stdlib Require Import ZArith Lia.
From S2P Require Import Prelude Mem Csum Skb KernLib Route.

Record packet := Packet { skb : sk_buff; skb_dst : option rtable }.

Definition NF_IP_PRE_ROUTING : Z := 0.
Definition NF_IP_LOCAL_IN : Z := 1.
Definition NF_IP_FORWARD : Z := 2.
Definition NF_IP_LOCAL_OUT : Z := 3.
Definition NF_IP_POST_ROUTING : Z := 4.
Definition ETH_P_IP : Z := 0x0800.
Definition IP_OFFSET : Z := 0x1FFF.
Definition IPPROTO_ICMP : Z := 1.
Definition ICMP_ECHOREPLY : Z := 0.
Definition ICMP_ECHO : Z := 8.
Definition ICMP_TIME_EXCEEDED : Z := 11.
Definition ICMP_EXC_TTL : Z := 0.
Definition ICMP_TIMESTAMP : Z := 13.
Definition NR_ICMP_TYPES : Z := 18.
Definition IPTOS_TOS_MASK : Z := 0x1E.
Definition IPTOS_PREC_INTERNETCONTROL : Z := 0xc0.
Definition RT_TOS (tos : Z) : Z := Z.land tos IPTOS_TOS_MASK.
Definition MAXTTL : Z := 255.
Definition PACKET_HOST : Z := 0.
Definition HH_DATA_MOD : Z := 16.

Inductive event :=
| Rcv (dev : Z) (bytes : list Z)
| RcvLocal
| Hook (hook : Z) (indev outdev : option Z)
| NoRoute
| TtlExpired
| Send (dev : Z) (bytes : list Z)
| SendLocal (bytes : list Z)
| Freed (seqno : Z).

Record net_device_stats := Stats { rxpackets : Z; txpackets : Z; rxbytes : Z; txbytes : Z }.
Record world := World {
  tables : rstate;
  stats : gmap Z net_device_stats;
  (** what should_i_fail answers from here on; it says no behind the end *)
  fails : list bool;
  nfsim_seq : Z;
  trace : list event;
}.
Definition emit (e : event) (w : world) : world := World (tables w) (stats w) (fails w) (nfsim_seq w) (trace w ++ [e]).
Definition with_tables (t : rstate) (w : world) : world := World t (stats w) (fails w) (nfsim_seq w) (trace w).
Definition with_seq (q : Z) (w : world) : world := World (tables w) (stats w) (fails w) q (trace w).
Definition should_i_fail (w : world) : bool * world :=
  (default false (head (fails w)), World (tables w) (stats w) (List.tl (fails w)) (nfsim_seq w) (trace w)).

Definition no_stats : net_device_stats := Stats 0 0 0 0.
(** The counters are unsigned long; [W] is its width. *)
Definition count_rx (W d n : Z) (w : world) : world :=
  let x := default no_stats (stats w !! d) in
  World (tables w) (<[d := Stats (wrap W (rxpackets x + 1)) (txpackets x) (wrap W (rxbytes x + n)) (txbytes x)]> (stats w)) (fails w) (nfsim_seq w) (trace w).
Definition count_tx (W d n : Z) (w : world) : world :=
  let x := default no_stats (stats w !! d) in
  World (tables w) (<[d := Stats (rxpackets x) (wrap W (txpackets x + 1)) (rxbytes x) (wrap W (txbytes x + n))]> (stats w)) (fails w) (nfsim_seq w) (trace w).

(** Members of the structure a header pointer points to. *)
Definition field (big : bool) (n : nat) (p : Z) (s : sk_buff) : outcome Z := bs ← slice p (Z.of_nat n) (mem s); mret (word big bs).
Definition set_bytes (p : Z) (bs : list Z) (s : sk_buff) : outcome sk_buff := m ← store p bs (mem s); mret (with_mem m s).

Definition with_dev (d : Z) (s : sk_buff) : sk_buff :=
  let x := hdr s in
  with_hdr (SkbHdr d (seq x) (local_df x) (csum x) (ip_summed x) (nfmark x) (nfcache x) (nfct x) (nfctinfo x) (dst x) (dump_flags x)) s.
Definition with_protocol (v : Z) (s : sk_buff) : sk_buff :=
  SkBuff (hdr s) (sk s) (destructor s) (mac s) (nh s) (h s) v (pkt_type s) (priority s)
    (users s) (cloned s) (len s) (mem s) (data s) (tail s) (end_ s) (extra s) (tso_size s).

Section Path.
Context (big : bool) (W : Z) (fresh : Z → list Z).
(** The address of the first byte of a fresh buffer. *)
Context (addr : Z).
(** 1: every hook accepted; otherwise the packet is no longer the caller's. *)
Context (nf_hook_slow : Z → packet → option Z → option Z → world → outcome (Z * packet * world)).
Context (nf_ct_attach : sk_buff → sk_buff → sk_buff).

Definition iph (n : nat) (off : Z) (s : sk_buff) : outcome Z := field big n (nh s + off) s.

Definition NF_HOOK (hook : Z) (p : packet) (indev outdev : option Z) (okfn : packet → world → outcome (Z * world)) (w : world) : outcome (Z * world) :=
  '(r, p, w) ← nf_hook_slow hook p indev outdev (emit (Hook hook indev outdev) w);
  if r =? 1 then okfn p w else mret (r, w).

Definition kfree_skb (p : packet) (w : world) : world := emit (Freed (seq (hdr (skb p)))) w.

Definition nf_send_local (p : packet) (w : world) : outcome (Z * world) :=
  mret (0, kfree_skb p (emit (SendLocal (contents (skb p))) w)).

Definition nf_send (p : packet) (w : world) : outcome (Z * world) :=
  let d := dev (hdr (skb p)) in
  _ ← get_dev d (tables w);
  mret (0, kfree_skb p (emit (Send d (contents (skb p))) (count_tx W d (len (skb p)) w))).

Definition ip_finish_output (p : packet) (w : world) : outcome (Z * world) :=
  rt ← of_option "ip_finish_output: no route" (skb_dst p);
  let d := dst_dev rt in
  NF_HOOK NF_IP_POST_ROUTING (Packet (with_protocol (htons big ETH_P_IP) (with_dev d (skb p))) (Some rt)) None (Some d) nf_send w.
Definition ip_output : packet → world → outcome (Z * world) := ip_finish_output.

(** Only ip_output is ever stored there. *)
Definition dst_output (p : packet) (w : world) : outcome (Z * world) :=
  match skb_dst p with
  | None => Barf "dst_output: assert (skb->dst)"
  | Some rt =>
      match dst_output rt with
      | FnNone => Barf "dst_output: assert (skb->dst->output)"
      | IpOutput => ip_output p w
      | IpLocalDeliver | IpForward => Fault "dst_output: not an output function"
      end
  end.

Definition ip_local_deliver (p : packet) (w : world) : outcome (Z * world) :=
  let d := dev (hdr (skb p)) in NF_HOOK NF_IP_LOCAL_IN p (Some d) None nf_send_local w.

(** ** ICMP errors *)

Definition is_icmp_error (type : Z) : bool :=
  ((type <? ICMP_TIMESTAMP) && negb (type =? ICMP_ECHOREPLY) && negb (type =? ICMP_ECHO)) || (NR_ICMP_TYPES <? type).

(** rt_flags: talloc_zero leaves it 0 and nothing sets it; the tests of it are left out. *)
Definition dst_pmtu : Z := 1500.
Definition LL_RESERVED_SPACE (d : net_device) : Z := Z.land (hard_header_len d) (Z.lnot (HH_DATA_MOD - 1)) + HH_DATA_MOD.

(** Is there to be an answer? *)
Definition icmp_wanted (s : sk_buff) (type : Z) (w : world) : outcome (bool * world) :=
  if negb (pkt_type s =? PACKET_HOST) then mret (false, w) else
  frag_off ← iph 2 6 s;
  if negb (Z.land frag_off (htons big IP_OFFSET) =? 0) then mret (false, w) else
  b0 ← iph 1 0 s;
  let hl := Z.land b0 0xf * 4 in
  if len s <? hl + 8 then mret (false, w) else
  protocol ← iph 1 9 s;
  if is_icmp_error type && (protocol =? IPPROTO_ICMP) then
    let '(f, w) := should_i_fail w in
    r ← skb_header_pointer f s hl 8;
    match r with
    | NullPtr => mret (false, w)
    | InPacket p => t ← field big 1 p s; mret (negb (is_icmp_error t), w)
    | InBuffer bs => mret (negb (is_icmp_error (nth 0 bs 0)), w)
    end
  else mret (true, w).

(** The bytes of the answer's IP header, before its checksum. *)
Definition icmp_iphdr (tos length saddr daddr : Z) : list Z :=
  [0x45; tos] ++ bytes big 2 (htons big length) ++ [0; 0; 0; 0; MAXTTL; IPPROTO_ICMP; 0; 0] ++ bytes big 4 saddr ++ bytes big 4 daddr.

(** The answer: 28 bytes of headers and as much of the packet as fits. *)
Definition icmp_build (s : sk_buff) (rt : rtable) (d : net_device) (type code tos length : Z) (nskb : sk_buff) : outcome sk_buff :=
  nskb ← skb_reserve nskb (LL_RESERVED_SPACE d);
  '(p, nskb) ← skb_put nskb 20;
  let hd := icmp_iphdr tos length (rt_src rt) (rt_dst rt) in
  c ← ip_fast_csum big (addr + p) hd 5;
  nskb ← set_bytes p (put16 big 10 c hd) (with_heads p (h nskb) nskb);
  '(q, nskb) ← skb_put nskb 8;
  nskb ← set_bytes q [type; code; 0; 0; 0; 0; 0; 0] (with_heads p q nskb);
  '(data, nskb) ← skb_put nskb (length - 28);
  bits ← skb_copy_bits s 0 (length - 28);
  nskb ← match bits with Some bs => set_bytes data bs nskb | None => mret nskb end;
  msg ← slice q (length - 20) (mem nskb);
  c ← ip_compute_csum big (addr + q) msg (length - 20);
  set_bytes (q + 2) (bytes big 2 (u16 c)) nskb.

Definition icmp_send (p : packet) (type code : Z) (w : world) : outcome world :=
  match skb_dst p with
  | None => mret w
  | Some _ =>
      let s := skb p in
      '(wanted, w) ← icmp_wanted s type w;
      if negb (wanted : bool) then mret w else
      tos ← iph 1 1 s;
      let tos := Z.lor (Z.land tos IPTOS_TOS_MASK) IPTOS_PREC_INTERNETCONTROL in
      saddr ← iph 4 12 s;
      let '(f, w) := should_i_fail w in
      '(err, rt, t) ← __ip_route_output_key f (Flowi 0 0 saddr 0 (RT_TOS tos)) (tables w);
      let w := with_tables t w in
      match rt with
      | None => mret w
      | Some rt =>
          let length := Z.min (Z.min (len s + 28) dst_pmtu) 576 in
          d ← get_dev (dst_dev rt) (tables w);
          let '(f, w) := should_i_fail w in
          let '(nskb, q) := alloc_skb fresh f (LL_RESERVED_SPACE d + length) (nfsim_seq w) in
          let w := with_seq q w in
          match nskb with
          | None => mret w
          | Some nskb =>
              nskb ← icmp_build s rt d type code tos length nskb;
              '(_, w) ← NF_HOOK NF_IP_LOCAL_OUT (Packet (nf_ct_attach nskb s) (Some rt)) None (Some (dst_dev rt)) ip_finish_output w;
              mret w
          end
      end
  end.

(** ** Forwarding, receiving *)

Definition ip_forward (p : packet) (w : world) : outcome (Z * world) :=
  let s := skb p in
  ttl ← iph 1 8 s;
  let ttl := u8 (ttl - 1) in
  s ← set_bytes (nh s + 8) [ttl] s;
  if ttl =? 0 then
    w ← icmp_send (Packet s (skb_dst p)) ICMP_TIME_EXCEEDED ICMP_EXC_TTL (emit TtlExpired w);
    mret (1, kfree_skb (Packet s (skb_dst p)) w)
  else
    s ← nfsim_update_skb s (nh s + 8) 1;
    check ← iph 2 10 s;
    let check := u32 (check + htons big 0x0100) in
    s ← set_bytes (nh s + 10) (bytes big 2 (u16 (check + c_bool (0xFFFF <=? check)))) s;
    s ← nfsim_update_skb s (nh s + 10) 2;
    rt ← of_option "ip_forward: no route" (skb_dst p);
    NF_HOOK NF_IP_FORWARD (Packet s (Some rt)) (Some (dev (hdr s))) (Some (dst_dev rt)) dst_output w.

(** Only ip_local_deliver and ip_forward are ever stored there. *)
Definition dst_input (p : packet) (w : world) : outcome (Z * world) :=
  match skb_dst p with
  | None => Barf "dst_input: assert (skb->dst)"
  | Some rt =>
      match dst_input rt with
      | FnNone => Barf "dst_input: assert (skb->dst->input)"
      | IpLocalDeliver => ip_local_deliver p w
      | IpForward => ip_forward p w
      | IpOutput => Fault "dst_input: not an input function"
      end
  end.

Definition ip_rcv_finish (p : packet) (w : world) : outcome (Z * world) :=
  let s := skb p in
  match skb_dst p with
  | Some _ => dst_input p w
  | None =>
      daddr ← iph 4 16 s; saddr ← iph 4 12 s; tos ← iph 1 1 s;
      '(err, rt, t) ← ip_route_input daddr saddr tos (dev (hdr s)) (tables w);
      let w := with_tables t w in
      if negb (err =? 0) then mret (-1, kfree_skb p (emit NoRoute w)) else dst_input (Packet s rt) w
  end.

Definition ip_rcv (p : packet) (w : world) : outcome (Z * world) :=
  let s := skb p in
  let d := dev (hdr s) in
  _ ← get_dev d (tables w);
  let w := count_rx W d (len s) w in
  '(_, s) ← skb_pull s (u32 (nh s - data s));
  NF_HOOK NF_IP_PRE_ROUTING (Packet s (skb_dst p)) (Some d) None ip_rcv_finish (emit (Rcv d (contents s)) w).

Definition ip_rcv_local (p : packet) (w : world) : outcome (Z * world) :=
  let w := emit RcvLocal w in
  '(_, s) ← skb_pull (skb p) (u32 (nh (skb p) - data (skb p)));
  let routed (rt : rtable) (w : world) :=
    let s := with_dev (dst_dev rt) s in
    NF_HOOK NF_IP_LOCAL_OUT (Packet s (Some rt)) None (Some (dst_dev rt)) dst_output w in
  match skb_dst p with
  | Some rt => routed rt w
  | None =>
      daddr ← iph 4 16 s; saddr ← iph 4 12 s; tos ← iph 1 1 s;
      let '(f, w) := should_i_fail w in
      '(err, rt, t) ← __ip_route_output_key f (Flowi 0 0 daddr saddr tos) (tables w);
      let w := with_tables t w in
      match rt with
      | None => mret (1, kfree_skb (Packet s None) (emit NoRoute w))
      | Some rt => routed rt w
      end
  end.

Definition nf_rcv := ip_rcv.
Definition nf_rcv_local := ip_rcv_local.

(** The identification of every packet is 0. *)
Definition ip_select_ident (iph : Z) (s : sk_buff) : outcome sk_buff := set_bytes (iph + 4) [0; 0] s.

(** Nothing is cut up. *)
Definition ip_fragment (p : packet) (output : packet → world → outcome (Z * world)) (w : world) : outcome (Z * world) :=
  '(_, w) ← output p w; mret (0, w).
End Path.

(** ** Writing into a packet *)

(** The linear part of the packet. *)
Lemma mem_window s off n : wf s → 0 <= off → 0 <= n → off + n <= len s → data s + off + n <= end_ s →
  slice (data s + off) n (mem s) = Ret (ztake n (zdrop off (contents s))).
Proof.
  intros Hs Ho Hn Hl He. pose proof (wf_data s Hs). pose proof (wf_mem s Hs). rewrite slice_ret by lia. f_equal.
  rewrite contents_window by done. unfold backing. rewrite zdrop_app_le by lia. rewrite ztake_app_le; [done|]. rewrite zlen_zdrop by lia. lia.
Qed.

(** Bytes written into the linear area and announced: the packet changes just there. *)
Lemma update_skb_store s p bs : wf s → clean s → data s <= p → p + zlen bs <= end_ s → p + zlen bs <= data s + len s →
  ∃ x, nfsim_update_skb (with_mem (splice p bs (mem s)) s) p (zlen bs) = Ret (with_extra x (with_mem (splice p bs (mem s)) s)) ∧
    let s' := with_extra x (with_mem (splice p bs (mem s)) s) in wf s' ∧ clean s' ∧ contents s' = splice (p - data s) bs (contents s).
Proof.
  intros Hs C Hp He Hl. pose proof (wf_data s Hs) as Hd. pose proof (wf_mem s Hs) as Hm. pose proof (zlen_nonneg bs) as Hb.
  pose proof (wf_end_small s Hs) as Hsm. pose proof (zlen_backing s Hs) as Hzb. pose proof (wf_small s Hs) as Hws. pose proof (wf_extra s Hs) as Hx. unfold extra_ok in Hx.
  set (s1 := with_mem (splice p bs (mem s)) s). assert (Hz1 : zlen (splice p bs (mem s)) = end_ s) by (rewrite zlen_splice; lia).
  assert (Hcont : ∀ x, zdrop (end_ s) (match x with Some x => x_data x | None => [] end) = zdrop (end_ s) (match extra s with Some x => x_data x | None => [] end) →
    backing (with_extra x s1) = splice p bs (backing s)).
  { intros x Ex. unfold backing, s1. cbn [mem with_extra with_mem end_ extra]. rewrite splice_app_l by lia. f_equal.
    assert (Hnil : ∀ k, zdrop k (@nil Z) = []) by (intros; apply drop_nil).
    destruct x, (extra s); rewrite ?Hnil in Ex; done. }
  assert (Hfit := wf_fit s Hs). assert (Hcon : ∀ x, backing (with_extra x s1) = splice p bs (backing s) → contents (with_extra x s1) = splice (p - data s) bs (contents s)).
  { intros x Eb. unfold contents. rewrite Eb. cbn [len data with_extra s1 with_mem]. apply window_splice; pose proof (wf_len s Hs); lia. }
  assert (Hwf : ∀ x, backing (with_extra x s1) = splice p bs (backing s) → extra_ok (with_extra x s1) → wf (with_extra x s1)).
  { intros x Eb Hok. split; cbn [len data with_extra s1 with_mem mem end_]; rewrite ?Eb, ?zlen_splice; try done; try lia; apply Hs. }
  unfold nfsim_update_skb. change (extra s1) with (extra s). destruct (extra s) as [x|] eqn:Ex.
  2: { exists None. assert (with_extra None s1 = s1) as E by (unfold s1, with_extra, with_mem; cbn; by rewrite Ex). cbv zeta. rewrite E. split; [done|].
    assert (Eb := Hcont None eq_refl). rewrite <-E. split; [by apply Hwf|]. split; [done|by apply Hcon]. }
  destruct Hx as (Hx1 & Hx2 & Hx3). rewrite (u32_small p), (u32_small (p + zlen bs)) by lia. rewrite (proj2 (Z.ltb_ge _ _)) by lia.
  destruct (Z.ltb_spec (x_writable_len x) (p + zlen bs)) as [Hlt|Hge].
  - change (mem s1) with (splice p bs (mem s)). rewrite slice_ret by lia. rewrite window_splice by lia. rewrite Z.sub_diag.
    assert (splice 0 bs (ztake (zlen bs) (zdrop p (mem s))) = bs) as ->.
    { unfold splice. rewrite ztake_0 by lia. rewrite zdrop_all; [by rewrite app_nil_r|]. rewrite zlen_ztake; [lia|]. rewrite zlen_zdrop; lia. }
    rewrite !bind_ret, store_splice by lia. rewrite !bind_ret. set (x' := ExtraInfo (splice p bs (x_data x)) _ _).
    assert (Eb : backing (with_extra (Some x') s1) = splice p bs (backing s)).
    { apply Hcont. cbn [x_data x']. apply zdrop_splice_ge; lia. }
    assert (Hw : wf (with_extra (Some x') s1)).
    { apply Hwf; [done|]. unfold extra_ok. cbn. rewrite zlen_splice by lia. done. }
    assert (Hc : clean (with_extra (Some x') s1)).
    { unfold clean in *. rewrite Ex in C. cbn. apply list_eq. intros i. apply (f_equal (.!! i)) in C. revert C.
      rewrite !lookup_ztake, !lookup_zdrop, !lookup_splice by lia. intros C. repeat case_decide; try done; lia. }
    exists (Some x'). split; [|split; [done|split; [done|by apply Hcon]]]. by rewrite check_packet_clean, bind_ret.
  - rewrite !bind_ret. assert (with_extra (Some x) s1 = s1) as E by (unfold s1, with_extra, with_mem; cbn; by rewrite Ex).
    assert (Eb : backing (with_extra (Some x) s1) = splice p bs (backing s)) by (by apply Hcont).
    assert (Hw : wf (with_extra (Some x) s1)) by (apply Hwf; [done|split_and!; cbn; lia]).
    assert (Hc : clean (with_extra (Some x) s1)).
    { unfold clean in *. rewrite Ex in C. cbn. rewrite <-C. apply zdrop_splice_ge; lia. }
    exists (Some x). split; [|split; [done|split; [done|by apply Hcon]]]. by rewrite check_packet_clean, bind_ret.
Qed.

(** *** A buffer being built *)

(** A linear buffer, its packet ending at [tail]. *)
Record building (s : sk_buff) : Prop := Building { bd_wf : wf s; bd_linear : extra s = None; bd_tail : tail s = data s + len s }.

Lemma set_bytes_building s p bs : building s → data s <= p → p + zlen bs <= data s + len s →
  let s' := with_mem (splice p bs (mem s)) s in set_bytes p bs s = Ret s' ∧ building s' ∧ contents s' = splice (p - data s) bs (contents s).
Proof.
  intros [Hs Hx Ht] Hp Hl s'. pose proof (wf_data s Hs). pose proof (wf_mem s Hs). pose proof (wf_fit s Hs) as Hf. rewrite (zlen_backing s Hs), Hx in Hf.
  assert (clean s) by (unfold clean; by rewrite Hx).
  destruct (update_skb_store s p bs) as (x & E & Hw & _ & Hc); try done; try lia. unfold nfsim_update_skb in E. change (extra (with_mem _ s)) with (extra s) in E.
  rewrite Hx in E. injection E as E. fold s' in E. rewrite <-E in Hw, Hc. unfold set_bytes. rewrite store_splice by lia.
  split; [done|]. split; [by split|done].
Qed.

(** skb_put and filling in what was put. *)
Lemma put_write s bs : building s → tail s + zlen bs <= end_ s →
  ∃ s1 s', skb_put s (zlen bs) = Ret (tail s, s1) ∧ set_bytes (tail s) bs s1 = Ret s' ∧ building s' ∧ contents s' = contents s ++ bs ∧
    s1 = with_ptrs (data s) (tail s + zlen bs) (len s + zlen bs) s ∧ s' = with_mem (splice (tail s) bs (mem s)) s1.
Proof.
  intros [Hs Hx Ht] He. pose proof (wf_data s Hs) as Hd. pose proof (wf_mem s Hs) as Hm. pose proof (wf_len s Hs) as Hl. pose proof (zlen_nonneg bs).
  pose proof (wf_end_small s Hs). pose proof (zlen_backing s Hs) as Hb. rewrite Hx in Hb. pose proof (zlen_contents s Hs) as Hzc.
  set (s1 := with_ptrs (data s) (tail s + zlen bs) (len s + zlen bs) s).
  assert (B1 : building s1).
  { split; [|done|cbn; lia]. split; [apply Hs|apply Hs| | |apply Hs|apply Hs]; change (backing s1) with (backing s); cbn [len data s1 with_ptrs]; lia. }
  destruct (set_bytes_building s1 (tail s) bs B1) as (E & B' & Hc); [cbn; lia..|].
  exists s1, (with_mem (splice (tail s) bs (mem s1)) s1). split_and!; try done.
  - unfold skb_put. rewrite (proj2 (Z.ltb_ge _ _)) by lia. by rewrite u32_small by lia.
  - rewrite Hc. assert (contents s = ztake (len s) (contents s1)) as ->.
    { unfold contents. change (backing s1) with (backing s). cbn [len data s1 with_ptrs]. by rewrite ztake_ztake by lia. }
    change (data s1) with (data s). replace (tail s - data s) with (len s) by lia. unfold splice. f_equal. rewrite zdrop_all; [by rewrite app_nil_r|].
    rewrite zlen_contents by apply B1. cbn. lia.
Qed.

(** ** The way of a packet *)

(** A packet whose IP header is in the linear area. *)
Record ready (s : sk_buff) : Prop := Ready {
  rd_wf : wf s;
  rd_clean : clean s;
  rd_nh : data s <= nh s;
  rd_linear : nh s + 20 <= end_ s;
  rd_len : nh s - data s + 20 <= len s;
}.
Definition pulled (s : sk_buff) : sk_buff := with_ptrs (nh s) (tail s) (len s - (nh s - data s)) s.
(** The datagram from its IP header on. *)
Definition datagram (s : sk_buff) : list Z := zdrop (nh s - data s) (contents s).

Lemma pull_ready s : ready s → skb_pull s (u32 (nh s - data s)) = Ret (nh s, pulled s) ∧ ready (pulled s) ∧ contents (pulled s) = datagram s.
Proof.
  intros [Hs C Hn He Hl]. pose proof (wf_data s Hs). pose proof (wf_end_small s Hs). pose proof (wf_fit s Hs). pose proof (wf_small s Hs).
  rewrite u32_small by lia. unfold skb_pull. rewrite (proj2 (Z.ltb_ge _ _)) by lia. replace (data s + (nh s - data s)) with (nh s) by lia.
  rewrite (u32_small (len s - _)) by lia. split; [done|]. split.
  - split; cbn [data nh end_ len pulled with_ptrs]; try lia.
    + split; [apply Hs| | | |apply Hs|apply Hs]; change (backing (pulled s)) with (backing s); cbn [data end_ len with_ptrs pulled]; lia.
    + exact C.
  - unfold datagram, contents, pulled. cbn [len data with_ptrs]. change (backing (with_ptrs _ _ _ s)) with (backing s).
    rewrite zdrop_ztake by lia. rewrite zdrop_zdrop by lia. do 2 f_equal. lia.
Qed.

Lemma iph_ready big s n off : ready s → data s = nh s → 0 <= off → off + Z.of_nat n <= 20 →
  iph big n off s = Ret (word big (take n (drop (Z.to_nat off) (contents s)))).
Proof.
  intros [Hs C Hn He Hl] Hd Ho Hf. unfold iph, field. rewrite <-Hd, mem_window by (try done; lia). rewrite bind_ret. unfold ztake, zdrop.
  by rewrite Nat2Z.id.
Qed.

Lemma word_1 big l : word big (take 1 l) = nth 0 l 0.
Proof. destruct l as [|b l]; [by destruct big|]. destruct big; change (b + 256 * 0 = b); lia. Qed.

Lemma nth_drop k l : nth 0 (drop k l) (0 : Z) = nth k l 0.
Proof. revert l. induction k as [|k IH]; intros [|x l]; try done. apply IH. Qed.

Lemma splice_insert {A} (l : list A) i v : (i < length l)%nat → splice (Z.of_nat i) [v] l = <[i := v]> l.
Proof.
  intros. unfold splice, ztake, zdrop. change (zlen [v]) with 1. rewrite insert_take_drop by done.
  replace (Z.to_nat (Z.of_nat i)) with i by lia. by replace (Z.to_nat (Z.of_nat i + 1)) with (S i) by lia.
Qed.
Lemma splice_put16 big off v l : splice (Z.of_nat off) (bytes big 2 v) l = put16 big off v l.
Proof.
  unfold splice, put16, ztake, zdrop. assert (zlen (bytes big 2 v) = 2) as -> by (unfold zlen; by rewrite length_bytes).
  replace (Z.to_nat (Z.of_nat off)) with off by lia. by replace (Z.to_nat (Z.of_nat off + 2)) with (off + 2)%nat by lia.
Qed.

(** ip_forward with a ttl that does not run out: the header is updated, then the hooks. *)
Lemma ip_forward_ready big W fresh addr nf ct s rt w : ready s → data s = nh s → u8 (nth 8 (contents s) 0 - 1) ≠ 0 →
  ∃ s', ip_forward big W fresh addr nf ct (Packet s (Some rt)) w =
      NF_HOOK nf NF_IP_FORWARD (Packet s' (Some rt)) (Some (dev (hdr s))) (Some (dst_dev rt)) (dst_output big W nf) w ∧
    contents s' = forward_check big (contents s) ∧ hdr s' = hdr s ∧ wf s' ∧ clean s' ∧ len s' = len s.
Proof.
  intros R Hd Ht. pose proof R as [Hs C Hn He Hl]. pose proof (wf_data s Hs). pose proof (wf_mem s Hs) as Hm. pose proof (zlen_contents s Hs) as Hzc.
  unfold ip_forward. cbn [skb skb_dst]. rewrite iph_ready by (done || lia). rewrite bind_ret, word_1. change (Z.to_nat 8) with 8%nat. assert (nth 0 (drop 8 (contents s)) 0 = nth 8 (contents s) 0) as -> by apply nth_drop.
  set (ttl := u8 (nth 8 (contents s) 0 - 1)) in *. unfold set_bytes. rewrite store_splice by (change (zlen [ttl]) with 1; lia). rewrite !bind_ret.
  rewrite (proj2 (Z.eqb_neq _ _) Ht).
  destruct (update_skb_store s (nh s + 8) [ttl] Hs C) as (x & E & Hs1 & C1 & Hc1); [change (zlen [ttl]) with 1; lia..|]. change (zlen [ttl]) with 1 in E.
  change (nh (with_mem _ s)) with (nh s). rewrite E, bind_ret. set (s1 := with_extra x _) in *.
  assert (R1 : ready s1) by (split; done || lia). assert (Hd1 : data s1 = nh s1) by done. assert (En : nh s1 = nh s) by done.
  assert (Eh : hdr s1 = hdr s) by done. assert (El : len s1 = len s) by done. assert (Ee : end_ s1 = end_ s) by done. clearbody s1. rewrite iph_ready by (done || lia). rewrite bind_ret.
  change (word big (take 2 (drop (Z.to_nat 10) (contents s1)))) with (get16 big 10 (contents s1)). unfold set_bytes.
  assert (Hlb : ∀ v, zlen (bytes big 2 v) = 2) by (intros; unfold zlen; by rewrite length_bytes).
  rewrite store_splice by (rewrite ?Hlb, ?(wf_mem s1 Hs1); lia). rewrite !bind_ret.
  destruct (update_skb_store s1 (nh s1 + 10) (bytes big 2 (u16 (u32 (get16 big 10 (contents s1) + htons big 0x0100) + c_bool (0xFFFF <=? u32 (get16 big 10 (contents s1) + htons big 0x0100))))) Hs1 C1) as (y & E' & Hs2 & C2 & Hc2); [rewrite ?Hlb; lia..|].
  rewrite Hlb in E'. change (nh (with_mem _ s1)) with (nh s1). rewrite E', !bind_ret. eexists. split; [rewrite <-Eh; reflexivity|]. split_and!; try done.
  rewrite Hc2, Hd1. replace (nh s1 + 10 - nh s1) with (Z.of_nat 10) by lia. rewrite splice_put16, Hc1, Hd. unfold forward_check.
  replace (nh s + 8 - nh s) with (Z.of_nat 8) by lia. rewrite splice_insert; [done|]. unfold zlen in Hzc. lia.
Qed.

(** What is to be seen of a packet: hooks one after the other until one refuses, and the
    end when none does. *)
Fixpoint walk (verdict : Z → Z) (steps : list (Z * option Z * option Z)) (fin : Z * list event) : Z * list event :=
  match steps with
  | [] => fin
  | (hook, i, o) :: steps =>
      let '(r, evs) := if verdict hook =? 1 then walk verdict steps fin else (verdict hook, []) in (r, Hook hook i o :: evs)
  end.
(** Hooks that decide by where they are and leave the packet as it is. *)
Definition hooks_decide (verdict : Z → Z) (nf : Z → packet → option Z → option Z → world → outcome (Z * packet * world)) : Prop :=
  ∀ hook p i o w, nf hook p i o w = Ret (verdict hook, p, w).

(** Nothing dangles, and the loopback device is there. *)
Definition host_fine (t : rstate) : Prop := tables_ok t ∧ consistent t ∧ ∃ l, get_dev (loopback_dev t) t = Ret l.

Definition ends (m : outcome (Z * world)) (w : world) (r : Z * list event) : Prop :=
  ∃ w', m = Ret (fst r, w') ∧ trace w' = trace w ++ snd r ∧ host_fine (tables w').

Section Way.
Context (big : bool) (W : Z) (fresh : Z → list Z) (addr : Z) (nf : Z → packet → option Z → option Z → world → outcome (Z * packet * world)) (ct : sk_buff → sk_buff → sk_buff).
Context (verdict : Z → Z) (Hnf : hooks_decide verdict nf).

Lemma hook_ends hook p i o okfn w steps fin :
  (verdict hook = 1 → ends (okfn p (emit (Hook hook i o) w)) (emit (Hook hook i o) w) (walk verdict steps fin)) → host_fine (tables w) →
  ends (NF_HOOK nf hook p i o okfn w) w (walk verdict ((hook, i, o) :: steps) fin).
Proof using Hnf.
  intros H Hok. unfold NF_HOOK. rewrite Hnf, bind_ret. cbv beta iota. cbn [walk]. destruct (Z.eqb_spec (verdict hook) 1) as [E|E].
  - destruct (H E) as (w' & -> & Ht & Hb). exists w'. destruct (walk verdict steps fin) as [r evs]. cbn [fst snd] in *. split; [done|].
    split; [|done]. rewrite Ht. cbn [trace emit]. by rewrite <-app_assoc.
  - eexists. split; [done|]. by cbn.
Qed.

Definition sent (d : Z) (bs : list Z) (s : sk_buff) : Z * list event := (0, [Send d bs; Freed (seq (hdr s))]).

Lemma output_ends p rt w : skb_dst p = Some rt → Route.dst_output rt = IpOutput → (∃ d, get_dev (dst_dev rt) (tables w) = Ret d) → host_fine (tables w) →
  ends (dst_output big W nf p w) w (walk verdict [(NF_IP_POST_ROUTING, None, Some (dst_dev rt))] (sent (dst_dev rt) (contents (skb p)) (skb p))).
Proof using Hnf.
  intros Hp Ho [d Hd] Hok. unfold dst_output. rewrite Hp, Ho. unfold ip_output, ip_finish_output. rewrite Hp. cbn [of_option]. rewrite bind_ret. cbv zeta.
  apply hook_ends; [|done]. intros _. cbn [walk]. unfold nf_send. cbn [skb hdr dev with_protocol with_dev with_hdr tables emit]. rewrite Hd, bind_ret.
  eexists. split; [done|]. split; [|done]. cbn. by rewrite <-!app_assoc.
Qed.

(** The addresses and the type of service of a datagram. *)
Definition saddr_of (dg : list Z) : Z := word big (take 4 (drop 12 dg)).
Definition daddr_of (dg : list Z) : Z := word big (take 4 (drop 16 dg)).
Definition tos_of (dg : list Z) : Z := nth 1 dg 0.

(** What becomes of a datagram that came in by [d], given where the search leads. *)
Definition steps_in (d : Z) (dg : list Z) (s : sk_buff) (o : option rtable) : list (Z * option Z * option Z) * (Z * list event) :=
  match o with
  | None => ([], (-1, [NoRoute; Freed (seq (hdr s))]))
  | Some rt =>
      match Route.dst_input rt with
      | IpLocalDeliver => ([(NF_IP_LOCAL_IN, Some d, None)], (0, [SendLocal dg; Freed (seq (hdr s))]))
      | _ => ([(NF_IP_FORWARD, Some d, Some (dst_dev rt)); (NF_IP_POST_ROUTING, None, Some (dst_dev rt))], sent (dst_dev rt) (forward_check big dg) s)
      end
  end.
Definition way_in (d : Z) (dg : list Z) (s : sk_buff) (o : option rtable) : Z * list event :=
  walk verdict ((NF_IP_PRE_ROUTING, Some d, None) :: fst (steps_in d dg s o)) (snd (steps_in d dg s o)).
(** And of one the host sends. *)
Definition way_out (dg : list Z) (s : sk_buff) (o : option rtable) : Z * list event :=
  match o with
  | None => (1, [NoRoute; Freed (seq (hdr s))])
  | Some rt => walk verdict [(NF_IP_LOCAL_OUT, None, Some (dst_dev rt)); (NF_IP_POST_ROUTING, None, Some (dst_dev rt))] (sent (dst_dev rt) dg s)
  end.
End Way.

Lemma same_host t t' : host_fine t → same_search t t' → routes t' = routes t → consistent t' → host_fine t'.
Proof.
  intros (Ht & Hc & l & Hl) Es Er Hc'. pose proof Es as [E1 E2]. split; [|split; [done|]].
  - split; [|rewrite E1; apply Ht]. rewrite Er. intros r Hr. destruct (to_live _ Ht r Hr) as [? [x Hx]]. split; [done|]. exists x. by rewrite (get_dev_same t t').
  - exists l. by rewrite E2, (get_dev_same t t').
Qed.

(** Where a search leads there is a device. *)
Lemma input_found d sr t h rt c : host_fine h → fresh_input d sr t h = Ret (Some rt, c) →
  (Route.dst_input rt = IpLocalDeliver ∨ Route.dst_input rt = IpForward ∧ Route.dst_output rt = IpOutput) ∧ ∃ x, get_dev (dst_dev rt) h = Ret x.
Proof.
  intros (Ht & _ & l & Hl). unfold fresh_input. destruct (local_dev _ _); [intros [= <- <-]; split; [by left|by exists l]|].
  intros ([r|] & Hf & H)%bind_Ret_inv; [|done]. apply bind_Ret_inv in H as (x & Hx & H). injection H as <- <-. split; [by right|by exists x].
Qed.
Lemma output_found flp h rt : host_fine h → fresh_output flp h = Ret (Some rt) → Route.dst_output rt = IpOutput ∧ ∃ x, get_dev (dst_dev rt) h = Ret x.
Proof.
  intros (Ht & _ & l & Hl). unfold fresh_output. destruct (local_dev _ _); [intros [= <-]; split; [done|by exists l]|].
  intros ([r|] & Hf & H)%bind_Ret_inv; [|done]. apply bind_Ret_inv in H as (src & Hs & H). apply bind_Ret_inv in H as (x & Hx & H). injection H as <-. split; [done|by exists x].
Qed.

Lemma ready_addr s big : ready s → data s = nh s →
  iph big 4 16 s = Ret (daddr_of big (contents s)) ∧ iph big 4 12 s = Ret (saddr_of big (contents s)) ∧ iph big 1 1 s = Ret (tos_of (contents s)).
Proof.
  intros R Hd. split_and!; [by rewrite iph_ready by (done || lia)..|]. rewrite iph_ready by (done || lia). rewrite word_1. unfold tos_of. f_equal. apply nth_drop.
Qed.

Section Receive.
Context (big : bool) (W : Z) (fresh : Z → list Z) (addr : Z) (nf : Z → packet → option Z → option Z → world → outcome (Z * packet * world)) (ct : sk_buff → sk_buff → sk_buff).
Context (verdict : Z → Z) (Hnf : hooks_decide verdict nf).
(** The packet once it has been pulled. *)
Context (s : sk_buff) (R : ready s) (Hd : data s = nh s).

Lemma dst_input_ends rt w : host_fine (tables w) →
  (Route.dst_input rt = IpLocalDeliver ∨ Route.dst_input rt = IpForward ∧ Route.dst_output rt = IpOutput) → (∃ x, get_dev (dst_dev rt) (tables w) = Ret x) →
  (Route.dst_input rt = IpForward → u8 (nth 8 (contents s) 0 - 1) ≠ 0) →
  let r := steps_in big (dev (hdr s)) (contents s) s (Some rt) in
  ends (dst_input big W fresh addr nf ct (Packet s (Some rt)) w) w (walk verdict (fst r) (snd r)).
Proof using Hnf R Hd.
  intros Hok Hin Hx Ht. unfold dst_input, steps_in. cbn [skb_dst]. destruct Hin as [->|[Ei Eo]].
  - unfold ip_local_deliver. cbn [skb fst snd]. apply hook_ends; [done| |done]. intros _. eexists. split; [done|]. split; [cbn; by rewrite <-!app_assoc|done].
  - rewrite Ei. destruct (ip_forward_ready big W fresh addr nf ct s rt w R Hd (Ht Ei)) as (s' & -> & Hc & Eh & _). cbn [fst snd].
    apply hook_ends; [done| |done]. intros _. rewrite <-Hc. unfold sent. rewrite <-Eh. by apply (output_ends big W nf verdict Hnf (Packet s' (Some rt))).
Qed.

Lemma rcv_finish_ends w o c t x : get_dev (dev (hdr s)) (tables w) = Ret x → host_fine (tables w) →
  fresh_input (daddr_of big (contents s)) (saddr_of big (contents s)) (tos_of (contents s)) (tables w) = Ret (o, c) →
  same_search (tables w) t → routes t = routes (tables w) → consistent t →
  ip_route_input (daddr_of big (contents s)) (saddr_of big (contents s)) (tos_of (contents s)) (dev (hdr s)) (tables w) = Ret (if o then 0 else 1, o, t) →
  (∀ rt, o = Some rt → Route.dst_input rt = IpForward → u8 (nth 8 (contents s) 0 - 1) ≠ 0) →
  let r := steps_in big (dev (hdr s)) (contents s) s o in
  ends (ip_rcv_finish big W fresh addr nf ct (Packet s None) w) w (walk verdict (fst r) (snd r)).
Proof using Hnf R Hd.
  intros Hx Hok Hf Hs Hr Hc Hi Ht. destruct (ready_addr s big R Hd) as (E1 & E2 & E3). unfold ip_rcv_finish. cbn [skb skb_dst].
  rewrite E1, bind_ret, E2, bind_ret, E3, bind_ret, Hi, bind_ret. cbv beta iota zeta. assert (Ht' : host_fine t) by (by apply (same_host (tables w))).
  destruct o as [rt|].
  - change (negb (0 =? 0)) with false. cbv iota. destruct (input_found _ _ _ _ rt c Hok Hf) as [Hin [y Hy]].
    destruct (dst_input_ends rt (with_tables t w)) as (w' & E & Htr & Hw); try done; [exists y; by rewrite <-Hy; apply get_dev_same|by apply Ht|].
    exists w'. by split.
  - eexists. split; [done|]. split; [cbn; by rewrite <-!app_assoc|done].
Qed.
End Receive.

(** C1: the way of a packet.  With hooks that decide where it is seen and leave it alone,
    a packet that comes in is seen by PRE_ROUTING; with no route it is freed; one for the
    host is seen by LOCAL_IN and delivered as it came; one with a route is seen by FORWARD
    and POST_ROUTING and sent by the route's device with its ttl and checksum updated and
    nothing else changed, unless the ttl runs out.  One that the host sends is seen by
    LOCAL_OUT and POST_ROUTING and sent as it is.  A hook that refuses ends the way there.
    The tables of routes stay in order. *)
Theorem packet_way (big : bool) (W : Z) (fresh : Z → list Z) (addr : Z) nf ct (verdict : Z → Z) (p : packet) (w : world) (d0 : net_device) :
  let s := skb p in let d := dev (hdr s) in let dg := datagram s in
  hooks_decide verdict nf → ready s → skb_dst p = None → host_fine (tables w) → get_dev d (tables w) = Ret d0 →
  (∃ o c, fresh_input (daddr_of big dg) (saddr_of big dg) (tos_of dg) (tables w) = Ret (o, c) ∧
     ((∀ rt, o = Some rt → Route.dst_input rt = IpForward → u8 (nth 8 dg 0 - 1) ≠ 0) →
      let r := way_in big verdict d dg s o in
      ∃ w', ip_rcv big W fresh addr nf ct p w = Ret (fst r, w') ∧ trace w' = trace w ++ Rcv d dg :: snd r ∧ host_fine (tables w'))) ∧
  (∃ o, fresh_output (Flowi 0 0 (daddr_of big dg) (saddr_of big dg) (tos_of dg)) (tables w) = Ret o ∧
     let r := way_out verdict dg s (if fst (should_i_fail w) then None else o) in
     ∃ w', ip_rcv_local big W nf p w = Ret (fst r, w') ∧ trace w' = trace w ++ RcvLocal :: snd r ∧ host_fine (tables w')).
Proof.
  intros s d dg Hnf R Hdst Hok Hdev. destruct (pull_ready s R) as (Hpull & R' & Hdg). fold dg in Hdg.
  assert (Hdp : data (pulled s) = nh (pulled s)) by done. destruct (ready_addr (pulled s) big R' Hdp) as (Ed & Es & Et). rewrite Hdg in Ed, Es, Et.
  destruct Hok as (Hto & Hco & Hlo) eqn:Eok. clear Eok. assert (Hok' : host_fine (tables w)) by done. split.
  - destruct (input_lookup (tables w) d d0 (daddr_of big dg) (saddr_of big dg) (tos_of dg) Hto Hco Hdev) as (o & c & t & Hf & Hct & Hss & Hrt & Hi).
    exists o, c. split; [done|]. intros Ht r. unfold ip_rcv. fold s d. rewrite Hdev, bind_ret. cbv zeta. rewrite Hpull, bind_ret, Hdst, Hdg. cbv beta iota.
    set (w1 := emit (Rcv d dg) _). destruct (hook_ends nf verdict Hnf NF_IP_PRE_ROUTING (Packet (pulled s) None) (Some d) None (ip_rcv_finish big W fresh addr nf ct)
      w1 (fst (steps_in big d dg s o)) (snd (steps_in big d dg s o))) as (w' & E & Htr & Hw); [|done|].
    + intros _. rewrite <-Hdg. eapply (rcv_finish_ends big W fresh addr nf ct verdict Hnf (pulled s) R' Hdp); try done; rewrite Hdg; done.
    + exists w'. split; [done|]. split; [|done]. rewrite Htr. unfold w1. cbn. by rewrite <-app_assoc.
  - destruct (output_lookup (tables w) (Flowi 0 0 (daddr_of big dg) (saddr_of big dg) (tos_of dg)) Hto Hco eq_refl) as (o & t & Hf & Hct & Hss & Hrt & Hi).
    exists o. split; [done|]. unfold ip_rcv_local. cbv zeta. fold s. rewrite Hpull, bind_ret, Hdst. cbv beta iota.
    rewrite Ed, bind_ret, Es, bind_ret, Et, bind_ret.
    set (w1 := snd (should_i_fail (emit RcvLocal w))). change (should_i_fail (emit RcvLocal w)) with (fst (should_i_fail w), w1). cbv beta iota.
    destruct (fst (should_i_fail w)).
    + eexists. split; [done|]. split; [cbn; by rewrite <-!app_assoc|done].
    + change (tables w1) with (tables w). rewrite Hi, bind_ret. cbv beta iota. destruct o as [rt|]; cbn [way_out].
      * destruct (output_found _ _ rt Hok' Hf) as [Ho [y Hy]]. assert (Hok2 : host_fine (tables (with_tables t w1))) by (by apply (same_host (tables w))).
        set (s' := with_dev (dst_dev rt) (pulled s)). assert (Hc' : contents s' = dg) by exact Hdg.
        destruct (hook_ends nf verdict Hnf NF_IP_LOCAL_OUT (Packet s' (Some rt)) None (Some (dst_dev rt)) (dst_output big W nf) (with_tables t w1)
          [(NF_IP_POST_ROUTING, None, Some (dst_dev rt))] (sent (dst_dev rt) dg s)) as (w' & E & Htr & Hw); [|done|].
        -- intros _. rewrite <-Hc'. apply (output_ends big W nf verdict Hnf (Packet s' (Some rt))); try done. exists y. rewrite <-Hy. by apply get_dev_same.
        -- exists w'. split; [done|]. split; [|done]. rewrite Htr. cbn. by rewrite <-app_assoc.
      * eexists. split; [done|]. split; [cbn; by rewrite <-!app_assoc|]. by apply (same_host (tables w)).
Qed.

(** ** A host and its packets *)

Module Journey.
Definition accept : Z → packet → option Z → option Z → world → outcome (Z * packet * world) := λ _ p _ _ w, Ret (1, p, w).
(** 28 bytes from 192.168.0.9 by eth0 behind an Ethernet header; big endian. *)
Definition dgram (ttl a b c d : Z) : list Z := [0x45; 0; 0; 28; 0; 0; 0; 0; ttl; 17; 0; 0; 192; 168; 0; 9; a; b; c; d; 0; 7; 0; 9; 0; 8; 0; 0].
Definition frame (ttl a b c d : Z) : list Z := replicate 14 0 ++ dgram ttl a b c d.
Definition eth_hdr (device : Z) : skb_hdr := SkbHdr device 5 0 0 0 0 0 0 0 0 None.
Definition linear (bs : list Z) : sk_buff := SkBuff (eth_hdr 2) 0 None 0 14 34 0 0 0 1 0 42 bs 0 42 42 None 0.
(** With the master copy, nothing writable. *)
Definition guarded (bs : list Z) : sk_buff := SkBuff (eth_hdr 2) 0 None 0 14 34 0 0 0 1 0 42 bs 0 42 42 (Some (ExtraInfo bs 42 0)) 0.
Definition start : world := World Sample.host ∅ [] 5 [].
Definition arrive (s : sk_buff) : outcome (Z * list event) :=
  '(r, w) ← ip_rcv true 64 zeros 0 accept (λ n _, n) (Packet s None) start; mret (r, trace w).
Definition to_lo := frame 64 192 168 0 1.
Definition onward (ttl : Z) := frame ttl 127 0 0 9.
End Journey.
Import Journey.

Lemma sample_host_ok : host_fine Sample.host.
Proof. split; [exact Route.host_ok|split; [intros rt Hrt; by apply not_elem_of_nil in Hrt|by exists Sample.lo]]. Qed.

Lemma onward_ready : ready (guarded (onward 64)).
Proof.
  split; cbn; try lia; [|by vm_compute]. split; cbn; try lia; try (by vm_compute); vm_compute; split_and!; done.
Qed.

Lemma packet_way_witness :
  (∃ o c, fresh_input (0x7f000009) (0xc0a80009) 0 Sample.host = Ret (o, c) ∧
     ((∀ rt, o = Some rt → Route.dst_input rt = IpForward → u8 (64 - 1) ≠ 0) →
      let r := way_in true (λ _, 1) 2 (dgram 64 127 0 0 9) (guarded (onward 64)) o in
      ∃ w', ip_rcv true 64 zeros 0 accept (λ n _, n) (Packet (guarded (onward 64)) None) start = Ret (fst r, w') ∧
        trace w' = Rcv 2 (dgram 64 127 0 0 9) :: snd r ∧ host_fine (tables w'))) ∧
  arrive (guarded (onward 64)) = Ret (0, [Rcv 2 (dgram 64 127 0 0 9); Hook 0 (Some 2) None; Hook 2 (Some 2) (Some 1); Hook 4 None (Some 1);
    Send 1 (put16 true 10 0x0100 (dgram 63 127 0 0 9)); Freed 5]).
Proof.
  split; [|by vm_compute].
  apply (packet_way true 64 zeros 0 accept (λ n _, n) (λ _, 1) (Packet (guarded (onward 64)) None) start Sample.eth0 (λ _ _ _ _ _, eq_refl) onward_ready eq_refl sample_host_ok eq_refl).
Defined.

(** ** What ip_forward does when the ttl runs out *)

(** The ttl that was counted down is not announced before the answer quotes the packet:
    one with a master copy stops the simulator ... *)
Lemma ttl_expired_barfs : arrive (guarded (onward 1)) = Barf "skb modified without being made writable!".
Proof. by vm_compute. Qed.

(** ... and a linear one is answered by the way it came, quoted with a ttl of 0. *)
Lemma ttl_expired_answered : arrive (linear (onward 1)) =
  Ret (1, [Rcv 2 (dgram 1 127 0 0 9); Hook 0 (Some 2) None; TtlExpired; Hook 3 None (Some 2); Hook 4 None (Some 2);
    Send 2 ([0x45; 0xc0; 0; 56; 0; 0; 0; 0; 255; 1; 57; 170; 192; 168; 0; 1; 192; 168; 0; 9] ++ [11; 0; 111; 255; 0; 0; 0; 0] ++ dgram 0 127 0 0 9);
    Freed 6; Freed 5]).
Proof. by vm_compute. Qed.

(** A packet that came with ttl 0 goes on with ttl 255. *)
Lemma ttl_wraps big hdr : nth 8 hdr 0 = 0 → (12 <= length hdr)%nat → nth 8 (forward_check big hdr) 0 = 255.
Proof.
  intros H0 Hl. unfold forward_check. rewrite H0. change (u8 (0 - 1)) with 255. unfold put16. rewrite app_nth1 by (rewrite length_take, length_insert; lia).
  rewrite !nth_lookup, lookup_take by lia. rewrite list_lookup_insert_eq by lia. done.
Qed.
