(* ===== verification/Inet6.v ===== *)
(** * core/ipv6/ipv6.c: the way of a packet through IPv6

    Forwarding and sending, on the packets and events of IpPath.v; routing, ICMPv6 and
    checksums are stubs.  There are no routes of IPv6 in the program, so what the route of a
    packet has as its output function is an argument. *)

From Stdlib Require Import ZArith Lia.
From S2P Require Import Prelude CStr Mem Csum Skb KernLib Route IpPath.

Definition NF_IP6_PRE_ROUTING : Z := 0.
Definition NF_IP6_LOCAL_IN : Z := 1.
Definition NF_IP6_FORWARD : Z := 2.
Definition NF_IP6_LOCAL_OUT : Z := 3.
Definition NF_IP6_POST_ROUTING : Z := 4.
Definition ETH_P_IPV6 : Z := 0x86DD.
Definition ICMPV6_TIME_EXCEED : Z := 3.
Definition ICMPV6_EXC_HOPLIMIT : Z := 0.

(** The names init gives the hooks, by number. *)
Definition init (nf_hooknames : gmap Z text) : gmap Z text :=
  <[NF_IP6_POST_ROUTING := tx "NF_IP6_POST_ROUTING"]> (<[NF_IP6_LOCAL_OUT := tx "NF_IP6_LOCAL_OUT"]> (<[NF_IP6_FORWARD := tx "NF_IP6_FORWARD"]>
    (<[NF_IP6_LOCAL_IN := tx "NF_IP6_LOCAL_IN"]> (<[NF_IP6_PRE_ROUTING := tx "NF_IP6_PRE_ROUTING"]> nf_hooknames)))).

Section Inet6.
Context (big : bool) (W : Z) (nf_hook_slow : Z → packet → option Z → option Z → world → outcome (Z * packet * world)).

Definition ip6_output2 (p : packet) (w : world) : outcome (Z * world) :=
  rt ← of_option "ip6_output2: no route" (skb_dst p);
  let d := dst_dev rt in
  NF_HOOK nf_hook_slow NF_IP6_POST_ROUTING (Packet (with_protocol (htons big ETH_P_IPV6) (with_dev d (skb p))) (Some rt)) None (Some d) (nf_send W) w.
Definition ip6_output : packet → world → outcome (Z * world) := ip6_output2.

(** dst_output, with the output function of the packet's route. *)
Definition dst_output6 (output : packet → world → outcome (Z * world)) (p : packet) (w : world) : outcome (Z * world) :=
  match skb_dst p with None => Barf "dst_output: assert (skb->dst)" | Some _ => output p w end.

Definition icmpv6_send (p : packet) (type code info d : Z) (w : world) : world := w.
Definition ip6_route_input (p : packet) : packet := p.
Definition ip6_route_output (fl : flowi) : option rtable := None.
Definition csum_ipv6_magic (saddr daddr : list Z) (len proto csum : Z) : Z := 0.

Definition ip6_forward (output : packet → world → outcome (Z * world)) (p : packet) (w : world) : outcome (Z * world) :=
  let s := skb p in
  hop_limit ← field big 1 (nh s + 7) s;
  let hop_limit := u8 (hop_limit - 1) in
  s ← set_bytes (nh s + 7) [hop_limit] s;
  if hop_limit =? 0 then
    let p := Packet s (skb_dst p) in
    mret (1, kfree_skb p (icmpv6_send p ICMPV6_TIME_EXCEED ICMPV6_EXC_HOPLIMIT 0 (dev (hdr s)) (emit TtlExpired w)))
  else
    s ← nfsim_update_skb s (nh s + 7) 1;
    rt ← of_option "ip6_forward: no route" (skb_dst p);
    NF_HOOK nf_hook_slow NF_IP6_FORWARD (Packet s (Some rt)) (Some (dev (hdr s))) (Some (dst_dev rt)) (dst_output6 output) w.
End Inet6.

(** ** Forwarding *)

Section Forward.
Context (big : bool) (W : Z) (nf : Z → packet → option Z → option Z → world → outcome (Z * packet * world)).
Context (verdict : Z → Z) (Hnf : hooks_decide verdict nf).

Definition hop_limit (bs : list Z) : Z := nth 7 bs 0.

Lemma ip6_output_ends p rt w : skb_dst p = Some rt → (∃ d, get_dev (dst_dev rt) (tables w) = Ret d) → host_fine (tables w) →
  ends (ip6_output big W nf p w) w (walk verdict [(NF_IP6_POST_ROUTING, None, Some (dst_dev rt))] (sent (dst_dev rt) (contents (skb p)) (skb p))).
Proof.
  intros Hp [d Hd] Hok. unfold ip6_output, ip6_output2. rewrite Hp. cbn [of_option]. rewrite bind_ret. cbv zeta.
  apply (hook_ends nf verdict Hnf); [|done]. intros _. cbn [walk]. unfold nf_send. cbn [skb hdr dev with_protocol with_dev with_hdr tables emit]. rewrite Hd, bind_ret.
  eexists. split; [done|]. split; [|done]. cbn. by rewrite <-!app_assoc.
Qed.

(** A packet whose IPv6 header is in the linear area is freed when its hop limit runs out;
    otherwise the FORWARD and POST_ROUTING hooks see it and, unless one refuses, it is sent
    by the device of its route with the hop limit one lower and nothing else changed. *)
Theorem ip6_forward_way s rt w : wf s → clean s → data s = nh s → nh s + 40 <= end_ s → 40 <= len s →
  (∃ d, get_dev (dst_dev rt) (tables w) = Ret d) → host_fine (tables w) →
  let bs := contents s in
  ends (ip6_forward big nf (ip6_output big W nf) (Packet s (Some rt)) w) w
    (if u8 (hop_limit bs - 1) =? 0 then (1, [TtlExpired; Freed (seq (hdr s))])
     else walk verdict [(NF_IP6_FORWARD, Some (dev (hdr s)), Some (dst_dev rt)); (NF_IP6_POST_ROUTING, None, Some (dst_dev rt))]
       (sent (dst_dev rt) (<[7%nat := u8 (hop_limit bs - 1)]> bs) s)).
Proof.
  intros Hs C Hd He Hl Hdev Hok bs. pose proof (wf_data s Hs). pose proof (wf_mem s Hs). pose proof (zlen_contents s Hs) as Hzc.
  unfold ip6_forward. cbn [skb skb_dst]. unfold field. rewrite <-Hd, (mem_window s 7 (Z.of_nat 1)) by (done || lia). rewrite !bind_ret.
  assert (word big (ztake (Z.of_nat 1) (zdrop 7 (contents s))) = hop_limit bs) as ->.
  { unfold ztake, zdrop. rewrite Nat2Z.id, word_1. change (Z.to_nat 7) with 7%nat. apply nth_drop. }
  set (hl := u8 (hop_limit bs - 1)) in *. assert (Hz : zlen [hl] = 1) by done. unfold set_bytes. rewrite store_splice by (rewrite ?Hz; lia). rewrite !bind_ret.
  destruct (hl =? 0) eqn:Ez.
  - eexists. split; [done|]. split; [|done]. cbn. by rewrite <-app_assoc.
  - destruct (update_skb_store s (data s + 7) [hl] Hs C) as (x & E & Hs1 & C1 & Hc1); [rewrite ?Hz; lia..|]. rewrite Hz in E.
    change (nh (with_mem _ s)) with (nh s). rewrite <-Hd, E, bind_ret. set (s1 := with_extra x _) in *. cbn [of_option]. rewrite bind_ret.
    change (hdr s1) with (hdr s). apply (hook_ends nf verdict Hnf); [|done]. intros _. unfold dst_output6. cbn [skb_dst].
    assert (Hc : contents s1 = <[7%nat := hl]> bs).
    { rewrite Hc1. replace (data s + 7 - data s) with (Z.of_nat 7) by lia. apply splice_insert. unfold zlen in Hzc. fold bs in Hzc. lia. }
    rewrite <-Hc. change (sent (dst_dev rt) (contents s1) s) with (sent (dst_dev rt) (contents (skb (Packet s1 (Some rt)))) s1).
    by apply ip6_output_ends.
Qed.

(** A packet that came with hop limit 0 is forwarded with hop limit 255. *)
Lemma hop_limit_wraps s rt w : wf s → clean s → data s = nh s → nh s + 40 <= end_ s → 40 <= len s →
  (∃ d, get_dev (dst_dev rt) (tables w) = Ret d) → host_fine (tables w) → hop_limit (contents s) = 0 →
  (∀ hook, verdict hook = 1) → ∃ w', ip6_forward big nf (ip6_output big W nf) (Packet s (Some rt)) w = Ret (0, w') ∧
    Send (dst_dev rt) (<[7%nat := 255]> (contents s)) ∈ trace w'.
Proof.
  intros Hs C Hd He Hl Hdev Hok H0 Hv. destruct (ip6_forward_way s rt w Hs C Hd He Hl Hdev Hok) as (w' & E & Ht & _). rewrite H0 in E, Ht.
  change (u8 (0 - 1)) with 255 in E, Ht. change (255 =? 0) with false in E, Ht. cbv iota in E, Ht. cbn [walk] in E, Ht. rewrite !Hv in E, Ht. cbn in E, Ht.
  exists w'. split; [done|]. rewrite Ht. apply elem_of_app. right. right. right. by left.
Qed.
End Forward.
