(* ===== verification/SkbOps.v ===== *)
(** * kernelenv/kernelenv.c: sequences of operations on socket buffers

    What callers do with a buffer: put and push with the bytes they fill in, pull, trim,
    reserve, writing bytes and announcing them, making it writable, copying, linearising.
    A buffer is [typed] when its areas fit together, what is not writable is unchanged,
    and a linear one ends at its tail.  Operations keep that, whatever fails. *)

From Stdlib Require Import ZArith Lia.
From S2P Require Import Prelude Mem Skb IpPath.

Record typed (s : sk_buff) : Prop := Typed { ty_wf : wf s; ty_clean : clean s; ty_tail : extra s = None → tail s = data s + len s }.

Inductive skb_op :=
| OPut (bs : list Z) | OPush (bs : list Z) | OPull (n : Z) | OTrim (n : Z) | OReserve (n : Z)
| OWrite (off : Z) (bs : list Z)
| OWritable (fail : bool) (n : Z) | OExpand (fail : bool) (headroom tailroom : Z) | OLinearize (fail : bool).

Section Ops.
Context (fresh : Z → list Z) (linear_packets : bool).

(** One operation on the buffer and the counter of buffers. *)
Definition exec (o : skb_op) (st : sk_buff * Z) : outcome (sk_buff * Z) :=
  let '(s, q) := st in
  match o with
  | OPut bs => '(p, s) ← skb_put s (zlen bs); s ← set_bytes p bs s; mret (s, q)
  | OPush bs => '(p, s) ← skb_push s (zlen bs); s ← set_bytes p bs s; s ← nfsim_update_skb s p (zlen bs); mret (s, q)
  | OPull n => '(_, s) ← skb_pull s n; mret (s, q)
  | OTrim n => mret (skb_trim s n, q)
  | OReserve n => s ← skb_reserve s n; mret (s, q)
  | OWrite off bs => s' ← set_bytes (data s + off) bs s; s' ← nfsim_update_skb s' (data s + off) (zlen bs); mret (s', q)
  | OWritable fail n => '(_, s, q) ← skb_ip_make_writable fresh linear_packets fail s n q; mret (s, q)
  | OExpand fail hr tr => '(n, q) ← skb_copy_expand fresh fail s hr tr q; mret (default s n, q)
  | OLinearize fail => '(_, s) ← skb_linearize fresh fail s; mret (s, q)
  end.
Fixpoint run (ops : list skb_op) (st : sk_buff * Z) : outcome (sk_buff * Z) :=
  match ops with [] => mret st | o :: ops => st ← exec o st; run ops st end.

(** What an operation makes of the packet. *)
Definition spec (o : skb_op) (c : list Z) : list Z :=
  match o with
  | OPut bs => c ++ bs | OPush bs => bs ++ c | OPull n => zdrop n c | OTrim n => ztake n c | OWrite off bs => splice off bs c
  | OReserve _ | OWritable _ _ | OExpand _ _ _ | OLinearize _ => c
  end.

(** What callers observe: lengths are not negative and a copy is below 2 GB; only linear
    buffers are put to, only empty ones reserved; pull and writes stay in the linear part
    of the packet. *)
Definition legal (s : sk_buff) (o : skb_op) : Prop :=
  match o with
  | OPut _ => extra s = None
  | OPush _ => True
  | OPull n => 0 <= n <= len s ∧ data s + n <= end_ s
  | OTrim n | OWritable _ n => 0 <= n
  | OReserve n => 0 <= n ∧ extra s = None ∧ len s = 0
  | OWrite off bs => 0 <= off ∧ off + zlen bs <= len s ∧ data s + off + zlen bs <= end_ s
  | OExpand _ hr tr => 0 <= hr ∧ 0 <= tr ∧ hr + len s + tr < 2 ^ 31
  | OLinearize _ => True
  end.
(** There is no room. *)
Definition no_room (s : sk_buff) (o : skb_op) : Prop :=
  match o with
  | OPut bs => end_ s < tail s + zlen bs | OPush bs => data s < zlen bs | OReserve n => end_ s < tail s + n | _ => False
  end.
Fixpoint legal_run (ops : list skb_op) (st : sk_buff * Z) : Prop :=
  match ops with [] => True | o :: ops => legal st.1 o ∧ ∀ st', exec o st = Ret st' → legal_run ops st' end.
End Ops.

(** ** Each operation *)

Section Steps.
Context (fresh : Z → list Z) (Hfresh : ∀ n, 0 <= n → zlen (fresh n) = n) (linear_packets : bool).

(** A linear buffer is what is being built. *)
Lemma typed_building s : typed s → extra s = None → building s.
Proof using Type. intros [W C T] Hx. split; auto. Qed.
Lemma building_typed s : building s → typed s.
Proof using Type. intros [W Hx T]. split; [done| |done]. unfold clean. by rewrite Hx. Qed.

Lemma put_typed s q bs : typed s → extra s = None → tail s + zlen bs <= end_ s →
  ∃ s', exec fresh linear_packets (OPut bs) (s, q) = Ret (s', q) ∧ typed s' ∧ contents s' = contents s ++ bs.
Proof using Type.
  intros T Hx He. destruct (put_write s bs (typed_building s T Hx) He) as (s1 & s' & E1 & E2 & B & Hc & _).
  exists s'. cbn. rewrite E1, bind_ret, E2. split; [done|]. split; [by apply building_typed|done].
Qed.

Lemma write_typed s p bs : typed s → data s <= p → p + zlen bs <= end_ s → p + zlen bs <= data s + len s →
  ∃ s1 s', set_bytes p bs s = Ret s1 ∧ nfsim_update_skb s1 p (zlen bs) = Ret s' ∧ typed s' ∧ contents s' = splice (p - data s) bs (contents s).
Proof using Type.
  intros [W C T] Hp He Hl. destruct (update_skb_store s p bs W C Hp He Hl) as (x & E & W' & C' & Hc). pose proof (wf_data s W). pose proof (wf_mem s W).
  eexists _, _. split; [unfold set_bytes; rewrite store_splice by lia; reflexivity|]. split; [exact E|]. split; [|done]. split; [done..|].
  cbn [extra with_extra tail data len with_mem]. intros ->. apply T. unfold nfsim_update_skb in E. change (extra (with_mem _ s)) with (extra s) in E.
  destruct (extra s) as [x|]; [|done].
  destruct (_ <? _) in E; [done|]. apply bind_Ret_inv in E as (x' & _ & E). apply bind_Ret_inv in E as (? & _ & E).
  by apply (f_equal (λ o, match o with Ret s => extra s | _ => None end)) in E.
Qed.

Lemma push_typed s q bs : typed s → zlen bs <= data s →
  ∃ s', exec fresh linear_packets (OPush bs) (s, q) = Ret (s', q) ∧ typed s' ∧ contents s' = bs ++ contents s.
Proof using Type.
  intros [W C T] Hr. pose proof (wf_data s W). pose proof (wf_len s W). pose proof (wf_fit s W). pose proof (wf_small s W). pose proof (zlen_nonneg bs). pose proof (zlen_contents s W).
  set (s1 := with_ptrs (data s - zlen bs) (tail s) (len s + zlen bs) s).
  assert (T1 : typed s1).
  { split; [|exact C|]; [|intros Hx; cbn; rewrite (T Hx); lia]. split; change (backing s1) with (backing s); cbn [mem end_ data len with_ptrs s1]; try lia; try apply W. }
  destruct (write_typed s1 (data s - zlen bs) bs T1) as (s2 & s' & E1 & E2 & T' & Hc); [cbn; lia..|].
  exists s'. cbn. unfold skb_push. rewrite (proj2 (Z.ltb_ge _ _)), u32_small by lia. rewrite bind_ret. fold s1. rewrite E1, bind_ret, E2. split; [done|]. split; [done|].
  rewrite Hc. change (data s1) with (data s - zlen bs). rewrite Z.sub_diag. unfold splice. rewrite ztake_0 by lia. cbn [app]. f_equal.
  unfold contents. change (backing s1) with (backing s). cbn [len data s1 with_ptrs]. rewrite zdrop_ztake, zdrop_zdrop by lia. f_equal; [lia|]. f_equal. lia.
Qed.

Lemma pull_typed s q n : typed s → 0 <= n <= len s → data s + n <= end_ s →
  ∃ s', exec fresh linear_packets (OPull n) (s, q) = Ret (s', q) ∧ typed s' ∧ contents s' = zdrop n (contents s).
Proof using Type.
  intros [W C T] Hn He. pose proof (wf_data s W). pose proof (wf_fit s W). pose proof (wf_small s W).
  cbn. unfold skb_pull. rewrite (proj2 (Z.ltb_ge _ _)), u32_small by lia. eexists. split; [reflexivity|]. set (s1 := with_ptrs _ _ _ s). split.
  - split; [|exact C|]; [|intros Hx; cbn; rewrite (T Hx); lia]. split; change (backing s1) with (backing s); cbn [mem end_ data len with_ptrs s1]; try lia; try apply W.
  - unfold contents. change (backing s1) with (backing s). cbn [len data s1 with_ptrs]. by rewrite zdrop_ztake, zdrop_zdrop by lia.
Qed.

Lemma trim_typed s n : typed s → 0 <= n → typed (skb_trim s n) ∧ contents (skb_trim s n) = ztake n (contents s).
Proof using Type.
  intros [W C T] Hn. unfold skb_trim, __skb_trim. pose proof (zlen_contents s W). destruct (Z.ltb_spec n (len s)); [|split; [by split|symmetry; apply ztake_all; lia]].
  set (s1 := with_ptrs _ _ _ s). pose proof (wf_fit s W). split.
  - split; [|exact C|done]. split; change (backing s1) with (backing s); cbn [mem end_ data len with_ptrs s1]; try lia; try apply W.
  - unfold contents. change (backing s1) with (backing s). cbn [len data s1 with_ptrs]. by rewrite ztake_ztake by lia.
Qed.

Lemma reserve_typed s q n : typed s → 0 <= n → extra s = None → len s = 0 → tail s + n <= end_ s →
  ∃ s', exec fresh linear_packets (OReserve n) (s, q) = Ret (s', q) ∧ typed s' ∧ contents s' = contents s.
Proof using Type.
  intros [W C T] Hn Hx Hl He. pose proof (wf_data s W). pose proof (T Hx). pose proof (zlen_backing s W) as Hb. rewrite Hx in Hb.
  cbn. unfold skb_reserve. rewrite !(proj2 (Z.ltb_ge (end_ s) _)) by lia. cbn [orb]. eexists. split; [reflexivity|]. set (s1 := with_ptrs _ _ _ s). split.
  - split; [|exact C|cbn; lia]. split; change (backing s1) with (backing s); cbn [mem end_ data len with_ptrs s1]; try lia; try apply W.
  - unfold contents. cbn [len s1 with_ptrs]. by rewrite Hl, !ztake_0 by lia.
Qed.

Lemma nonlinear_tail d1 d2 q n q' : nfsim_nonlinear_skb fresh linear_packets d1 d2 q = Ret (n, q') → extra n = None → tail n = data n + (zlen d1 + zlen d2).
Proof using Type.
  unfold nfsim_nonlinear_skb. destruct linear_packets.
  - unfold nfsim_skb. cbv zeta beta iota. intros H. apply bind_Ret_inv in H as (m1 & _ & H). apply bind_Ret_inv in H as (m2 & _ & H).
    apply bind_Ret_inv in H as ([t s1] & H1 & H). injection H as <- _. unfold skb_put in H1. case_match; [done|]. injection H1 as _ <-. done.
  - intros [= <- _]. done.
Qed.

Lemma writable_typed s q fail n : typed s → 0 <= n → ∃ s' q', exec fresh linear_packets (OWritable fail n) (s, q) = Ret (s', q') ∧ typed s' ∧ contents s' = contents s.
Proof using Hfresh.
  intros [W C T] Hn. cbn. destruct (Z.ltb_spec (len s) n) as [Hlt|Hge].
  { unfold skb_ip_make_writable. rewrite check_packet_clean, bind_ret, (proj2 (Z.ltb_lt _ _)) by done. by exists s, q. }
  destruct fail.
  { unfold skb_ip_make_writable. rewrite check_packet_clean, bind_ret, (proj2 (Z.ltb_ge _ _)) by done. by exists s, q. }
  destruct (make_writable_ok fresh Hfresh linear_packets s n q W C ltac:(lia)) as (s' & E & W' & C' & Hc & _ & Hl & _). exists s', (u32 (q + 1)).
  rewrite E. split; [done|]. split; [|done]. split; [done..|]. revert E. unfold skb_ip_make_writable.
  rewrite check_packet_clean, bind_ret, (proj2 (Z.ltb_ge _ _)), copy_all by (done || lia). rewrite !bind_ret. cbn [of_option]. rewrite bind_ret. intros E.
  apply bind_Ret_inv in E as ([s1 q1] & E & E'). apply (f_equal (λ o, match o with Ret r => r.1.2 | _ => s end)) in E'. cbn in E'. subst s'. cbn in Hl |- *. intros Hx.
  destruct (extra s1) as [x|] eqn:Ex; [done|]. rewrite (nonlinear_tail _ _ _ _ _ E Ex). rewrite <-zlen_app, ztake_zdrop. by rewrite zlen_contents.
Qed.

Lemma expand_typed s q fail hr tr : typed s → 0 <= hr → 0 <= tr → hr + len s + tr < 2 ^ 31 →
  ∃ s' q', exec fresh linear_packets (OExpand fail hr tr) (s, q) = Ret (s', q') ∧ typed s' ∧ contents s' = contents s.
Proof using Hfresh.
  intros [W C T] Hh Ht Hs. cbn. destruct fail.
  { unfold skb_copy_expand. rewrite check_packet_clean by done. by exists s, q. }
  destruct (copy_expand_ok fresh Hfresh s hr tr q W C Hh Ht Hs) as (n & -> & W' & Hx & Hc & _ & _ & _ & _ & _ & _ & Htl).
  exists n, (u32 (q + 1)). split; [done|]. split; [|done]. split; [done|by unfold clean; rewrite Hx|done].
Qed.

Lemma linearize_typed s q fail : typed s → ∃ s', exec fresh linear_packets (OLinearize fail) (s, q) = Ret (s', q) ∧ typed s' ∧ contents s' = contents s.
Proof using Hfresh.
  intros [W C T]. cbn. destruct fail.
  { unfold skb_linearize. rewrite check_packet_clean by done. by exists s. }
  pose proof (wf_fit s W). pose proof (wf_small s W). destruct (linearize_ok fresh Hfresh s W C ltac:(lia)) as (n & E & W' & Hx & Hc & _).
  exists n. rewrite E. split; [done|]. split; [|done]. split; [done|by unfold clean; rewrite Hx|]. intros _. revert E. unfold skb_linearize.
  rewrite check_packet_clean, bind_ret by done. cbv iota. intros E. do 3 (apply bind_Ret_inv in E as (? & _ & E)). apply bind_Ret_inv in E as (? & _ & E).
  apply (f_equal (λ o, match o with Ret r => r.2 | _ => s end)) in E. cbn in E. by rewrite <-E.
Qed.

(** One step: the packet changes as specified, or there was no room and the simulator
    gives up. *)
Lemma exec_typed s q o : typed s → legal s o →
  (∃ s' q', exec fresh linear_packets o (s, q) = Ret (s', q') ∧ typed s' ∧ contents s' = spec o (contents s) ∧ ¬ no_room s o)
  ∨ no_room s o ∧ ∃ e, exec fresh linear_packets o (s, q) = Barf e.
Proof using Hfresh.
  intros T Hl. assert (Hone : (∃ s', exec fresh linear_packets o (s, q) = Ret (s', q) ∧ typed s' ∧ contents s' = spec o (contents s)) → ¬ no_room s o →
    (∃ s' q', exec fresh linear_packets o (s, q) = Ret (s', q') ∧ typed s' ∧ contents s' = spec o (contents s) ∧ ¬ no_room s o)) by (intros (s' & ? & ? & ?) ?; eauto 6).
  destruct o as [bs|bs|n|n|n|off bs|fail n|fail hr tr|fail]; cbn [legal no_room] in *.
  - destruct (Z.lt_ge_cases (end_ s) (tail s + zlen bs)) as [Hr|Hr]; [right|left; apply Hone; [by apply put_typed|lia]].
    split; [done|]. cbn. unfold skb_put. rewrite (proj2 (Z.ltb_lt _ _)) by done. by eexists.
  - destruct (Z.lt_ge_cases (data s) (zlen bs)) as [Hr|Hr]; [right|left; apply Hone; [by apply push_typed|lia]].
    split; [done|]. cbn. unfold skb_push. rewrite (proj2 (Z.ltb_lt _ _)) by lia. by eexists.
  - left. apply Hone; [apply pull_typed; tauto|tauto].
  - left. apply Hone; [|tauto]. destruct (trim_typed s n T Hl). by exists (skb_trim s n).
  - destruct Hl as (Hn & Hx & Hl). destruct (Z.lt_ge_cases (end_ s) (tail s + n)) as [Hr|Hr]; [right|left; apply Hone; [by apply reserve_typed|lia]].
    split; [done|]. cbn. unfold skb_reserve. rewrite (proj2 (Z.ltb_lt (end_ s) (tail s + n))), orb_true_r by done. by eexists.
  - left. apply Hone; [|tauto]. destruct Hl as (Ho & Hl & He). destruct (write_typed s (data s + off) bs T) as (s1 & s' & E1 & E2 & T' & Hc); [lia..|].
    exists s'. cbn. rewrite E1, bind_ret, E2. rewrite Hc. split; [done|]. split; [done|]. f_equal. lia.
  - left. destruct (writable_typed s q fail n T Hl) as (s' & q' & ? & ? & ?). exists s', q'. tauto.
  - left. destruct (expand_typed s q fail hr tr T ltac:(tauto) ltac:(tauto) ltac:(tauto)) as (s' & q' & ? & ? & ?). exists s', q'. tauto.
  - left. apply Hone; [by apply linearize_typed|tauto].
Qed.

Lemma fresh_typed size q : 0 <= size < 2 ^ 31 → typed (nfsim_skb fresh size q).1 ∧ contents (nfsim_skb fresh size q).1 = [].
Proof using Hfresh.
  intros Hs. split; [|unfold contents; cbn; by rewrite ztake_0]. split; [|done|done].
  assert (backing (nfsim_skb fresh size q).1 = fresh size) as Hb by (unfold backing; cbn; by rewrite app_nil_r).
  split; rewrite ?Hb; cbn; rewrite ?Hfresh; try lia; done.
Qed.

Lemma nonlinear_typed d1 d2 q : zlen d1 + zlen d2 < 2 ^ 31 → ∃ s, nfsim_nonlinear_skb fresh linear_packets d1 d2 q = Ret (s, u32 (q + 1)) ∧ typed s ∧ contents s = d1 ++ d2.
Proof using Hfresh.
  intros Hs. destruct (nonlinear_skb_spec fresh Hfresh linear_packets d1 d2 q Hs) as (s & E & W & C & Hc & _ & _ & Hl & _). exists s. split; [done|]. split; [|done].
  split; [done..|]. intros Hx. rewrite (nonlinear_tail _ _ _ _ _ E Hx). by rewrite Hl.
Qed.
End Steps.

(** C23: buffers are typed: however a buffer comes into being and whatever is done with it,
    its areas fit together and no access leaves them.  A new buffer is typed and holds
    nothing, or the two parts it was made of.  From a typed buffer every sequence of
    operations that is legal as it goes never reaches undefined behaviour: it ends in a
    typed buffer with the packet the specification computes, whichever allocations fail,
    or the simulator gives up at an operation there is no room for.  A typed buffer passes
    nfsim_check_packet. *)
Theorem skb_ops_typed fresh linear_packets (Hfresh : ∀ n, 0 <= n → zlen (fresh n) = n) :
  (∀ size q, 0 <= size < 2 ^ 31 → typed (nfsim_skb fresh size q).1 ∧ contents (nfsim_skb fresh size q).1 = []) ∧
  (∀ d1 d2 q, zlen d1 + zlen d2 < 2 ^ 31 →
     ∃ s, nfsim_nonlinear_skb fresh linear_packets d1 d2 q = Ret (s, u32 (q + 1)) ∧ typed s ∧ contents s = d1 ++ d2) ∧
  ∀ ops s q, typed s → legal_run fresh linear_packets ops (s, q) →
    nfsim_check_packet s = Ret tt ∧
    ((∃ s' q', run fresh linear_packets ops (s, q) = Ret (s', q') ∧ typed s' ∧ contents s' = foldl (λ c o, spec o c) (contents s) ops)
     ∨ ∃ before_ o after_ s1 q1 e, ops = before_ ++ o :: after_ ∧ run fresh linear_packets before_ (s, q) = Ret (s1, q1) ∧ no_room s1 o ∧
         run fresh linear_packets ops (s, q) = Barf e).
Proof.
  split_and!; [by apply fresh_typed|by apply nonlinear_typed|]. induction ops as [|o ops IH]; intros s q T Hl; (split; [apply check_packet_clean; apply T|]).
  { left. by exists s, q. }
  destruct Hl as [Ho Hl]. destruct (exec_typed fresh Hfresh linear_packets s q o T Ho) as [(s' & q' & E & T' & Hc & _)|[Hr [e E]]].
  - destruct (IH s' q' T' (Hl _ E)) as [_ [(s2 & q2 & E2 & T2 & Hc2)|(b & o' & a & s1 & q1 & e & -> & Eb & Hr & E2)]].
    + left. exists s2, q2. cbn [run foldl]. rewrite E, bind_ret, E2. by rewrite Hc2, Hc.
    + right. exists (o :: b), o', a, s1, q1, e. cbn [run app]. rewrite E, !bind_ret. done.
  - right. exists [], o, ops, s, q, e. cbn [run]. rewrite E. done.
Qed.

(** Six bytes, two in the linear area: a byte is pulled, one written, a header pushed. *)
Lemma skb_ops_typed_witness :
  ∃ s q s' q', nfsim_nonlinear_skb zeros false [1; 2] [3; 4; 5; 6] 0 = Ret (s, q) ∧
    run zeros false [OPull 1; OWritable false 3; OWrite 1 [9]; OExpand false 4 2; OPush [7; 8]; OPut [10]] (s, q) = Ret (s', q') ∧
    typed s' ∧ contents s' = [7; 8; 2; 9; 4; 5; 6; 10].
Proof.
  destruct (skb_ops_typed zeros false zeros_len) as (_ & H1 & H2). destruct (H1 [1; 2] [3; 4; 5; 6] 0) as (s & E & T & Hc); [by vm_compute|].
  exists s. eexists. vm_compute in E. injection E as <-.
  specialize (H2 [OPull 1; OWritable false 3; OWrite 1 [9]; OExpand false 4 2; OPush [7; 8]; OPut [10]] _ (u32 (0 + 1)) T).
  destruct H2 as [_ [(s' & q' & E & T' & Hc')|(b & o & a & s1 & q1 & e & _ & _ & _ & E)]].
  - repeat (split; [vm_compute; try done; split_and!; done|]; intros ? E'; vm_compute in E'; injection E' as <-). done.
  - exists s', q'. split; [reflexivity|]. split; [done|]. split; [done|]. rewrite Hc'. reflexivity.
  - vm_compute in E. done.
Defined.
