(* ===== verification/Frag.v ===== *)
(** * core/ipv4/ipv4.c: putting fragments together

    A list of fragments is its array of 20 slots, filled from the front.  The arrays
    [filled] and [data] on the stack have 70000 bytes; [garbage] is what [data] holds
    before anything is copied there. *)

From Stdlib Require Import ZArith Lia.
From S2P Require Import Prelude Mem Csum Skb KernLib Route IpPath.

Definition IP_MF : Z := 0x2000.
Definition IP_DEFRAG_VS_FWD : nat := 7.
Definition FRAG_SLOTS : nat := 20.
Definition FRAG_BYTES : Z := 70000.

Abbreviation fraglist := (list (option sk_buff)).
(** For each user, the lists. *)
Abbreviation fragdb := (list (list fraglist)).
Definition init_fraglist : fragdb := replicate IP_DEFRAG_VS_FWD [].

(** memset *)
Definition fill (off n v : Z) (m : list Z) : outcome (list Z) :=
  if in_object off n m then mret (splice off (replicate (Z.to_nat n) v) m) else Fault "write outside the array".

(** max, ended, filled, data *)
Record gathered := Gathered { g_max : Z; g_ended : bool; g_filled : list Z; g_data : list Z }.

Section Frag.
Context (big : bool) (fresh : Z → list Z) (garbage : list Z).

Definition header_len (s : sk_buff) : outcome Z := b ← iph big 1 0 s; mret (Z.land b 0xf * 4).

(** The body of the loop of gather_frag. *)
Definition add_frag (s : sk_buff) (g : gathered) : outcome gathered :=
  fo ← iph big 2 6 s;
  tot_len ← iph big 2 2 s;
  hl ← header_len s;
  let fo := htons big fo in
  let off := Z.land fo IP_OFFSET * 8 in
  let n := u32 (htons big tot_len - hl) in
  filled ← fill off n 1 (g_filled g);
  bits ← skb_copy_bits s hl (s32 n);
  data ← match bits with Some bs => store off bs (g_data g) | None => mret (g_data g) end;
  mret (Gathered (if g_max g <? u32 (n + off) then u32 (n + off) else g_max g) (g_ended g || (Z.land fo IP_MF =? 0)) filled data).

(** The slots with the new fragment in the first empty one, the fragment if there was
    none, and what was gathered. *)
Fixpoint gather_loop (slots : fraglist) (skb : option sk_buff) (g : gathered) : outcome (fraglist * option sk_buff * gathered) :=
  match slots with
  | [] => mret ([], skb, g)
  | Some f :: slots => g ← add_frag f g; '(slots, skb, g) ← gather_loop slots skb g; mret (Some f :: slots, skb, g)
  | None :: slots =>
      match skb with
      | None => mret (None :: slots, None, g)
      | Some f => g ← add_frag f g; '(slots, skb, g) ← gather_loop slots None g; mret (Some f :: slots, skb, g)
      end
  end.

(** The packet made of the first slot's and [data]. *)
Definition assemble (f0 : sk_buff) (max : Z) (data : list Z) (seqno : Z) : outcome (sk_buff * Z) :=
  '(n, seqno) ← skb_copy_expand fresh false f0 0 max seqno;
  n ← of_option "gather_frag: null packet" n;
  let n := with_heads (Skb.data n) (h n) n in
  hl ← header_len f0;
  hd ← slice (nh f0) hl (mem f0);
  n ← set_bytes (nh n) hd n;
  '(p, n) ← skb_put n max;
  bs ← slice 0 max data;
  n ← set_bytes p bs n;
  n ← set_bytes (nh n + 6) (bytes big 2 0) n;
  hl ← header_len n;
  n ← set_bytes (nh n + 2) (bytes big 2 (htons big (max + hl))) n;
  mret (n, seqno).

(** The whole packet, if it is one now, and the slots. *)
Definition gather_frag (f : fraglist) (skb : sk_buff) (seqno : Z) : outcome (option sk_buff * fraglist * Z) :=
  '(f, left_over, g) ← gather_loop f (Some skb) (Gathered 0 false (replicate (Z.to_nat FRAG_BYTES) 0) garbage);
  match left_over with
  | Some _ => Barf "Can't handle that many frags!"
  | None =>
      if negb (g_ended g) then mret (None, f, seqno) else
      seen ← slice 0 (g_max g) (g_filled g);
      if existsb (λ b, b =? 0) seen then mret (None, f, seqno) else
      match f with
      | Some f0 :: _ => '(n, seqno) ← assemble f0 (g_max g) (g_data g) seqno; mret (Some n, f, seqno)
      | _ => Fault "gather_frag: no fragment"
      end
  end.

(** The same addresses and protocol. *)
Definition same_flow (f0 s : sk_buff) : outcome bool :=
  a ← iph big 4 12 f0; a' ← iph big 4 12 s;
  if negb (a =? a') then mret false else
  b ← iph big 4 16 f0; b' ← iph big 4 16 s;
  if negb (b =? b') then mret false else
  p ← iph big 1 9 f0; p' ← iph big 1 9 s; mret (p =? p').
Fixpoint find_list (s : sk_buff) (l : list fraglist) : outcome (option nat) :=
  match l with
  | [] => mret None
  | f :: l =>
      f0 ← of_option "ip_defrag: no first fragment" (mjoin (head f));
      same ← same_flow f0 s;
      if (same : bool) then mret (Some O) else k ← find_list s l; mret (S <$> k)
  end.

Definition ip_defrag_user (skb : sk_buff) (user : nat) (db : fragdb) (seqno : Z) : outcome (option sk_buff * fragdb * Z) :=
  l ← of_option "fraglist: no such user" (db !! user);
  k ← find_list skb l;
  match k with
  | None => mret (None, <[user := (Some skb :: replicate (FRAG_SLOTS - 1) None) :: l]> db, seqno)
  | Some k =>
      f ← of_option "fraglist" (l !! k);
      '(r, f, seqno) ← gather_frag f skb seqno;
      mret (r, <[user := match r with Some _ => delete k l | None => <[k := f]> l end]> db, seqno)
  end.
Definition ip_defrag := ip_defrag_user.
End Frag.

(** ** Fragments of a payload *)

Lemma forallb_hole {A} (f : A → bool) l : forallb f l = false → ∃ x, In x l ∧ f x = false.
Proof.
  induction l as [|x l IH]; cbn; [done|]. destruct (f x) eqn:E; [|by exists x; split; [left|]].
  intros (y & ? & ?)%IH. exists y. split; [by right|done].
Qed.

Section Payload.
Context (big : bool) (P : list Z) (HP : zlen P <= 65535).

Definition hdr_len (c : list Z) : Z := Z.land (nth 0 c 0) 0xf * 4.
Definition frag_field (c : list Z) : Z := htons big (get16 big 6 c).
Definition frag_off (c : list Z) : Z := Z.land (frag_field c) IP_OFFSET * 8.
Definition frag_last (c : list Z) : bool := Z.land (frag_field c) IP_MF =? 0.
Definition frag_len (c : list Z) : Z := htons big (get16 big 2 c) - hdr_len c.

(** [s] carries a part of the payload and says which. *)
Record fragment (s : sk_buff) : Prop := Fragment {
  fr_ready : ready s;
  fr_data : data s = nh s;
  fr_off : 0 <= frag_off (contents s);
  fr_hdr : 20 <= hdr_len (contents s);
  fr_linear : data s + hdr_len (contents s) <= end_ s;
  fr_small : len s < 2 ^ 30;
  fr_len : 0 < frag_len (contents s);
  fr_fits : hdr_len (contents s) + frag_len (contents s) <= len s;
  fr_end : frag_off (contents s) + frag_len (contents s) <= zlen P;
  fr_last : frag_last (contents s) = (frag_off (contents s) + frag_len (contents s) =? zlen P);
  fr_part : ztake (frag_len (contents s)) (zdrop (hdr_len (contents s)) (contents s)) = ztake (frag_len (contents s)) (zdrop (frag_off (contents s)) P);
}.

Definition covers (i : Z) (s : sk_buff) : bool := (frag_off (contents s) <=? i) && (i <? frag_off (contents s) + frag_len (contents s)).
Definition complete (fs : list sk_buff) : bool := forallb (λ i, existsb (covers (Z.of_nat i)) fs) (List.seq 0 (length P)).

(** What the loop has gathered from [fs]. *)
Record gathers (fs : list sk_buff) (g : gathered) : Prop := Gathers {
  ga_max : 0 <= g_max g <= zlen P;
  ga_bound : Forall (λ s, frag_off (contents s) + frag_len (contents s) <= g_max g) fs;
  ga_ended : g_ended g = existsb (λ s, frag_last (contents s)) fs;
  ga_flen : zlen (g_filled g) = FRAG_BYTES;
  ga_dlen : zlen (g_data g) = FRAG_BYTES;
  ga_filled : ∀ i, 0 <= i < FRAG_BYTES → g_filled g !! Z.to_nat i = Some (if existsb (covers i) fs then 1 else 0);
  ga_data : ∀ i, 0 <= i → existsb (covers i) fs = true → g_data g !! Z.to_nat i = P !! Z.to_nat i;
}.

Lemma gathers_start garbage : zlen garbage = FRAG_BYTES → gathers [] (Gathered 0 false (replicate (Z.to_nat FRAG_BYTES) 0) garbage).
Proof.
  intros Hg. split; cbn [g_max g_ended g_filled g_data]; try done.
  - pose proof (zlen_nonneg P). lia.
  - intros i Hi. cbn [existsb]. apply lookup_replicate_2. lia.
Qed.

Lemma fragment_fields s : fragment s →
  iph big 2 6 s = Ret (get16 big 6 (contents s)) ∧ iph big 2 2 s = Ret (get16 big 2 (contents s)) ∧ header_len big s = Ret (hdr_len (contents s)).
Proof.
  intros F. pose proof (fr_ready s F) as R. pose proof (fr_data s F) as Hd. unfold header_len. rewrite !iph_ready by (done || lia). split_and!; try done.
  rewrite bind_ret, word_1. unfold hdr_len. by rewrite nth_drop.
Qed.

Lemma add_frag_gathers s fs g : fragment s → gathers fs g → ∃ g', add_frag big s g = Ret g' ∧ gathers (fs ++ [s]) g'.
Proof using HP.
  intros F G. destruct (fragment_fields s F) as (E1 & E2 & E3). pose proof F as [R Hd H1 H2 _ _ H3 H4 H5 H6 H7]. pose proof (rd_wf s R) as Hw.
  pose proof (zlen_contents s Hw) as Hzc. pose proof (wf_small s Hw). pose proof (wf_fit s Hw). pose proof (wf_data s Hw).
  unfold add_frag. rewrite E1, bind_ret, E2, bind_ret, E3, bind_ret. cbv zeta.
  change (Z.land (htons big (get16 big 6 (contents s))) IP_OFFSET * 8) with (frag_off (contents s)).
  change (htons big (get16 big 2 (contents s)) - hdr_len (contents s)) with (frag_len (contents s)).
  change (Z.land (htons big (get16 big 6 (contents s))) IP_MF =? 0) with (frag_last (contents s)).
  set (off := frag_off (contents s)) in *. set (n := frag_len (contents s)) in *. set (hl := hdr_len (contents s)) in *.
  rewrite (u32_small n), (u32_small (n + off)), s32_small by lia. destruct G as [G1 G2 G3 G4 G5 G6 G7]. unfold FRAG_BYTES in *.
  unfold fill. rewrite (proj2 (in_object_spec off n (g_filled g))) by lia. rewrite bind_ret, skb_copy_bits_ret by (try apply R; lia). rewrite bind_ret.
  rewrite (proj2 (Z.ltb_ge (len s - n) hl)) by lia. rewrite H7. assert (Hzb : zlen (ztake n (zdrop off P)) = n) by (apply zlen_ztake; rewrite zlen_zdrop; lia).
  rewrite store_splice by lia. rewrite !bind_ret. assert (Hzr : zlen (replicate (Z.to_nat n) 1) = n) by (unfold zlen; rewrite length_replicate; lia).
  eexists. split; [done|]. assert (Hcov : ∀ i, covers i s = bool_decide (off <= i < off + n)).
  { intros i. unfold covers. fold off n. case_bool_decide; rewrite ?andb_true_iff, ?andb_false_iff, ?Z.leb_le, ?Z.ltb_lt, ?Z.leb_gt, ?Z.ltb_ge; lia. }
  split; cbn [g_max g_ended g_filled g_data].
  - destruct (Z.ltb_spec (g_max g) (n + off)); lia.
  - apply Forall_app. split; [eapply Forall_impl; [exact G2|]; cbv beta; intros x Hx|apply Forall_singleton; cbv beta; change (off + n <= if g_max g <? n + off then n + off else g_max g)]; destruct (Z.ltb_spec (g_max g) (n + off)); lia.
  - by rewrite existsb_app, G3; cbn [existsb]; rewrite orb_false_r.
  - rewrite zlen_splice; unfold FRAG_BYTES; lia.
  - rewrite zlen_splice; unfold FRAG_BYTES; lia.
  - intros i Hi. unfold FRAG_BYTES in Hi. rewrite existsb_app. cbn [existsb]. rewrite orb_false_r, Hcov, lookup_splice by lia. case_decide as Hd'.
    + rewrite lookup_replicate_2 by lia. rewrite bool_decide_true by lia. by rewrite orb_true_r.
    + rewrite G6 by lia. rewrite bool_decide_false by lia. by rewrite orb_false_r.
  - intros i Hi. rewrite existsb_app. cbn [existsb]. rewrite orb_false_r, Hcov, lookup_splice by lia. case_decide as Hd'.
    + intros _. rewrite lookup_ztake, lookup_zdrop by lia. rewrite decide_True by lia. f_equal. lia.
    + rewrite bool_decide_false by lia. rewrite orb_false_r. by apply G7.
Qed.

Definition slots (fs : list sk_buff) : fraglist := map Some fs ++ replicate (FRAG_SLOTS - length fs) None.

Lemma gather_loop_gathers fs' k : ∀ s fs g, Forall fragment (fs' ++ [s]) → gathers fs g →
  ∃ g', gather_loop big (map Some fs' ++ replicate (S k) None) (Some s) g = Ret (map Some (fs' ++ [s]) ++ replicate k None, None, g') ∧ gathers (fs ++ fs' ++ [s]) g'.
Proof using HP.
  induction fs' as [|f fs' IH]; intros s fs g Hf G.
  - apply Forall_cons in Hf as [Hf _]. cbn [map app replicate gather_loop]. destruct (add_frag_gathers s fs g Hf G) as (g' & -> & G'). rewrite bind_ret.
    exists g'. split; [|done]. by destruct k.
  - apply Forall_cons in Hf as [Hf Hfs]. cbn [map app gather_loop]. destruct (add_frag_gathers f fs g Hf G) as (g1 & -> & G1). rewrite bind_ret.
    destruct (IH s (fs ++ [f]) g1 Hfs G1) as (g' & -> & G'). rewrite bind_ret. exists g'. split; [done|]. by rewrite <-app_assoc in G'.
Qed.
Lemma gather_loop_full fs' : ∀ s fs g, Forall fragment fs' → gathers fs g →
  ∃ g', gather_loop big (map Some fs') (Some s) g = Ret (map Some fs', Some s, g').
Proof using HP.
  induction fs' as [|f fs' IH]; intros s fs g Hf G; [by eexists|].
  apply Forall_cons in Hf as [Hf Hfs]. cbn [map gather_loop]. destruct (add_frag_gathers f fs g Hf G) as (g1 & -> & G1). rewrite bind_ret.
  destruct (IH s (fs ++ [f]) g1 Hfs G1) as (g' & ->). rewrite bind_ret. by eexists.
Qed.

Lemma complete_spec fs : complete fs = true ↔ ∀ i, 0 <= i < zlen P → existsb (covers i) fs = true.
Proof using Type.
  unfold complete. rewrite forallb_forall. split.
  - intros H i Hi. specialize (H (Z.to_nat i)). rewrite Z2Nat.id in H by lia. apply H. apply in_seq. unfold zlen in Hi. lia.
  - intros H i Hi%in_seq. apply H. unfold zlen. lia.
Qed.

(** When everything is there: the arrays say so, and hold the payload. *)
Lemma gathers_complete fs g : 0 < zlen P → Forall fragment fs → gathers fs g → complete fs = true →
  g_ended g = true ∧ g_max g = zlen P ∧ ztake (zlen P) (g_data g) = P ∧
  ∃ seen, slice 0 (zlen P) (g_filled g) = Ret seen ∧ existsb (λ b, b =? 0) seen = false.
Proof using HP.
  intros Hp Hf [G1 G2 G3 G4 G5 G6 G7] Hc. rewrite complete_spec in Hc. rewrite Forall_forall in Hf, G2. unfold FRAG_BYTES in *.
  assert (Hlast : ∃ s, s ∈ fs ∧ frag_off (contents s) + frag_len (contents s) = zlen P).
  { specialize (Hc (zlen P - 1) ltac:(lia)). apply existsb_exists in Hc as (s & Hs & Hcov). apply list_elem_of_In in Hs. exists s. split; [done|].
    unfold covers in Hcov. apply andb_true_iff in Hcov as [?%Z.leb_le ?%Z.ltb_lt]. pose proof (fr_end s (Hf s Hs)). lia. }
  destruct Hlast as (s & Hs & He). pose proof (G2 s Hs) as Hb. cbv beta in Hb. split; [|split; [lia|split]].
  - rewrite G3. apply existsb_exists. exists s. split; [by apply list_elem_of_In|]. rewrite (fr_last s (Hf s Hs)). lia.
  - apply list_eq. intros i. rewrite lookup_ztake. case_decide.
    + rewrite <-(Nat2Z.id i). apply G7; [lia|]. apply Hc. lia.
    + symmetry. apply lookup_ge_None_2. unfold zlen in *. lia.
  - rewrite slice_ret by lia. eexists. split; [done|]. rewrite zdrop_0 by lia. apply not_true_is_false. intros (b & Hb' & Hz)%existsb_exists.
    apply list_elem_of_In, list_elem_of_lookup in Hb' as [i Hi]. rewrite lookup_ztake in Hi. case_decide; [|done].
    rewrite <-(Nat2Z.id i), G6 in Hi by lia. rewrite Hc in Hi by lia. injection Hi as <-. done.
Qed.
(** A hole shows. *)
Lemma gathers_incomplete fs g : Forall fragment fs → gathers fs g → complete fs = false → g_ended g = true →
  ∃ seen, slice 0 (g_max g) (g_filled g) = Ret seen ∧ existsb (λ b, b =? 0) seen = true.
Proof using HP.
  intros Hf [G1 G2 G3 G4 G5 G6 G7] Hc He. unfold FRAG_BYTES in *. rewrite Forall_forall in Hf, G2. rewrite G3 in He. apply existsb_exists in He as (s & Hs & Hl).
  apply list_elem_of_In in Hs. rewrite (fr_last s (Hf s Hs)) in Hl. apply Z.eqb_eq in Hl. pose proof (G2 s Hs) as Hb. cbv beta in Hb.
  assert (∃ i, 0 <= i < zlen P ∧ existsb (covers i) fs = false) as (i & Hi & Hhole).
  { apply forallb_hole in Hc as (i & Hi%in_seq & Hi'). exists (Z.of_nat i). unfold zlen. split; [lia|done]. }
  rewrite slice_ret by lia. eexists. split; [done|]. rewrite zdrop_0 by lia. apply existsb_exists. exists 0. split; [|done].
  apply list_elem_of_In. apply (list_elem_of_lookup_2 _ (Z.to_nat i)). rewrite lookup_ztake, decide_True by lia. rewrite G6 by lia. by rewrite Hhole.
Qed.

Lemma building_ready s : building s → data s = nh s → 20 <= len s → ready s.
Proof.
  intros [Hw Hx Ht] Hd Hl. pose proof (wf_fit s Hw) as Hf. rewrite (zlen_backing s Hw), Hx in Hf. split; [done|unfold clean; by rewrite Hx|lia..].
Qed.

(** The packet that is made: the first fragment to come with its header changed, and then
    the payload. *)
Definition whole (c : list Z) : list Z := put16 big 2 (htons big (zlen P + hdr_len c)) (put16 big 6 0 (c ++ P)).

Lemma assemble_whole fresh s dat q : (∀ n, 0 <= n → zlen (fresh n) = n) → fragment s → zlen P <= zlen dat → ztake (zlen P) dat = P →
  ∃ n, assemble big fresh s (zlen P) dat q = Ret (n, u32 (q + 1)) ∧ contents n = whole (contents s) ∧ wf n ∧ extra n = None ∧ data n = nh n ∧ hdr n = hdr s.
Proof using HP.
  intros Hfr F Hdl Hdat. destruct (fragment_fields s F) as (_ & _ & E3). pose proof F as [R Hd _ H2 H8 H9 H3 H4 _ _ _]. destruct R as [Hw C _ He Hl].
  pose proof (zlen_contents s Hw) as Hzc. pose proof (zlen_nonneg P). pose proof (wf_data s Hw).
  destruct (copy_expand_ok fresh Hfr s 0 (zlen P) q Hw C) as (n & En & Wn & Xn & Cn & Dn & Tn & Ln & Hn & Nn & _ & Tn'); [lia..|].
  unfold assemble. rewrite En, bind_ret. cbv beta iota. cbn [of_option]. rewrite bind_ret. cbv zeta. set (n0 := with_heads (data n) (h n) n).
  assert (B0 : building n0) by (split; [by destruct Wn; split|exact Xn|cbn; lia]). assert (C0 : contents n0 = contents s) by exact Cn.
  assert (L0 : len n0 = len s) by exact Ln. assert (D0 : data n0 = 0) by exact Dn. assert (T0 : tail n0 + zlen P = end_ n0) by (cbn; lia).
  assert (N0 : nh n0 = 0) by exact Dn. assert (H0' : hdr n0 = hdr s) by exact Hn. clearbody n0. clear En Wn Xn Cn Dn Tn Ln Hn Nn Tn' n.
  rewrite E3, bind_ret. rewrite <-Hd. rewrite <-(Z.add_0_r (data s)), mem_window by (done || lia). rewrite zdrop_0 by lia. rewrite bind_ret.
  set (hl := hdr_len (contents s)) in *. assert (Hzh : zlen (ztake hl (contents s)) = hl) by (apply zlen_ztake; lia).
  destruct (set_bytes_building n0 (nh n0) (ztake hl (contents s)) B0) as (E1 & B1 & C1); [lia..|]. rewrite E1, bind_ret.
  set (n1 := with_mem _ n0) in *. rewrite N0, D0, C0 in C1. assert (splice (0 - 0) (ztake hl (contents s)) (contents s) = contents s) as Hsp.
  { unfold splice. rewrite Hzh. replace (0 - 0 + hl) with hl by lia. rewrite ztake_0 by lia. apply ztake_zdrop. }
  rewrite Hsp in C1. destruct (put_write n1 P B1) as (n2 & n3 & E2 & E4 & B3 & C3 & -> & En3); [cbn; lia|]. rewrite E2, bind_ret. cbv beta iota.
  rewrite slice_ret by lia. rewrite zdrop_0 by lia. rewrite Hdat, bind_ret, E4, bind_ret. rewrite C1 in C3.
  assert (D3 : data n3 = 0) by (by subst n3). assert (N3 : nh n3 = 0) by (by subst n3). assert (L3 : len n3 = len s + zlen P) by (subst n3; cbn; lia).
  assert (H3' : hdr n3 = hdr s) by (by subst n3). clear E1 E2 E4 En3. clearbody n1. clear n1 B1 C1.
  destruct (set_bytes_building n3 (nh n3 + 6) (bytes big 2 0) B3) as (E5 & B5 & C5); [rewrite D3, N3; lia|unfold zlen; rewrite length_bytes; lia|].
  assert (Hlb : ∀ v, zlen (bytes big 2 v) = 2) by (intros; unfold zlen; by rewrite length_bytes).
  rewrite E5, bind_ret. set (n5 := with_mem _ n3) in *. rewrite N3, D3, C3 in C5. change (0 + 6 - 0) with (Z.of_nat 6) in C5. rewrite splice_put16 in C5.
  assert (D5 : data n5 = 0) by exact D3. assert (N5 : nh n5 = 0) by exact N3. assert (L5 : len n5 = len s + zlen P) by exact L3. assert (H5' : hdr n5 = hdr s) by exact H3'.
  clearbody n5. clear E5 B3 C3 D3 N3 L3 H3' n3.
  assert (header_len big n5 = Ret hl) as ->.
  { unfold header_len. rewrite iph_ready by (try lia; by apply building_ready; [|lia..]). rewrite bind_ret, word_1, nth_drop. f_equal. rewrite C5.
    change (hdr_len (put16 big 6 0 (contents s ++ P)) = hl). unfold hl, hdr_len. change (ihl (put16 big 6 0 (contents s ++ P)) * 4 = ihl (contents s) * 4).
    rewrite ihl_put16 by (rewrite ?length_app; unfold zlen in *; lia). unfold ihl. by rewrite app_nth1 by (unfold zlen in *; lia). }
  rewrite bind_ret. destruct (set_bytes_building n5 (nh n5 + 2) (bytes big 2 (htons big (zlen P + hl))) B5) as (E6 & B6 & C6); [rewrite ?Hlb; lia..|].
  rewrite E6, bind_ret. set (n6 := with_mem _ n5) in *. rewrite N5, D5, C5 in C6. change (0 + 2 - 0) with (Z.of_nat 2) in C6. rewrite splice_put16 in C6.
  eexists. split; [done|]. split; [exact C6|]. split_and!; [apply B6|apply B6|unfold n6; cbn; lia|done].
Qed.

(** ** A fragment arrives *)

Context (fresh : Z → list Z) (Hfresh : ∀ n, 0 <= n → zlen (fresh n) = n) (garbage : list Z) (Hgarbage : zlen garbage = FRAG_BYTES) (HP0 : 0 < zlen P).

Lemma gather_frag_step pre s q f0 : head pre = Some f0 → Forall fragment (pre ++ [s]) → (length pre < FRAG_SLOTS)%nat →
  if complete (pre ++ [s])
  then ∃ n, gather_frag big fresh garbage (slots pre) s q = Ret (Some n, slots (pre ++ [s]), u32 (q + 1)) ∧ contents n = whole (contents f0)
  else gather_frag big fresh garbage (slots pre) s q = Ret (None, slots (pre ++ [s]), q).
Proof using HP Hfresh Hgarbage HP0.
  intros Hh Hf Hl. unfold gather_frag, slots. destruct (gather_loop_gathers pre (FRAG_SLOTS - S (length pre)) s [] _ Hf (gathers_start garbage Hgarbage)) as (g & E & G).
  replace (S (FRAG_SLOTS - S (length pre))) with (FRAG_SLOTS - length pre)%nat in E by lia. rewrite E, bind_ret. cbv beta iota. rewrite app_nil_l in G.
  rewrite length_app. change (length [s]) with 1%nat. replace (FRAG_SLOTS - S (length pre))%nat with (FRAG_SLOTS - (length pre + 1))%nat by lia.
  pose proof (ga_dlen _ _ G) as Hdl. unfold FRAG_BYTES in Hdl. destruct (complete _) eqn:Hc.
  - destruct (gathers_complete _ g HP0 Hf G Hc) as (-> & -> & Hd & seen & -> & Hz). rewrite bind_ret, Hz. destruct pre as [|x pre]; [done|]. injection Hh as ->.
    cbn [map app negb]. apply Forall_cons in Hf as [Hf0 _]. destruct (assemble_whole fresh f0 (g_data g) q Hfresh Hf0 ltac:(lia) Hd) as (n & -> & Hn & _).
    rewrite bind_ret. by exists n.
  - destruct (g_ended g) eqn:He; [|done]. destruct (gathers_incomplete _ g Hf G Hc He) as (seen & -> & Hz). by rewrite bind_ret, Hz.
Qed.

Lemma defrag_step user db l pre s q f0 : db !! user = Some (slots pre :: l) → head pre = Some f0 → same_flow big f0 s = Ret true →
  Forall fragment (pre ++ [s]) → (length pre < FRAG_SLOTS)%nat →
  if complete (pre ++ [s])
  then ∃ n, ip_defrag_user big fresh garbage s user db q = Ret (Some n, <[user := l]> db, u32 (q + 1)) ∧ contents n = whole (contents f0)
  else ip_defrag_user big fresh garbage s user db q = Ret (None, <[user := slots (pre ++ [s]) :: l]> db, q).
Proof using HP Hfresh Hgarbage HP0.
  intros Hdb Hh Hs Hf Hl. pose proof (gather_frag_step pre s q f0 Hh Hf Hl) as Hg. unfold ip_defrag_user. rewrite Hdb. cbn [of_option]. rewrite bind_ret.
  assert (find_list big s (slots pre :: l) = Ret (Some O)) as ->.
  { destruct pre as [|x pre]; [done|]. injection Hh as ->. cbn [find_list slots map app head mjoin option_join of_option]. rewrite bind_ret, Hs. by rewrite bind_ret. }
  rewrite bind_ret. cbn [lookup list_lookup of_option]. rewrite bind_ret. destruct (complete _).
  - destruct Hg as (n & -> & Hn). rewrite bind_ret. by exists n.
  - by rewrite Hg, bind_ret.
Qed.

Lemma too_many_barf pre s q : Forall fragment pre → length pre = FRAG_SLOTS →
  gather_frag big fresh garbage (slots pre) s q = Barf "Can't handle that many frags!".
Proof using HP Hgarbage.
  intros Hf Hl. unfold gather_frag, slots. rewrite Hl, Nat.sub_diag. change (replicate 0 None) with (@nil (option sk_buff)). rewrite app_nil_r.
  destruct (gather_loop_full pre s [] _ Hf (gathers_start garbage Hgarbage)) as (g & ->). done.
Qed.

(** Packets one after the other. *)
Fixpoint feed (user : nat) (ss : list sk_buff) (db : fragdb) (q : Z) : outcome (list (option sk_buff) * fragdb * Z) :=
  match ss with
  | [] => mret ([], db, q)
  | s :: ss =>
      '(r, db, q) ← ip_defrag_user big fresh garbage s user db q;
      '(rs, db, q) ← feed user ss db q; mret (r :: rs, db, q)
  end.

Lemma feed_rest user l f0 rest lastf : ∀ pre db q,
  db !! user = Some (slots pre :: l) → head pre = Some f0 → Forall fragment (pre ++ rest ++ [lastf]) → Forall (λ s, same_flow big f0 s = Ret true) (rest ++ [lastf]) →
  (length (pre ++ rest ++ [lastf]) <= FRAG_SLOTS)%nat →
  (∀ j, (length pre < j < length (pre ++ rest ++ [lastf]))%nat → complete (take j (pre ++ rest ++ [lastf])) = false) → complete (pre ++ rest ++ [lastf]) = true →
  ∃ n, feed user (rest ++ [lastf]) db q = Ret (replicate (length rest) None ++ [Some n], <[user := l]> db, u32 (q + 1)) ∧ contents n = whole (contents f0).
Proof using HP Hfresh Hgarbage HP0.
  induction rest as [|s rest IH]; intros pre db q Hdb Hh Hf Hs Hl Hno Hc.
  - cbn [app] in *. apply Forall_cons in Hs as [Hs _]. rewrite length_app in Hl. cbn in Hl.
    pose proof (defrag_step user db l pre lastf q f0 Hdb Hh Hs Hf ltac:(lia)) as Hd. rewrite Hc in Hd. destruct Hd as (n & E & Hn). exists n. split; [|done].
    cbn [feed]. by rewrite E.
  - rewrite <-!app_comm_cons in *. apply Forall_cons in Hs as [Hs Hss]. assert (Hsh : pre ++ s :: rest ++ [lastf] = (pre ++ [s]) ++ rest ++ [lastf]) by (by rewrite <-app_assoc).
    rewrite Hsh in Hf, Hl, Hno, Hc. assert (Hcl : complete (pre ++ [s]) = false).
    { rewrite <-(Hno (length (pre ++ [s]))) by (rewrite !length_app; cbn; lia). by rewrite take_app_length. }
    pose proof (defrag_step user db l pre s q f0 Hdb Hh Hs (proj1 (proj1 (Forall_app _ _ _) Hf)) ltac:(rewrite !length_app in Hl; cbn in Hl; lia)) as Hd. rewrite Hcl in Hd.
    destruct (IH (pre ++ [s]) (<[user := slots (pre ++ [s]) :: l]> db) q) as (n & E & Hn); try done.
    + apply list_lookup_insert_eq. by eapply lookup_lt_Some.
    + by destruct pre.
    + intros j Hj. apply Hno. rewrite !length_app in *; cbn [length] in *; lia.
    + exists n. split; [|done]. cbn [feed]. rewrite Hd, bind_ret. cbv beta iota. rewrite E, bind_ret. by rewrite list_insert_insert_eq.
Qed.

(** C6: reassembly.  When the fragments of a payload, at most 20 of them, come in in any
    order, overlapping or not, nothing is returned until no byte is missing; then the
    packet returned ends in the payload, its header says so, and the list is as it was
    before. *)
Theorem defrag_any_order user db l f0 rest lastf q :
  let fs := f0 :: rest ++ [lastf] in
  db !! user = Some l → find_list big f0 l = Ret None → Forall fragment fs → Forall (λ s, same_flow big f0 s = Ret true) (rest ++ [lastf]) →
  (length fs <= FRAG_SLOTS)%nat → (∀ j, (2 <= j < length fs)%nat → complete (take j fs) = false) → complete fs = true →
  ∃ n, feed user fs db q = Ret (replicate (length fs - 1) None ++ [Some n], db, u32 (q + 1)) ∧ contents n = whole (contents f0).
Proof using HP Hfresh Hgarbage HP0.
  intros fs Hdb Hf0 Hf Hs Hl Hno Hc. destruct (feed_rest user l f0 rest lastf [f0] (<[user := slots [f0] :: l]> db) q) as (n & E & Hn); try done.
  - apply list_lookup_insert_eq. by eapply lookup_lt_Some.
  - exists n. split; [|done]. unfold fs. cbn [feed length]. unfold ip_defrag_user at 1. rewrite Hdb. cbn [of_option]. rewrite bind_ret, Hf0, bind_ret, bind_ret. cbv beta iota.
    change (Some f0 :: replicate (FRAG_SLOTS - 1) None) with (slots [f0]). rewrite E, bind_ret. cbv beta iota.
    rewrite length_app. cbn [length]. replace (S (length rest + 1) - 1)%nat with (S (length rest)) by lia. cbn [replicate app].
    rewrite list_insert_insert_eq, list_insert_id by done. done.
Qed.
End Payload.

(** ** Two fragments, the second one first *)

Module Pieces.
Definition garbage0 : list Z := replicate (Z.to_nat FRAG_BYTES) 0.
(** Big endian; [fo]: the fragment field; [id]: of the datagram. *)
Definition ip (id tot_len fo : Z) (part : list Z) : list Z :=
  [0x45; 0] ++ bytes true 2 tot_len ++ bytes true 2 id ++ bytes true 2 fo ++ [64; 17; 0; 0; 10; 0; 0; 9; 10; 0; 0; 1] ++ part.
Definition piece (bs : list Z) : sk_buff := SkBuff (hdr0 1) 0 None 0 0 20 0 0 0 1 0 (zlen bs) bs 0 (zlen bs) (zlen bs) None 0.
Definition part1 : list Z := [1; 2; 3; 4; 5; 6; 7; 8].
Definition part2 : list Z := [9; 10; 11; 12].
Definition first := piece (ip 1 28 0x2000 part1).
Definition second := piece (ip 1 24 1 part2).
Definition reassemble (ss : list sk_buff) : outcome (list (option (list Z))) :=
  '(rs, _, _) ← feed true zeros garbage0 0 ss init_fraglist 1; mret (map (λ r, match r with Some n => Some (contents n) | None => None end) rs).
End Pieces.
Import Pieces.

Lemma garbage0_len : zlen garbage0 = FRAG_BYTES.
Proof. unfold zlen, garbage0. rewrite length_replicate. unfold FRAG_BYTES. lia. Qed.

Lemma piece_ready bs : 20 <= zlen bs < 2 ^ 31 → ready (piece bs) ∧ contents (piece bs) = bs.
Proof.
  intros Hb. assert (E : backing (piece bs) = bs) by apply app_nil_r. split.
  - split; [|done|cbn; lia..]. split; rewrite ?E; cbn; lia || done.
  - unfold contents. rewrite E. cbn [data len piece]. rewrite zdrop_0 by lia. by apply ztake_all.
Qed.
Lemma pieces_fragments : Forall (fragment true (part1 ++ part2)) [second; first].
Proof.
  repeat constructor; try (by vm_compute); first [apply piece_ready|idtac]; vm_compute; split_and?; congruence.
Qed.

Lemma defrag_any_order_witness :
  ∃ n, feed true zeros garbage0 0 [second; first] init_fraglist 1 = Ret ([None; Some n], init_fraglist, 2) ∧
    contents n = ip 1 32 0 (part2 ++ part1 ++ part2).
Proof.
  apply (defrag_any_order true (part1 ++ part2) ltac:(by vm_compute) zeros zeros_len garbage0 garbage0_len ltac:(by vm_compute) 0 init_fraglist [] second [] first 1);
    [done|done|exact pieces_fragments|by repeat constructor|cbn; unfold FRAG_SLOTS; lia|cbn; lia|done].
Defined.

(** ** What is wrong with it *)

(** The part of the fragment that came first stays between the header and the payload:
    the packet is not the datagram that was sent. *)
Lemma reassembled_garbled : reassemble [second; first] = Ret [None; Some (ip 1 32 0 (part2 ++ part1 ++ part2))] ∧
  ztake 32 (ip 1 32 0 (part2 ++ part1 ++ part2)) ≠ ip 1 32 0 (part1 ++ part2).
Proof. split; [by vm_compute|by vm_compute]. Qed.

(** The identification is not compared: parts of two datagrams become one. *)
Lemma datagrams_mixed : reassemble [first; piece (ip 2 24 1 [90; 91; 92; 93])] =
  Ret [None; Some (ip 1 32 0 (part1 ++ part1 ++ [90; 91; 92; 93]))].
Proof. by vm_compute. Qed.

(** A fragment may say that it ends beyond the arrays. *)
Lemma fragment_overflow : reassemble [first; piece (ip 1 65535 0x1FFF part2)] = Fault "write outside the array".
Proof. by vm_compute. Qed.

(** There is no list for the last of the users. *)
Lemma no_list_for_vs_fwd : ip_defrag true zeros garbage0 first IP_DEFRAG_VS_FWD init_fraglist 1 = Fault "fraglist: no such user".
Proof. by vm_compute. Qed.
