(* ===== verification/Modules.v ===== *)
(** * tools/module.c: modules

    The shared objects are files of a directory.  Whether dlopen finds every symbol
    depends on the modules that are loaded; that, what an object's __module_init answers
    and whether it has a __module_exit are parameters. *)

From Stdlib Require Import ZArith Lia.
From S2P Require Import Prelude CStr.

Record nfsim_module := NfsimModule { name : text; use : Z }.
Inductive event := Init (n : text) | Fini (n : text) | RunTimers | Dlclose (n : text).
(** The list, most recent first, and what was called. *)
Record mstate := MState { modules : list nfsim_module; called : list event }.
Definition log (e : event) (s : mstate) : mstate := MState (modules s) (called s ++ [e]).
Definition with_modules (l : list nfsim_module) (s : mstate) : mstate := MState l (called s).

(** strends (a, b) *)
Definition strends (a b : text) : bool :=
  if (length a <? length b)%nat then false else streq (drop (length a - length b) a) b.

Definition find_module (n : text) (s : mstate) : option nfsim_module := List.find (λ m, streq (name m) n) (modules s).
(** The first entry of that name gets [u]. *)
Fixpoint set_use (n : text) (u : Z) (l : list nfsim_module) : list nfsim_module :=
  match l with [] => [] | m :: l => if streq (name m) n then NfsimModule (name m) u :: l else m :: set_use n u l end.

(** ** Use counts *)

Definition module_put (module : option text) (s : mstate) : outcome mstate :=
  match module with
  | None => mret s
  | Some n =>
      match find_module n s with
      | None => Barf "Unknown module put"
      | Some m => if use m =? 0 then Barf "Module put too far" else mret (with_modules (set_use n (use m - 1) (modules s)) s)
      end
  end.
(** [fail]: should_i_fail_once. *)
Definition try_module_get (fail : bool) (module : option text) (s : mstate) : outcome (Z * mstate) :=
  if fail then mret (0, s) else
  match module with
  | None => mret (1, s)
  | Some n =>
      match find_module n s with
      | None => Barf "Unknown module get"
      | Some m => mret (1, with_modules (set_use n (u32 (use m + 1)) (modules s)) s)
      end
  end.
Definition __MOD_INC_USE_COUNT (module : option text) (s : mstate) : outcome mstate :=
  match module with
  | None => mret s
  | Some n =>
      match find_module n s with
      | None => Barf "Unknown module inc"
      | Some m => mret (with_modules (set_use n (u32 (use m + 1)) (modules s)) s)
      end
  end.
Definition __MOD_DEC_USE_COUNT (module : option text) (s : mstate) : outcome mstate :=
  match module with
  | None => mret s
  | Some n =>
      match find_module n s with
      | None => Barf "Unknown module dec"
      | Some m => if use m =? 0 then Barf "Module put too far" else mret (with_modules (set_use n (use m - 1) (modules s)) s)
      end
  end.

Definition lsmod (s : mstate) : list (text * Z) := map (λ m, (name m, use m)) (modules s).

Definition names (s : mstate) : list text := map name (modules s).
(** talloc_free: the destructor closes the object and takes it off the list. *)
Definition destroy_mod (n : text) (s : mstate) : mstate :=
  log (Dlclose n) (with_modules (filter (λ m, name m ≠ n) (modules s)) s).
(** ** Unloading *)

Section Unload.
Context (fini : text → bool).

Definition module_unload (m : nfsim_module) (s : mstate) : mstate :=
  let s := log RunTimers s in
  let s := if fini (name m) then log (Fini (name m)) s else s in
  destroy_mod (name m) s.

Fixpoint unload_list (l : list nfsim_module) (s : mstate) : bool * mstate :=
  match l with
  | [] => (true, s)
  | m :: l => if negb (use m =? 0) then (false, s) else unload_list l (module_unload m s)
  end.
Definition unload_all_modules (s : mstate) : bool * mstate := unload_list (modules s) s.

Definition rmmod (argv : list text) (s : mstate) : bool * mstate :=
  match argv with
  | [_; a] =>
      if streq a (tx "-a") then unload_all_modules s else
      match find_module a s with None => (false, s) | Some m => (true, module_unload m s) end
  | _ => (false, s)
  end.
End Unload.

(** ** Loading *)

Section Load.
Context (dlopen : text → list text → bool) (init : text → option Z).


Definition no_init : Z := 0.

Definition load_mod (n : text) (s : mstate) : option mstate :=
  if dlopen n (names s) then Some (with_modules (NfsimModule n 0 :: modules s) s) else None.
(** mod->init () *)
Definition call_init (n : text) (s : mstate) : Z * mstate :=
  match init n with None => (no_init, s) | Some r => (r, log (Init n) s) end.

(** One reading of the directory: [None] when a module's init failed, else how many were
    tried and how many loaded. *)
Fixpoint load_pass (dir : list text) (tried succeeded : nat) (s : mstate) : option (nat * nat) * mstate :=
  match dir with
  | [] => (Some (tried, succeeded), s)
  | d :: dir =>
      if negb (strends d (tx ".so")) then load_pass dir tried succeeded s else
      let n := take (length d - 3) d in
      match find_module n s with
      | Some _ => load_pass dir tried succeeded s
      | None =>
          match load_mod n s with
          | None => load_pass dir (S tried) succeeded s
          | Some s =>
              let '(r, s) := call_init n s in
              if negb (r =? 0) then (None, destroy_mod n s) else load_pass dir (S tried) (S succeeded) s
          end
      end
  end.
(** The loop as long as something was loaded; [None]: out of fuel. *)
Fixpoint load_loop (fuel : nat) (dir : list text) (s : mstate) : option (bool * mstate) :=
  match fuel with
  | O => None
  | S fuel =>
      match load_pass dir 0 0 s with
      | (None, s) => Some (false, s)
      | (Some (tried, succeeded), s) => if negb (succeeded =? 0)%nat then load_loop fuel dir s else Some ((tried =? 0)%nat, s)
      end
  end.
(** [None] for the directory: opendir failed. *)
Definition load_all_modules (dir : option (list text)) (s : mstate) : option (bool * mstate) :=
  match dir with None => Some (false, s) | Some dir => load_loop (S (length dir)) dir s end.

Definition insmod (dir : option (list text)) (argv : list text) (s : mstate) : option (bool * mstate) :=
  match argv with
  | [_; a] =>
      if streq a (tx "-a") then load_all_modules dir s else
      match find_module a s with
      | Some _ => Some (false, s)
      | None =>
          match load_mod a s with
          | None => Some (false, s)
          | Some s => let '(r, s) := call_init a s in if negb (r =? 0) then Some (false, destroy_mod a s) else Some (true, s)
          end
      end
  | _ => Some (false, s)
  end.

(** ** Loading in whatever order works *)

(** The modules of a directory. *)
Fixpoint objects (dir : list text) : list text :=
  match dir with [] => [] | d :: dir => if strends d (tx ".so") then take (length d - 3) d :: objects dir else objects dir end.
(** From the loaded modules [l] those of [l'] can be had by opening modules of [O] one
    after the other. *)
Inductive opens (O : list text) : list text → list text → Prop :=
| opens_done l : opens O l l
| opens_next l n l' : n ∈ O → n ∉ l → dlopen n l = true → opens O (n :: l) l' → opens O l l'.
Definition inits (l : list text) : list event := omap (λ n, match init n with Some _ => Some (Init n) | None => None end) l.

Lemma opens_trans O a b c : opens O a b → opens O b c → opens O a c.
Proof using Type. induction 1; [done|]. intros. econstructor; eauto. Qed.
Lemma find_module_None n s : find_module n s = None ↔ n ∉ names s.
Proof using Type.
  unfold find_module, names. induction (modules s) as [|m l IH]; cbn [List.find map]; [split; [intros _; apply not_elem_of_nil|done]|].
  rewrite not_elem_of_cons. destruct (streq (name m) n) eqn:E.
  - apply streq_spec in E. split; [done|]. intros [? _]. congruence.
  - rewrite IH. split; [|by intros [_ ?]]. intros ?. split; [|done]. intros ->. by rewrite (proj2 (streq_spec _ _) eq_refl) in E.
Qed.

Lemma names_init n s : names (snd (call_init n s)) = names s ∧ called (snd (call_init n s)) = called s ++ inits [n].
Proof using Type. unfold call_init, inits. cbn [omap list_omap]. destruct (init n); cbn; by rewrite ?app_nil_r. Qed.

Lemma load_pass_spec objs dir : objects dir ⊆ objs → ∀ t k s t' k' s', load_pass dir t k s = (Some (t', k'), s') →
  ∃ new, names s' = new ++ names s ∧ k' = (k + length new)%nat ∧ opens objs (names s) (names s') ∧ called s' = called s ++ inits (rev new) ∧
    (∀ n, n ∈ new → n ∈ objects dir ∧ n ∉ names s) ∧
    (new = [] → ∃ a, t' = (t + a)%nat ∧ (a = 0%nat ↔ objects dir ⊆ names s) ∧ ∀ n, n ∈ objects dir → n ∈ names s ∨ dlopen n (names s) = false).
Proof using Type.
  induction dir as [|d dir IH]; intros Hsub t k s t' k' s'; cbn [load_pass objects] in *.
  { intros [= <- <- <-]. exists []. cbn [length]. rewrite Nat.add_0_r. split_and!; [done|done|constructor|by rewrite app_nil_r|by intros n ?%not_elem_of_nil|].
    intros _. exists 0%nat. split_and!; [lia|split; [intros _ n ?%not_elem_of_nil; done|done]|by intros n ?%not_elem_of_nil]. }
  destruct (strends d (tx ".so")); cbn [negb]; [|by apply IH]. set (n := take (length d - 3) d) in *.
  assert (Hsub' : objects dir ⊆ objs) by set_solver. destruct (find_module n s) as [m|] eqn:Em.
  - intros H. apply IH in H as (new & H1 & H2 & H3 & H4 & H5 & H6); [|done]. exists new. split_and!; try done.
    + intros x Hx. destruct (H5 x Hx). split; [set_solver|done].
    + assert (n ∈ names s). { destruct (decide (n ∈ names s)) as [|Hn%find_module_None]; [done|]. by rewrite Hn in Em. }
      intros E. destruct (H6 E) as (a & ? & ? & ?). exists a. split_and!; [done|set_solver|]. intros x [->|?]%elem_of_cons; [by left|auto].
  - apply find_module_None in Em. unfold load_mod. destruct (dlopen n (names s)) eqn:Eo.
    + set (s1 := with_modules _ s). destruct (names_init n s1) as [N1 C1]. destruct (call_init n s1) as [r s2]. cbn [snd] in N1, C1. change (names s1) with (n :: names s) in N1.
      change (called s1) with (called s) in C1. destruct (negb (r =? 0)); [done|]. intros H. apply IH in H as (new & H1 & H2 & H3 & H4 & H5 & H6); [|done].
      rewrite N1 in *. exists (new ++ [n]). rewrite H1, <-app_assoc. split_and!; [done|rewrite length_app; cbn; lia| | | |by intros [_ ?]%app_nil].
      * apply (opens_next _ _ n); [set_solver|done|done|]. by rewrite <-H1.
      * rewrite H4, C1, rev_app_distr. unfold inits. cbn [rev app]. rewrite <-app_assoc. f_equal. symmetry. apply (omap_app _ [n]).
      * intros x [Hx|Hx]%elem_of_app; [destruct (H5 x Hx); set_solver|]. apply list_elem_of_singleton in Hx as ->. set_solver.
    + intros H. apply IH in H as (new & H1 & H2 & H3 & H4 & H5 & H6); [|done]. exists new. split_and!; try done.
      * intros x Hx. destruct (H5 x Hx). split; [set_solver|done].
      * intros E. destruct (H6 E) as (a & ? & ? & Hd). exists (S a). split_and!; [lia|split; [lia|set_solver]|].
        intros x [->|?]%elem_of_cons; [by right|auto].
Qed.

(** The modules of the directory that are still to be loaded. *)
Definition missing (dir : list text) (s : mstate) : list text := filter (λ n, n ∉ names s) (objects dir).

Lemma length_objects dir : (length (objects dir) <= length dir)%nat.
Proof using Type. induction dir as [|d dir IH]; cbn [objects]; [done|]. destruct (strends _ _); cbn [length]; lia. Qed.

Lemma missing_less dir s s' n : names s ⊆ names s' → n ∈ objects dir → n ∉ names s → n ∈ names s' → (length (missing dir s') < length (missing dir s))%nat.
Proof using Type.
  clear dlopen init. unfold missing. intros Hsub Hn Hs Hs'. revert Hn. induction (objects dir) as [|x l IH]; [by intros ?%not_elem_of_nil|]. intros Hn. rewrite !filter_cons.
  assert (Hle : (length (filter (λ n, n ∉ names s') l) <= length (filter (λ n, n ∉ names s) l))%nat).
  { clear -Hsub. induction l as [|y l IH]; [done|]. rewrite !filter_cons. repeat case_decide; cbn [length]; try lia. set_solver. }
  apply elem_of_cons in Hn as [<-|Hn].
  - rewrite decide_False by auto. rewrite decide_True by done. cbn [length]. lia.
  - specialize (IH Hn). repeat case_decide; cbn [length]; try lia. set_solver.
Qed.

(** The loop comes to its end, whatever the objects do. *)
Lemma load_loop_ends dir fuel : ∀ s, (length (missing dir s) < fuel)%nat → ∃ r, load_loop fuel dir s = Some r.
Proof using Type.
  induction fuel as [|fuel IH]; intros s Hf; [lia|]. cbn [load_loop]. destruct (load_pass dir 0 0 s) as [[[t k]|] s'] eqn:E; [|by eexists].
  apply (load_pass_spec (objects dir)) in E as (new & Hn & Hk & _ & _ & Hin & _); [|done]. destruct (Nat.eqb_spec k 0) as [|Hk0]; [by eexists|]. cbn [negb].
  apply IH. destruct new as [|n new]; [cbn in Hk; lia|]. destruct (Hin n) as [Ho Hm]; [set_solver|].
  pose proof (missing_less dir s s' n) as Hl. rewrite Hn in Hl. specialize (Hl ltac:(set_solver) Ho Hm ltac:(set_solver)). lia.
Qed.
Lemma missing_le dir s : (length (missing dir s) <= length dir)%nat.
Proof using Type. etransitivity; [apply length_filter|apply length_objects]. Qed.

Lemma load_pass_inits dir : (∀ n, n ∈ objects dir → default 0 (init n) = 0) → ∀ t k s, ∃ x, fst (load_pass dir t k s) = Some x.
Proof using Type.
  induction dir as [|d dir IH]; intros Hi t k s; cbn [load_pass objects] in *; [by eexists|]. destruct (strends d (tx ".so")); cbn [negb]; [|by apply IH].
  destruct (find_module _ s); [apply IH; set_solver|]. destruct (load_mod _ s); [|apply IH; set_solver]. unfold call_init.
  assert (Hd := Hi (take (length d - 3) d) ltac:(set_solver)). destruct (init _) as [r|]; simpl in Hd; [subst r|]; cbn [negb Z.eqb no_init]; apply IH; set_solver.
Qed.

Lemma load_loop_spec dir fuel : (∀ n, n ∈ objects dir → default 0 (init n) = 0) → ∀ s b s', load_loop fuel dir s = Some (b, s') →
  ∃ new, names s' = new ++ names s ∧ opens (objects dir) (names s) (names s') ∧ called s' = called s ++ inits (rev new) ∧
    (b = true ↔ objects dir ⊆ names s') ∧ (∀ n, n ∈ objects dir → n ∈ names s' ∨ dlopen n (names s') = false).
Proof using Type.
  intros Hi. induction fuel as [|fuel IH]; intros s b s'; [done|]. cbn [load_loop]. destruct (load_pass_inits dir Hi 0 0 s) as [[t k] Ex].
  destruct (load_pass dir 0 0 s) as [r s1] eqn:E. cbn [fst] in Ex. subst r.
  apply (load_pass_spec (objects dir)) in E as (new & Hn & Hk & Ho & Hc & Hin & Hend); [|done]. destruct (Nat.eqb_spec k 0) as [->|]; cbn [negb].
  - intros [= <- <-]. destruct new as [|n new]; [|cbn in Hk; lia]. destruct (Hend eq_refl) as (a & Ha & Hs & Hd). cbn [app] in Hn. exists []. rewrite Hn in *.
    split_and!; try done. subst t. rewrite Nat.eqb_eq, <-Hs. lia.
  - intros H. apply IH in H as (new' & Hn' & Ho' & Hc' & Hb & Hd). exists (new' ++ new). split_and!; try done.
    + by rewrite Hn', Hn, app_assoc.
    + by eapply opens_trans.
    + rewrite Hc', Hc, rev_app_distr. unfold inits. by rewrite omap_app, app_assoc.
Qed.

(** What can be had is had in the end. *)
Lemma opens_closed objs l l' L : (∀ n a b, a ⊆ b → dlopen n a = true → dlopen n b = true) → opens objs l l' → l ⊆ L →
  (∀ n, n ∈ objs → n ∈ L ∨ dlopen n L = false) → l' ⊆ L.
Proof using Type.
  clear init. intros Hmono. induction 1 as [l|l n l' Hn Hnl Hd Ho IH]; intros Hl HL; [done|]. apply IH; [|done].
  destruct (HL n Hn) as [|Hf]; [set_solver|]. by rewrite (Hmono n l L Hl Hd) in Hf.
Qed.

(** C10: insmod -a.  Whatever the objects do, the loop comes to its end.  If what could be
    opened stays possible when more is loaded, and the init functions succeed, it loads
    modules of the directory one after the other, calls their init functions in that
    order, and loads all of them exactly if they can all be loaded in some order. *)
Theorem load_all_finds_order dir s :
  (∃ r, load_all_modules (Some dir) s = Some r) ∧
  ((∀ n a b, a ⊆ b → dlopen n a = true → dlopen n b = true) → (∀ n, n ∈ objects dir → default 0 (init n) = 0) →
   ∃ b s' new, load_all_modules (Some dir) s = Some (b, s') ∧ names s' = new ++ names s ∧ opens (objects dir) (names s) (names s') ∧
     called s' = called s ++ inits (rev new) ∧ (b = true ↔ objects dir ⊆ names s') ∧
     (b = true ↔ ∃ l, opens (objects dir) (names s) l ∧ objects dir ⊆ l)).
Proof using Type.
  assert (He : ∃ r, load_all_modules (Some dir) s = Some r) by (apply load_loop_ends; pose proof (missing_le dir s); lia).
  split; [done|]. intros Hmono Hi. destruct He as [[b s'] E]. pose proof E as (new & Hn & Ho & Hc & Hb & Hd)%load_loop_spec; [|done].
  exists b, s', new. split_and!; try done. split.
  - intros Ht%Hb. by exists (names s').
  - intros (l & Hl & Hsub). apply Hb. etransitivity; [exact Hsub|]. eapply (opens_closed _ _ _ _ Hmono Hl); [|done]. rewrite Hn. set_solver.
Qed.
End Load.

(** ** Three modules, the last of the directory first *)

Module Directory.
Definition dir : list text := map (λ s, tx s) ["."; ".."; "nat.so"; "conntrack.so"; "README"; "tables.so"].
(** nat needs conntrack and tables. *)
Definition opens_with (n : text) (loaded : list text) : bool :=
  if streq n (tx "nat") then bool_decide (tx "conntrack" ∈ loaded) && bool_decide (tx "tables" ∈ loaded) else true.
Definition start : mstate := MState [] [].
Definition inits_ok (n : text) : option Z := if streq n (tx "tables") then None else Some 0.
End Directory.
Import Directory.

Lemma load_all_finds_order_witness :
  (∃ b s' new, load_all_modules opens_with inits_ok (Some dir) start = Some (b, s') ∧ names s' = new ++ [] ∧
     opens opens_with (objects dir) [] (names s') ∧ called s' = inits inits_ok (rev new) ∧ (b = true ↔ objects dir ⊆ names s') ∧
     (b = true ↔ ∃ l, opens opens_with (objects dir) [] l ∧ objects dir ⊆ l)) ∧
  load_all_modules opens_with inits_ok (Some dir) start =
    Some (true, MState [NfsimModule (tx "nat") 0; NfsimModule (tx "tables") 0; NfsimModule (tx "conntrack") 0] [Init (tx "conntrack"); Init (tx "nat")]).
Proof.
  split; [|by vm_compute]. apply (load_all_finds_order opens_with inits_ok dir start).
  - intros n a b Hab. unfold opens_with. destruct (streq _ _); [|done]. rewrite !andb_true_iff, !bool_decide_eq_true. set_solver.
  - intros n Hn. cbn in Hn. repeat (apply elem_of_cons in Hn as [->|Hn]; [by vm_compute|]). by apply not_elem_of_nil in Hn.
Defined.

(** ** Unloading *)

(** What happens to a module that goes. *)
Definition goodbye (fini : text → bool) (m : nfsim_module) : list event :=
  RunTimers :: (if fini (name m) then [Fini (name m)] else []) ++ [Dlclose (name m)].
Lemma unload_unused fini l : ∀ s, modules s = l → NoDup (map name l) → Forall (λ m, use m = 0) l →
  unload_list fini l s = (true, MState [] (called s ++ concat (map (goodbye fini) l))).
Proof.
  induction l as [|m l IH]; intros [ms cs] Hm Hd Hu; cbn [modules called] in *; subst ms; cbn [unload_list map concat].
  - by rewrite app_nil_r.
  - apply Forall_cons in Hu as [-> Hu]. cbn [map] in Hd. apply NoDup_cons in Hd as [Hn Hd]. cbn [negb Z.eqb].
    assert (E : module_unload fini m (MState (m :: l) cs) = MState l (cs ++ goodbye fini m)).
    { unfold module_unload, destroy_mod, goodbye, log, with_modules. destruct (fini (name m)); cbn [modules called app]; rewrite <-?app_assoc; f_equal;
        rewrite filter_cons, decide_False by auto; apply filter_all, Forall_forall; intros x Hx E; destruct Hn; rewrite <-E; by apply list_elem_of_fmap_2. }
    rewrite E, (IH (MState l _) eq_refl Hd Hu). cbn [called]. by rewrite app_assoc.
Qed.

(** rmmod takes no notice of the use count, which unload_all_modules respects. *)
Lemma rmmod_in_use : let s := MState [NfsimModule (tx "nat") 1] [] in
  fst (rmmod (λ _, true) [tx "rmmod"; tx "nat"] s) = true ∧ fst (unload_all_modules (λ _, true) s) = false.
Proof. done. Qed.
