(* ===== verification/FakeSock.v ===== *)
(** * core/message.c, core/fakesockopt.c: system calls of another program

    iptables runs as a process of its own with a library in front of libc that passes
    its socket options to the simulator over a stream, and serves the simulator's reads
    and writes of its memory while it waits.  Both processes take steps; the stream is a
    list of message headers and bytes, and a write arrives in pieces: the rest of it is
    apart, and the writer waits until it is gone.  The kernel's socket options are a
    parameter: a tree of the copies from and to user space they make and what they return.  Starting and
    forking a program is in Fork.v, select and the program's output in Program.v. *)

From Stdlib Require Import ZArith Lia.
From stdpp Require Import relations.
From S2P Require Import Prelude CStr Mem.

Definition SYS_GETSOCKOPT : Z := 1.
Definition SYS_SETSOCKOPT : Z := 2.
Definition SYS_EXIT : Z := 3.
Definition KOP_COPY_TO_USER : Z := 1.
Definition KOP_COPY_FROM_USER : Z := 2.
Definition PF_INET : Z := 2.

Inductive message_type := UM_SYSCALL | UM_KERNELOP.
(** args is an array of four. *)
Record nf_userspace_message := Message { type : message_type; opcode : Z; len : Z; arg0 : Z; arg1 : Z; arg2 : Z; arg3 : Z; retval : Z }.
Inductive item := Header (m : nf_userspace_message) | Byte (b : Z).
Definition with_len (n : Z) (m : nf_userspace_message) : nf_userspace_message := Message (type m) (opcode m) n (arg0 m) (arg1 m) (arg2 m) (arg3 m) (retval m).

(** What a socket option of the kernel does next: return a value and, of getsockopt, a
    length; copy [n] bytes from an address of the program, [None] if that fails; copy
    bytes there, [false] if that fails. *)
Inductive kprog :=
| KRet (ret len : Z)
| KCopyFrom (from n : Z) (k : option (list Z) → kprog)
| KCopyTo (to : Z) (bs : list Z) (k : bool → kprog).

(** The program's memory. *)
Abbreviation memory := (gmap Z Z).
Fixpoint read_mem (p : Z) (n : nat) (m : memory) : outcome (list Z) :=
  match n with O => mret [] | S n => b ← of_option "segmentation fault" (m !! p); bs ← read_mem (p + 1) n m; mret (b :: bs) end.
Fixpoint write_mem (p : Z) (bs : list Z) (m : memory) : outcome memory :=
  match bs with [] => mret m | b :: bs => _ ← of_option "segmentation fault" (m !! p); write_mem (p + 1) bs (<[p := b]> m) end.

(** The simulator: the calls it is in, innermost first, each with its message, whether it
    is getsockopt, and what the kernel does next; whether it waits for a message; the exit
    status it was told. *)
Record simulator := Simulator { frames : list (nf_userspace_message * bool * kprog); waiting : bool; status : option Z }.
(** The program: about to call, waiting in fake_syscall, or back: what the call returned,
    errno if it was set, and *optlen. *)
Inductive program := Calling (m : nf_userspace_message) | Waiting (m : nf_userspace_message) | Returned (ret : Z) (errno : option Z) (optlen : Z).
(** [to_sim] and [to_prog] are what has arrived and is not read, [sim_out] and [prog_out]
    the rest of the write that the process is in. *)
Record config := Config { sim : simulator; prog : program; to_sim : list item; to_prog : list item; umem : memory; fails : list bool;
  sim_out : list item; prog_out : list item }.

(** ** Names for strace *)

Definition protofamily (pf : Z) : outcome text := if pf =? PF_INET then mret (tx "PF_INET") else Barf "Unknown protocol family".
(** Linux numbers the options from 64. *)
Definition IPT_SO : Z := 64.
Definition sockopt (opt : Z) (get : bool) : outcome text :=
  if get then
    if opt =? IPT_SO then mret (tx "GET_INFO") else if opt =? IPT_SO + 1 then mret (tx "GET_ENTRIES")
    else if opt =? IPT_SO + 2 then mret (tx "GET_REVISION_MATCH") else if opt =? IPT_SO + 3 then mret (tx "GET_REVISION_TARGET")
    else Barf "Unknown get socket opt"
  else if opt =? IPT_SO then mret (tx "SET_REPLACE") else if opt =? IPT_SO + 1 then mret (tx "SET_ADD_COUNTERS")
  else Barf "Unknown set socket opt".
Definition errors : list (Z * string) :=
  [(1, "EPERM"); (2, "ENOENT"); (3, "ESRCH"); (4, "EINTR"); (5, "EIO"); (6, "ENXIO"); (7, "E2BIG"); (8, "ENOEXEC"); (9, "EBADF"); (10, "ECHILD");
   (11, "EAGAIN"); (12, "ENOMEM"); (13, "EACCES"); (14, "EFAULT"); (15, "ENOTBLK"); (16, "EBUSY"); (17, "EEXIST"); (18, "EXDEV"); (19, "ENODEV");
   (20, "ENOTDIR"); (21, "EISDIR"); (22, "EINVAL"); (23, "ENFILE"); (24, "EMFILE"); (25, "ENOTTY"); (26, "ETXTBSY"); (27, "EFBIG"); (28, "ENOSPC");
   (29, "ESPIPE"); (30, "EROFS"); (31, "EMLINK"); (32, "EPIPE"); (33, "EDOM"); (34, "ERANGE"); (93, "EPROTONOSUPPORT"); (92, "ENOPROTOOPT"); (40, "ELOOP")]%string.
Definition err (e : Z) : outcome text :=
  if 0 <=? e then mret (print_d e) else
  match List.find (λ x, fst x =? - e) errors with Some (_, n) => mret (tx "-" ++ tx n) | None => Barf "Unknown error" end.

Section Protocol.
(** The kernel's options, by family, option, address and length; whether strace is on;
    the address of the buffer the kernel copies from or to; how many items of a write of
    the simulator arrive together at least, if it has as many. *)
Context (nf_getsockopt nf_setsockopt : Z → Z → Z → Z → kprog) (strace : bool) (kbuf : Z) (piece : nat).

(** ** The simulator *)

Definition traced {A} (o : outcome A) : outcome unit := if strace then _ ← o; mret () else mret ().

(** The arguments are unsigned longs, the parameters ints. *)
Definition call (m : nf_userspace_message) (get : bool) : kprog := (if get then nf_getsockopt else nf_setsockopt) (s32 (arg0 m)) (s32 (arg1 m)) (arg2 m) (s32 (arg3 m)).

(** handle_userspace_message returns to the call it came from, which goes on; [data]: what
    was read into the buffer. *)
Definition resume (data : option (list Z)) (fs : list (nf_userspace_message * bool * kprog)) (st : option Z) : outcome simulator :=
  match fs with
  | [] => mret (Simulator [] true st)
  | (m, get, KCopyTo _ _ k) :: fs => mret (Simulator ((m, get, k true) :: fs) false st)
  | (m, get, KCopyFrom _ _ k) :: fs =>
      match data with Some bs => mret (Simulator ((m, get, k (Some bs)) :: fs) false st) | None => Fault "copy_from_user: buffer not written" end
  | (_, _, KRet _ _) :: _ => Fault "not waiting"
  end.

(** The bytes in front. *)
Fixpoint leading (l : list item) : list Z := match l with Byte b :: l => b :: leading l | _ => [] end.
(** complete_read with an int length: the bytes, what is left and its result; [None]: it
    waits for more. *)
Definition complete_read (n : Z) (l : list item) : option (list Z * list item * Z) :=
  let k := Z.to_nat n in if (length (leading l) <? k)%nat then None else Some (take k (leading l), drop k l, n).

(** handle_userspace_message with the header read; [None]: it waits for more. *)
Definition handle_userspace_message (m : nf_userspace_message) (rest : list item) (c : config) : outcome (option config) :=
  let s := sim c in
  match type m with
  | UM_SYSCALL =>
      let push get := _ ← traced (protofamily (s32 (arg0 m))); _ ← traced (sockopt (s32 (arg1 m)) get);
        mret (Some (Config (Simulator ((m, get, call m get) :: frames s) false (status s)) (prog c) rest (to_prog c) (umem c) (fails c) (sim_out c) (prog_out c))) in
      if opcode m =? SYS_GETSOCKOPT then push true
      else if opcode m =? SYS_SETSOCKOPT then push false
      else if opcode m =? SYS_EXIT then
        match frames s with
        | [] => mret (Some (Config (Simulator [] true (Some (arg0 m))) (prog c) rest (to_prog c) (umem c) (fails c) (sim_out c) (prog_out c)))
        | _ => Fault "status through a null pointer"
        end
      else Barf "Invalid syscall opcode"
  | UM_KERNELOP =>
      if opcode m =? KOP_COPY_FROM_USER then
        match complete_read (s32 (arg2 m)) rest with
        | None => mret None
        | Some (bs, rest, ret) =>
            if negb (arg0 m =? kbuf) then Fault "read over something else" else
            if negb (u64 ret =? arg2 m) then Barf "read" else
            s ← resume (Some bs) (frames s) (status s);
            mret (Some (Config s (prog c) rest (to_prog c) (umem c) (fails c) (sim_out c) (prog_out c)))
        end
      else if opcode m =? KOP_COPY_TO_USER then
        s ← resume None (frames s) (status s); mret (Some (Config s (prog c) rest (to_prog c) (umem c) (fails c) (sim_out c) (prog_out c)))
      else Barf "Invalid kernelop opcode"
  end.

(** copy_from_user, copy_to_user up to the write of the message; the end of a call.  A write
    begins with nothing arrived. *)
Definition sim_run (c : config) : outcome (option config) :=
  let s := sim c in
  match frames s with
  | [] => mret None
  | (m, get, k) :: fs =>
      let next k fl := mret (Some (Config (Simulator ((m, get, k) :: fs) false (status s)) (prog c) (to_sim c) (to_prog c) (umem c) fl (sim_out c) (prog_out c))) in
      let send x bs fl := mret (Some (Config (Simulator ((m, get, k) :: fs) true (status s)) (prog c) (to_sim c) (to_prog c) (umem c) fl (Header x :: map Byte bs) (prog_out c))) in
      let fail := default false (head (fails c)) in
      match k with
      | KRet ret l =>
          _ ← traced (err ret);
          s ← resume None fs (status s);
          let reply := Message (type m) (opcode m) (len m) (arg0 m) (arg1 m) (arg2 m) (if get then u32 l else arg3 m) ret in
          mret (Some (Config s (prog c) (to_sim c) (to_prog c) (umem c) (fails c) [Header reply] (prog_out c)))
      | KCopyFrom from n f =>
          if fail then next (f None) (List.tl (fails c)) else send (Message UM_KERNELOP KOP_COPY_FROM_USER 0 kbuf from n 0 0) [] (List.tl (fails c))
      | KCopyTo to bs f =>
          if fail then next (f false) (List.tl (fails c))
          else send (Message UM_KERNELOP KOP_COPY_TO_USER (s32 (zlen bs)) to kbuf (zlen bs) 0 0) bs (List.tl (fails c))
      end
  end.
Definition sim_step (c : config) : outcome (option config) :=
  if (0 <? length (sim_out c))%nat then mret None else
  if waiting (sim c) then
    match to_sim c with
    | [] => mret None
    | Byte _ :: _ => Fault "message out of step"
    | Header m :: rest => handle_userspace_message m rest c
    end
  else sim_run c.

(** ** The library in the program *)

(** The answer to a kernel operation, and memory after it; [payload]: the bytes behind
    the header. *)
Definition handle_kernelop (m : nf_userspace_message) (payload : list Z) (mem : memory) : outcome (list item * memory) :=
  if opcode m =? KOP_COPY_TO_USER then
    bs ← slice 0 (arg2 m) payload; mem ← write_mem (arg0 m) bs mem; mret ([Header (with_len 0 m)], mem)
  else if opcode m =? KOP_COPY_FROM_USER then
    bs ← read_mem (arg1 m) (Z.to_nat (arg2 m)) mem; mret (Header (with_len (s32 (arg2 m)) m) :: map Byte bs, mem)
  else mret ([], mem).

Definition prog_step (c : config) : outcome (option config) :=
  if (0 <? length (prog_out c))%nat then mret None else
  let next p b m out := mret (Some (Config (sim c) p (to_sim c) b m (fails c) (sim_out c) out)) in
  match prog c with
  | Returned _ _ _ => mret None
  | Calling m =>
      let m := Message UM_SYSCALL (opcode m) 0 (arg0 m) (arg1 m) (arg2 m) (arg3 m) 0 in
      next (Waiting m) (to_prog c) (umem c) [Header m]
  | Waiting m =>
      match to_prog c with
      | [] => mret None
      | Byte _ :: _ => Fault "message out of step"
      | Header r :: rest =>
          let n := Z.to_nat (len r) in
          (* One read: what has arrived, and its length is not looked at. *)
          let payload := take n (leading rest) in
          if (0 <? n)%nat && (length payload =? 0)%nat then mret None else
          let rest := drop (length payload) rest in
          match type r with
          | UM_SYSCALL =>
              next (if retval r <? 0 then Returned (-1) (Some (- retval r)) (arg3 m) else Returned (retval r) None (arg3 m)) rest (umem c) []
          | UM_KERNELOP => '(answer, mem) ← handle_kernelop r payload (umem c); next (Waiting m) rest mem answer
          end
      end
  end.

(** getsockopt and setsockopt of the library. *)
Definition getsockopt (s level optname optval optlen : Z) : nf_userspace_message := Message UM_SYSCALL SYS_GETSOCKOPT 0 PF_INET (u64 optname) optval optlen 0.
Definition setsockopt (s level optname optval optlen : Z) : nf_userspace_message := Message UM_SYSCALL SYS_SETSOCKOPT 0 PF_INET (u64 optname) optval optlen 0.

(** [n] more items of a write arrive. *)
Definition to_prog_arrive (n : nat) (c : config) : config :=
  Config (sim c) (prog c) (to_sim c) (to_prog c ++ take n (sim_out c)) (umem c) (fails c) (drop n (sim_out c)) (prog_out c).
Definition to_sim_arrive (n : nat) (c : config) : config :=
  Config (sim c) (prog c) (to_sim c ++ take n (prog_out c)) (to_prog c) (umem c) (fails c) (sim_out c) (drop n (prog_out c)).

(** Either process takes a step, or a piece of a write arrives: of the program's, of any
    length; of the simulator's, at least [piece] items or all there are. *)
Inductive step : config → config → Prop :=
| step_sim c c' : sim_step c = Ret (Some c') → step c c'
| step_prog c c' : prog_step c = Ret (Some c') → step c c'
| step_to_sim c n : (0 < n)%nat → prog_out c ≠ [] → step c (to_sim_arrive n c)
| step_to_prog c n : (0 < n)%nat → (Nat.min piece (length (sim_out c)) <= n)%nat → sim_out c ≠ [] → step c (to_prog_arrive n c).
End Protocol.

(** ** What else the library stands in for *)

Definition AF_INET : Z := 2.
Definition SOCK_RAW : Z := 3.
Definition IPPROTO_RAW : Z := 255.
Definition O_CREAT : Z := 64.
Definition ENOMEM : Z := 12.
(** The result of a call, errno if the library set it, and how many of its buffers stay
    allocated. *)
Record answer := Answer { value : Z; errno_set : option Z; leaked : nat }.

Section Library.
(** libc's functions, a null FILE as 0; malloc; the socket to the simulator and the
    prefix the simulator's /proc is under. *)
Context (__socket : Z → Z → Z → Z) (__close : Z → Z) (__open : text → Z → Z → Z) (__fopen : text → text → Z)
  (malloc : Z → option text) (sd : Z) (proc_prefix : text).

Definition socket (domain type protocol : Z) : Z :=
  if (domain =? AF_INET) && (type =? SOCK_RAW) && (protocol =? IPPROTO_RAW) then sd else __socket domain type protocol.
Definition close (fd : Z) : Z := if fd =? sd then 0 else __close fd.
Definition file_is_proc (pathname : option text) : bool :=
  match pathname with Some p => (6 <=? zlen p) && strstarts p (tx "/proc/") | None => false end.
(** strcpy and strcat store a nul after the text. *)
Definition mangle_alloc_proc_path (pathname : text) : outcome (option text) :=
  match malloc (zlen pathname + zlen proc_prefix) with
  | None => mret None
  | Some buf =>
      buf ← store 0 (proc_prefix ++ [NUL]) buf;
      buf ← store (zlen proc_prefix) (zdrop 5 pathname ++ [NUL]) buf;
      mret (Some (take (strcspn buf [NUL]) buf))
  end.
(** A path that is not null and does not point to /proc/ goes to libc as it is. *)
Definition open (pathname : text) (flags mode : Z) : outcome answer :=
  let mode := if Z.land flags O_CREAT =? 0 then 0 else mode in
  if negb (file_is_proc (Some pathname)) then mret (Answer (__open pathname flags mode) None 0) else
  fakepath ← mangle_alloc_proc_path pathname;
  match fakepath with
  | None => mret (Answer (- ENOMEM) None 0)
  | Some p => mret (Answer (__open p flags mode) None 0)
  end.
Definition fopen (path mode : text) : outcome answer :=
  if negb (file_is_proc (Some path)) then mret (Answer (__fopen path mode) None 0) else
  fakepath ← mangle_alloc_proc_path path;
  match fakepath with
  | None => mret (Answer 0 (Some (- ENOMEM)) 0)
  | Some p => mret (Answer (__fopen p mode) None 1)
  end.

(** The buffer is large enough; the path behind "/proc" is kept. *)
Lemma mangled (buf rest : text) : c_string proc_prefix → c_string rest → malloc (zlen (tx "/proc" ++ rest) + zlen proc_prefix) = Some buf →
  zlen buf = zlen (tx "/proc" ++ rest) + zlen proc_prefix →
  mangle_alloc_proc_path (tx "/proc" ++ rest) = Ret (Some (proc_prefix ++ rest)).
Proof using Type.
  intros Hp Hr Hm Hb. unfold mangle_alloc_proc_path. rewrite Hm. rewrite zlen_app in Hb. change (zlen (tx "/proc")) with 5 in Hb.
  pose proof (zlen_nonneg rest) as Hr0. pose proof (zlen_nonneg proc_prefix) as Hp0.
  assert (Hs : ∀ t : text, zlen (t ++ [NUL]) = zlen t + 1) by (intros t; by rewrite zlen_app).
  change (zdrop 5 (tx "/proc" ++ rest)) with rest. rewrite store_splice by (rewrite ?Hs; lia). simpl.
  rewrite store_splice by (rewrite ?zlen_splice, ?Hs by (rewrite ?Hs; lia); lia). simpl. do 2 f_equal.
  set (b2 := splice _ _ (splice _ _ buf)).
  assert (Hb2 : ∃ more, b2 = (proc_prefix ++ rest) ++ NUL :: more).
  { unfold b2, splice at 1.
    assert (Ht : ztake (zlen proc_prefix) (splice 0 (proc_prefix ++ [NUL]) buf) = proc_prefix).
    { unfold splice. rewrite (ztake_0 0) by done. rewrite app_nil_l, <-app_assoc, ztake_app_le, ztake_all by lia. done. }
    rewrite Ht. eexists. by rewrite <-!app_assoc. }
  destruct Hb2 as [more ->]. rewrite strcspn_app; [by rewrite take_app_length| |by left].
  apply Forall_forall. intros c Hc Hn. apply list_elem_of_singleton in Hn as ->. apply elem_of_app in Hc as [?|?]; [by apply Hp|by apply Hr].
Qed.
End Library.

(** * The calls as the kernel means them *)

(** The option's copies done on the program's memory: what it returns, the length, memory
    and the failures that are left. *)
Fixpoint direct (k : kprog) (mem : memory) (fl : list bool) : outcome (Z * Z * memory * list bool) :=
  let fail := default false (head fl) in
  match k with
  | KRet r l => mret (r, l, mem, fl)
  | KCopyFrom from n f =>
      if fail then direct (f None) mem (List.tl fl)
      else bs ← read_mem from (Z.to_nat n) mem; direct (f (Some bs)) mem (List.tl fl)
  | KCopyTo to bs f =>
      if fail then direct (f false) mem (List.tl fl) else mem ← write_mem to bs mem; direct (f true) mem (List.tl fl)
  end.
(** No copy is longer than an int says, and what is copied to the program arrives together
    with its header. *)
Fixpoint sizes_ok (piece : nat) (k : kprog) : Prop :=
  match k with
  | KRet _ _ => True
  | KCopyFrom _ n f => 0 <= n < 2 ^ 31 ∧ ∀ o, sizes_ok piece (f o)
  | KCopyTo _ bs f => (zlen bs < 2 ^ 31 ∧ (length bs < piece)%nat) ∧ ∀ o, sizes_ok piece (f o)
  end.

Lemma leading_bytes bs : leading (map Byte bs) = bs.
Proof. induction bs; simpl; congruence. Qed.

Lemma read_mem_length p n m bs : read_mem p n m = Ret bs → length bs = n.
Proof. revert p bs. induction n as [|n IH]; simpl; intros p bs H; inv_bind; [done|]. simpl. f_equal. by eapply IH. Qed.

Lemma s32_int x : - 2 ^ 31 <= x < 2 ^ 31 → s32 x = x.
Proof. intros H. unfold signed, wrap. destruct (Z.ltb_spec (x mod 2 ^ 32) (2 ^ (32 - 1))); zlia. Qed.

Section Session.
Context (nf_getsockopt nf_setsockopt : Z → Z → Z → Z → kprog) (strace : bool) (kbuf : Z) (piece : nat).
Local Notation sim_step := (sim_step nf_getsockopt nf_setsockopt strace kbuf).
Local Notation step := (step nf_getsockopt nf_setsockopt strace kbuf piece).

(** Neither process is at an error. *)
Definition calm (c : config) : Prop := ∃ a b, sim_step c = Ret a ∧ prog_step c = Ret b.
(** Every execution comes to [F], without an error on the way. *)
Inductive inevitable (F : config → Prop) (c : config) : Prop :=
| inevitable_here : F c → inevitable F c
| inevitable_next d : calm c → step c d → (∀ e, step c e → inevitable F e) → inevitable F c.

Lemma inevitable_via F c d : inevitable (eq d) c → inevitable F d → inevitable F c.
Proof. intros H Hd. induction H as [c <-|c e Hc Hs _ IH]; [done|]. by apply (inevitable_next F c e). Qed.
Lemma inevitable_reached F c : inevitable F c → ∃ d, rtc step c d ∧ F d.
Proof.
  induction 1 as [c Hc|c d _ Hs _ IH]; [by exists c|]. destruct (IH d Hs) as (f & Hf & ?). exists f. split; [by eapply rtc_l|done].
Qed.
(** Both wait, and nothing is on the way. *)
Definition halted (c : config) : Prop := sim_step c = Ret None ∧ prog_step c = Ret None ∧ sim_out c = [] ∧ prog_out c = [].
Lemma halted_nf c : halted c → nf step c.
Proof. intros (H1 & H2 & H3 & H4) [d Hs]. destruct Hs; congruence. Qed.
Lemma inevitable_determined c f : halted f → inevitable (eq f) c → sn step c ∧ ∀ d, rtc step c d → rtc step d f ∧ calm d.
Proof.
  intros Hf. pose proof (halted_nf f Hf) as Hn. induction 1 as [c <-|c e Hc Hs Hall IH].
  - split; [constructor; intros d Hd; by destruct Hn; exists d|]. intros d Hd. inversion Hd; subst; [|by destruct Hn; eexists].
    split; [done|]. destruct Hf as (H1 & H2 & _). by do 2 eexists.
  - split; [constructor; intros d Hd; by apply IH|]. intros d Hd. inversion Hd as [|? e' ? He' Hr]; subst; [|by apply (IH e')].
    split; [|done]. destruct (IH e Hs) as [_ H]. eapply rtc_l; [exact Hs|]. by apply H.
Qed.

(** What can happen in one place: a process goes on and the other waits, or a write arrives. *)
Lemma inevitable_sim F c d : sim_out c = [] → prog_out c = [] → sim_step c = Ret (Some d) → prog_step c = Ret None → inevitable F d → inevitable F c.
Proof.
  intros H1 H2 Hs Hp Hd. apply (inevitable_next F c d); [by do 2 eexists|by apply step_sim|]. intros e He. destruct He; congruence.
Qed.
Lemma inevitable_prog F c d : sim_out c = [] → prog_out c = [] → sim_step c = Ret None → prog_step c = Ret (Some d) → inevitable F d → inevitable F c.
Proof.
  intros H1 H2 Hs Hp Hd. apply (inevitable_next F c d); [by do 2 eexists|by apply step_prog|]. intros e He. destruct He; congruence.
Qed.
(** A write of the simulator that is one piece. *)
Lemma inevitable_to_prog F c : prog_out c = [] → sim_out c ≠ [] → prog_step c = Ret None → (length (sim_out c) <= Nat.max 1 piece)%nat →
  inevitable F (to_prog_arrive (length (sim_out c)) c) → inevitable F c.
Proof.
  intros H1 H2 Hp Hl Hd. assert (Hpos : (0 < length (sim_out c))%nat) by (destruct (sim_out c); [done|cbn; lia]).
  assert (Hs : sim_step c = Ret None) by (unfold FakeSock.sim_step; by rewrite (proj2 (Nat.ltb_lt _ _) Hpos)).
  apply (inevitable_next F c (to_prog_arrive (length (sim_out c)) c)); [by do 2 eexists|apply step_to_prog; [lia|lia|done]|].
  intros e He. destruct He as [c e He|c e He|c n _ He|c n Hn Hn' _]; [congruence..|].
  replace (to_prog_arrive n c) with (to_prog_arrive (length (sim_out c)) c); [done|]. unfold to_prog_arrive.
  rewrite !take_ge, !drop_ge by lia. done.
Qed.
(** A write of the program, of which the simulator makes nothing before it is complete. *)
Lemma inevitable_to_sim F c : sim_out c = [] → (∀ n, (n < length (prog_out c))%nat → sim_step (to_sim_arrive n c) = Ret None) →
  inevitable F (to_sim_arrive (length (prog_out c)) c) → inevitable F c.
Proof.
  remember (length (prog_out c)) as k eqn:Ek. revert c Ek. induction (lt_wf k) as [k _ IH]. intros c -> H1 Hw Hd.
  assert (E0 : to_sim_arrive 0 c = c) by (destruct c; unfold to_sim_arrive; cbn; by rewrite app_nil_r).
  destruct (Nat.eq_0_gt_0_cases (length (prog_out c))) as [Ez|Hpos]; [by rewrite Ez, E0 in Hd|].
  assert (Hne : prog_out c ≠ []) by (intros E; rewrite E in Hpos; cbn in Hpos; lia).
  assert (Hs : sim_step c = Ret None) by (rewrite <-E0; by apply Hw).
  assert (Hp : prog_step c = Ret None) by (unfold prog_step; by rewrite (proj2 (Nat.ltb_lt _ _) Hpos)).
  assert (Hadd : ∀ a b, to_sim_arrive b (to_sim_arrive a c) = to_sim_arrive (a + b) c).
  { intros a b. unfold to_sim_arrive. cbn. by rewrite <-app_assoc, take_take_drop, drop_drop. }
  apply (inevitable_next F c (to_sim_arrive (length (prog_out c)) c)); [by do 2 eexists|by apply step_to_sim|].
  intros e He. destruct He as [c e He|c e He|c n Hn _|c n _ _ He]; [congruence..| |congruence].
  assert (El : length (prog_out (to_sim_arrive n c)) = (length (prog_out c) - n)%nat) by (cbn; by rewrite length_drop).
  apply (IH (length (prog_out c) - n)%nat); [lia|done|done| |].
  - intros b Hb. rewrite Hadd. apply Hw. lia.
  - rewrite Hadd. destruct (Nat.le_ge_cases n (length (prog_out c))); [by replace (n + (length (prog_out c) - n))%nat with (length (prog_out c)) by lia|].
    replace (to_sim_arrive (n + (length (prog_out c) - n)) c) with (to_sim_arrive (length (prog_out c)) c); [done|].
    unfold to_sim_arrive. by rewrite !take_ge, !drop_ge by lia.
Qed.

(** In a call, with nothing on the way. *)
Definition in_call (call m : nf_userspace_message) (get : bool) (k : kprog) (st : option Z) (mem : memory) (fl : list bool) : config :=
  Config (Simulator [(m, get, k)] false st) (Waiting call) [] [] mem fl [] [].
(** The request has arrived at the program. *)
Definition asked (call m : nf_userspace_message) (get : bool) (k : kprog) (st : option Z) (x : nf_userspace_message) (bs : list Z) (mem : memory) (fl : list bool) : config :=
  Config (Simulator [(m, get, k)] true st) (Waiting call) [] (Header x :: map Byte bs) mem fl [] [].
(** The program writes its answer. *)
Definition answering (call m : nf_userspace_message) (get : bool) (k : kprog) (st : option Z) (out : list item) (mem : memory) (fl : list bool) : config :=
  Config (Simulator [(m, get, k)] true st) (Waiting call) [] [] mem fl [] out.

Lemma copy_from_fails call m get st mem fl from n f : default false (head fl) = true →
  inevitable (eq (in_call call m get (f None) st mem (List.tl fl))) (in_call call m get (KCopyFrom from n f) st mem fl).
Proof. intros Hf. eapply inevitable_sim; [done..|cbn; by rewrite Hf|done|]. by apply inevitable_here. Qed.

Lemma copy_to_fails call m get st mem fl to bs f : default false (head fl) = true →
  inevitable (eq (in_call call m get (f false) st mem (List.tl fl))) (in_call call m get (KCopyTo to bs f) st mem fl).
Proof. intros Hf. eapply inevitable_sim; [done..|cbn; by rewrite Hf|done|]. by apply inevitable_here. Qed.

Lemma copy_from_asks call m get st mem fl from n f : default false (head fl) = false →
  inevitable (eq (asked call m get (KCopyFrom from n f) st (Message UM_KERNELOP KOP_COPY_FROM_USER 0 kbuf from n 0 0) [] mem (List.tl fl)))
    (in_call call m get (KCopyFrom from n f) st mem fl).
Proof.
  intros Hf. eapply inevitable_sim; [done..|cbn; by rewrite Hf|done|]. apply inevitable_to_prog; [done..|cbn; lia|]. by apply inevitable_here.
Qed.

Lemma copy_to_asks call m get st mem fl to bs f : default false (head fl) = false → (length bs < piece)%nat →
  inevitable (eq (asked call m get (KCopyTo to bs f) st (Message UM_KERNELOP KOP_COPY_TO_USER (s32 (zlen bs)) to kbuf (zlen bs) 0 0) bs mem (List.tl fl)))
    (in_call call m get (KCopyTo to bs f) st mem fl).
Proof.
  intros Hf Hl. eapply inevitable_sim; [done..|cbn; by rewrite Hf|done|]. apply inevitable_to_prog; [done..|cbn; rewrite length_map; lia|].
  apply inevitable_here. unfold to_prog_arrive, asked. cbn [sim_out sim prog to_sim to_prog umem fails prog_out].
  by rewrite take_ge, drop_ge by done.
Qed.

Lemma copy_from_answered call m get st mem fl from n f bs : 0 <= n < 2 ^ 31 → read_mem from (Z.to_nat n) mem = Ret bs →
  inevitable (eq (in_call call m get (f (Some bs)) st mem fl))
    (asked call m get (KCopyFrom from n f) st (Message UM_KERNELOP KOP_COPY_FROM_USER 0 kbuf from n 0 0) [] mem fl).
Proof.
  intros Hn Hr. pose proof (read_mem_length _ _ _ _ Hr) as Hl.
  eapply inevitable_prog; [done..|cbn; by rewrite Hr|]. apply inevitable_to_sim; [done| |].
  - intros [|j]; cbn [prog_out length]; [done|]. rewrite length_map. intros Hj. unfold to_sim_arrive. cbn [prog_out take].
    cbn. rewrite s32_int by lia. unfold complete_read. rewrite firstn_map, leading_bytes, (proj2 (Nat.ltb_lt _ _)) by (rewrite length_take; lia). done.
  - cbn [prog_out]. unfold to_sim_arrive. cbn [sim_out sim prog to_sim to_prog umem fails prog_out length take drop app].
    rewrite (take_ge (map _ _)), (drop_ge (map _ _)) by done. eapply inevitable_sim; [done..| |done|by apply inevitable_here]. cbn. rewrite s32_int by lia. unfold complete_read.
    rewrite leading_bytes, (proj2 (Nat.ltb_ge _ _)), Z.eqb_refl by lia. cbn. rewrite (wrap_small 64) by lia. rewrite Z.eqb_refl. cbn.
    rewrite firstn_all2, skipn_all2 by (rewrite ?length_map; lia). done.
Qed.

(** What the program makes of bytes sent to it. *)
Lemma copy_to_received call m get st mem fl to bs f : zlen bs < 2 ^ 31 →
  prog_step (asked call m get (KCopyTo to bs f) st (Message UM_KERNELOP KOP_COPY_TO_USER (s32 (zlen bs)) to kbuf (zlen bs) 0 0) bs mem fl)
  = (mem ← write_mem to bs mem; Ret (Some (answering call m get (KCopyTo to bs f) st
      [Header (Message UM_KERNELOP KOP_COPY_TO_USER 0 to kbuf (zlen bs) 0 0)] mem fl))).
Proof.
  intros Hn. cbn. rewrite s32_int by (unfold zlen in *; lia). rewrite leading_bytes.
  replace (Z.to_nat (zlen bs)) with (length bs) by (unfold zlen; lia). rewrite !firstn_all.
  replace (match length bs with O => false | S _ => true end && (length bs =? 0)%nat) with false by (by destruct bs).
  rewrite skipn_all2 by (by rewrite length_map). unfold handle_kernelop. cbn.
  rewrite (slice_ret 0 (zlen bs) bs) by (unfold zlen; lia). cbn. rewrite zdrop_0, ztake_all by done.
  by destruct (write_mem to bs mem).
Qed.

Lemma copy_to_answered call m get st mem mem' fl to bs f : zlen bs < 2 ^ 31 → write_mem to bs mem = Ret mem' →
  inevitable (eq (in_call call m get (f true) st mem' fl))
    (asked call m get (KCopyTo to bs f) st (Message UM_KERNELOP KOP_COPY_TO_USER (s32 (zlen bs)) to kbuf (zlen bs) 0 0) bs mem fl).
Proof.
  intros Hn Hr. eapply inevitable_prog; [done..|rewrite copy_to_received, Hr by done; done|].
  apply inevitable_to_sim; [done|by intros [|]; cbn; [|lia]|]. eapply inevitable_sim; [done..|by apply inevitable_here].
Qed.

(** The copies of an option go through as [direct] does them, or the program faults. *)
Lemma copies_go call m get st k mem fl : sizes_ok piece k →
  match direct k mem fl with
  | Ret (r, l, mem', fl') => inevitable (eq (in_call call m get (KRet r l) st mem' fl')) (in_call call m get k st mem fl)
  | Barf _ => True
  | Fault e => inevitable (λ d, prog_step d = Fault e) (in_call call m get k st mem fl)
  end.
Proof.
  revert mem fl. induction k as [r l|from n f IH|to bs f IH]; intros mem fl Hk; simpl in Hk |- *; [by apply inevitable_here|..]; destruct Hk as [Hn Hk];
    destruct (default false (head fl)) eqn:Hf.
  - specialize (IH None mem (List.tl fl) (Hk None)). pose proof (copy_from_fails call m get st mem fl from n f Hf) as Hs.
    destruct (direct _ _ _) as [[[[? ?] ?] ?]| |]; [|done|]; by eapply inevitable_via.
  - pose proof (copy_from_asks call m get st mem fl from n f Hf) as Ha.
    destruct (read_mem from (Z.to_nat n) mem) as [bs|e|e] eqn:Hr; simpl; [|done|].
    + pose proof (inevitable_via _ _ _ Ha (copy_from_answered call m get st mem (List.tl fl) from n f bs Hn Hr)) as Hs.
      specialize (IH (Some bs) mem (List.tl fl) (Hk (Some bs))).
      destruct (direct _ _ _) as [[[[? ?] ?] ?]| |]; [|done|]; by eapply inevitable_via.
    + eapply inevitable_via; [exact Ha|]. apply inevitable_here. cbn. by rewrite Hr.
  - specialize (IH false mem (List.tl fl) (Hk false)). pose proof (copy_to_fails call m get st mem fl to bs f Hf) as Hs.
    destruct (direct _ _ _) as [[[[? ?] ?] ?]| |]; [|done|]; by eapply inevitable_via.
  - destruct Hn as [Hn Hpiece]. pose proof (copy_to_asks call m get st mem fl to bs f Hf Hpiece) as Ha.
    destruct (write_mem to bs mem) as [mem'|e|e] eqn:Hr; simpl; [|done|].
    + pose proof (inevitable_via _ _ _ Ha (copy_to_answered call m get st mem mem' (List.tl fl) to bs f Hn Hr)) as Hs.
      specialize (IH true mem' (List.tl fl) (Hk true)).
      destruct (direct _ _ _) as [[[[? ?] ?] ?]| |]; [|done|]; by eapply inevitable_via.
    + eapply inevitable_via; [exact Ha|]. apply inevitable_here. rewrite copy_to_received by done. by rewrite Hr.
Qed.

Lemma memory_never_barfs k mem fl e : direct k mem fl ≠ Barf e.
Proof.
  assert (Hr : ∀ n p m, read_mem p n m ≠ Barf e).
  { induction n as [|n IH]; intros p m; [done|]. simpl. destruct (m !! p); [|done]. simpl. specialize (IH (p + 1) m). by destruct (read_mem _ _ _). }
  assert (Hw : ∀ bs p m, write_mem p bs m ≠ Barf e).
  { induction bs as [|b bs IH]; intros p m; [done|]. simpl. destruct (m !! p); [|done]. apply IH. }
  revert mem fl. induction k as [r l|from n f IH|to bs f IH]; intros mem fl; simpl; [done|..]; case_match; [apply IH| |apply IH|].
  - specialize (Hr (Z.to_nat n) from mem). destruct (read_mem _ _ _); simpl; [apply IH|congruence|done].
  - specialize (Hw bs to mem). destruct (write_mem _ _ _); simpl; [apply IH|congruence|done].
Qed.

Lemma signed_unsigned x : s32 (u64 x) = s32 x.
Proof. unfold signed, wrap. by rewrite <-(Znumtheory.Zmod_div_mod (2 ^ 32) (2 ^ 64) x ltac:(lia) ltac:(lia) ltac:(by exists (2 ^ 32))). Qed.

(** The library's call, as it starts. *)
Definition syscall (get : bool) (s level name val len : Z) : nf_userspace_message :=
  if get then getsockopt s level name val len else setsockopt s level name val len.
(** Before the call: the simulator waits, nothing is on the way. *)
Definition before (get : bool) (s level name val len : Z) (st : option Z) (mem : memory) (fl : list bool) : config :=
  Config (Simulator [] true st) (Calling (syscall get s level name val len)) [] [] mem fl [] [].
(** After it: what the kernel returned is the library's result, or -1 with errno. *)
Definition after (r len : Z) (st : option Z) (mem : memory) (fl : list bool) : config :=
  Config (Simulator [] true st) (if r <? 0 then Returned (-1) (Some (- r)) len else Returned r None len) [] [] mem fl [] [].
Definition option_of (get : bool) : Z → Z → Z → Z → kprog := if get then nf_getsockopt else nf_setsockopt.

Lemma call_starts get s level name val n st mem fl : traced strace (sockopt (s32 name) get) = Ret () →
  ∃ call m, inevitable (eq (in_call call m get (option_of get PF_INET (s32 name) val (s32 n)) st mem fl))
    (before get s level name val n st mem fl) ∧ arg3 call = n ∧ type m = UM_SYSCALL ∧ len m = 0.
Proof.
  intros Ht. assert (Hp : traced strace (protofamily (s32 PF_INET)) = Ret ()) by (by unfold traced; destruct strace).
  pose (x := Message UM_SYSCALL (if get then SYS_GETSOCKOPT else SYS_SETSOCKOPT) 0 PF_INET (u64 name) val n 0). exists x, x. split; [|done].
  eapply inevitable_prog; [done..|destruct get; reflexivity|]. apply inevitable_to_sim; [done|by intros [|]; cbn; [|lia]|].
  destruct get; (eapply inevitable_sim; [done..|cbn; rewrite signed_unsigned, Hp; cbn; cbn in Ht; rewrite Ht; reflexivity|done|]);
    rewrite <-(signed_unsigned name); by apply inevitable_here.
Qed.

Lemma call_returns call m get r l st mem fl : type m = UM_SYSCALL → len m = 0 → traced strace (err r) = Ret () →
  inevitable (eq (after r (arg3 call) st mem fl)) (in_call call m get (KRet r l) st mem fl).
Proof.
  intros Hm Hl Ht. eapply inevitable_sim; [done..|cbn; rewrite Ht; done|done|]. unfold after.
  apply inevitable_to_prog; [done..|cbn; lia|]. eapply inevitable_prog; [done..|cbn; rewrite Hm, Hl; reflexivity|]. by apply inevitable_here.
Qed.
End Session.

(** C7: A socket option called in another program does what the kernel's function does to
    that program: copies, the kernel's failures among them, act on the program's memory
    in order, and the result comes back as a value or as -1 and errno.  The two processes
    never disagree about whose turn it is: whatever order they are run in, and in whatever
    pieces their writes arrive, every execution comes to this one end, on the way no message
    is out of step, and at the end nothing is left on the stream.  If the kernel copies to or
    from memory the program does not have, every execution comes to where the program is
    stopped.  The length getsockopt gives back is the one passed in.  With strace the option
    and the result must have names.  What the kernel copies to the program must arrive as one
    piece with its header, since the library reads it once and does not look how much it got
    (short_payload); headers are read whole; what the program sends may be cut anywhere. *)
Theorem syscall_refines nf_getsockopt nf_setsockopt (strace : bool) kbuf piece (get : bool) s level name val len st mem fl :
  let k := option_of nf_getsockopt nf_setsockopt get PF_INET (s32 name) val (s32 len) in
  let step := step nf_getsockopt nf_setsockopt strace kbuf piece in
  let c0 := before get s level name val len st mem fl in
  sizes_ok piece k → traced strace (sockopt (s32 name) get) = Ret () →
  match direct k mem fl with
  | Ret (r, _, mem', fl') => traced strace (err r) = Ret () →
      let c1 := after r len st mem' fl' in
      sn step c0 ∧ nf step c1 ∧
      ∀ d, rtc step c0 d → rtc step d c1 ∧ ∃ a b, sim_step nf_getsockopt nf_setsockopt strace kbuf d = Ret a ∧ prog_step d = Ret b
  | Fault e => inevitable nf_getsockopt nf_setsockopt strace kbuf piece (λ d, prog_step d = Fault e) c0 ∧ ∃ d, rtc step c0 d ∧ prog_step d = Fault e
  | Barf _ => False
  end.
Proof.
  intros k step c0 Hk Ht. destruct (call_starts nf_getsockopt nf_setsockopt strace kbuf piece get s level name val len st mem fl Ht) as (call & m & H0 & Hc & Hm & Hl).
  pose proof (copies_go nf_getsockopt nf_setsockopt strace kbuf piece call m get st k mem fl Hk) as H1.
  destruct (direct k mem fl) as [[[[r l] mem'] fl']|e|e] eqn:Hd; [|by destruct (memory_never_barfs k mem fl e)|].
  - intros He c1. pose proof (call_returns nf_getsockopt nf_setsockopt strace kbuf piece call m get r l st mem' fl' Hm Hl He) as H2.
    rewrite Hc in H2. assert (Hh : halted nf_getsockopt nf_setsockopt strace kbuf c1).
    { split_and!; [done| |done|done]. unfold c1, after. by destruct (r <? 0). }
    destruct (inevitable_determined nf_getsockopt nf_setsockopt strace kbuf piece c0 c1 Hh) as [Hsn Hdet].
    { eapply inevitable_via; [exact H0|]. by eapply inevitable_via. }
    split_and!; [done|by apply halted_nf|exact Hdet].
  - assert (H2 : inevitable nf_getsockopt nf_setsockopt strace kbuf piece (λ d, prog_step d = Fault e) c0) by (by eapply inevitable_via).
    split; [done|]. by apply inevitable_reached in H2.
Qed.

(** Two bytes are read, their sum and the first are written; the second copy fails. *)
Definition example_option (pf opt val len : Z) : kprog :=
  KCopyFrom val 2 (λ bs, match bs with Some [a; b] => KCopyTo val [a + b; a] (λ ok, if ok then KRet 0 1 else KRet (-14) 1) | _ => KRet (-22) 0 end).

Lemma syscall_refines_witness :
  let mem := <[100 := 1]> (<[101 := 2]> ∅) in let mem' := <[100 := 3]> (<[101 := 1]> ∅) in
  let step := step example_option example_option true 5000 3 in
  (∀ d, rtc step (before true 3 0 64 100 2 None mem []) d → rtc step d (Config (Simulator [] true None) (Returned 0 None 2) [] [] mem' [] [] []))
  ∧ (∀ d, rtc step (before true 3 0 64 100 2 None mem [false; true]) d → rtc step d (Config (Simulator [] true None) (Returned (-1) (Some 14) 2) [] [] mem [] [] []))
  ∧ ∃ d, rtc step (before false 3 0 65 300 2 None mem []) d ∧ prog_step d = Fault "segmentation fault".
Proof.
  assert (Hs : ∀ pf opt val len, sizes_ok 3 (example_option pf opt val len)).
  { intros. split; [done|]. intros [[|a [|b [|? ?]]]|]; try done. split; [split; [done|cbn; lia]|]. by intros []. }
  intros mem mem' step.
  assert (E1 : direct (example_option PF_INET 64 100 2) mem [] = Ret (0, 1, mem', [])) by (vm_compute; reflexivity).
  assert (E2 : direct (example_option PF_INET 64 100 2) mem [false; true] = Ret (-14, 1, mem, [])) by (vm_compute; reflexivity).
  pose proof (syscall_refines example_option example_option true 5000 3 true 3 0 64 100 2 None mem [] (Hs _ _ _ _) eq_refl) as H1.
  pose proof (syscall_refines example_option example_option true 5000 3 true 3 0 64 100 2 None mem [false; true] (Hs _ _ _ _) eq_refl) as H2.
  change (s32 64) with 64 in H1, H2. change (s32 2) with 2 in H1, H2. cbn [option_of] in H1, H2. rewrite E1 in H1. rewrite E2 in H2.
  split_and!.
  - intros d Hd. exact (proj1 (proj2 (proj2 (H1 eq_refl)) d Hd)).
  - intros d Hd. exact (proj1 (proj2 (proj2 (H2 eq_refl)) d Hd)).
  - exact (proj2 (syscall_refines example_option example_option true 5000 3 false 3 0 65 300 2 None mem [] (Hs _ _ _ _) eq_refl)).
Defined.

(** The library reads the payload once and compares what it got with the length of its own
    message, which is 0: when only the first of two bytes has arrived with the header, it
    copies what realloc left behind it. *)
Lemma short_payload : ∃ d, rtc (step example_option example_option true 5000 2) (before true 3 0 64 100 2 None (<[100 := 1]> (<[101 := 2]> ∅)) []) d
  ∧ prog_step d = Fault "read outside the object".
Proof.
  eexists. split.
  - do 2 (eapply rtc_l; [first [apply step_prog; reflexivity|apply (step_to_sim _ _ _ _ _ _ 1); [lia|done]]|]).
    do 2 (eapply rtc_l; [apply step_sim; reflexivity|]).
    eapply rtc_l; [apply (step_to_prog _ _ _ _ _ _ 1); [lia|cbn; lia|done]|]. cbn.
    do 2 (eapply rtc_l; [first [apply step_prog; reflexivity|apply (step_to_sim _ _ _ _ _ _ 3); [lia|done]]|]).
    do 2 (eapply rtc_l; [apply step_sim; reflexivity|]).
    eapply rtc_l; [apply (step_to_prog _ _ _ _ _ _ 2); [lia|cbn; lia|done]|]. apply rtc_refl.
  - vm_compute. reflexivity.
Qed.

(** The kernel's new length of getsockopt is in the reply and the library does not look. *)
Lemma getsockopt_length_lost : ∃ nf_get, ∀ nf_set,
  direct (nf_get PF_INET 64 100 10) ∅ [] = Ret (0, 4, ∅, []) ∧
  rtc (step nf_get nf_set false 0 1) (before true 3 0 64 100 10 None ∅ []) (Config (Simulator [] true None) (Returned 0 None 10) [] [] ∅ [] [] []).
Proof.
  exists (λ _ _ _ _, KRet 0 4). intros nf_set. split; [done|].
  eapply rtc_l; [apply step_prog; reflexivity|]. eapply rtc_l; [apply (step_to_sim _ _ _ _ _ _ 1); [lia|done]|].
  eapply rtc_l; [apply step_sim; reflexivity|]. eapply rtc_l; [apply step_sim; reflexivity|].
  eapply rtc_l; [apply (step_to_prog _ _ _ _ _ _ 1); [lia|cbn; lia|done]|]. eapply rtc_l; [apply step_prog; reflexivity|]. apply rtc_refl.
Qed.

(** With strace an option without a name ends the simulator, not the call. *)
Lemma strace_stops_unknown nf_get nf_set kbuf c rest : sim_step nf_get nf_set true kbuf (Config (Simulator [] true (status (sim c))) (prog c)
    (Header (Message UM_SYSCALL SYS_GETSOCKOPT 0 PF_INET 99 0 0 0) :: rest) (to_prog c) (umem c) (fails c) [] (prog_out c)) = Barf "Unknown get socket opt"
  ∧ ∃ d, sim_step nf_get nf_set false kbuf (Config (Simulator [] true (status (sim c))) (prog c)
    (Header (Message UM_SYSCALL SYS_GETSOCKOPT 0 PF_INET 99 0 0 0) :: rest) (to_prog c) (umem c) (fails c) [] (prog_out c)) = Ret (Some d).
Proof. split; [done|]. by eexists. Qed.

(** Without memory fopen sets a negative errno, and open returns it and sets none. *)
Lemma no_memory_errno __open __fopen prefix p flags mode fmode : file_is_proc (Some p) = true →
  open __open (λ _, None) prefix p flags mode = Ret (Answer (-12) None 0)
  ∧ fopen __fopen (λ _, None) prefix p fmode = Ret (Answer 0 (Some (-12)) 0).
Proof. intros H. unfold open, fopen. by rewrite H. Qed.

(** A path opened with fopen stays allocated. *)
Lemma fopen_leaks : ∃ malloc prefix p a, fopen (λ _ _, 7) malloc prefix p (tx "r") = Ret a ∧ value a = 7 ∧ leaked a = 1%nat.
Proof. exists (λ n, Some (repeat NUL (Z.to_nat n))), (tx "/tmp/nfsim/proc"), (tx "/proc/net/tcp"). eexists. split; [reflexivity|done]. Qed.
