(* ===== verification/Fork.v ===== *)
(** * core/message.c, core/fakesockopt.c: which program talks to which simulator

    A simulator starts a program with two descriptors of its own: a pipe for the output and
    a socket for messages.  Under --failtest the simulator forks; the child asks the program
    to fork as well and passes it a fresh pipe and socket, and from then on each simulator
    has a program of its own.  Processes are their descriptors and what they are doing; a
    descriptor is one end of a pipe or socket.  The messages are those of FakeSock.v, the
    loop that waits for them is in Program.v.  What strace logs is left out. *)

From Stdlib Require Import ZArith Lia.
From stdpp Require Import relations.
From S2P Require Import Prelude CStr FakeSock.

Definition STDOUT_FILENO : Z := 1.
Definition STDERR_FILENO : Z := 2.
Definition EXIT_FAILURE : Z := 1.
Definition KOP_FORK : Z := 3.

(** Ends of pipe and socket pair number [n]; [Terminal]: what a process had from outside. *)
Inductive endpoint := Terminal | PipeR (n : Z) | PipeW (n : Z) | Sock (n : Z) (side : bool).
#[export] Instance endpoint_eq_dec : EqDecision endpoint.
Proof. solve_decision. Defined.

(** What is sent over a socket: a header, a byte, or a byte that carries a descriptor. *)
Inductive item := Header (m : nf_userspace_message) | Byte (b : Z) | Rights (e : endpoint).
#[export] Instance message_eq_dec : EqDecision nf_userspace_message.
Proof. assert (EqDecision message_type) by solve_decision. solve_decision. Defined.
#[export] Instance item_eq_dec : EqDecision item.
Proof. solve_decision. Defined.

(** The static variables of message.c and the child should_i_fail waits for; those of
    fakesockopt.c and, in do_fork, the forked program waited for and its two descriptors. *)
Inductive activity :=
| Simulating (msg_fd io_fd pid : Z) (child : option Z)
| Serving (sd : Z) (proc_prefix : text) (kid : option (Z * Z * Z))
| Exited (status : Z).
(** [blocked]: SIGPIPE is. *)
Record process := Process { fds : gmap Z endpoint; environ : gmap text text; blocked : bool; doing : activity }.
(** [queues]: what was sent to a side of a socket pair and not read yet; [pending]: the
    processes for which a blocked SIGPIPE waits. *)
Record system := System { procs : gmap Z process; queues : gmap (Z * bool) (list item); outputs : gmap Z text; next_pipe : Z; next_sock : Z; pending : gset Z }.

Definition with_fds (f : gmap Z endpoint → gmap Z endpoint) (P : process) : process := Process (f (fds P)) (environ P) (blocked P) (doing P).
Definition with_doing (a : activity) (P : process) : process := Process (fds P) (environ P) (blocked P) a.
Definition set_proc (p : Z) (P : process) (k : system) : system := System (<[p := P]> (procs k)) (queues k) (outputs k) (next_pipe k) (next_sock k) (pending k).
Definition get (p : Z) (k : system) : outcome process := of_option "no such process" (procs k !! p).
Definition queue (k : system) (n : Z) (side : bool) : list item := default [] (queues k !! (n, side)).
Definition set_queue (n : Z) (side : bool) (q : list item) (k : system) : system :=
  System (procs k) (<[(n, side) := q]> (queues k)) (outputs k) (next_pipe k) (next_sock k) (pending k).

Definition set_pending (ps : gset Z) (k : system) : system := System (procs k) (queues k) (outputs k) (next_pipe k) (next_sock k) ps.

(** ** System calls *)

Section Fork.
(** How many descriptors a process can have; a new process id, [None] if fork fails, and
    none is used twice; whether exec finds the program; whether libc opens and has a symbol. *)
Context (open_max : Z) (new_pid : gset Z → option Z) (execvp : text → list text → bool) (dlopen : bool) (dlsym : text → bool).

(** The lowest descriptor that is free. *)
Definition new_fd (P : process) : option Z := List.find (λ i, bool_decide (fds P !! i = None)) (seqZ 0 open_max).
Definition open_end (e : endpoint) (P : process) : option (Z * process) := fd ← new_fd P; Some (fd, with_fds <[fd := e]> P).
Definition pipe (P : process) (k : system) : option (Z * Z * process * system) :=
  '(r, P) ← open_end (PipeR (next_pipe k)) P; '(w, P) ← open_end (PipeW (next_pipe k)) P;
  Some (r, w, P, System (procs k) (queues k) (outputs k) (next_pipe k + 1) (next_sock k) (pending k)).
Definition socketpair (P : process) (k : system) : option (Z * Z * process * system) :=
  '(a, P) ← open_end (Sock (next_sock k) false) P; '(b, P) ← open_end (Sock (next_sock k) true) P;
  Some (a, b, P, System (procs k) (queues k) (outputs k) (next_pipe k) (next_sock k + 1) (pending k)).
(** Closing what is not open only sets errno. *)
Definition close (fd : Z) (P : process) : process := with_fds (delete fd) P.
Definition dup2 (old new : Z) (P : process) : process := match fds P !! old with Some e => with_fds <[new := e]> P | None => P end.
Definition setenv (name value : text) (P : process) : process := Process (fds P) (<[name := value]> (environ P)) (blocked P) (doing P).
(** What waitpid tells of exit and of a signal. *)
Definition exit (code : Z) (P : process) : process := Process ∅ (environ P) (blocked P) (Exited (Z.shiftl (Z.land code 0xff) 8)).
Definition kill (signal : Z) (P : process) : process := Process ∅ (environ P) (blocked P) (Exited signal).
Definition SIGPIPE : Z := 13.

(** Whether some process or a message has an end. *)
Definition held (k : system) (e : endpoint) : bool :=
  bool_decide (map_Exists (λ _ P, map_Exists (λ _ e', e' = e) (fds P)) (procs k)) ||
  bool_decide (map_Exists (λ _ q, Rights e ∈ q) (queues k)).
(** Whether a write succeeds; to a socket whose other side is gone it raises SIGPIPE, which
    kills the process unless it is blocked. *)
Definition write_socket (p fd : Z) (xs : list item) (k : system) : outcome (bool * system) :=
  P ← get p k;
  match fds P !! fd with
  | Some (Sock n side) =>
      if held k (Sock n (negb side)) then mret (true, set_queue n (negb side) (queue k n (negb side) ++ xs) k)
      else if blocked P then mret (false, set_pending ({[p]} ∪ pending k) k) else mret (false, set_proc p (kill SIGPIPE P) k)
  | _ => mret (false, k)
  end.
Definition write_output (fd : Z) (t : text) (P : process) (k : system) : system :=
  match fds P !! fd with
  | Some (PipeW n) => System (procs k) (queues k) (<[n := default [] (outputs k !! n) ++ t]> (outputs k)) (next_pipe k) (next_sock k) (pending k)
  | _ => k
  end.

(** ** The library is loaded *)

Definition wrapped : list text := [tx "getsockopt"; tx "setsockopt"; tx "socket"; tx "open"; tx "fopen"; tx "close"].
(** [_init]: sd and proc_prefix, or the program exits. *)
Definition _init (env : gmap text text) : outcome (Z * text) :=
  if negb dlopen then Barf "dlopen" else
  if negb (forallb dlsym wrapped) then Barf "dlsym" else
  match env !! tx "NFSIM_FAKESOCK_FD" with
  | None => Barf "The fakesockopt.so library can only be used  from within nfsim"
  | Some fdstr => mret (atoi fdstr, default (tx "/tmp/nfsim/proc") (env !! tx "NFSIM_PROC_PREFIX"))
  end.
Definition _fini (P : process) : process := match doing P with Serving sd _ _ => close sd P | _ => P end.
(** exec with LD_PRELOAD: the loader finds the library and starts it. *)
Definition load (P : process) : process :=
  match _init (environ P) with Ret (sd, prefix) => with_doing (Serving sd prefix None) P | _ => exit EXIT_FAILURE P end.

(** ** message.c *)

Definition message_init (P : process) : process := Process (fds P) (environ P) true (doing P).
(** A pending signal is delivered as soon as it is not blocked. *)
Definition message_cleanup (p : Z) (k : system) : outcome system :=
  P ← get p k;
  let P := Process (fds P) (environ P) false (doing P) in
  mret (if decide (p ∈ pending k) then set_proc p (kill SIGPIPE P) (set_pending (pending k ∖ {[p]}) k) else set_proc p P k).

Definition send_fd (p dest_fd fd : Z) (k : system) : outcome system :=
  P ← get p k;
  match fds P !! fd with
  | None => Barf "sendfd failed"
  | Some e => '(ok, k) ← write_socket p dest_fd [Rights e] k; if (ok : bool) then mret k else Barf "sendfd failed"
  end.

(** The child of start_program up to exec, and the program loaded. *)
Definition program_child (name : text) (argv : list text) (io0 io1 msg0 msg1 : Z) (P : process) (k : system) : process * system :=
  let P := dup2 io1 STDERR_FILENO (dup2 io1 STDOUT_FILENO P) in
  let P := close msg0 (close io0 P) in
  let P := setenv (tx "LD_PRELOAD") (tx "fakesockopt.so.1.0") P in
  let P := setenv (tx "NFSIM_FAKESOCK_FD") (print_d msg1) P in
  if execvp name argv then (load P, k)
  else (exit EXIT_FAILURE P, write_output STDERR_FILENO (tx "Could not exec " ++ name ++ tx "!" ++ [chr 10]) P k).
Definition start_program (p : Z) (name : text) (argv : list text) (k : system) : outcome system :=
  P ← get p k;
  match pipe P k with
  | None => Barf "pipe"
  | Some (io0, io1, P, k) =>
      match socketpair P k with
      | None => Barf "socket"
      | Some (msg0, msg1, P, k) =>
          match new_pid (dom (procs k)) with
          | None => Barf "iptables fork"
          | Some kid =>
              let '(K, k) := program_child name argv io0 io1 msg0 msg1 P k in
              let P := close msg1 (close io1 P) in
              mret (set_proc p (with_doing (Simulating msg0 io0 kid None) P) (set_proc kid K k))
          end
      end
  end.

(** The header fork_other_program sends. *)
Definition fork_message : nf_userspace_message := Message UM_KERNELOP KOP_FORK 0 0 0 0 0 0.
Definition fork_other_program (p : Z) (k : system) : outcome system :=
  P ← get p k;
  match doing P with
  | Simulating msg_fd io_fd pid child =>
      if pid =? -1 then mret k else
      match socketpair P k with
      | None => Barf "socket"
      | Some (msg0, msg1, P, k) =>
          match pipe P k with
          | None => Barf "pipe"
          | Some (io0, io1, P, k) =>
              '(_, k) ← write_socket p msg_fd [Header fork_message] (set_proc p P k);
              k ← send_fd p msg_fd io1 k; k ← send_fd p msg_fd msg1 k;
              P ← get p k;
              mret (set_proc p (with_doing (Simulating msg0 io0 pid child) (close io1 (close msg1 P))) k)
          end
      end
  | _ => Fault "not the simulator"
  end.

(** What failtest.c does around it: the parent waits, the child goes on. *)
Definition fork_simulator (p : Z) (k : system) : outcome system :=
  P ← get p k;
  match doing P, new_pid (dom (procs k)) with
  | Simulating msg_fd io_fd pid None, Some c =>
      fork_other_program c (set_proc p (with_doing (Simulating msg_fd io_fd pid (Some c)) P) (set_proc c P k))
  | _, None => Barf "fork failed for failtest!"
  | _, _ => Fault "not running"
  end.

(** ** fakesockopt.c *)

(** recvmsg of one byte; [None]: it waits. *)
Definition recv_fd (from_fd : Z) (P : process) (k : system) : outcome (option (Z * process * system)) :=
  match fds P !! from_fd with
  | Some (Sock n side) =>
      match queue k n side with
      | [] => mret None
      | Rights e :: q => match open_end e P with Some (fd, P) => mret (Some (fd, P, set_queue n side q k)) | None => Fault "recv_fd: descriptor dropped" end
      | _ => Fault "recv_fd: no control message"
      end
  | _ => Barf "recv_fd failed"
  end.

(** do_fork up to waitpid. *)
Definition do_fork (p : Z) (P : process) (k : system) : outcome (option system) :=
  match doing P with
  | Serving sd prefix _ =>
      o ← recv_fd sd P k;
      match o with
      | None => mret None
      | Some (out_fd, P, k) =>
          o ← recv_fd sd P k;
          match o with
          | None => mret None
          | Some (msg_fd, P, k) =>
              match new_pid (dom (procs k)) with
              | None => Barf "fork"
              | Some kid =>
                  let K := close sd (dup2 out_fd STDERR_FILENO (dup2 out_fd STDOUT_FILENO P)) in
                  mret (Some (set_proc p (with_doing (Serving sd prefix (Some (kid, out_fd, msg_fd))) P)
                    (set_proc kid (with_doing (Serving msg_fd prefix None) K) k)))
              end
          end
      end
  | _ => Fault "do_fork: not the library"
  end.
Definition exit_message (status : Z) : nf_userspace_message := Message UM_SYSCALL SYS_EXIT 0 (u64 status) 0 0 0 0.
(** do_fork from waitpid on; [None]: it waits. *)
Definition do_fork_wait (p : Z) (k : system) : outcome (option system) :=
  P ← get p k;
  match doing P with
  | Serving sd prefix (Some (kid, out_fd, msg_fd)) =>
      K ← get kid k;
      match doing K with
      | Exited status =>
          let k := write_output STDERR_FILENO (tx "Child exited " ++ print_d status ++ [chr 10]) P k in
          '(_, k) ← write_socket p msg_fd [Header (exit_message status)] k;
          P ← get p k;
          match doing P with
          | Exited _ => mret (Some k)
          | _ => mret (Some (set_proc p (with_doing (Serving sd prefix None) (close out_fd (close msg_fd P))) k))
          end
      | _ => mret None
      end
  | _ => Fault "do_fork: not waiting"
  end.

(** The message loop's next header: KOP_FORK is done here, the others are in FakeSock.v. *)
Definition serve (p : Z) (k : system) : outcome (option system) :=
  P ← get p k;
  match doing P with
  | Serving sd prefix None =>
      match fds P !! sd with
      | Some (Sock n side) =>
          match queue k n side with
          | Header m :: q =>
              let k := set_queue n side q k in
              match type m with
              | UM_KERNELOP => if opcode m =? KOP_FORK then do_fork p P k else mret (Some k)
              | UM_SYSCALL => mret (Some k)
              end
          | Byte _ :: q | Rights _ :: q => mret (Some (set_queue n side q k))
          | [] => mret None
          end
      | _ => Barf "read"
      end
  | _ => Fault "serve: not the library"
  end.
End Fork.

(** ** The processes take steps *)

Definition is_fork (x : item) : bool :=
  match x with Header m => match type m with UM_KERNELOP => opcode m =? KOP_FORK | UM_SYSCALL => false end | _ => false end.
(** What is sent apart from forking. *)
Definition plain (x : item) : Prop := is_fork x = false ∧ match x with Rights _ => False | _ => True end.
Definition running (P : process) : Prop := match doing P with Simulating _ _ _ None | Serving _ _ None => True | _ => False end.
(** The descriptor a process sends messages to. *)
Definition message_fd (P : process) : Z := match doing P with Simulating msg_fd _ _ _ => msg_fd | Serving sd _ _ => sd | Exited _ => -1 end.

Section Steps.
Context (open_max : Z) (new_pid : gset Z → option Z) (execvp : text → list text → bool) (dlopen : bool) (dlsym : text → bool).
(** fork gives an id that no process has; a descriptor is an int. *)
Hypothesis new_pid_fresh : ∀ X p, new_pid X = Some p → p ∉ X ∧ 0 < p.
Hypothesis open_max_int : open_max <= 2 ^ 31.
Abbreviation start := (start_program open_max new_pid execvp dlopen dlsym).
Abbreviation split_simulator := (fork_simulator open_max new_pid).
Abbreviation serve_next := (serve open_max new_pid).

(** A process that waits in waitpid takes no other step. *)
Inductive step (k : system) : system → Prop :=
| step_start p P m i name argv k' : procs k !! p = Some P → doing P = Simulating m i (-1) None →
    start p name argv k = Ret k' → step k k'
| step_fork p k' : split_simulator p k = Ret k' → step k k'
| step_waited p P m i pid c C st : procs k !! p = Some P → doing P = Simulating m i pid (Some c) → procs k !! c = Some C → doing C = Exited st →
    step k (set_proc p (with_doing (Simulating m i pid None) P) k)
| step_serve p k' : serve_next p k = Ret (Some k') → step k k'
| step_report p k' : do_fork_wait p k = Ret (Some k') → step k k'
| step_send p P xs b k' : procs k !! p = Some P → running P → Forall plain xs → write_socket p (message_fd P) xs k = Ret (b, k') → step k k'
| step_hear p P n x q : procs k !! p = Some P → running P → fds P !! message_fd P = Some (Sock n false) → queue k n false = x :: q →
    step k (set_queue n false q k)
| step_print p P fd t : procs k !! p = Some P → running P → step k (write_output fd t P k)
| step_read p P m i pid n t u : procs k !! p = Some P → doing P = Simulating m i pid None → fds P !! i = Some (PipeR n) → outputs k !! n = Some (t ++ u) →
    step k (System (procs k) (queues k) (<[n := u]> (outputs k)) (next_pipe k) (next_sock k) (pending k))
| step_messages_end p P m i pid n : procs k !! p = Some P → doing P = Simulating m i pid None → fds P !! m = Some (Sock n false) →
    queue k n false = [] → held k (Sock n true) = false → step k (set_proc p (with_doing (Simulating (-1) i pid None) (close m P)) k)
| step_output_end p P m i pid n : procs k !! p = Some P → doing P = Simulating m i pid None → fds P !! i = Some (PipeR n) →
    default [] (outputs k !! n) = [] → held k (PipeW n) = false → step k (set_proc p (with_doing (Simulating m (-1) pid None) (close i P)) k)
| step_done p P pid : procs k !! p = Some P → doing P = Simulating (-1) (-1) pid None →
    step k (set_proc p (with_doing (Simulating (-1) (-1) (-1) None) P) k)
| step_exit p P code : procs k !! p = Some P → running P → step k (set_proc p (exit code P) k).

(** One simulator with the descriptors from outside, after message_init. *)
Definition initial (p : Z) (env : gmap text text) : system :=
  System {[p := message_init (Process {[0 := Terminal; 1 := Terminal; 2 := Terminal]} env false (Simulating 0 0 (-1) None))]} ∅ ∅ 0 0 ∅.

(** A simulator with a descriptor of session [n] in use; a program that serves it; a program
    that waits in do_fork for [c], which has it. *)
Definition speaks (k : system) (s n : Z) : Prop :=
  ∃ P m i pid ch, procs k !! s = Some P ∧ doing P = Simulating m i pid ch ∧ (fds P !! m = Some (Sock n false) ∨ fds P !! i = Some (PipeR n)).
Definition serves (k : system) (p n : Z) : Prop :=
  ∃ P sd prefix kid, procs k !! p = Some P ∧ doing P = Serving sd prefix kid ∧ fds P !! sd = Some (Sock n true).
Definition waits (k : system) (p c n : Z) : Prop :=
  ∃ P sd prefix out msg, procs k !! p = Some P ∧ doing P = Serving sd prefix (Some (c, out, msg)) ∧ fds P !! msg = Some (Sock n true).

(** ** System calls *)

Implicit Types (P K : process) (k : system).

Lemma new_fd_spec P fd : new_fd open_max P = Some fd → fds P !! fd = None ∧ 0 <= fd < open_max.
Proof.
  unfold new_fd. intros H. apply List.find_some in H as [H1 H2]. apply bool_decide_eq_true in H2. split; [done|].
  apply list_elem_of_In, elem_of_seqZ in H1. lia.
Qed.
Lemma open_end_spec e P fd P' : open_end open_max e P = Some (fd, P') → fds P !! fd = None ∧ 0 <= fd < open_max ∧ P' = with_fds <[fd := e]> P.
Proof. unfold open_end. intros H. destruct (new_fd open_max P) as [f|] eqn:E; simpl in H; [|done]. simplify_eq. by pose proof (new_fd_spec _ _ E) as [? ?]. Qed.

(** Two new descriptors. *)
Record two_ends (P : process) (a b : Z) (ea eb : endpoint) (P' : process) : Prop := {
  te_a : fds P !! a = None; te_b : fds P !! b = None; te_ab : a ≠ b; te_ra : 0 <= a < open_max; te_rb : 0 <= b < open_max;
  te_P : P' = with_fds (λ f, <[b := eb]> (<[a := ea]> f)) P }.
Lemma two_ends_spec e1 e2 P a b P1 P2 : open_end open_max e1 P = Some (a, P1) → open_end open_max e2 P1 = Some (b, P2) → two_ends P a b e1 e2 P2.
Proof.
  intros H1 H2. apply open_end_spec in H1 as (Ha & Hra & ->). apply open_end_spec in H2 as (Hb & Hrb & ->). cbn in Hb.
  rewrite lookup_insert in Hb. case_decide; [done|]. by split.
Qed.
Lemma pipe_spec P k r w P' k' : pipe open_max P k = Some (r, w, P', k') →
  two_ends P r w (PipeR (next_pipe k)) (PipeW (next_pipe k)) P' ∧ k' = System (procs k) (queues k) (outputs k) (next_pipe k + 1) (next_sock k) (pending k).
Proof.
  unfold pipe. intros H. destruct (open_end _ _ P) as [[a P1]|] eqn:E1; simpl in H; [|done].
  destruct (open_end _ _ P1) as [[b P2]|] eqn:E2; simpl in H; [|done]. simplify_eq. split; [by eapply two_ends_spec|done].
Qed.
Lemma socketpair_spec P k a b P' k' : socketpair open_max P k = Some (a, b, P', k') →
  two_ends P a b (Sock (next_sock k) false) (Sock (next_sock k) true) P' ∧ k' = System (procs k) (queues k) (outputs k) (next_pipe k) (next_sock k + 1) (pending k).
Proof.
  unfold socketpair. intros H. destruct (open_end _ _ P) as [[x P1]|] eqn:E1; simpl in H; [|done].
  destruct (open_end _ _ P1) as [[y P2]|] eqn:E2; simpl in H; [|done]. simplify_eq. split; [by eapply two_ends_spec|done].
Qed.

Lemma held_spec k e : held k e = true ↔
  (∃ p P fd, procs k !! p = Some P ∧ fds P !! fd = Some e) ∨ (∃ n side, Rights e ∈ queue k n side).
Proof.
  unfold held. rewrite orb_true_iff, !bool_decide_eq_true. split.
  - intros [(p & P & H & fd & e' & H1 & ->)|([n side] & q & H & H1)]; [by left; exists p, P, fd|].
    right. exists n, side. unfold queue. by rewrite H.
  - intros [(p & P & fd & H & H1)|(n & side & H)]; [left; exists p, P; split; [done|]; by exists fd, e|].
    right. unfold queue in H. destruct (queues k !! (n, side)) as [q|] eqn:E; simpl in H; [|by apply not_elem_of_nil in H].
    by exists (n, side), q.
Qed.

Lemma queue_set_queue n s n' s' q k : queue (set_queue n s q k) n' s' = if decide ((n, s) = (n', s')) then q else queue k n' s'.
Proof. unfold queue, set_queue. cbn. rewrite lookup_insert. by case_decide. Qed.

(** ** What holds in every state *)

(** Where the far ends of a session are: passed over session [n]; with program [c], and with
    the one that waits for it; closed. *)
Inductive place := Flight (n : Z) | Held (c : Z) (o : option Z) | Over.
Implicit Types (cs : gmap Z place).

Definition number (e : endpoint) : option Z := match e with Terminal => None | PipeR n | PipeW n | Sock n _ => Some n end.
Definition far (e : endpoint) : bool := match e with PipeW _ | Sock _ true => true | _ => false end.
Definition has (P : process) (fd : Z) (e : endpoint) : Prop := fds P !! fd = Some e.

(** The descriptors 0, 1 and 2 are open, the others are ints, of sessions there are. *)
Record fds_ok (N : Z) (P : process) : Prop := {
  fo_range : ∀ fd e, has P fd e → 0 <= fd < 2 ^ 31;
  fo_number : ∀ fd e n, has P fd e → number e = Some n → n < N;
  fo_std : ∀ fd, 0 <= fd <= 2 → is_Some (fds P !! fd) }.
(** A simulator has no far ends, and both its descriptors are of one session. *)
Record sim_ok (m i pid : Z) (P : process) : Prop := {
  so_near : ∀ fd e, has P fd e → far e = false;
  so_std : ∀ fd, 0 <= fd <= 2 → has P fd Terminal;
  so_none : pid = -1 → ∀ n, ¬ has P m (Sock n false) ∧ ¬ has P i (PipeR n);
  so_open : m = -1 ∨ is_Some (fds P !! m);
  so_ne : 2 < m → m ≠ i;
  so_one : ∀ n n', has P m (Sock n false) → has P i (PipeR n') → n = n' }.
(** A program has the socket of one session, and that of the one it passes on. *)
Record prog_ok (cs : gmap Z place) (p sd : Z) (kid : option (Z * Z * Z)) (P : process) : Prop := {
  po_sd : 2 < sd;
  po_own : ∃ n o, has P sd (Sock n true) ∧ has P 1 (PipeW n) ∧ has P 2 (PipeW n) ∧ cs !! n = Some (Held p o);
  po_kid : match kid with
    | None => ∀ fd n n', has P sd (Sock n true) → has P fd (Sock n' true) → n' = n ∧ fd = sd
    | Some (c, out, msg) => ∃ i, has P msg (Sock i true) ∧ has P out (PipeW i) ∧ cs !! i = Some (Held c (Some p)) ∧ ¬ has P sd (Sock i true) ∧ 2 < out ∧ 2 < msg ∧
        msg ≠ sd ∧ out ≠ sd ∧ ∀ fd n n', has P sd (Sock n true) → has P fd (Sock n' true) → (n' = n ∧ fd = sd) ∨ fd = msg
    end }.
Definition proc_ok cs (N p : Z) (P : process) : Prop :=
  blocked P = true ∧
  match doing P with
  | Exited _ => fds P = ∅
  | Simulating m i pid _ => fds_ok N P ∧ sim_ok m i pid P
  | Serving sd _ kid => fds_ok N P ∧ prog_ok cs p sd kid P
  end.

(** Rights are sent in pairs behind a header that asks to fork. *)
Definition passing (q : list item) : list Z := omap (λ x, match x with Rights (Sock i true) => Some i | _ => None end) q.
Inductive queue_ok cs (n : Z) : list item → Prop :=
| qo_nil : queue_ok cs n []
| qo_plain x q : plain x → queue_ok cs n q → queue_ok cs n (x :: q)
| qo_fork x i q : is_fork x = true → cs !! i = Some (Flight n) → i ∉ passing q → queue_ok cs n q →
    queue_ok cs n (x :: Rights (PipeW i) :: Rights (Sock i true) :: q).

Definition kid_of k (p c : Z) : Prop := ∃ P sd prefix out msg, procs k !! p = Some P ∧ doing P = Serving sd prefix (Some (c, out, msg)).
Definition uses (P : process) (n : Z) : Prop := ∃ m i pid ch, doing P = Simulating m i pid ch ∧ (has P m (Sock n false) ∨ has P i (PipeR n)).

Record inv k cs : Prop := {
  i_procs : ∀ p P, procs k !! p = Some P → proc_ok cs (next_sock k) p P;
  i_near : ∀ p1 p2 P1 P2 n, procs k !! p1 = Some P1 → procs k !! p2 = Some P2 → uses P1 n → uses P2 n → p1 = p2;
  (** The output of a program is also open in programs below it. *)
  i_pipe : ∀ p P fd n, procs k !! p = Some P → has P fd (PipeW n) →
    ∃ c o, cs !! n = Some (Held c o) ∧ (rtc (kid_of k) c p ∨
      (o = Some p ∧ ∃ sd prefix msg, doing P = Serving sd prefix (Some (c, fd, msg)) ∧ has P msg (Sock n true)));
  i_sock : ∀ p P fd n, procs k !! p = Some P → has P fd (Sock n true) → ∃ c o, cs !! n = Some (Held c o) ∧ (c = p ∨ o = Some p);
  i_wait : ∀ n c p, cs !! n = Some (Held c (Some p)) → waits k p c n;
  i_queue : ∀ n q, queues k !! (n, true) = Some q → queue_ok cs n q;
  i_near_queue : ∀ n q, queues k !! (n, false) = Some q → Forall plain q;
  i_dom : ∀ n pl, cs !! n = Some pl → n < next_sock k;
  i_next : next_pipe k = next_sock k }.

Lemma initial_inv p env : inv (initial p env) ∅.
Proof.
  unfold initial, message_init. cbn.
  assert (Hf : ∀ fd e, ({[0 := Terminal; 1 := Terminal; 2 := Terminal]} : gmap Z endpoint) !! fd = Some e → 0 <= fd <= 2 ∧ e = Terminal).
  { intros fd e H. rewrite !lookup_insert_Some, lookup_singleton_Some in H. naive_solver lia. }
  split; cbn; try done.
  - intros p1 P [<- <-]%lookup_singleton_Some. split; [done|]. cbn. split; split; unfold has; cbn.
    + intros fd e [? _]%Hf. lia.
    + by intros fd e n [_ ->]%Hf.
    + intros fd H. assert (fd = 0 ∨ fd = 1 ∨ fd = 2) as [->|[->| ->]] by lia; by eexists.
    + by intros fd e [_ ->]%Hf.
    + intros fd H. assert (fd = 0 ∨ fd = 1 ∨ fd = 2) as [->|[->| ->]] by lia; done.
    + intros _ n. split; intros [_ [=]]%Hf.
    + right. by eexists.
    + lia.
    + intros n n' [_ [=]]%Hf.
  - by intros p1 p2 P1 P2 n [<- <-]%lookup_singleton_Some [<- <-]%lookup_singleton_Some.
  - intros p1 P fd n [<- <-]%lookup_singleton_Some [_ [=]]%Hf.
  - intros p1 P fd n [<- <-]%lookup_singleton_Some [_ [=]]%Hf.
Qed.

(** ** Steps that do not fork *)

Lemma passing_fork x i q : is_fork x = true → passing (x :: Rights (PipeW i) :: Rights (Sock i true) :: q) = i :: passing q.
Proof. by destruct x. Qed.
Lemma passing_plain x q : plain x → passing (x :: q) = passing q.
Proof. intros [_ H]. by destruct x. Qed.
Lemma passing_app q q' : passing (q ++ q') = passing q ++ passing q'.
Proof. apply omap_app. Qed.
Lemma queue_ok_app cs n q q' : queue_ok cs n q → queue_ok cs n q' → (∀ i, i ∈ passing q → i ∉ passing q') → queue_ok cs n (q ++ q').
Proof.
  induction 1 as [|x q Hx _ IH|x i q Hx Hi Hn _ IH]; intros Hq' Hd; [done| |].
  - rewrite passing_plain in Hd by done. simpl. apply qo_plain; auto.
  - rewrite passing_fork in Hd by done. simpl. apply qo_fork; [done|done| |].
    + rewrite passing_app, elem_of_app. intros [?|?]; [done|]. eapply (Hd i); [by left|done].
    + apply IH; [done|]. intros j Hj. apply Hd. by right.
Qed.
Lemma queue_ok_plain cs n q : Forall plain q → queue_ok cs n q ∧ passing q = [].
Proof. induction 1 as [|x q Hx _ [IH Hp]]; [split; [constructor|done]|]. split; [by apply qo_plain|]. by rewrite passing_plain. Qed.
Lemma queue_of_ok k cs n : inv k cs → queue_ok cs n (queue k n true) ∧ Forall plain (queue k n false).
Proof.
  intros I. unfold queue. split.
  - destruct (queues k !! (n, true)) eqn:E; [by eapply i_queue|constructor].
  - destruct (queues k !! (n, false)) eqn:E; [by eapply i_near_queue|constructor].
Qed.
(** Something passed is on its way. *)
Lemma passing_flight cs n q i : queue_ok cs n q → i ∈ passing q → cs !! i = Some (Flight n).
Proof.
  induction 1 as [|x q Hx _ IH|x j q Hx Hj Hn _ IH]; [by intros ?%not_elem_of_nil|by rewrite passing_plain|].
  rewrite passing_fork by done. intros [->|?]%elem_of_cons; auto.
Qed.
Lemma queue_ok_mono cs cs' n q : (∀ i, i ∈ passing q → cs !! i = Some (Flight n) → cs' !! i = Some (Flight n)) → queue_ok cs n q → queue_ok cs' n q.
Proof.
  intros H. induction 1 as [|x q Hx _ IH|x i q Hx Hi Hn _ IH]; [constructor|apply qo_plain; [done|]|apply qo_fork; [done| |done|]].
  - apply IH. intros i. rewrite <-(passing_plain x) by done. apply H.
  - apply H; [|done]. rewrite passing_fork by done. by left.
  - apply IH. intros j Hj. apply H. rewrite passing_fork by done. by right.
Qed.

Definition waiting (P : process) : Prop := match doing P with Serving _ _ (Some _) => True | _ => False end.
Lemma running_waits P : running P → ¬ waiting P.
Proof. unfold running, waiting. destruct (doing P) as [m i pid [c|]|sd pre [c|]|st]; naive_solver. Qed.

(** A process that does not wait for another is replaced, or a new one is added. *)
Lemma inv_set k cs p P' : inv k cs → (∀ P, procs k !! p = Some P → ¬ waiting P) → ¬ waiting P' → proc_ok cs (next_sock k) p P' →
  (∀ n q Q, uses P' n → procs k !! q = Some Q → uses Q n → q = p) →
  (∀ fd n, has P' fd (PipeW n) → ∃ c o, cs !! n = Some (Held c o) ∧ rtc (kid_of k) c p) →
  (∀ fd n, has P' fd (Sock n true) → ∃ c o, cs !! n = Some (Held c o) ∧ (c = p ∨ o = Some p)) → inv (set_proc p P' k) cs.
Proof.
  intros I Hw Hw' Hok Huse Hpipe Hsock.
  assert (Hk : ∀ a b, kid_of k a b → kid_of (set_proc p P' k) a b).
  { intros a b (Q & sd & pre & o & m & HQ & Hd). exists Q, sd, pre, o, m. split; [|done]. cbn. rewrite lookup_insert_ne; [done|].
    intros ->. apply (Hw _ HQ). unfold waiting. by rewrite Hd. }
  assert (Hold : ∀ q Q, procs (set_proc p P' k) !! q = Some Q → (q = p ∧ Q = P') ∨ (q ≠ p ∧ procs k !! q = Some Q)).
  { cbn. intros q Q. rewrite lookup_insert. case_decide; naive_solver. }
  split; try apply I.
  - intros q Q [[-> ->]|[_ H]]%Hold; [done|by apply I].
  - intros p1 p2 P1 P2 n H1%Hold H2%Hold U1 U2. destruct H1 as [[-> ->]|[? H1]], H2 as [[-> ->]|[? H2]]; [done| | |].
    + symmetry. by eapply Huse.
    + by eapply Huse.
    + by eapply (i_near _ _ I p1 p2 P1 P2).
  - intros q Q fd n [[-> ->]|[_ H]]%Hold Hh.
    + destruct (Hpipe _ _ Hh) as (c & o & ? & Hr). exists c, o. split; [done|]. left. by eapply rtc_subrel; [|exact Hr].
    + destruct (i_pipe _ _ I _ _ _ _ H Hh) as (c & o & Hc & [Hr|Ho]); exists c, o; [|by auto]. split; [done|]. left. by eapply rtc_subrel; [|exact Hr].
  - intros q Q fd n [[-> ->]|[_ H]]%Hold Hh; [by eapply Hsock|by eapply (i_sock _ _ I)].
  - intros n c q Hc. destruct (i_wait _ _ I n c q Hc) as (Q & sd & pre & o & m & HQ & Hd & Hm). exists Q, sd, pre, o, m. split; [|done].
    cbn. rewrite lookup_insert_ne; [done|]. intros ->. apply (Hw _ HQ). unfold waiting. by rewrite Hd.
Qed.
Lemma inv_proc k cs p P P' : inv k cs → procs k !! p = Some P → proc_ok cs (next_sock k) p P' →
  (∀ fd e, has P' fd e → has P fd e) → (∀ n, uses P' n → uses P n) → ¬ waiting P → ¬ waiting P' → inv (set_proc p P' k) cs.
Proof.
  intros I Hp Hok Hsub Huse Hw Hw'. apply inv_set; try done.
  - intros Q HQ. by simplify_eq.
  - intros n q Q H1%Huse HQ H2. by eapply (i_near _ _ I q p Q P).
  - intros fd n H%Hsub. destruct (i_pipe _ _ I _ _ _ _ Hp H) as (c & o & Hc & [Hr|(_ & sd & pre & msg & Hd & _)]); [by eauto|].
    exfalso. apply Hw. unfold waiting. by rewrite Hd.
  - intros fd n H%Hsub. by eapply (i_sock _ _ I _ _ _ _ Hp).
Qed.
Lemma proc_ok_mono cs cs' N N' p P : (∀ n c o, cs !! n = Some (Held c o) → c = p ∨ o = Some p → cs' !! n = cs !! n) → N <= N' → proc_ok cs N p P → proc_ok cs' N' p P.
Proof.
  intros H HN [Hb Hd]. split; [done|]. assert (Hf : fds_ok N P → fds_ok N' P) by (intros [F1 F2 F3]; split; [done| |done]; intros fd e n ??; pose proof (F2 fd e n); naive_solver lia).
  destruct (doing P) as [m i pid ch|sd pre kid|st]; [naive_solver| |done]. destruct Hd as [Hfd [Hsd (n & o & H1 & H2 & H3 & H4) Hkid]].
  split; [auto|]. split; [done|exists n, o; rewrite (H n p o) by auto; done|]. destruct kid as [[[c out] msg]|]; [|done].
  destruct Hkid as (i & K1 & K2 & K3 & K4). exists i. rewrite (H i c (Some p)) by auto. done.
Qed.
(** A pipe and a socket pair are made. *)
Definition bump (k : system) : system := System (procs k) (queues k) (outputs k) (next_pipe k + 1) (next_sock k + 1) (pending k).
Lemma inv_bump k cs pl : inv k cs → (∀ c o, pl = Held c o → o = None) → inv (bump k) (<[next_sock k := pl]> cs).
Proof.
  intros I Hpl. assert (Hn : ∀ n x, cs !! n = Some x → <[next_sock k := pl]> cs !! n = cs !! n).
  { intros n x H. rewrite lookup_insert_ne; [done|]. apply I in H. lia. }
  assert (Hs : ∀ n x, cs !! n = Some x → <[next_sock k := pl]> cs !! n = Some x) by (intros n x H; rewrite (Hn _ x); done).
  split; cbn; try apply I.
  - intros p P H. eapply proc_ok_mono, I, H; [|lia]. intros n c o H1 _. by eapply Hn.
  - intros p P fd n H1 H2. destruct (i_pipe _ _ I _ _ _ _ H1 H2) as (c & o & Hc & ?). exists c, o. split; [by apply Hs|done].
  - intros p P fd n H1 H2. destruct (i_sock _ _ I _ _ _ _ H1 H2) as (c & o & Hc & ?). exists c, o. split; [by apply Hs|done].
  - intros n c p. rewrite lookup_insert. case_decide; [intros [= ->]; by specialize (Hpl _ _ eq_refl)|apply I].
  - intros n q Hq. eapply queue_ok_mono, I, Hq. intros i _. apply Hs.
  - intros n x. rewrite lookup_insert. case_decide; [intros; lia|]. intros H1%I. lia.
  - by rewrite (i_next _ _ I).
Qed.

Lemma inv_queue k cs n (side : bool) q : inv k cs → (if side then queue_ok cs n q else Forall plain q) → inv (set_queue n side q k) cs.
Proof.
  intros I Hq. split; try apply I.
  - intros n' q'. cbn. rewrite lookup_insert. case_decide as D; [intros [= <-]; by simplify_eq|]. apply I.
  - intros n' q'. cbn. rewrite lookup_insert. case_decide as D; [intros [= <-]; by simplify_eq|]. apply I.
Qed.
Lemma inv_output k cs out pd : inv k cs → inv (System (procs k) (queues k) out (next_pipe k) (next_sock k) pd) cs.
Proof. intros I. split; apply I. Qed.
Lemma inv_write_output k cs fd t P : inv k cs → inv (write_output fd t P k) cs.
Proof. unfold write_output. intros I. destruct (fds P !! fd) as [[]|]; try done. by apply inv_output. Qed.

Lemma inv_send k cs p P fd xs b k' : inv k cs → procs k !! p = Some P → Forall plain xs → write_socket p fd xs k = Ret (b, k') → inv k' cs.
Proof.
  intros I Hp Hx. unfold write_socket, get. rewrite Hp. simpl. destruct (i_procs _ _ I _ _ Hp) as [Hb _]. rewrite Hb.
  destruct (fds P !! fd) as [[| | |n side]|]; try by intros [= _ <-].
  destruct (held _ _); intros [= _ <-]; [|by apply inv_output]. apply inv_queue; [done|].
  destruct (queue_of_ok _ _ n I) as [H1 H2], (queue_ok_plain cs n _ Hx) as [H3 H4]. destruct side; simpl; [by apply Forall_app|].
  apply queue_ok_app; [done..|]. rewrite H4. intros ??. by apply not_elem_of_nil.
Qed.

Lemma proc_close cs N p P fd : proc_ok cs N p P → ∀ m i m' i' pid ch ch', doing P = Simulating m i pid ch → 2 < fd → (m' = -1 ∨ fd ≠ m) →
  (m' = m ∨ m' = -1) → (i' = i ∨ i' = -1) → proc_ok cs N p (with_doing (Simulating m' i' pid ch') (close fd P)).
Proof.
  intros [Hb Hd] m i m' i' pid ch ch' E Hfd Hfm Hm Hi. rewrite E in Hd. destruct Hd as [[F1 F2 F3] [S1 S0 S2 S4 S5 S3]].
  assert (Hh : ∀ f e, has (with_doing (Simulating m' i' pid ch') (close fd P)) f e → has P f e) by (intros f e H; unfold has in H; cbn in H; by apply lookup_delete_Some in H as [_ H]).
  assert (Hneg : ∀ e, ¬ has P (-1) e) by (intros e H; apply F1 in H; lia).
  split; [done|]. cbn. split; split.
  - intros f e H%Hh. by eapply F1.
  - intros f e n H%Hh. by eapply F2.
  - intros f Hf. cbn. rewrite lookup_delete_ne by lia. by apply F3.
  - intros f e H%Hh. by eapply S1.
  - intros f Hf. unfold has. cbn. rewrite lookup_delete_ne by lia. by apply S0.
  - intros Hpid n. destruct (S2 Hpid n) as [X Y]. split; intros H%Hh; [destruct Hm as [->| ->]|destruct Hi as [->| ->]]; naive_solver.
  - destruct Hm as [->| ->]; [|by left]. destruct S4 as [->|S4]; [by left|]. destruct Hfm as [->|Hfm]; [by left|]. right. cbn. by rewrite lookup_delete_ne.
  - intros H. destruct Hm as [->| ->]; [|lia]. destruct Hi as [->| ->]; [auto|lia].
  - intros n n' H1%Hh H2%Hh. destruct Hm as [->| ->]; [|by apply Hneg in H1]. destruct Hi as [->| ->]; [|by apply Hneg in H2]. by apply S3.
Qed.

(** ** Starting a program *)

Lemma atoi_print_d n : 0 <= n < 2 ^ 31 → atoi (print_d n) = n.
Proof. intros H. unfold print_d. rewrite (proj2 (Z.ltb_ge _ _)) by lia. by apply atoi_print_u. Qed.

Lemma program_child_spec name argv io0 io1 msg0 msg1 P k K k' n :
  program_child execvp dlopen dlsym name argv io0 io1 msg0 msg1 P k = (K, k') → has P io1 (PipeW n) → 0 <= msg1 < 2 ^ 31 →
  (∃ out, k' = System (procs k) (queues k) out (next_pipe k) (next_sock k) (pending k)) ∧ blocked K = blocked P ∧
  ((fds K = ∅ ∧ ∃ st, doing K = Exited st) ∨
   (fds K = delete msg0 (delete io0 (<[2 := PipeW n]> (<[1 := PipeW n]> (fds P)))) ∧ ∃ prefix, doing K = Serving msg1 prefix None)).
Proof.
  intros H Hw Hm. unfold has in Hw.
  assert (Hd : dup2 io1 STDERR_FILENO (dup2 io1 STDOUT_FILENO P) = with_fds (λ f, <[2 := PipeW n]> (<[1 := PipeW n]> f)) P).
  { unfold dup2. rewrite Hw. cbn. rewrite lookup_insert. case_decide; [done|]. by rewrite Hw. }
  unfold program_child in H. rewrite Hd in H. destruct (execvp name argv); simplify_eq.
  - split; [by exists (outputs k'); destruct k'|]. unfold load, _init. destruct (negb dlopen); [by split; [|left; split; [|eexists]]|].
    destruct (negb (forallb dlsym wrapped)); [by split; [|left; split; [|eexists]]|]. cbn. rewrite lookup_insert_eq, atoi_print_d by done.
    cbn. split; [done|]. right. split; [done|]. by eexists.
  - split; [|by split; [|left; split; [|eexists]]]. unfold write_output. cbn.
    destruct (_ !! STDERR_FILENO) as [[]|]; first [by eexists|exists (outputs k); by destruct k].
Qed.

Lemma uses_sim_ok P n m i pid ch : doing P = Simulating m i pid ch → uses P n ↔ has P m (Sock n false) ∨ has P i (PipeR n).
Proof. intros E. split; [intros (m' & i' & pid' & ch' & E' & H); rewrite E in E'; by simplify_eq|]. intros H. by exists m, i, pid, ch. Qed.
Lemma uses_below k cs q Q n : inv k cs → procs k !! q = Some Q → uses Q n → n < next_sock k.
Proof.
  intros I HQ (m & i & pid & ch & E & H). destruct (i_procs _ _ I _ _ HQ) as [_ Hd]. rewrite E in Hd. destruct Hd as [[_ F _] _].
  destruct H as [H|H]; (eapply F; [exact H|done]).
Qed.

(** The near ends of a new session in a simulator. *)
Record new_near (P : process) (a r n : Z) (P' : process) : Prop := {
  nn_a : 2 < a < 2 ^ 31; nn_r : 2 < r < 2 ^ 31; nn_ar : a ≠ r;
  nn_fds : fds P' = <[r := PipeR n]> (<[a := Sock n false]> (fds P)); nn_blocked : blocked P' = blocked P }.
Lemma new_near_ok cs cs' N p P P' a r m i pid pid' ch ch' : proc_ok cs N p P → doing P = Simulating m i pid ch → new_near P a r N P' → pid' ≠ -1 →
  doing P' = Simulating a r pid' ch' → proc_ok cs' (N + 1) p P' ∧ (∀ n, uses P' n → n = N) ∧ (∀ fd e, has P' fd e → far e = false).
Proof.
  intros [Hb Hd] E [Ha Hr Har Hf Hbl] Hpid E'. rewrite E in Hd. destruct Hd as [[F1 F2 F3] [S1 S0 S2 S4 S5 S3]].
  assert (Hh : ∀ fd e, has P' fd e → (fd = r ∧ e = PipeR N) ∨ (fd = a ∧ e = Sock N false) ∨ (fd ≠ r ∧ fd ≠ a ∧ has P fd e)).
  { intros fd e. unfold has. rewrite Hf, !lookup_insert. repeat case_decide; naive_solver. }
  assert (Hfar : ∀ fd e, has P' fd e → far e = false) by (intros fd e [[_ ->]|[[_ ->]|(_ & _ & H)]]%Hh; [done|done|by eapply S1]).
  assert (Hs : has P' a (Sock N false) ∧ has P' r (PipeR N)) by (unfold has; rewrite Hf; split; [by rewrite lookup_insert_ne, lookup_insert_eq|by rewrite lookup_insert_eq]).
  split; [|split; [|done]].
  - split; [congruence|]. rewrite E'. split; split; try done.
    + intros fd e [[-> _]|[[-> _]|(_ & _ & H)]]%Hh; [lia..|by eapply F1].
    + intros fd e n [[-> ->]|[[-> ->]|(_ & _ & H)]]%Hh; cbn; [naive_solver lia..|]. intros Hn. pose proof (F2 _ _ _ H Hn). lia.
    + intros fd H. rewrite Hf, !lookup_insert_ne by lia. by apply F3.
    + intros fd H. unfold has. rewrite Hf, !lookup_insert_ne by lia. by apply S0.
    + right. destruct Hs as [Hs _]. by eexists.
    + destruct Hs. unfold has in *. intros n n' ??. congruence.
  - intros n. rewrite (uses_sim_ok _ _ _ _ _ _ E'). unfold has in *. intros [H|H]; destruct Hs; congruence.
Qed.

Lemma std_fresh N P fd : fds_ok N P → fds P !! fd = None → 0 <= fd < open_max → 2 < fd < 2 ^ 31.
Proof. intros [_ _ F] H1 H2. destruct (decide (2 < fd)); [lia|]. destruct (F fd) as [x Hx]; [lia|congruence]. Qed.

(** The started program's descriptors. *)
Section Started.
Context (P K : process) (m i pid a r w b n : Z) (F : fds_ok n P) (S : sim_ok m i pid P).
Context (T1 : fds P !! r = None) (T2 : fds P !! w = None) (U1 : fds P !! a = None) (U2 : fds P !! b = None).
Context (Ba : 2 < a < 2 ^ 31) (Br : 2 < r < 2 ^ 31) (Bw : 2 < w < 2 ^ 31) (Bb : 2 < b < 2 ^ 31) (Hnd : a ≠ r ∧ a ≠ w ∧ a ≠ b ∧ r ≠ w ∧ r ≠ b ∧ w ≠ b).
Context (HK : fds K = delete a (delete r (<[2 := PipeW n]> (<[1 := PipeW n]> (<[b := Sock n true]> (<[a := Sock n false]> (<[w := PipeW n]> (<[r := PipeR n]> (fds P))))))))).

Lemma started_has fd e : has K fd e → (e = PipeW n ∧ (fd = 1 ∨ fd = 2 ∨ fd = w)) ∨ (e = Sock n true ∧ fd = b) ∨ has P fd e.
Proof. unfold has. rewrite HK, !lookup_delete_Some, !lookup_insert_Some. naive_solver. Qed.
Lemma started_far fd e : has K fd e → far e = true → number e = Some n.
Proof. intros [[-> _]|[[-> _]|H]]%started_has; [done|done|]. pose proof (so_near _ _ _ _ S) as S1. by rewrite (S1 _ _ H). Qed.
Lemma started_ok cs kid o : cs !! n = Some (Held kid o) → fds_ok (n + 1) K ∧ prog_ok cs kid b None K.
Proof.
  intros Hc.
  assert (Hb : has K b (Sock n true)) by (unfold has; rewrite HK, !lookup_delete_ne, lookup_insert_ne, lookup_insert_ne, lookup_insert_eq by lia; done).
  assert (H1 : has K 1 (PipeW n)) by (unfold has; rewrite HK, !lookup_delete_ne, lookup_insert_ne, lookup_insert_eq by lia; done).
  assert (H2 : has K 2 (PipeW n)) by (unfold has; rewrite HK, !lookup_delete_ne, lookup_insert_eq by lia; done).
  destruct F as [F1 F2 F3]. split; split.
  - intros fd e [[-> H]|[[-> ->]|H]]%started_has; [lia|lia|by eapply F1].
  - intros fd e j [[-> H]|[[-> ->]|H]]%started_has; cbn; [naive_solver lia..|]. intros Hj. pose proof (F2 _ _ _ H Hj). lia.
  - intros fd H. destruct (decide (fd = 1)) as [->|]; [by eexists|]. destruct (decide (fd = 2)) as [->|]; [by eexists|].
    rewrite HK, !lookup_delete_ne, !lookup_insert_ne by lia. by apply F3.
  - lia.
  - by exists n, o.
  - intros fd j j' Hj Hj'. assert (fd = b) as -> by (apply started_has in Hj' as [[[=] _]|[[_ ->]|Hx]]; [done|by apply (so_near _ _ _ _ S) in Hx]).
    split; [|done]. unfold has in *. congruence.
Qed.
End Started.

Lemma inv_start k cs p P m i name argv k' : inv k cs → procs k !! p = Some P → doing P = Simulating m i (-1) None →
  start p name argv k = Ret k' → ∃ cs', inv k' cs'.
Proof.
  intros I Hp E H. unfold start_program, get in H. rewrite Hp in H. simpl in H.
  destruct (pipe open_max P k) as [[[[r w] P1] k1]|] eqn:E1; [|done]. apply pipe_spec in E1 as [[T1 T2 T3 T4 T5 ->] ->].
  destruct (socketpair open_max _ _) as [[[[a b] P2] k2]|] eqn:E2; [|done]. apply socketpair_spec in E2 as [[U1 U2 U3 U4 U5 ->] ->]. cbn [procs queues outputs next_pipe next_sock] in *.
  destruct (new_pid _) as [kid|] eqn:E3; [|done]. apply new_pid_fresh in E3 as [Hkid Hpos]. apply not_elem_of_dom in Hkid.
  destruct (i_procs _ _ I _ _ Hp) as [Hb Hd]. rewrite E in Hd. destruct Hd as [F S].
  cbn in U1, U2. rewrite !lookup_insert_None in U1, U2. destruct U1 as [[U1 Ur] Uw], U2 as [[U2 Ur'] Uw'].
  pose proof (std_fresh _ _ _ F T1 T4) as Br. pose proof (std_fresh _ _ _ F T2 T5) as Bw.
  pose proof (std_fresh _ _ _ F U1 U4) as Ba. pose proof (std_fresh _ _ _ F U2 U5) as Bb.
  destruct (program_child _ _ _ _ _ _ _ _ _ _ _) as [K k3] eqn:E4. set (n := next_pipe k) in *.
  assert (Hn : n = next_sock k) by apply I. rewrite <-Hn in *.
  apply program_child_spec with (n := n) in E4 as ([out ->] & HbK & HK); [|unfold has; cbn; by rewrite !lookup_insert_ne, lookup_insert_eq by done|lia].
  cbn in H, HK, HbK. injection H as <-. exists (<[n := Held kid None]> cs).
  pose proof (inv_bump k cs (Held kid None) I) as IB. rewrite <-Hn in IB. specialize (IB ltac:(naive_solver)).
  eapply (inv_output _ _ out (pending k)) in IB. unfold bump in IB. cbn in IB. rewrite <-Hn in IB.
  assert (Hfresh : ∀ q Q, procs k !! q = Some Q → ¬ uses Q n) by (intros q Q HQ Hu; pose proof (uses_below _ _ _ _ _ I HQ Hu); lia).
  assert (IK : inv (set_proc kid K (System (procs k) (queues k) out (n + 1) (n + 1) (pending k))) (<[n := Held kid None]> cs)).
  { apply inv_set; [done|intros Q HQ; cbn in HQ; congruence|..]; destruct HK as [[HK [st Hst]]|[HK [prefix Hst]]].
    - intros H'. unfold waiting in H'. by rewrite Hst in H'.
    - intros H'. unfold waiting in H'. by rewrite Hst in H'.
    - split; [congruence|]. rewrite Hst. exact HK.
    - split; [congruence|]. rewrite Hst. eapply (started_ok P K m i (-1) a r w b n); try done. rewrite lookup_insert_eq. done.
    - intros ? ? ? (? & ? & ? & ? & ? & _). congruence.
    - intros ? ? ? (? & ? & ? & ? & ? & _). congruence.
    - intros fd n'. unfold has. by rewrite HK.
    - intros fd n' H. assert (n' = n) as -> by (by eapply (started_far P K m i (-1) a r w b n) in H; simplify_eq/=). exists kid, None. by rewrite lookup_insert_eq.
    - intros fd n'. unfold has. by rewrite HK.
    - intros fd n' H. assert (n' = n) as -> by (by eapply (started_far P K m i (-1) a r w b n) in H; simplify_eq/=). exists kid, None. rewrite lookup_insert_eq. auto. }
  set (P' := with_doing _ (close b _)).
  assert (HN : new_near P a r n P').
  { split; try lia; [|done]. cbn. apply map_eq. intros x. rewrite !lookup_delete, !lookup_insert. repeat case_decide; congruence. }
  assert (HPok : proc_ok cs n p P) by (rewrite Hn; by apply I).
  destruct (new_near_ok cs (<[n := Held kid None]> cs) n p P P' a r m i (-1) kid None None HPok E HN) as (O1 & O2 & O3); [lia|done|].
  assert (Hpk : p ≠ kid) by congruence. apply inv_set; [done| |by intros ?|done|..].
  - intros Q. cbn. rewrite lookup_insert_ne by done. intros HQ Hw. rewrite Hp in HQ. injection HQ as <-. unfold waiting in Hw. by rewrite E in Hw.
  - intros n' q Q ->%O2. cbn. rewrite lookup_insert. case_decide as D; [|intros HQ Hu; by destruct (Hfresh _ _ HQ)].
    intros [= <-] (? & ? & ? & ? & HQ & _). destruct HK as [[_ [? ?]]|[_ [? ?]]]; congruence.
  - intros fd n' H%O3. done.
  - intros fd n' H%O3. done.
Qed.

(** ** The simulator forks *)

Lemma write_spec k p P fd n side xs b k' : procs k !! p = Some P → fds P !! fd = Some (Sock n side) → blocked P = true → write_socket p fd xs k = Ret (b, k') →
  b = held k (Sock n (negb side)) ∧ k' = if b then set_queue n (negb side) (queue k n (negb side) ++ xs) k else set_pending ({[p]} ∪ pending k) k.
Proof. intros Hp Hfd Hb. unfold write_socket, get. rewrite Hp. simpl. rewrite Hfd, Hb. destruct (held _ _); by intros [= <- <-]. Qed.

Lemma send_fd_spec k p P dest fd k' : procs k !! p = Some P → blocked P = true → send_fd p dest fd k = Ret k' →
  ∃ n side e, has P dest (Sock n side) ∧ has P fd e ∧ held k (Sock n (negb side)) = true ∧ k' = set_queue n (negb side) (queue k n (negb side) ++ [Rights e]) k.
Proof.
  intros Hp Hb H. unfold send_fd, get in H. rewrite Hp in H. simpl in H. destruct (fds P !! fd) as [e|] eqn:Ee; [|done].
  destruct (write_socket _ _ _ _) as [[ok k1]| |] eqn:Ew; [|done..]. simpl in H. destruct ok; [|done]. injection H as <-.
  destruct (fds P !! dest) as [[| | |n side]|] eqn:Ed; try (unfold write_socket, get in Ew; rewrite Hp in Ew; simpl in Ew; rewrite Ed in Ew; done).
  destruct (write_spec _ _ _ _ _ _ _ _ _ Hp Ed Hb Ew) as [Hh ->]. by exists n, side, e.
Qed.
Lemma sock_dec P fd : (∃ n side, has P fd (Sock n side)) ∨ (∀ n side, ¬ has P fd (Sock n side)).
Proof. unfold has. destruct (fds P !! fd) as [[| | |n side]|]; [by right..|left; by exists n, side|by right]. Qed.
Lemma write_not_sock k p P fd xs : procs k !! p = Some P → (∀ n side, ¬ has P fd (Sock n side)) → write_socket p fd xs k = Ret (false, k).
Proof. intros Hp Hn. unfold write_socket, get. rewrite Hp. simpl. unfold has in Hn. destruct (fds P !! fd) as [[| | |n side]|]; try done. by destruct (Hn n side). Qed.
(** The child has a new session, whose far ends are on their way to the program. *)
Lemma fork_other_spec k cs c P m i pid k' : inv k cs → doing P = Simulating m i pid None → pid ≠ -1 → proc_ok cs (next_sock k) c P → ∀ k0, procs k0 !! c = Some P →
  queues k0 = queues k → outputs k0 = outputs k → next_pipe k0 = next_pipe k → next_sock k0 = next_sock k →
  fork_other_program open_max c k0 = Ret k' → ∃ P' a r n0, new_near P a r (next_sock k) P' ∧ doing P' = Simulating a r pid None ∧ has P m (Sock n0 false) ∧
    procs k' = <[c := P']> (procs k0) ∧ queues k' = <[(n0, true) := queue k n0 true ++ [Header fork_message; Rights (PipeW (next_sock k)); Rights (Sock (next_sock k) true)]]> (queues k) ∧
    outputs k' = outputs k ∧ next_pipe k' = next_pipe k + 1 ∧ next_sock k' = next_sock k + 1.
Proof.
  intros I E Hpid [Hb Hd] k0 Hc Eq Eo Enp Ens H. rewrite E in Hd. destruct Hd as [F S].
  unfold fork_other_program, get in H. rewrite Hc in H. simpl in H. rewrite E, (proj2 (Z.eqb_neq _ _) Hpid) in H.
  destruct (socketpair open_max P k0) as [[[[a b] P1] k1]|] eqn:E1; [|done]. apply socketpair_spec in E1 as [[T1 T2 T3 T4 T5 ->] ->].
  destruct (pipe open_max _ _) as [[[[r w] P2] k2]|] eqn:E2; [|done]. apply pipe_spec in E2 as [[U1 U2 U3 U4 U5 ->] ->].
  cbn [procs queues outputs next_pipe next_sock] in *. cbn in U1, U2. rewrite !lookup_insert_None in U1, U2. destruct U1 as [[U1 Ur] Uw], U2 as [[U2 Ur'] Uw'].
  pose proof (std_fresh _ _ _ F T1 T4) as Ba. pose proof (std_fresh _ _ _ F T2 T5) as Bb.
  pose proof (std_fresh _ _ _ F U1 U4) as Br. pose proof (std_fresh _ _ _ F U2 U5) as Bw.
  set (P2 := with_fds _ (with_fds _ P)) in H. set (k1 := set_proc c P2 _) in H.
  assert (Hc1 : procs k1 !! c = Some P2) by (unfold k1; cbn; by rewrite lookup_insert_eq).
  destruct (write_socket _ _ _ _) as [[ok k2]| |] eqn:Ew; [|done..]. simpl in H.
  destruct (send_fd c m w k2) as [k3| |] eqn:E3; [|done..]. simpl in H.
  destruct (send_fd c m b k3) as [k4| |] eqn:E4; [|done..]. simpl in H.
  destruct (sock_dec P2 m) as [(n0 & side & Hm)|Hm].
  2: { rewrite (write_not_sock _ _ _ _ _ Hc1) in Ew by done. injection Ew as <- <-.
       apply (send_fd_spec _ _ _ _ _ _ Hc1 Hb) in E3 as (n0 & side & e & H1 & _). by apply Hm in H1. }
  destruct (write_spec _ _ _ _ _ _ _ _ _ Hc1 Hm Hb Ew) as [-> ->].
  assert (HmP : has P m (Sock n0 side)).
  { unfold has, P2 in Hm. cbn in Hm. rewrite !lookup_insert_ne in Hm; [done|..].
    all: intros ->; destruct (so_open _ _ _ _ S) as [->|[? Hx]]; [lia|congruence]. }
  assert (side = false) as -> by (pose proof (so_near _ _ _ _ S _ _ HmP) as Hx; by destruct side).
  assert (Hh : held k1 (Sock n0 true) = true).
  { apply (send_fd_spec _ _ P2) in E3 as (n1 & side & e & H1 & _ & Hh & _); [|by destruct (held k1 _)|done].
    unfold has in *. rewrite Hm in H1. injection H1 as <- <-. destruct (held k1 (Sock n0 (negb false))) eqn:X; [done|]. cbn in X. change (held k1 (Sock n0 true) = true) in Hh. congruence. }
  simpl in E3. rewrite Hh in E3. 
  apply (send_fd_spec _ _ P2) in E3 as (n1 & side & e & H1 & H2 & _ & ->); [|done..].
  apply (send_fd_spec _ _ P2) in E4 as (n2 & side' & e' & H3 & H4 & _ & ->); [|done..].
  unfold has in *. rewrite Hm in H1, H3. injection H1 as <- <-. injection H3 as <- <-.
  assert (e = PipeW (next_sock k)) as -> by (unfold P2 in H2; cbn in H2; rewrite lookup_insert_eq in H2; rewrite <-(i_next _ _ I), <-Enp; congruence).
  assert (e' = Sock (next_sock k) true) as -> by (unfold P2 in H4; cbn in H4; rewrite !lookup_insert_ne, lookup_insert_eq in H4 by congruence; congruence).
  cbn in H. rewrite lookup_insert_eq in H. cbn in H. injection H as <-.
  set (P' := with_doing _ _). exists P', a, r, n0. split_and!; try done.
  - split; [lia|lia|done| |done]. unfold P'. cbn. apply map_eq. intros x. rewrite !lookup_delete, !lookup_insert. pose proof (i_next _ _ I).
    repeat case_decide; congruence.
  - cbn. apply insert_insert_eq.
  - cbn. rewrite !insert_insert_eq, Eq. f_equal. rewrite !queue_set_queue, !decide_True by done. unfold queue. cbn. by rewrite Eq, <-!app_assoc.
  - cbn. lia.
  - cbn. lia.
Qed.
Lemma proc_child cs N p P m i pid ch ch' : doing P = Simulating m i pid ch → proc_ok cs N p P → proc_ok cs N p (with_doing (Simulating m i pid ch') P).
Proof. intros E [Hb Hd]. rewrite E in Hd. destruct Hd as [[? ? ?] [? ? ? ? ? ?]]. by split; [|split; split]. Qed.
Lemma inv_fork k cs p k' : inv k cs → split_simulator p k = Ret k' → ∃ cs', inv k' cs'.
Proof.
  intros I H. unfold fork_simulator, get in H. destruct (procs k !! p) as [P|] eqn:Hp; [|done]. simpl in H.
  destruct (doing P) as [m i pid [?|]| |] eqn:E; try by destruct (new_pid _).
  destruct (new_pid _) as [c|] eqn:En; [|done]. apply new_pid_fresh in En as [Hc _]. apply not_elem_of_dom in Hc.
  assert (Hpc : p ≠ c) by congruence. pose proof (i_procs _ _ I _ _ Hp) as Hok. set (X := with_doing _ P) in H.
  assert (HokC : proc_ok cs (next_sock k) c P) by (destruct Hok as [? Hd]; split; [done|]; by rewrite E in *).
  assert (HokX : ∀ cs N, proc_ok cs N p P → proc_ok cs N p X) by (intros cs1 N; by eapply proc_child).
  assert (HuX : ∀ n, uses X n → uses P n) by (intros n; rewrite (uses_sim_ok P _ _ _ _ _ E), (uses_sim_ok X n m i pid (Some c)); done).
  assert (HwP : ¬ waiting P) by (intros Hw; unfold waiting in Hw; by rewrite E in Hw).
  assert (Hnear : ∀ fd e, has P fd e → far e = false) by (destruct Hok as [_ Hd]; rewrite E in Hd; destruct Hd as [_ S]; apply S).
  destruct (decide (pid = -1)) as [->|Hpid].
  - exists cs. unfold fork_other_program, get in H. cbn in H. rewrite lookup_insert_ne, lookup_insert_eq in H by done. simpl in H. rewrite E in H. simpl in H. injection H as <-.
    apply inv_proc with P; [|cbn; by rewrite lookup_insert_ne|cbn; by apply HokX|done|done|done|by intros ?].
    apply inv_set; [done|congruence|done|done|..].
    + intros n q Q Hu. exfalso. rewrite (uses_sim_ok P _ _ _ _ _ E) in Hu. destruct Hok as [_ Hd]. rewrite E in Hd. destruct Hd as [_ S].
      destruct (so_none _ _ _ _ S eq_refl n). tauto.
    + intros fd n Hh%Hnear. done.
    + intros fd n Hh%Hnear. done.
  - set (k0 := set_proc p X (set_proc c P k)) in H.
    destruct (fork_other_spec k cs c P m i pid k' I E Hpid HokC k0) as (P' & a & r & n0 & HN & E' & Hm & Ep & Eq & Eo & Enp & Ens); try done.
    { unfold k0. cbn. by rewrite lookup_insert_ne, lookup_insert_eq. }
    set (N := next_sock k) in *. set (cs' := <[N := Flight n0]> cs). exists cs'.
    destruct (new_near_ok cs cs' N c P P' a r m i pid pid None None HokC E HN Hpid E') as (O1 & O2 & O3).
    assert (IB : inv (bump k) cs') by (by apply inv_bump).
    assert (IC : inv (set_proc c P' (bump k)) cs').
    { apply inv_set; [done|cbn; congruence|intros Hw; unfold waiting in Hw; by rewrite E' in Hw|done|..].
      - intros n q Q ->%O2 HQ Hu. pose proof (uses_below _ _ _ _ _ I HQ Hu). lia.
      - intros fd n Hh%O3. done.
      - intros fd n Hh%O3. done. }
    assert (IX : inv (set_proc p X (set_proc c P' (bump k))) cs').
    { apply inv_proc with P; [done|cbn; by rewrite lookup_insert_ne| |done|done|done|by intros ?].
      apply HokX. cbn. eapply proc_ok_mono, Hok; [|lia]. intros n c1 o1 H1 _. unfold cs'. rewrite lookup_insert_ne; [done|]. apply I in H1. unfold N. lia. }
    destruct (queue_of_ok k cs n0 I) as [Hq _].
    assert (Hfl : ∀ j, j ∈ passing (queue k n0 true) → j < N) by (intros j Hj; pose proof (passing_flight _ _ _ _ Hq Hj) as Hf; by apply I in Hf).
    apply (inv_queue _ _ n0 true (queue k n0 true ++ [Header fork_message; Rights (PipeW N); Rights (Sock N true)])) in IX.
    + apply (inv_output _ _ (outputs k) (pending k')) in IX. destruct k' as [pr qu ou np ns pd]. cbn in Ep, Eq, Eo, Enp, Ens. rewrite Ep, Eq, Eo, Enp, Ens. unfold set_queue, set_proc, bump, k0, N in *. cbn in *.
      rewrite (insert_insert_ne _ p c), insert_insert_eq in * by done. exact IX.
    + apply queue_ok_app; [| |].
      * eapply queue_ok_mono, Hq. intros j Hj%Hfl Hf. unfold cs'. rewrite lookup_insert_ne by lia. done.
      * apply qo_fork; [done|unfold cs'; by rewrite lookup_insert_eq|by apply not_elem_of_nil|constructor].
      * intros j Hj%Hfl. rewrite passing_fork by done. rewrite list_elem_of_singleton. lia.
Qed.

(** ** The program forks, and reports *)

Lemma kid_of_edges k k' p : (∀ q, q ≠ p → ∀ Q, procs k !! q = Some Q → procs k' !! q = Some Q) → (∀ c, ¬ kid_of k p c) → ∀ a b, rtc (kid_of k) a b → rtc (kid_of k') a b.
Proof.
  intros H Hp a b. apply rtc_subrel. intros x y Hxy. destruct (decide (x = p)) as [->|Hn]; [by apply Hp in Hxy|].
  destruct Hxy as (Q & sd & pre & o & m & HQ & Hd). exists Q, sd, pre, o, m. eauto.
Qed.
Lemma kid_of_last k p P c : procs k !! p = Some P → ¬ waiting P → rtc (kid_of k) p c → c = p.
Proof.
  intros Hp Hw H. inversion H as [|? y ? (Q & sd & pre & o & m & HQ & Hd) _]; [done|]. exfalso. simplify_eq. apply Hw. unfold waiting. by rewrite Hd.
Qed.

Section Split.
Context (k : system) (cs : gmap Z place) (p : Z) (P : process) (sd : Z) (pre : text) (n i out msg kid : Z) (I : inv k cs).
Context (Hp : procs k !! p = Some P) (E : doing P = Serving sd pre None) (Hsd : has P sd (Sock n true)) (Hi : cs !! i = Some (Flight n)).
Context (Hq : i ∉ passing (queue k n true)) (Hout : fds P !! out = None) (Hmsg : fds P !! msg = None) (Hom : out ≠ msg).
Context (Rout : 0 <= out < open_max) (Rmsg : 0 <= msg < open_max) (Hkid : procs k !! kid = None).
Let P1 := with_fds (λ f, <[msg := Sock i true]> (<[out := PipeW i]> f)) P.
Let P' := with_doing (Serving sd pre (Some (kid, out, msg))) P1.
Let K := with_doing (Serving msg pre None) (close sd (dup2 out STDERR_FILENO (dup2 out STDOUT_FILENO P1))).
Let k' := set_proc p P' (set_proc kid K k).
Let cs' := <[i := Held kid (Some p)]> cs.

Lemma split_P fd e : has P' fd e ↔ (fd = msg ∧ e = Sock i true) ∨ (fd = out ∧ e = PipeW i) ∨ (fd ≠ msg ∧ fd ≠ out ∧ has P fd e).
Proof. unfold has, P', P1. cbn. rewrite !lookup_insert_Some. naive_solver. Qed.
Lemma split_K fd e : has K fd e ↔ fd ≠ sd ∧ ((fd = 2 ∧ e = PipeW i) ∨ (fd ≠ 2 ∧ fd = 1 ∧ e = PipeW i) ∨ (fd ≠ 2 ∧ fd ≠ 1 ∧ has P' fd e)).
Proof.
  assert (Hd : dup2 out STDERR_FILENO (dup2 out STDOUT_FILENO P1) = with_fds (λ f, <[2 := PipeW i]> (<[1 := PipeW i]> f)) P1).
  { unfold dup2. replace (fds P1 !! out) with (Some (PipeW i)) by (unfold P1; cbn; by rewrite lookup_insert_ne, lookup_insert_eq). cbn.
    rewrite lookup_insert. case_decide; [done|]. by rewrite lookup_insert_ne, lookup_insert_eq. }
  unfold has, K. rewrite Hd. cbn. rewrite lookup_delete_Some, !lookup_insert_Some. naive_solver.
Qed.
Lemma split_before : blocked P = true ∧ fds_ok (next_sock k) P ∧ 2 < sd ∧ has P 1 (PipeW n) ∧ has P 2 (PipeW n) ∧ (∃ o, cs !! n = Some (Held p o)) ∧
  (∀ fd n', has P fd (Sock n' true) → n' = n ∧ fd = sd) ∧ 2 < out < 2 ^ 31 ∧ 2 < msg < 2 ^ 31 ∧ sd ≠ out ∧ sd ≠ msg ∧ i < next_sock k.
Proof.
  destruct (i_procs _ _ I _ _ Hp) as [Hb Hd]. rewrite E in Hd. destruct Hd as [F [H2 (n1 & o & H3 & H4 & H5 & H6) Hown]].
  assert (n1 = n) as -> by (unfold has in *; congruence). split_and!; try done; try (by eapply std_fresh); try (unfold has in *; congruence); try (by apply I in Hi); [by exists o|].
  intros fd n' ?. by apply (Hown fd n n').
Qed.
Lemma split_cs j c o : cs !! j = Some (Held c o) → cs' !! j = cs !! j.
Proof. intros Hj. unfold cs'. rewrite lookup_insert_ne; [done|congruence]. Qed.
Lemma split_parent_ok : proc_ok cs' (next_sock k) p P'.
Proof.
  destruct split_before as (Hb & [F1 F2 F3] & Hs2 & H1 & H2 & [o Ho] & Hown & Bo & Bm & So & Sm & Hin).
  split; [done|]. cbn. split; split.
  - intros fd e [[-> _]|[[-> _]|(_ & _ & H)]]%split_P; [lia|lia|by eapply F1].
  - intros fd e j [[-> ->]|[[-> ->]|(_ & _ & H)]]%split_P; cbn; [intros [= <-]; lia..|by eapply F2].
  - intros fd Hfd. cbn. rewrite !lookup_insert_ne by lia. by apply F3.
  - lia.
  - exists n, o. rewrite !split_P, (split_cs _ _ _ Ho). split_and!; [by right; right| | |done]; (right; right; split_and!; [lia|lia|done]).
  - exists i. rewrite !split_P. split_and!; try done; [by left|by right; left|unfold cs'; by rewrite lookup_insert_eq| |lia|lia|].
    + unfold has in *. intros [[? _]|[[? _]|(_ & _ & ?)]]; congruence.
    + intros fd j j'. rewrite !split_P. intros [[-> _]|[[-> _]|(_ & _ & Hj)]] [[-> _]|[[-> Hx]|(_ & _ & Hj')]]; try done; try (by right); left.
      apply Hown in Hj as [-> _]. by apply Hown in Hj' as [-> ->].
Qed.
Lemma split_kid_ok : proc_ok cs' (next_sock k) kid K.
Proof.
  destruct split_before as (Hb & [F1 F2 F3] & Hs2 & H1 & H2 & [o Ho] & Hown & Bo & Bm & So & Sm & Hin).
  assert (HK : ∀ fd e, has K fd e → (fd = 1 ∨ fd = 2 ∨ fd = out) ∧ e = PipeW i ∨ fd = msg ∧ e = Sock i true ∨ fd ≠ sd ∧ has P fd e).
  { intros fd e. rewrite split_K, split_P. naive_solver. }
  assert (K1 : has K 1 (PipeW i)) by (apply split_K; split; [lia|by right; left]).
  assert (K2 : has K 2 (PipeW i)) by (apply split_K; split; [lia|by left]).
  assert (Km : has K msg (Sock i true)) by (apply split_K; split; [done|]; right; right; split_and!; [lia|lia|apply split_P; by left]).
  split; [unfold K, dup2; cbn; repeat case_match; done|]. cbn. split; split.
  - intros fd e [[H _]|[[-> _]|[_ H]]]%HK; [lia|lia|by eapply F1].
  - intros fd e j [[_ ->]|[[_ ->]|[_ H]]]%HK; cbn; [intros [= <-]; lia..|by eapply F2].
  - intros fd Hfd. change (is_Some (fds K !! fd)). destruct (F3 fd Hfd) as [e He]. destruct (decide (fd = 2)) as [->|N2]; [by eexists|].
    destruct (decide (fd = 1)) as [->|N1]; [by eexists|]. exists e. apply split_K. split; [lia|]. right. right. split_and!; [done..|].
    apply split_P. right. right. split_and!; [lia|lia|done].
  - lia.
  - exists i, (Some p). split_and!; [done..|]. unfold cs'. by rewrite lookup_insert_eq.
  - intros fd j j' Hj Hj'. assert (j = i) as -> by (unfold has in *; congruence). apply HK in Hj' as [[_ [=]]|[[-> [= ->]]|[Hs Hj']]]; [done|]. by apply Hown in Hj' as [_ ->].
Qed.
Lemma split_procs q Q : procs k' !! q = Some Q → (q = p ∧ Q = P') ∨ (q = kid ∧ Q = K) ∨ (q ≠ p ∧ q ≠ kid ∧ procs k !! q = Some Q).
Proof. unfold k'. cbn. rewrite !lookup_insert. repeat case_decide; naive_solver. Qed.

Lemma inv_split : inv k' cs'.
Proof.
  destruct split_before as (Hb & F & Hs2 & H1 & H2 & [o Ho] & Hown & Bo & Bm & So & Sm & Hin).
  assert (Hpk : p ≠ kid) by congruence.
  assert (Hcs : ∀ j c o, cs !! j = Some (Held c o) → cs' !! j = Some (Held c o)) by (intros j c o1 Hj; by rewrite (split_cs _ _ _ Hj)).
  assert (Hcsi : cs' !! i = Some (Held kid (Some p))) by (unfold cs'; by rewrite lookup_insert_eq).
  assert (Hnk : ∀ c, ¬ kid_of k p c) by (intros c (Q & ? & ? & ? & ? & HQ & Hd); congruence).
  assert (Hr : ∀ a b, rtc (kid_of k) a b → rtc (kid_of k') a b).
  { apply kid_of_edges with p; [|done]. intros q Hq' Q HQ. unfold k'. cbn. rewrite lookup_insert_ne by done. rewrite lookup_insert_ne by congruence. done. }
  assert (Hedge : kid_of k' p kid) by (exists P', sd, pre, out, msg; unfold k'; cbn; by rewrite lookup_insert_eq).
  assert (Hpipe : ∀ fd j, has P fd (PipeW j) → ∃ c o, cs' !! j = Some (Held c o) ∧ rtc (kid_of k') c p).
  { intros fd j H. destruct (i_pipe _ _ I _ _ _ _ Hp H) as (c & o1 & Hc & [Hx|(_ & ? & ? & ? & ? & _)]); [|congruence]. exists c, o1. auto. }
  split; cbn; try apply I.
  - intros q Q [[-> ->]|[[-> ->]|(_ & _ & HQ)]]%split_procs; [apply split_parent_ok|apply split_kid_ok|].
    eapply proc_ok_mono, I, HQ; [|done]. intros j c o1 Hj _. by eapply split_cs.
  - assert (Hu : ∀ q Q j, procs k' !! q = Some Q → uses Q j → procs k !! q = Some Q).
    { intros q Q j [[-> ->]|[[-> ->]|(_ & _ & HQ)]]%split_procs (? & ? & ? & ? & Hd & _); done. }
    intros p1 p2 P1' P2 j HP1 HP2 U1 U2. by eapply (i_near _ _ I p1 p2 P1' P2); eauto.
  - intros q Q fd j [[-> ->]|[[-> ->]|(_ & _ & HQ)]]%split_procs H.
    + apply split_P in H as [[_ [=]]|[[-> [= ->]]|(_ & _ & H)]].
      * exists kid, (Some p). split; [done|]. right. split; [done|]. exists sd, pre, msg. split; [done|]. apply split_P. by left.
      * destruct (Hpipe _ _ H) as (c & o1 & ? & ?). exists c, o1. auto.
    + assert (Hc : j = i ∨ has P fd (PipeW j)) by (rewrite split_K, split_P in H; naive_solver). destruct Hc as [->|Hc].
      * exists kid, (Some p). split; [done|]. by left.
      * destruct (Hpipe _ _ Hc) as (c & o1 & ? & ?). exists c, o1. split; [done|]. left. by eapply rtc_r.
    + destruct (i_pipe _ _ I _ _ _ _ HQ H) as (c & o1 & Hc & [Hx|Hx]); exists c, o1; auto.
  - intros q Q fd j [[-> ->]|[[-> ->]|(_ & _ & HQ)]]%split_procs H.
    + apply split_P in H as [[-> [= ->]]|[[_ [=]]|(_ & _ & H)]]; [exists kid, (Some p); auto|].
      destruct (i_sock _ _ I _ _ _ _ Hp H) as (c & o1 & ? & ?). exists c, o1. auto.
    + assert (Hc : j = i ∨ (fd ≠ sd ∧ has P fd (Sock j true))) by (rewrite split_K, split_P in H; naive_solver). destruct Hc as [->|[Hc Hc']].
      * exists kid, (Some p). auto.
      * by apply Hown in Hc' as [_ ->].
    + destruct (i_sock _ _ I _ _ _ _ HQ H) as (c & o1 & ? & ?). exists c, o1. auto.
  - intros j c q. unfold cs'. rewrite lookup_insert. case_decide as D.
    + intros [= <- <-]. subst j. exists P', sd, pre, out, msg. unfold k'. cbn. rewrite lookup_insert_eq. split_and!; [done..|]. apply split_P. by left.
    + intros Hj. destruct (i_wait _ _ I _ _ _ Hj) as (Q & sd1 & pre1 & out1 & msg1 & HQ & Hd & Hm). exists Q, sd1, pre1, out1, msg1. split; [|done].
      unfold k'. cbn. rewrite !lookup_insert_ne by congruence. done.
  - intros j q Hj. eapply queue_ok_mono, I, Hj. intros x Hx Hf. unfold cs'. rewrite lookup_insert_ne; [done|]. intros <-. apply Hq.
    assert (j = n) as -> by congruence. unfold queue. by rewrite Hj.
  - intros j pl. unfold cs'. rewrite lookup_insert. case_decide; [intros _; lia|apply I].
Qed.
End Split.
Lemma serving k cs p P sd pre kid : inv k cs → procs k !! p = Some P → doing P = Serving sd pre kid →
  ∃ n, has P sd (Sock n true) ∧ ∃ o, cs !! n = Some (Held p o).
Proof. intros I Hp E. destruct (i_procs _ _ I _ _ Hp) as [_ Hd]. rewrite E in Hd. destruct Hd as [_ [_ (n & o & ? & _ & _ & ?) _]]. by eauto. Qed.

(** What serve does with a request to fork. *)
Lemma do_fork_spec k p P sd pre n i q k' : procs k !! p = Some P → doing P = Serving sd pre None → has P sd (Sock n true) →
  queue k n true = Rights (PipeW i) :: Rights (Sock i true) :: q → do_fork open_max new_pid p P k = Ret (Some k') →
  ∃ kid out msg, new_pid (dom (procs k)) = Some kid ∧ fds P !! out = None ∧ fds P !! msg = None ∧ out ≠ msg ∧ 0 <= out < open_max ∧ 0 <= msg < open_max ∧
    let P1 := with_fds (λ f, <[msg := Sock i true]> (<[out := PipeW i]> f)) P in
    k' = set_proc p (with_doing (Serving sd pre (Some (kid, out, msg))) P1)
      (set_proc kid (with_doing (Serving msg pre None) (close sd (dup2 out STDERR_FILENO (dup2 out STDOUT_FILENO P1)))) (set_queue n true q k)).
Proof.
  intros Hp E Hsd Hq H. unfold has in Hsd. unfold do_fork, recv_fd in H. rewrite E, Hsd, Hq in H. simpl in H.
  destruct (open_end _ _ P) as [[out P1]|] eqn:E1; [|done]. apply open_end_spec in E1 as (Ho & Ro & ->). cbn in H.
  assert (Hso : sd ≠ out) by congruence. rewrite lookup_insert_ne, Hsd in H by done. rewrite queue_set_queue, decide_True in H by done.
  destruct (open_end _ _ _) as [[msg P2]|] eqn:E2; [|done]. apply open_end_spec in E2 as (Hm & Rm & ->). cbn in H, Hm. rewrite lookup_insert_None in Hm. destruct Hm as [Hm Hom].
  destruct (new_pid _) as [kid|] eqn:E3; [|done]. simpl in H. injection H as <-. exists kid, out, msg. split_and!; [done..|lia|lia|lia|lia|]. cbn.
  unfold set_queue, set_proc. cbn. by rewrite insert_insert_eq.
Qed.

Lemma inv_serve k cs p k' : inv k cs → serve_next p k = Ret (Some k') → ∃ cs', inv k' cs'.
Proof.
  intros I H. unfold serve, get in H. destruct (procs k !! p) as [P|] eqn:Hp; [|done]. simpl in H.
  destruct (doing P) as [|sd pre [?|]|] eqn:E; [done..| |done]. destruct (serving _ _ _ _ _ _ _ I Hp E) as (n & Hsd & _).
  unfold has in Hsd. rewrite Hsd in H. destruct (queue_of_ok k cs n I) as [Hq _].
  assert (Hset : ∀ q, queue_ok cs n q → inv (set_queue n true q k) cs) by (intros q ?; by apply inv_queue).
  remember (queue k n true) as ql eqn:Eq. destruct Hq as [|x q Hx Hq|x i q Hx Hi Hn Hq]; [done| |].
  - destruct Hx as [Hf Hx]. destruct x as [m|b|e]; [|injection H as <-; by eauto|done].
    simpl in Hf. destruct (type m); [injection H as <-; by eauto|]. rewrite Hf in H. injection H as <-. by eauto.
  - destruct x as [m|b|e]; [|done..]. simpl in Hx. destruct (type m); [done|]. rewrite Hx in H.
    set (k1 := set_queue n true _ k) in H. assert (Hq1 : queue k1 n true = Rights (PipeW i) :: Rights (Sock i true) :: q) by (unfold k1; by rewrite queue_set_queue, decide_True).
    eapply do_fork_spec in H as (kid & out & msg & Hk & Ho & Hm & Hom & Ro & Rm & ->); [|done..]. apply new_pid_fresh in Hk as [Hk _]. apply not_elem_of_dom in Hk.
    assert (Ek : set_queue n true q k1 = set_queue n true q k) by (unfold k1, set_queue; cbn; by rewrite insert_insert_eq). rewrite Ek.
    eexists. eapply (inv_split (set_queue n true q k)); try done; [by apply Hset|]. by rewrite queue_set_queue, decide_True.
Qed.

Section Report.
Context (k : system) (cs : gmap Z place) (p : Z) (P : process) (sd : Z) (pre : text) (kid out msg i : Z) (K : process) (st : Z) (I : inv k cs).
Context (Hp : procs k !! p = Some P) (E : doing P = Serving sd pre (Some (kid, out, msg))) (Hmsg : has P msg (Sock i true)).
Context (Hkid : procs k !! kid = Some K) (EK : doing K = Exited st).
Let P' := with_doing (Serving sd pre None) (close out (close msg P)).
Let k' := set_proc p P' k.
Let cs' := <[i := Over]> cs.

Lemma report_has fd e : has P' fd e ↔ fd ≠ out ∧ fd ≠ msg ∧ has P fd e.
Proof. unfold has, P'. cbn. rewrite !lookup_delete_Some. naive_solver. Qed.
Lemma report_before : blocked P = true ∧ fds_ok (next_sock k) P ∧ 2 < sd ∧ (∃ n o, has P sd (Sock n true) ∧ has P 1 (PipeW n) ∧ has P 2 (PipeW n) ∧ cs !! n = Some (Held p o) ∧ n ≠ i ∧
    (∀ fd n', has P fd (Sock n' true) → (n' = n ∧ fd = sd) ∨ fd = msg)) ∧
  has P out (PipeW i) ∧ cs !! i = Some (Held kid (Some p)) ∧ 2 < out ∧ 2 < msg ∧ msg ≠ sd ∧ out ≠ sd.
Proof.
  destruct (i_procs _ _ I _ _ Hp) as [Hb Hd]. rewrite E in Hd. destruct Hd as [F [H2 (n & o & H3 & H4 & H5 & H6) (j & K1 & K2 & K3 & K4 & K5 & K6 & K7 & K8 & K9)]].
  assert (j = i) as -> by (unfold has in *; congruence). split_and!; try done. exists n, o. split_and!; try done; [congruence|]. intros fd n' ?. by apply (K9 fd n n').
Qed.
Lemma report_alone q Q : procs k !! q = Some Q → ∀ fd e, has Q fd e → q ≠ kid.
Proof. intros HQ fd e H ->. assert (Q = K) as -> by congruence. destruct (i_procs _ _ I _ _ Hkid) as [_ Hd]. rewrite EK in Hd. unfold has in H. by rewrite Hd in H. Qed.
(** The edge to the program that has exited is not needed. *)
Lemma report_below a b : rtc (kid_of k) a b → rtc (kid_of k') a b ∨ b = kid.
Proof.
  intros H. induction H as [|a y b Hay Hyb IH]; [by left|]. destruct (decide (a = p)) as [->|Ha].
  - right. destruct Hay as (Q & sd1 & pre1 & o1 & m1 & HQ & Hd). assert (y = kid) as -> by congruence.
    eapply kid_of_last; [exact Hkid| |done]. intros Hw. unfold waiting in Hw. by rewrite EK in Hw.
  - destruct IH as [IH|IH]; [left|by right]. eapply rtc_l; [|done]. destruct Hay as (Q & sd1 & pre1 & o1 & m1 & HQ & Hd).
    exists Q, sd1, pre1, o1, m1. unfold k'. cbn. by rewrite lookup_insert_ne.
Qed.
Lemma report_procs q Q : procs k' !! q = Some Q → (q = p ∧ Q = P') ∨ (q ≠ p ∧ procs k !! q = Some Q).
Proof. unfold k'. cbn. rewrite lookup_insert. case_decide; naive_solver. Qed.
Lemma report_parent_ok : proc_ok cs' (next_sock k) p P'.
Proof.
  destruct report_before as (Hb & [F1 F2 F3] & Hs2 & (n & o & H1 & H2 & H3 & H4 & Hni & Hown) & Ho & Hi & Bo & Bm & Sm & So).
  split; [done|]. cbn. split; split.
  - intros fd e (_ & _ & H)%report_has. by eapply F1.
  - intros fd e j (_ & _ & H)%report_has. by eapply F2.
  - intros fd Hfd. cbn. rewrite !lookup_delete_ne by lia. by apply F3.
  - done.
  - exists n, o. rewrite !report_has. split_and!; try done; try lia. unfold cs'. by rewrite lookup_insert_ne.
  - intros fd j j'. rewrite !report_has. intros (_ & _ & Hj) (_ & Hm & Hj'). assert (j = n) as -> by (unfold has in *; congruence).
    by destruct (Hown _ _ Hj') as [?|?].
Qed.
Lemma inv_report : inv k' cs'.
Proof.
  destruct report_before as (Hb & F & Hs2 & (n & o & H1 & H2 & H3 & H4 & Hni & Hown) & Ho & Hi & Bo & Bm & Sm & So).
  assert (Hcs : ∀ j pl, j ≠ i → cs !! j = pl → cs' !! j = pl) by (intros j pl Hj Hx; unfold cs'; by rewrite lookup_insert_ne).
  split; cbn; try apply I.
  - intros q Q [[-> ->]|[Hq HQ]]%report_procs; [apply report_parent_ok|]. pose proof (i_procs _ _ I _ _ HQ) as Hok.
    destruct (decide (q = kid)) as [->|Hqk]; [assert (Q = K) as -> by congruence; destruct Hok as [? Hd]; split; [done|]; by rewrite EK in *|].
    eapply proc_ok_mono, Hok; [|done]. intros j c o1 Hj Hc. apply Hcs; [|done]. naive_solver.
  - assert (Hu : ∀ q Q j, procs k' !! q = Some Q → uses Q j → procs k !! q = Some Q).
    { intros q Q j [[-> ->]|[_ HQ]]%report_procs (? & ? & ? & ? & Hd & _); done. }
    intros p1 p2 P1' P2 j HP1 HP2 U1 U2. by eapply (i_near _ _ I p1 p2 P1' P2); eauto.
  - assert (Hlast : ∀ q Q fd e c, procs k !! q = Some Q → has Q fd e → rtc (kid_of k) c q → rtc (kid_of k') c q).
    { intros q Q fd e c HQ H [?| ->]%report_below; [done|]. by apply (report_alone _ _ HQ) in H. }
    intros q Q fd j [[-> ->]|[Hq HQ]]%report_procs H.
    + apply report_has in H as (Hfo & Hfm & H). destruct (i_pipe _ _ I _ _ _ _ Hp H) as (c & o1 & Hc & [Hx|(_ & ? & ? & ? & Hd & _)]); [|congruence].
      pose proof (Hlast _ _ _ _ _ Hp H Hx) as Hx'. exists c, o1. split; [|by left]. apply Hcs; [|done]. intros ->. assert (c = kid) as -> by congruence.
      apply (kid_of_last k kid K) in Hx; [by eapply (report_alone _ _ Hp) in H|done|]. intros Hw. unfold waiting in Hw. by rewrite EK in Hw.
    + destruct (i_pipe _ _ I _ _ _ _ HQ H) as (c & o1 & Hc & [Hx|[Hx Hx']]).
      * pose proof (Hlast _ _ _ _ _ HQ H Hx). exists c, o1. split; [|by left]. apply Hcs; [|done]. intros ->. assert (c = kid) as -> by congruence.
        apply (kid_of_last k kid K) in Hx; [by eapply (report_alone _ _ HQ) in H|done|]. intros Hw. unfold waiting in Hw. by rewrite EK in Hw.
      * exists c, o1. split; [|by right]. apply Hcs; [|done]. intros ->. congruence.
  - intros q Q fd j [[-> ->]|[Hq HQ]]%report_procs H.
    + apply report_has in H as (Hfo & Hfm & H). destruct (Hown _ _ H) as [[-> ->]|?]; [|done]. exists p, o. auto.
    + destruct (i_sock _ _ I _ _ _ _ HQ H) as (c & o1 & Hc & Hx). exists c, o1. split; [|done]. apply Hcs; [|done]. intros ->.
      apply (report_alone _ _ HQ) in H. naive_solver.
  - intros j c q. unfold cs'. rewrite lookup_insert. case_decide as D; [done|]. intros Hj.
    destruct (i_wait _ _ I _ _ _ Hj) as (Q & sd1 & pre1 & out1 & msg1 & HQ & Hd & Hm). exists Q, sd1, pre1, out1, msg1. split; [|done].
    unfold k'. cbn. rewrite lookup_insert_ne; [done|]. intros <-. unfold has in *. congruence.
  - intros j q Hj. eapply queue_ok_mono, I, Hj. intros x Hx Hf. apply Hcs; [congruence|done].
  - intros j pl. unfold cs'. rewrite lookup_insert. case_decide as D; [intros _; rewrite <-D; by apply (i_dom _ _ I) in Hi|apply I].
Qed.
End Report.

(** What do_fork does once the forked program has exited. *)
Lemma report_spec k cs p P sd pre kid out msg K st : inv k cs → procs k !! p = Some P → doing P = Serving sd pre (Some (kid, out, msg)) →
  procs k !! kid = Some K → doing K = Exited st → ∃ i b k1, has P msg (Sock i true) ∧
    b = held k (Sock i false) ∧ procs k1 = procs k ∧ next_pipe k1 = next_pipe k ∧ next_sock k1 = next_sock k ∧
    queues k1 = (if b then <[(i, false) := queue k i false ++ [Header (exit_message st)]]> (queues k) else queues k) ∧
    do_fork_wait p k = Ret (Some (set_proc p (with_doing (Serving sd pre None) (close out (close msg P))) k1)).
Proof.
  intros I Hp E HK EK. destruct (i_procs _ _ I _ _ Hp) as [Hb Hd]. rewrite E in Hd. destruct Hd as [_ [_ _ (i & Hm & _)]].
  unfold do_fork_wait, get. rewrite Hp. simpl. rewrite E, HK. simpl. rewrite EK. set (kw := write_output _ _ _ _).
  assert (Hkw : procs kw = procs k ∧ queues kw = queues k ∧ next_pipe kw = next_pipe k ∧ next_sock kw = next_sock k).
  { unfold kw, write_output. by destruct (fds P !! STDERR_FILENO) as [[]|]. }
  destruct Hkw as (W1 & W2 & W3 & W4).
  assert (Hh : held kw (Sock i false) = held k (Sock i false)) by (unfold held; by rewrite W1, W2).
  assert (Hq : queue kw i false = queue k i false) by (unfold queue; by rewrite W2).
  unfold write_socket, get. rewrite W1, Hp. simpl. unfold has in Hm. rewrite Hm, Hb. simpl. rewrite Hh.
  exists i, (held k (Sock i false)). destruct (held k (Sock i false)); simpl.
  - rewrite W1, Hp. simpl. rewrite E. exists (set_queue i false (queue kw i false ++ [Header (exit_message st)]) kw). split_and!; try done. cbn. by rewrite Hq, W2.
  - rewrite W1, Hp. simpl. rewrite E. exists (set_pending ({[p]} ∪ pending kw) kw). by split_and!.
Qed.
Lemma inv_do_fork_wait k cs p k' : inv k cs → do_fork_wait p k = Ret (Some k') →
  ∃ P sd pre kid out msg i, procs k !! p = Some P ∧ doing P = Serving sd pre (Some (kid, out, msg)) ∧ has P msg (Sock i true) ∧ inv k' (<[i := Over]> cs).
Proof.
  intros I H. assert (Hx : ∃ P sd pre kid out msg K st, procs k !! p = Some P ∧ doing P = Serving sd pre (Some (kid, out, msg)) ∧ procs k !! kid = Some K ∧ doing K = Exited st).
  { unfold do_fork_wait, get in H. destruct (procs k !! p) as [P|] eqn:Hp; [|done]. simpl in H. destruct (doing P) as [|sd pre [[[kid out] msg]|]|] eqn:E; try done.
    destruct (procs k !! kid) as [K|] eqn:HK; [|done]. simpl in H. destruct (doing K) eqn:EK; [done..|]. by exists P, sd, pre, kid, out, msg, K, status. }
  destruct Hx as (P & sd & pre & kid & out & msg & K & st & Hp & E & HK & EK).
  destruct (report_spec _ _ _ _ _ _ _ _ _ _ _ I Hp E HK EK) as (i & b & k1 & Hm & _ & W1 & W2 & W3 & W4 & Hk). rewrite Hk in H. injection H as <-.
  assert (I1 : inv k1 cs).
  { assert (I2 : inv (if b then set_queue i false (queue k i false ++ [Header (exit_message st)]) k else k) cs).
    { destruct b; [|done]. apply inv_queue; [done|]. destruct (queue_of_ok k cs i I) as [_ Hq]. apply Forall_app. split; [done|]. by repeat constructor. }
    apply (inv_output _ _ (outputs k1) (pending k1)) in I2. destruct k1 as [pr qu ou np ns pd]. cbn in W1, W2, W3, W4, I2. subst. by destruct b. }
  exists P, sd, pre, kid, out, msg, i. split_and!; [done..|]. eapply (inv_report k1 cs p P sd pre kid out msg i K st); try done; by rewrite W1.
Qed.
Lemma sim_fd k cs p P m i pid ch : inv k cs → procs k !! p = Some P → doing P = Simulating m i pid ch →
  (2 < m → m ≠ i) ∧ ∀ fd e, has P fd e → 0 <= fd ∧ (e ≠ Terminal → 2 < fd).
Proof.
  intros I Hp E. destruct (i_procs _ _ I _ _ Hp) as [_ Hd]. rewrite E in Hd. destruct Hd as [F S]. split; [apply S|]. intros fd e H.
  pose proof (fo_range _ _ F _ _ H). split; [lia|]. intros He. destruct (decide (2 < fd)); [done|]. pose proof (so_std _ _ _ _ S fd ltac:(lia)). unfold has in *. congruence.
Qed.
Lemma inv_end k cs p P m i m' i' pid fd : inv k cs → procs k !! p = Some P → doing P = Simulating m i pid None → 2 < fd →
  (m' = -1 ∨ fd ≠ m) → (m' = m ∨ m' = -1) → (i' = i ∨ i' = -1) → inv (set_proc p (with_doing (Simulating m' i' pid None) (close fd P)) k) cs.
Proof.
  intros I Hp E Hfd Hne Hm Hi. destruct (sim_fd _ _ _ _ _ _ _ _ I Hp E) as [_ Hr].
  assert (Hh : ∀ f e, has (with_doing (Simulating m' i' pid None) (close fd P)) f e → has P f e) by (intros f e H; unfold has in H; cbn in H; by apply lookup_delete_Some in H as [_ H]).
  assert (Hn : ∀ e, ¬ has P (-1) e) by (intros e H; apply Hr in H; lia).
  apply inv_proc with P; try done.
  - eapply proc_close; [by apply I|done..].
  - intros n (m1 & i1 & pid1 & ch1 & [= <- <- <- <-] & H). exists m, i, pid, None. split; [done|].
    destruct H as [H%Hh|H%Hh]; [left; destruct Hm as [->| ->]|right; destruct Hi as [->| ->]]; first [done|by apply Hn in H].
  - intros Hw. unfold waiting in Hw. by rewrite E in Hw.
  - by intros ?.
Qed.
Lemma inv_done k cs p P pid : inv k cs → procs k !! p = Some P → doing P = Simulating (-1) (-1) pid None →
  inv (set_proc p (with_doing (Simulating (-1) (-1) (-1) None) P) k) cs.
Proof.
  intros I Hp E. destruct (sim_fd _ _ _ _ _ _ _ _ I Hp E) as [_ Hr].
  assert (Hn : ∀ e, ¬ has P (-1) e) by (intros e H; apply Hr in H; lia).
  apply inv_proc with P; try done.
  - destruct (i_procs _ _ I _ _ Hp) as [Hb Hd]. rewrite E in Hd. destruct Hd as [[F1 F2 F3] [S1 S0 S2 S4 S5 S3]]. split; [done|]. cbn. split; split; try done. intros _ n; split; apply Hn.
  - intros n (m1 & i1 & pid1 & ch1 & [= <- <- <- <-] & [H|H]); by apply Hn in H.
  - intros Hw. unfold waiting in Hw. by rewrite E in Hw.
  - by intros ?.
Qed.
Lemma step_inv k cs k' : inv k cs → step k k' → ∃ cs', inv k' cs'.
Proof.
  intros I H. destruct H as [p P m i name argv k' Hp E H|p k' H|p P m i pid c C st Hp E HC EC|p k' H|p k' H|p P xs b k' Hp Hr Hx H|p P n x q Hp Hr Hm Hq
    |p P fd t Hp Hr|p P m i pid n t u Hp E Hi Ho|p P m i pid n Hp E Hm Hq Hh|p P m i pid n Hp E Hi Ho Hh|p P pid Hp E|p P code Hp Hr].
  - by eapply inv_start.
  - by eapply inv_fork.
  - exists cs. assert (HwP : ¬ waiting P) by (intros Hw; unfold waiting in Hw; by rewrite E in Hw). eapply inv_proc; try done; [| |by intros ?].
    + eapply proc_child; [done|by apply I].
    + intros n (m1 & i1 & pid1 & ch1 & [= <- <- <- <-] & H). by exists m, i, pid, (Some c).
  - by eapply inv_serve.
  - destruct (inv_do_fork_wait _ _ _ _ I H) as (? & ? & ? & ? & ? & ? & ? & _ & _ & _ & ?). by eexists.
  - exists cs. by eapply inv_send.
  - exists cs. apply inv_queue; [done|]. destruct (queue_of_ok k cs n I) as [_ Hf]. rewrite Hq in Hf. by inversion Hf.
  - exists cs. by apply inv_write_output.
  - exists cs. by apply inv_output.
  - exists cs. destruct (sim_fd _ _ _ _ _ _ _ _ I Hp E) as [Hne Hr]. apply Hr in Hm as Hm'. eapply (inv_end _ _ _ _ m i (-1) i); auto. by apply Hm'.
  - exists cs. destruct (sim_fd _ _ _ _ _ _ _ _ I Hp E) as [Hne Hr]. apply Hr in Hi as Hi'. assert (2 < i) by (by apply Hi').
    eapply (inv_end _ _ _ _ m i m (-1)); auto. right. intros ->. by apply Hne.
  - exists cs. by eapply inv_done.
  - exists cs. apply inv_proc with P; try done; [|by intros n (? & ? & ? & ? & ? & _)|by apply running_waits|by intros ?]. split; [|done]. by destruct (i_procs _ _ I _ _ Hp).
Qed.

Lemma reach_inv p env k : rtc step (initial p env) k → ∃ cs, inv k cs.
Proof.
  intros H. assert (Hi : ∃ cs, inv (initial p env) cs) by (exists ∅; apply initial_inv). revert Hi.
  induction H as [|a b c Hab _ IH]; [done|]. intros [cs I]. apply IH. by eapply step_inv.
Qed.

Lemma rights_flight cs n q e : queue_ok cs n q → Rights e ∈ q → ∃ j, (e = PipeW j ∨ e = Sock j true) ∧ cs !! j = Some (Flight n).
Proof.
  induction 1 as [|x q [_ Hx] _ IH|x j q Hx Hj Hn _ IH]; [by intros ?%not_elem_of_nil| |].
  - intros [<-|?]%elem_of_cons; auto; done.
  - intros [<-|[[= ->]|[[= ->]|?]%elem_of_cons]%elem_of_cons]%elem_of_cons; [done|by eauto..|auto].
Qed.
(** Nothing but what has the far ends of a session keeps it open. *)
Lemma over_closed k cs i : inv k cs → cs !! i = Some Over → held k (Sock i true) = false ∧ held k (PipeW i) = false.
Proof.
  intros I Hi. assert (Hn : ∀ e, e = PipeW i ∨ e = Sock i true → held k e = false).
  { intros e He. destruct (held k e) eqn:Hh; [|done]. exfalso. apply held_spec in Hh as [(p & P & fd & Hp & Hfd)|(n & [] & Hq)].
    - destruct He as [->| ->]; [destruct (i_pipe _ _ I _ _ _ _ Hp Hfd) as (c & o & ? & _)|destruct (i_sock _ _ I _ _ _ _ Hp Hfd) as (c & o & ? & _)]; congruence.
    - destruct (queue_of_ok k cs n I) as [Hok _]. destruct (rights_flight _ _ _ _ Hok Hq) as (j & Hj & Hf). assert (j = i) as -> by naive_solver. congruence.
    - destruct (queue_of_ok k cs n I) as [_ Hok]. rewrite Forall_forall in Hok. by apply Hok in Hq as [_ Hq]. }
  split; apply Hn; auto.
Qed.

Lemma speaks_uses k s n : speaks k s n ↔ ∃ P, procs k !! s = Some P ∧ uses P n.
Proof. unfold speaks, uses, has. naive_solver. Qed.

(** The pairs of simulators and programs do not mix: a session has one simulator, whose two
    descriptors belong to it, and one program, whose messages and output go there; nothing
    else can read or write its messages. *)
Definition apart (k : system) : Prop :=
  (∀ s1 s2 n, speaks k s1 n → speaks k s2 n → s1 = s2) ∧ (∀ s n1 n2, speaks k s n1 → speaks k s n2 → n1 = n2) ∧
  (∀ p1 p2 n, serves k p1 n → serves k p2 n → p1 = p2) ∧
  (∀ p n, serves k p n → ∃ P, procs k !! p = Some P ∧ fds P !! STDOUT_FILENO = Some (PipeW n) ∧ fds P !! STDERR_FILENO = Some (PipeW n)) ∧
  (∀ p P fd n, procs k !! p = Some P → fds P !! fd = Some (Sock n true) → serves k p n ∨ ∃ c, waits k p c n) ∧
  (∀ p c n, waits k p c n → ∀ q, serves k q n → q = c).

Lemma inv_apart k cs : inv k cs → apart k.
Proof.
  intros I. assert (Hserve : ∀ p n, serves k p n → ∃ o, cs !! n = Some (Held p o)).
  { intros p n (P & sd & pre & kid & Hp & E & Hs). destruct (serving _ _ _ _ _ _ _ I Hp E) as (n' & Hs' & Ho). unfold has in Hs'. by assert (n' = n) as -> by congruence. }
  split_and!.
  - intros s1 s2 n (P1 & H1 & U1)%speaks_uses (P2 & H2 & U2)%speaks_uses. by eapply (i_near _ _ I s1 s2 P1 P2).
  - intros s n1 n2 (P & m & i & pid & ch & Hp & E & H1) (P' & m' & i' & pid' & ch' & Hp' & E' & H2). simplify_eq. rewrite E in E'. simplify_eq.
    destruct (i_procs _ _ I _ _ Hp) as [_ Hd]. rewrite E in Hd. destruct Hd as [_ S]. pose proof (so_one _ _ _ _ S). unfold has in *. destruct H1, H2; [congruence|auto|symmetry; auto|congruence].
  - intros p1 p2 n [o1 H1]%Hserve [o2 H2]%Hserve. congruence.
  - intros p n (P & sd & pre & kid & Hp & E & Hs). exists P. split; [done|]. destruct (i_procs _ _ I _ _ Hp) as [_ Hd]. rewrite E in Hd.
    destruct Hd as [_ [_ (n' & o & Hs' & H1 & H2 & _) _]]. unfold has in *. assert (n' = n) as -> by congruence. done.
  - intros p P fd n Hp Hfd. destruct (i_procs _ _ I _ _ Hp) as [_ Hd]. destruct (doing P) as [m i pid ch|sd pre kid|st] eqn:E.
    + destruct Hd as [_ S]. by apply (so_near _ _ _ _ S) in Hfd.
    + destruct Hd as [_ [_ (n' & o & Hs & _) Hk]]. destruct kid as [[[c out] msg]|].
      * destruct Hk as (i & Hm & _ & _ & _ & _ & _ & _ & _ & Hk). destruct (Hk _ _ _ Hs Hfd) as [[-> ->]| ->]; [left; by exists P, sd, pre, (Some (c, out, msg))|].
        right. exists c, P, sd, pre, out, msg. done.
      * destruct (Hk _ _ _ Hs Hfd) as [-> ->]. left. by exists P, sd, pre, None.
    + by rewrite Hd in Hfd.
  - intros p c n (P & sd & pre & out & msg & Hp & E & Hm) q [o Hq]%Hserve. destruct (i_procs _ _ I _ _ Hp) as [_ Hd]. rewrite E in Hd.
    destruct Hd as [_ [_ _ (i & Hm' & _ & Hi & _)]]. unfold has in Hm'. assert (i = n) as -> by congruence. congruence.
Qed.

Lemma fork_asks k cs s n k' : inv k cs → speaks k s n → split_simulator s k = Ret k' → ∃ c i q,
  procs k !! c = None ∧ speaks k' s n ∧ speaks k' c i ∧ (∀ p, ¬ serves k p i) ∧ queue k' n true = q ++ [Header fork_message; Rights (PipeW i); Rights (Sock i true)].
Proof.
  intros I (P & m & i & pid & ch & Hp & E & Hu) H. pose proof (i_procs _ _ I _ _ Hp) as Hok. destruct Hok as [Hb Hd]. assert (HS := Hd). rewrite E in HS. destruct HS as [F S].
  assert (Hpid : pid ≠ -1) by (intros ->; destruct (so_none _ _ _ _ S eq_refl n); unfold has in *; tauto).
  unfold fork_simulator, get in H. rewrite Hp in H. simpl in H. rewrite E in H. destruct ch as [?|]; [by destruct (new_pid _)|].
  destruct (new_pid _) as [c|] eqn:En; [|done]. apply new_pid_fresh in En as [Hc _]. apply not_elem_of_dom in Hc. assert (Hpc : s ≠ c) by congruence.
  set (X := with_doing _ P) in H. set (k0 := set_proc s X (set_proc c P k)) in H.
  assert (HokC : proc_ok cs (next_sock k) c P) by (split; [done|]; by rewrite E in *).
  destruct (fork_other_spec k cs c P m i pid k' I E Hpid HokC k0) as (P' & a & r & n0 & HN & E' & Hm & Ep & Eq & Eo & Enp & Ens); try done.
  { unfold k0. cbn. by rewrite lookup_insert_ne, lookup_insert_eq. }
  assert (n0 = n) as -> by (pose proof (so_one _ _ _ _ S) as Hone; unfold has in *; destruct Hu as [Hu|Hu]; [congruence|auto]).
  exists c, (next_sock k), (queue k n true). split_and!; [done|..].
  - exists X, m, i, pid, (Some c). rewrite Ep. unfold k0. cbn. rewrite lookup_insert_ne, lookup_insert_eq by done. done.
  - exists P', a, r, pid, None. rewrite Ep, lookup_insert_eq. split_and!; [done..|]. left. destruct HN as [_ _ Har Hf _]. by rewrite Hf, lookup_insert_ne, lookup_insert_eq.
  - intros p (Q & sd & pre & kid & HQ & EQ & Hsd). destruct (i_procs _ _ I _ _ HQ) as [_ Hd']. rewrite EQ in Hd'. destruct Hd' as [[_ F2 _] _].
    pose proof (F2 sd (Sock (next_sock k) true) (next_sock k) Hsd eq_refl). lia.
  - unfold queue at 1. by rewrite Eq, lookup_insert_eq.
Qed.

Lemma fork_served k cs p n x q k' : inv k cs → serves k p n → queue k n true = x :: q → is_fork x = true → serve_next p k = Ret (Some k') → ∃ c i q',
  q = Rights (PipeW i) :: Rights (Sock i true) :: q' ∧ procs k !! c = None ∧ serves k' c i ∧ serves k' p n ∧ waits k' p c i.
Proof.
  intros I (P & sd & pre & kid & Hp & E & Hsd) Eq Hx H. destruct (queue_of_ok k cs n I) as [Hq _]. rewrite Eq in Hq.
  inversion Hq as [|? ? [Hf _] _|? i q' _ Hi Hn Hq']; subst; [congruence|].
  unfold serve, get in H. rewrite Hp in H. simpl in H. rewrite E in H. destruct kid; [done|]. rewrite Hsd, Eq in H.
  destruct x as [m|b|e]; [|done..]. simpl in Hx. destruct (type m); [done|]. rewrite Hx in H. set (k1 := set_queue n true _ k) in H.
  assert (Hq1 : queue k1 n true = Rights (PipeW i) :: Rights (Sock i true) :: q') by (unfold k1; by rewrite queue_set_queue, decide_True).
  eapply do_fork_spec in H as (c & out & msg & Hk & Ho & Hm & Hom & Ro & Rm & ->); [|done..]. apply new_pid_fresh in Hk as [Hk _]. apply not_elem_of_dom in Hk.
  assert (Hpc : p ≠ c) by (unfold k1 in Hk; cbn in Hk; congruence). assert (Hs : sd ≠ out ∧ sd ≠ msg) by (split; congruence). destruct Hs as [So Sm].
  assert (Hstd : out ≠ 1 ∧ out ≠ 2 ∧ msg ≠ 1 ∧ msg ≠ 2).
  { destruct (i_procs _ _ I _ _ Hp) as [_ Hd]. rewrite E in Hd. destruct Hd as [[_ _ F3] _]. destruct (F3 1) as [? ?]; [lia|]. destruct (F3 2) as [? ?]; [lia|]. split_and!; congruence. }
  exists c, i, q'. cbv zeta. split_and!; [done|done|..].
  - eexists _, msg, pre, None. split_and!; [cbn; rewrite lookup_insert_ne, lookup_insert_eq by done; done|done|].
    unfold dup2. cbn. rewrite (lookup_insert_ne _ msg out), lookup_insert_eq by congruence. cbn. rewrite (lookup_insert_ne _ 1 out), (lookup_insert_ne _ msg out), lookup_insert_eq by (destruct Hstd; congruence). cbn.
    rewrite lookup_delete_ne, (lookup_insert_ne _ 2 msg), (lookup_insert_ne _ 1 msg), lookup_insert_eq by (destruct Hstd as (? & ? & ? & ?); congruence). done.
  - eexists _, sd, pre, _. split_and!; [cbn; by rewrite lookup_insert_eq|done|]. cbn. by rewrite !lookup_insert_ne.
  - eexists _, sd, pre, out, msg. split_and!; [cbn; by rewrite lookup_insert_eq|done|]. cbn. by rewrite lookup_insert_eq.
Qed.

Lemma fork_reported k cs p c n i C st : inv k cs → serves k p n → waits k p c i → procs k !! c = Some C → doing C = Exited st → ∃ k',
  do_fork_wait p k = Ret (Some k') ∧ serves k' p n ∧ (∃ P, procs k' !! p = Some P ∧ running P) ∧ held k' (Sock i true) = false ∧ held k' (PipeW i) = false ∧
  queue k' i false = queue k i false ++ (if held k (Sock i false) then [Header (exit_message st)] else []).
Proof.
  intros I (P1 & sd1 & pre1 & kid1 & Hp1 & E1 & Hs1) (P & sd & pre & out & msg & Hp & E & Hw) HC EC. assert (P1 = P) as -> by congruence. rewrite E in E1. injection E1 as <- <- <-.
  destruct (report_spec _ _ _ _ _ _ _ _ _ _ _ I Hp E HC EC) as (i' & b & k1 & Hm & Hb & W1 & W2 & W3 & W4 & Hk).
  assert (i' = i) as -> by (unfold has in *; congruence). eexists. split; [exact Hk|].
  destruct (inv_do_fork_wait _ _ _ _ I Hk) as (P2 & sd2 & pre2 & kid2 & out2 & msg2 & i2 & Hp2 & E2 & Hm2 & I2).
  assert (P2 = P) as -> by congruence. rewrite E in E2. injection E2 as <- <- <- <- <-. assert (i2 = i) as -> by (unfold has in *; congruence).
  destruct (over_closed _ _ i I2) as [O1 O2]; [by rewrite lookup_insert_eq|].
  destruct (i_procs _ _ I _ _ Hp) as [_ Hd]. rewrite E in Hd. destruct Hd as [_ [_ _ (j & _ & _ & _ & _ & _ & _ & Hms & Hos & _)]].
  split_and!; try done.
  - eexists _, sd, pre, None. split_and!; [cbn; by rewrite lookup_insert_eq|done|]. cbn. by rewrite !lookup_delete_ne.
  - eexists. split; [cbn; by rewrite lookup_insert_eq|done].
  - unfold queue. cbn. rewrite W4, Hb. destruct (held k (Sock i false)); [by rewrite lookup_insert_eq|by rewrite app_nil_r].
Qed.

(** C8: however simulators and programs are started, forked, scheduled and ended, every
    simulator talks to a program of its own.  A simulator that forks leaves its session to
    itself: the child gets a new one, and the request and the far ends are on their way to
    the program.  The program that takes the request has a fork that serves the new
    session, while it keeps its own and waits.  When that fork has exited, its status is the
    last message of its session, provided someone can still read it; the session is closed,
    so that its simulator sees the end of messages and output, and the program goes on. *)
Theorem forked_programs_apart p0 env k : rtc step (initial p0 env) k →
  apart k ∧
  (∀ s n k', speaks k s n → split_simulator s k = Ret k' → ∃ c i q,
    procs k !! c = None ∧ speaks k' s n ∧ speaks k' c i ∧ (∀ p, ¬ serves k p i) ∧
    queue k' n true = q ++ [Header fork_message; Rights (PipeW i); Rights (Sock i true)]) ∧
  (∀ p n x q k', serves k p n → queue k n true = x :: q → is_fork x = true → serve_next p k = Ret (Some k') → ∃ c i q',
    q = Rights (PipeW i) :: Rights (Sock i true) :: q' ∧ procs k !! c = None ∧ serves k' c i ∧ serves k' p n ∧ waits k' p c i) ∧
  (∀ p c n i C st, serves k p n → waits k p c i → procs k !! c = Some C → doing C = Exited st → ∃ k',
    do_fork_wait p k = Ret (Some k') ∧ serves k' p n ∧ (∃ P, procs k' !! p = Some P ∧ running P) ∧ held k' (Sock i true) = false ∧ held k' (PipeW i) = false ∧
    queue k' i false = queue k i false ++ (if held k (Sock i false) then [Header (exit_message st)] else [])).
Proof.
  intros [cs I]%reach_inv. split_and!.
  - by eapply inv_apart.
  - intros s n k' Hs H. by eapply fork_asks.
  - intros p n x q k' Hs Hq Hx H. by eapply fork_served.
  - intros p c n i C st Hs Hw HC EC. by eapply fork_reported.
Qed.
End Steps.

(** A small system: ids from 1, 16 descriptors, everything is found. *)
Definition small_pid (X : gset Z) : option Z := List.find (λ i, bool_decide (i ∉ X)) (seqZ 1 8).
Lemma small_pid_fresh X p : small_pid X = Some p → p ∉ X ∧ 0 < p.
Proof.
  unfold small_pid. intros H. apply List.find_some in H as [H1 H2]. apply bool_decide_eq_true in H2. split; [done|].
  apply list_elem_of_In, elem_of_seqZ in H1. lia.
Qed.
(** iptables is started as 2, the simulator forks into 3, the program into 4, which exits. *)
Definition small_run : outcome system :=
  k ← start_program 16 small_pid (λ _ _, true) true (λ _, true) 1 (tx "iptables") [tx "iptables"] (initial 1 ∅);
  k ← fork_simulator 16 small_pid 1 k;
  o ← serve 16 small_pid 2 k; k ← of_option "waits" o;
  P ← get 4 k; match doing P with Serving _ _ None => mret (set_proc 4 (exit 0 P) k) | _ => Fault "not running" end.
Definition small_end (k : system) : bool :=
  match procs k !! 2, procs k !! 4 with
  | Some P, Some C =>
      match doing P, doing C with
      | Serving sd _ (Some (c, _, msg)), Exited 0 =>
          (c =? 4) && bool_decide (fds P !! msg = Some (Sock 1 true)) && bool_decide (fds P !! sd = Some (Sock 0 true)) &&
          held k (Sock 1 false) && bool_decide (queue k 1 false = [])
      | _, _ => false
      end
  | _, _ => false
  end.
Lemma small_reach k : small_run = Ret k → rtc (step 16 small_pid (λ _ _, true) true (λ _, true)) (initial 1 ∅) k.
Proof.
  unfold small_run. intros H. inv_bind. subst x1. unfold get in *. inv_bind.
  destruct (doing x3) as [|? ? []|] eqn:E; simplify_eq. injection H as <-.
  eapply rtc_l; [eapply (step_start _ _ _ _ _ _ 1); [reflexivity|reflexivity|eassumption]|].
  eapply rtc_l; [eapply (step_fork _ _ _ _ _ _ 1); eassumption|]. eapply rtc_l; [eapply (step_serve _ _ _ _ _ _ 2); eassumption|].
  apply rtc_once. eapply (step_exit _ _ _ _ _ _ 4 _ 0); [eassumption|]. unfold running. by rewrite E.
Qed.
Lemma small_runs : match small_run with Ret k => small_end k | _ => false end = true.
Proof. vm_compute. reflexivity. Qed.

Lemma small_end_spec k : small_end k = true → waits k 2 4 1 ∧ serves k 2 0 ∧ (∃ C, procs k !! 4 = Some C ∧ doing C = Exited 0) ∧
  held k (Sock 1 false) = true ∧ queue k 1 false = [].
Proof.
  intros H. unfold small_end in H. destruct (procs k !! 2) as [P|] eqn:HP; [|done]. destruct (procs k !! 4) as [C|] eqn:HC; [|done].
  destruct (doing P) as [|sd pre [[[c out] msg]|]|] eqn:EP; try done. destruct (doing C) as [| |[| |]] eqn:EC; try done.
  rewrite !andb_true_iff, !bool_decide_eq_true, Z.eqb_eq in H. destruct H as [[[[-> Hm] Hs] Hh] Hq].
  split_and!; [by exists P, sd, pre, out, msg|by exists P, sd, pre, (Some (4, out, msg))|by exists C|done|done].
Qed.

Lemma forked_programs_apart_witness : ∃ k k', small_run = Ret k ∧ apart k ∧ waits k 2 4 1 ∧ do_fork_wait 2 k = Ret (Some k') ∧ serves k' 2 0 ∧
  held k' (Sock 1 true) = false ∧ held k' (PipeW 1) = false ∧ queue k' 1 false = [Header (exit_message 0)].
Proof.
  pose proof small_runs as H. destruct small_run as [k| |] eqn:Hk; [|discriminate H..].
  destruct (small_end_spec k H) as (Hw & Hs & (C & HC & EC) & Hh & Hq).
  destruct (forked_programs_apart 16 small_pid (λ _ _, true) true (λ _, true) small_pid_fresh ltac:(lia) 1 ∅ k (small_reach k Hk)) as (A & _ & _ & R).
  destruct (R _ _ _ _ _ _ Hs Hw HC EC) as (k' & Hk' & Hs2 & _ & O1 & O2 & Hq'). rewrite Hq, Hh in Hq'. exists k, k'. auto 10.
Defined.

(** A write after the program is gone is remembered: taking the block of SIGPIPE away at the
    end of the run kills the simulator before modules are unloaded and allocations checked. *)
Lemma cleanup_kills k p P fd n xs : procs k !! p = Some P → fds P !! fd = Some (Sock n false) → blocked P = true → held k (Sock n true) = false →
  ∃ k1 k2 Q, write_socket p fd xs k = Ret (false, k1) ∧ procs k1 = procs k ∧ message_cleanup p k1 = Ret k2 ∧ procs k2 !! p = Some Q ∧ doing Q = Exited SIGPIPE.
Proof.
  intros Hp Hfd Hb Hh. unfold write_socket, get. rewrite Hp. simpl. rewrite Hfd. simpl. rewrite Hh, Hb. do 3 eexists. split_and!; [done|done|..].
  - unfold message_cleanup, get. simpl. rewrite Hp. simpl. rewrite decide_True by set_solver. done.
  - cbn. by rewrite lookup_insert_eq.
  - done.
Qed.
