(* ===== verification/Log.v ===== *)
(** * core/log.c: the log

    Every line goes to the log stream when its type is selected and always to the
    expectations.  printk builds lines from pieces in a fixed buffer.

    [Logger] is what the other components use of this one; their theorems are
    stated for any state with such an operation. *)

From Stdlib Require Import ZArith Lia.
From S2P Require Import Prelude CStr Mem Expect.

Definition LOG_ALWAYS : Z := 0x00.
Definition LOG_KERNEL : Z := 0x01.
Definition LOG_UI : Z := 0x02.
Definition LOG_ROUTE : Z := 0x04.
Definition LOG_PROTOCOL : Z := 0x08.
Definition LOG_PACKET : Z := 0x10.
Definition LOG_USERSPACE : Z := 0x20.
Definition LOG_HOOK : Z := 0x40.

Definition log_names : list (Z * text) :=
  [(LOG_KERNEL, tx "kernel"); (LOG_UI, tx "ui"); (LOG_ROUTE, tx "route"); (LOG_PROTOCOL, tx "protocol");
   (LOG_USERSPACE, tx "userspace"); (LOG_PACKET, tx "packet"); (LOG_HOOK, tx "hook")].

Record log_state := LogState {
  typemask : Z;
  describe_packets : bool;
  logstream : list text;
  log_expects : expect_state;
}.

(** A component that logs: whether the line was expected. *)
Class Logger (S : Type) := nfsim_log : Z → text → S → outcome (bool * S).

#[export] Instance log_nfsim_log : Logger log_state := λ type line s,
  let out := if (type =? 0) || negb (Z.land type (typemask s) =? 0) then logstream s ++ [line] else logstream s in
  '(ret, e) ← expect_log_hook line (log_expects s);
  mret (ret, LogState (typemask s) (describe_packets s) out e).

(** The levels of printk are prefixes of its text. *)
Definition KERN_EMERG : text := tx "EMERG:".
Definition KERN_ALERT : text := tx "ALERT:".
Definition KERN_CRIT : text := tx "CRIT:".
Definition KERN_ERR : text := tx "ERR;".
Definition KERN_WARNING : text := tx "WARN:".
Definition KERN_NOTICE : text := tx "NOTICE:".
Definition KERN_INFO : text := tx "INFO:".
Definition KERN_DEBUG : text := tx "DEBUG:".
(** Only an error has no colon behind its name. *)
Lemma kern_err_semicolon : filter (λ l, last l ≠ Some ":"%char)
  [KERN_EMERG; KERN_ALERT; KERN_CRIT; KERN_ERR; KERN_WARNING; KERN_NOTICE; KERN_INFO; KERN_DEBUG] = [KERN_ERR].
Proof. by vm_compute. Qed.

Section Partial.
Context {S : Type} `{Logger S}.

(** Print each piece that ends in a newline; the loop returns the rest. *)
Fixpoint flush_lines (fuel : nat) (type : Z) (ptr : text) (s : S) : outcome (text * S) :=
  let len := strcspn ptr [chr 10] in
  if (len <? length ptr)%nat then
    match fuel with
    | O => Fault "flush_lines: out of fuel"
    | Datatypes.S fuel =>
        '(_, s) ← nfsim_log type (take len ptr) s;
        flush_lines fuel type (drop (len + 1) ptr) s
    end
  else mret (ptr, s).

(** [buf] is the string in the buffer; [msg] the formatted text.  vsnprintf keeps
    what fits and returns the length that would have been needed. *)
Definition nfsim_log_partial (type : Z) (buf : text) (bufsize : Z) (msg : text) (s : S) : outcome (text * S) :=
  let size := bufsize - zlen buf - 1 in
  let buf := buf ++ ztake (size - 1) msg in
  '(_, s) ← (if size <? zlen msg then nfsim_log LOG_ALWAYS (tx "nfsim_log_partial buffer is full!") s else mret (false, s));
  flush_lines (length buf) type buf s.

Definition PRINTK_BUFSIZ : Z := 4096.
Definition printk (printk_buf : text) (msg : text) (s : S) : outcome (text * S) :=
  nfsim_log_partial LOG_KERNEL printk_buf PRINTK_BUFSIZ msg s.

Fixpoint printks (printk_buf : text) (msgs : list text) (s : S) : outcome (text * S) :=
  match msgs with
  | [] => mret (printk_buf, s)
  | m :: msgs => '(buf, s) ← printk printk_buf m s; printks buf msgs s
  end.
End Partial.

(** ** The log command *)

Fixpoint parsetype_in (names : list (Z * text)) (type : text) : Z :=
  match names with [] => 0 | (v, n) :: names => if streq n type then v else parsetype_in names type end.
Definition parsetype (type : text) : Z := parsetype_in log_names type.

Definition strcasecmp_eq (a b : text) : bool := bool_decide (tolower <$> a = tolower <$> b).

Definition set_mask (m : Z) (s : log_state) : log_state := LogState m (describe_packets s) (logstream s) (log_expects s).
Definition set_describe (d : bool) (s : log_state) : log_state := LogState (typemask s) d (logstream s) (log_expects s).

(** The types named on the command line, or the first name that is none. *)
Fixpoint parse_types (args : list text) (m : Z) : Z + text :=
  match args with
  | [] => inl m
  | a :: args => if parsetype a =? 0 then inr a else parse_types args (Z.lor m (parsetype a))
  end.

Fixpoint log_each (type : Z) (lines : list text) (s : log_state) : outcome log_state :=
  match lines with
  | [] => mret s
  | l :: lines => '(_, s) ← nfsim_log type l s; log_each type lines s
  end.

Definition log_then (type : Z) (line : text) (r : bool) (s : log_state) : outcome (bool * log_state) :=
  '(_, s) ← nfsim_log type line s; mret (r, s).

(** The [types] forms: a name that starts with t, or a modifier and the name. *)
Definition log_types (a1 : text) (args : list text) (s : log_state) : outcome (bool * log_state) :=
  match parse_types args 0 with
  | inr a => log_then LOG_ALWAYS (tx "no such type " ++ a) false s
  | inl m =>
      let c := hd0 a1 in
      if ascii_eqb c "t" || ascii_eqb c "=" then mret (true, set_mask m s)
      else if ascii_eqb c "-" then mret (true, set_mask (Z.land (typemask s) (Z.lnot m)) s)
      else if ascii_eqb c "+" then mret (true, set_mask (Z.lor (typemask s) m) s)
      else log_then LOG_ALWAYS (tx "unknown modifer: " ++ [c]) false s
  end.

Definition log_admin (argv : list text) (s : log_state) : outcome (bool * log_state) :=
  match argv with
  | [] => Fault "log_admin: argc is 0"
  | [_] =>
      s ← log_each LOG_ALWAYS (tx "current log types:" ::
        map (λ p : Z * text, chr 9 :: p.2) (filter (λ p, Z.land (typemask s) p.1 ≠ 0) log_names)) s;
      mret (true, s)
  | _ :: a1 :: args =>
      if (length args <=? 1)%nat && strcasecmp_eq a1 (tx "describe_packets") then
        let s := match args with
                 | a2 :: _ => set_describe (strcasecmp_eq a2 (tx "on") || strcasecmp_eq a2 (tx "true")) s
                 | [] => s
                 end in
        log_then (match args with [] => LOG_ALWAYS | _ => LOG_UI end)
          (tx "packet descriptions are " ++ (if describe_packets s then tx "on" else tx "off")) false s
      else if bool_decide (a1 = []) then Fault "log_admin: argv[1]+1 of an empty argument"
      else if streq (if ascii_eqb (hd0 a1) "t" then a1 else drop 1 a1) (tx "types") then log_types a1 args s
      else log_then LOG_ALWAYS (tx "meep") true s
  end.

(** ** What printk prints *)

(** The newline-terminated lines of a text, and the rest. *)
Fixpoint split_lines (t : text) (cur : text) : list text * text :=
  match t with
  | [] => ([], cur)
  | c :: t => if ascii_eqb c (chr 10) then let '(ls, r) := split_lines t [] in (cur :: ls, r)
              else split_lines t (cur ++ [c])
  end.

Fixpoint log_all {S : Type} `{Logger S} (type : Z) (lines : list text) (s : S) : outcome S :=
  match lines with
  | [] => mret s
  | l :: lines => '(_, s) ← nfsim_log type l s; log_all type lines s
  end.

(** Each piece fits behind what is left of the line before it. *)
Fixpoint pieces_fit (rest : text) (msgs : list text) : Prop :=
  match msgs with
  | [] => True
  | m :: msgs => zlen rest + zlen m <= PRINTK_BUFSIZ - 2 ∧ pieces_fit (split_lines m rest).2 msgs
  end.

Definition no_newline (t : text) : Prop := chr 10 ∉ t.

Lemma split_lines_plain t cur : no_newline t → split_lines t cur = ([], cur ++ t).
Proof.
  unfold no_newline. revert cur. induction t as [|c t IH]; intros cur Ht; simpl; [by rewrite app_nil_r|].
  apply not_elem_of_cons in Ht as [Hc Ht]. unfold ascii_eqb. rewrite bool_decide_eq_false_2 by congruence.
  rewrite IH by done. by rewrite <-app_assoc.
Qed.

Lemma split_lines_line t cur l : no_newline l →
  split_lines (l ++ chr 10 :: t) cur = let '(ls, r) := split_lines t [] in ((cur ++ l) :: ls, r).
Proof.
  unfold no_newline. revert cur. induction l as [|c l IH]; intros cur Hl; cbn [split_lines app].
  - unfold ascii_eqb. rewrite bool_decide_eq_true_2 by done. by rewrite app_nil_r.
  - apply not_elem_of_cons in Hl as [Hc Hl]. unfold ascii_eqb. rewrite bool_decide_eq_false_2 by congruence.
    rewrite IH by done. by rewrite <-app_assoc.
Qed.

Lemma split_lines_app a b cur : split_lines (a ++ b) cur =
  let '(l1, r1) := split_lines a cur in let '(l2, r2) := split_lines b r1 in (l1 ++ l2, r2).
Proof.
  revert cur. induction a as [|c a IH]; intros cur; simpl; [by destruct (split_lines b cur)|].
  destruct (ascii_eqb c (chr 10)); rewrite IH.
  - destruct (split_lines a []) as [l1 r1]. by destruct (split_lines b r1).
  - done.
Qed.

Lemma split_lines_rest t : ∀ cur, no_newline cur → no_newline (split_lines t cur).2.
Proof.
  unfold no_newline. induction t as [|c t IH]; intros cur Hc; simpl; [done|].
  destruct (ascii_eqb c (chr 10)) eqn:E.
  - specialize (IH [] ltac:(set_solver)). by destruct (split_lines t []).
  - apply IH. apply bool_decide_eq_false in E. set_solver.
Qed.

Lemma strcspn_newline t : (strcspn t [chr 10] < length t)%nat →
  ∃ l r, t = l ++ chr 10 :: r ∧ no_newline l ∧ strcspn t [chr 10] = length l.
Proof.
  induction t as [|c t IH]; simpl; [lia|]. unfold mem. case_bool_decide as Hc; intros Hlt.
  - apply list_elem_of_singleton in Hc as ->. exists [], t. unfold no_newline. set_solver.
  - destruct IH as (l & r & -> & Hl & E); [lia|]. exists (c :: l), r. unfold no_newline in *. rewrite E. set_solver.
Qed.

Lemma strcspn_no_newline t : (length t <= strcspn t [chr 10])%nat → no_newline t.
Proof.
  unfold no_newline. induction t as [|c t IH]; simpl; [set_solver|]. unfold mem. case_bool_decide as Hc; [lia|].
  intros Hle. rewrite not_elem_of_cons. split; [set_solver|apply IH; lia].
Qed.

Section PrintkSpec.
Context {S : Type} `{Logger S}.

Lemma flush_lines_spec type t : ∀ fuel s, (length t <= fuel)%nat →
  flush_lines fuel type t s =
    (s ← log_all type (split_lines t []).1 s; mret ((split_lines t []).2, s)).
Proof.
  intros fuel. revert t. induction fuel as [|fuel IH]; intros t s Hf; cbn [flush_lines].
  - destruct t; [|simpl in Hf; lia]. done.
  - destruct (Nat.ltb_spec (strcspn t [chr 10]) (length t)) as [Hlt|Hge].
    + destruct (strcspn_newline t Hlt) as (l & r & -> & Hl & ->). rewrite split_lines_line by done.
      rewrite take_app_length, drop_app_add. change (drop 1 (chr 10 :: r)) with r.
      destruct (split_lines r []) as [ls r'] eqn:E. cbn [fst snd log_all app].
      destruct (nfsim_log type l s) as [[b s']| |]; [|done|done]. rewrite !bind_ret.
      rewrite IH by (rewrite length_app in Hf; simpl in Hf; lia). by rewrite E.
    + rewrite split_lines_plain by (by apply strcspn_no_newline). done.
Qed.

Lemma partial_spec type buf m s : no_newline buf → zlen buf + zlen m <= PRINTK_BUFSIZ - 2 →
  nfsim_log_partial type buf PRINTK_BUFSIZ m s =
    (s ← log_all type (split_lines m buf).1 s; mret ((split_lines m buf).2, s)).
Proof.
  intros Hb Hfit. unfold nfsim_log_partial. unfold PRINTK_BUFSIZ in *. cbv zeta.
  rewrite (proj2 (Z.ltb_ge _ _)) by (pose proof (zlen_nonneg m); lia). rewrite bind_ret. rewrite ztake_all by lia.
  rewrite flush_lines_spec by done. rewrite split_lines_app, split_lines_plain by done.
  cbn [app]. by destruct (split_lines m buf).
Qed.
Lemma printk_spec buf m s : no_newline buf → zlen buf + zlen m <= PRINTK_BUFSIZ - 2 →
  printk buf m s =
    (s ← log_all LOG_KERNEL (split_lines m buf).1 s; mret ((split_lines m buf).2, s)).
Proof. apply partial_spec. Qed.

Lemma log_all_app type l1 l2 s : log_all type (l1 ++ l2) s = (s ← log_all type l1 s; log_all type l2 s).
Proof.
  revert s. induction l1 as [|l l1 IH]; intros s; [done|]. cbn [app log_all].
  destruct (nfsim_log type l s) as [[b s']| |]; [|done|done]. rewrite !bind_ret. apply IH.
Qed.

(** however a kernel message is cut into printk calls, as long as a piece fits
    in the buffer behind the unfinished line, exactly the newline-terminated lines of
    the whole text are logged, in order and once each, and the buffer holds the
    unfinished rest. *)
Theorem printk_chunking (msgs : list text) (buf : text) (s : S) :
  no_newline buf → pieces_fit buf msgs →
  printks buf msgs s =
    (s ← log_all LOG_KERNEL (split_lines (concat msgs) buf).1 s; mret ((split_lines (concat msgs) buf).2, s)).
Proof.
  revert buf s. induction msgs as [|m msgs IH]; intros buf s Hb Hfit; [done|]. destruct Hfit as [Hm Hfit].
  cbn [printks concat]. rewrite printk_spec by done. rewrite split_lines_app.
  pose proof (split_lines_rest m buf Hb) as Hr. destruct (split_lines m buf) as [l1 r1]. cbn [fst snd] in *.
  specialize (IH r1). destruct (split_lines (concat msgs) r1) as [l2 r2]. cbn [fst snd] in *. rewrite log_all_app.
  destruct (log_all LOG_KERNEL l1 s) as [s1| |]; [|done|done]. rewrite !bind_ret. by apply IH.
Qed.
End PrintkSpec.

Definition log0 : log_state := LogState (-1) true [] (ExpectState [] []).

Lemma printk_chunking_witness :
  printks [] [tx "ip_ct"; tx ": one" ++ [chr 10] ++ tx "tw"; tx "o" ++ [chr 10; "x"%char]] log0 =
    Ret (tx "x", LogState (-1) true [tx "ip_ct: one"; tx "two"] (ExpectState [] [])).
Proof.
  rewrite (printk_chunking [tx "ip_ct"; tx ": one" ++ [chr 10] ++ tx "tw"; tx "o" ++ [chr 10; "x"%char]] [] log0).
  - reflexivity.
  - unfold no_newline. set_solver.
  - vm_compute. split_and!; try congruence; exact I.
Defined.

(** The command's settings. *)
Lemma log_types_spec (mods : text) (names : list text) (m : Z) (s : log_state) :
  parse_types names 0 = inl m → mods ∈ [tx ""; tx "="; tx "+"; tx "-"] →
  ∃ m', log_admin (tx "log" :: (mods ++ tx "types") :: names) s = Ret (true, set_mask m' s) ∧
    ∀ v, 0 <= v → Z.testbit m' v =
      (if streq mods (tx "+") then Z.testbit (typemask s) v || Z.testbit m v
       else if streq mods (tx "-") then Z.testbit (typemask s) v && negb (Z.testbit m v)
       else Z.testbit m v).
Proof.
  intros Hm Hin. rewrite !elem_of_cons in Hin.
  assert (Hd : ∀ w, (length names <=? 1)%nat && strcasecmp_eq (mods ++ tx "types") w = true → w ≠ tx "describe_packets").
  { intros w Hw ->. apply andb_true_iff in Hw as [_ Hw].
    destruct Hin as [->|[->|[->|[->|Hin]]]]; [by vm_compute in Hw..|set_solver]. }
  unfold log_admin. destruct (_ && _) eqn:E; [by apply Hd in E|].
  destruct Hin as [->|[->|[->|[->|Hin]]]]; [..|set_solver]; cbn [app]; unfold log_types; rewrite Hm; simpl;
    eexists; (split; [reflexivity|]); intros v Hv; simpl.
  - done.
  - done.
  - apply Z.lor_spec.
  - by rewrite Z.land_spec, Z.lnot_spec.
Qed.

(** A line that fills the buffer is never completed: the newline does not fit
    either, and the same holds for everything after it. *)
Lemma printk_buffer_stuck (line m : text) (s : log_state) :
  zlen line = PRINTK_BUFSIZ - 2 → no_newline line → 1 < zlen m →
  printk line m s =
    ('(_, s) ← nfsim_log LOG_ALWAYS (tx "nfsim_log_partial buffer is full!") s; mret (line, s)).
Proof.
  intros Hl Hn Hm. unfold printk, nfsim_log_partial. rewrite Hl. unfold PRINTK_BUFSIZ.
  cbv zeta. rewrite ztake_0, app_nil_r by lia. rewrite (proj2 (Z.ltb_lt _ _)) by lia.
  destruct (nfsim_log LOG_ALWAYS _ s) as [[b s1]| |]; [|done|done]. rewrite !bind_ret.
  rewrite flush_lines_spec by done. rewrite split_lines_plain by done. done.
Qed.

(** A piece one byte too long loses its last byte, here the newline, without the
    message. *)
Lemma printk_drops_last (line : text) (s : log_state) :
  zlen line = PRINTK_BUFSIZ - 2 → no_newline line →
  printk [] (line ++ [chr 10]) s = Ret (line, s).
Proof.
  intros Hl Hn. unfold printk, nfsim_log_partial. unfold PRINTK_BUFSIZ in *. cbv zeta. cbn [app].
  change (zlen (@nil ascii)) with 0. rewrite zlen_app, Hl. rewrite (proj2 (Z.ltb_ge _ _)) by (vm_compute; discriminate).
  rewrite bind_ret. rewrite ztake_app_le, ztake_all by lia. rewrite flush_lines_spec by done.
  rewrite split_lines_plain by done. done.
Qed.

(** Setting or asking for packet descriptions works and reports failure. *)
Lemma describe_packets_fails :
  match log_admin [tx "log"; tx "describe_packets"; tx "off"] log0 with
  | Ret (r, s) => r = false ∧ describe_packets s = false
  | _ => False
  end.
Proof. by vm_compute. Qed.
