(* ===== verification/Main.v ===== *)
(** * core/core.c: the command line and the course of a run

    The options are collected from all files by the linker; getopt_long reads them by the
    table and the string made here, and the code it returns is looked up again.  Then come
    the paths, the start-up functions, the script and the end of the run.  getopt_long, the
    environment and the functions that are called are parameters. *)

From Stdlib Require Import ZArith Lia.
From S2P Require Import Prelude CStr Mem Log Csum Endian KernLib Route.

(** ** Options *)

(** struct cmdline_option: its struct option and the function, by a number. *)
Record cmdline_option := CmdlineOption { name : text; has_arg : Z; val : Z; parse : Z }.
(** struct option as getopt_long gets it; the flag is a null pointer. *)
Record long_option := LongOption { l_name : text; l_has_arg : Z; l_val : Z }.

Definition zero_char : Z := 48.
(** [None]: no such option.  There is no test that the index is one of the table's. *)
Definition get_cmdline_option (opts : list cmdline_option) (opt : Z) : outcome (option cmdline_option) :=
  if opt <? zero_char then
    if opt <? 0 then Fault "get_cmdline_option: before the table" else
    o ← of_option "get_cmdline_option: behind the table" (opts !! Z.to_nat opt); mret (Some o)
  else mret (List.find (λ o, val o =? opt) opts).

Definition conflict (o : cmdline_option) (p : long_option) : bool :=
  (negb (val o =? 0) && (val o =? l_val p)) || streq (name o) (l_name p).
(** [x] options are done; their copies are in [opts]. *)
Fixpoint options_loop (copts : list cmdline_option) (x : Z) (opts : list long_option) : outcome (list long_option) :=
  match copts with
  | [] => mret opts
  | o :: copts =>
      if 2 <? has_arg o then Barf "Bad argument" else
      if existsb (conflict o) opts then Barf "Conflicting arguments" else
      options_loop copts (x + 1) (opts ++ [LongOption (name o) (has_arg o) x])
  end.
Definition get_cmdline_options (copts : list cmdline_option) : outcome (list long_option) := options_loop copts 0 [].

(** snprintf is told there are 4 bytes in tmpstr, which has 3. *)
Definition TMPSTR : Z := 3.
Definition short_text (o : cmdline_option) : outcome text :=
  let t := chr (val o) :: drop (2 - Z.to_nat (has_arg o)) (tx "::") in
  if zlen t <? TMPSTR then mret t else Fault "get_cmdline_optstr: write past tmpstr".
Fixpoint optstr_loop (copts : list cmdline_option) (room : Z) (optstr : text) : outcome text :=
  match copts with
  | [] => mret optstr
  | o :: copts =>
      if val o =? 0 then optstr_loop copts room optstr else
      t ← short_text o;
      if zlen optstr + zlen t <? room then optstr_loop copts room (optstr ++ t) else Fault "get_cmdline_optstr: write past optstr"
  end.
Definition get_cmdline_optstr (copts : list cmdline_option) : outcome text := optstr_loop copts (3 * zlen copts + 1) [].

(** What the options of this file set. *)
Record settings := Settings { tui_echo_commands : bool; tui_quiet : bool; tui_abort_on_fail : bool; load_modules : bool }.
Definition cmdline_echo (s : settings) : settings := Settings true (tui_quiet s) (tui_abort_on_fail s) (load_modules s).
Definition cmdline_quiet (s : settings) : settings := Settings (tui_echo_commands s) true (tui_abort_on_fail s) (load_modules s).
Definition cmdline_abort_on_fail (s : settings) : settings := Settings (tui_echo_commands s) (tui_quiet s) true (load_modules s).
Definition cmdline_no_modules (s : settings) : settings := Settings (tui_echo_commands s) (tui_quiet s) (tui_abort_on_fail s) false.

(** The loop over what getopt_long returns: each code runs an option's function. *)
Fixpoint parse_codes {S} (run : cmdline_option → S → outcome S) (copts : list cmdline_option) (codes : list Z) (s : S) : outcome S :=
  match codes with
  | [] => mret s
  | c :: codes =>
      o ← get_cmdline_option copts c;
      match o with None => Barf "Unknown argument" | Some o => s ← run o s; parse_codes run copts codes s end
  end.

(** ** Paths *)

Definition strrchr (s : text) (c : ascii) : option nat :=
  match strchr (rev s) c with Some i => Some (length s - 1 - i)%nat | None => None end.
Record paths := Paths { ld_library_path : text; module_path : text; extension_path : text }.
(** The environment: a null pointer is printed with %s only for PATH. *)
Definition set_paths (BINDIR LIBDIR argv0 : text) (oldpath path modpath extpath : option text) : paths :=
  let old := default [] oldpath ++ match oldpath with Some _ => tx ":" | None => [] end in
  let path := default (tx "(null)") path in
  let p :=
    match strrchr argv0 "/" with
    | Some i => if strstarts argv0 BINDIR then Paths (old ++ LIBDIR) (LIBDIR ++ tx "/nfsim") (tx ".:" ++ LIBDIR ++ tx "/extensions:" ++ path)
                else let d := take i argv0 in Paths (old ++ d) (d ++ tx "/netfilter/ipv4") (tx ".:" ++ d ++ tx "/tools/extensions:" ++ path)
    | None => Paths (old ++ LIBDIR) (LIBDIR ++ tx "/nfsim") (tx ".:" ++ LIBDIR ++ tx "/extensions:" ++ path)
    end in
  Paths (ld_library_path p) (default (module_path p) modpath) (default (extension_path p) extpath).

(** ** Start and end *)

Section Run.
Context {S : Type}.
Fixpoint run_inits (inits : list (S → outcome S)) (s : S) : outcome S :=
  match inits with [] => mret s | f :: inits => s ← f s; run_inits inits s end.
(** Failures are only logged. *)
Fixpoint initialize_builtin_modules (log_failed : Z → S → outcome S) (inits : list (S → outcome (Z * S))) (s : S) : outcome S :=
  match inits with
  | [] => mret s
  | f :: inits => '(ret, s) ← f s; s ← (if ret =? 0 then mret s else log_failed ret s); initialize_builtin_modules log_failed inits s
  end.
Definition remove_builtin_modules (exits : list (S → outcome S)) (s : S) : outcome S := run_inits (rev exits) s.
(** [blocks]: talloc_total_blocks of everything. *)
Definition check_allocations (proc_cleanup : S → outcome S) (blocks : S → Z) (initial_blocks : Z) (s : S) : outcome S :=
  s ← proc_cleanup s; if negb (blocks s =? initial_blocks) then Barf "Resource leak" else mret s.

(** The command line, up to where the input comes from: a file or standard input. *)
Definition main_input (argv : list text) (optind : nat) (can_open : text → bool) (get_failtest : bool) : outcome (option text) :=
  match argv !! optind with
  | Some f => if can_open f then mret (Some f) else Barf "Opening"
  | None => if get_failtest then Barf "Not clever enough to use --failtest interactively" else mret None
  end.
(** From the first function of the simulated kernel to the prompt, with the number of blocks
    that must be left at the end; no failures are simulated meanwhile. *)
Definition main_start (suppress : Z → S → S) (kernelenv_init netfilter_init register_queue_handler message_init : S → outcome S)
    (inits : list (S → outcome S)) (module_inits : list (S → outcome (Z * S))) (log_failed : Z → S → outcome S)
    (load_modules : bool) (load_all_modules : S → outcome (bool * S)) (blocks : S → Z) (s : S) : outcome (Z * S) :=
  s ← kernelenv_init (suppress 1 s);
  s ← run_inits inits s;
  s ← netfilter_init s;
  let initial_blocks := blocks s in
  s ← initialize_builtin_modules log_failed module_inits s;
  '(ok, s) ← (if load_modules then load_all_modules s else mret (true, s));
  if negb ok then Barf "Module loading failed" else
  s ← register_queue_handler s;
  s ← message_init s;
  mret (initial_blocks, suppress (-1) s).
(** The rest of main, after tui_run. *)
Definition main_end (expects_remaining : S → bool) (unload_all_modules : S → outcome (bool * S)) (exits : list (S → outcome S))
    (proc_cleanup : S → outcome S) (blocks : S → Z) (initial_blocks : Z) (s : S) : outcome Z :=
  if expects_remaining s then Barf "Expectations still / unfulfilled remaining. / Testing blossoms fail." else
  '(ok, s) ← unload_all_modules s;
  _ ← (if ok : bool then s ← remove_builtin_modules exits s; check_allocations proc_cleanup blocks initial_blocks s else mret s);
  mret 0.

(** A script that fails is cleaned up after in the same way, but for the expectations, and
    has its own exit status: what is left over then still gives the run up. *)
Definition EXIT_SCRIPTFAIL : Z := 2.
Definition script_fail `{Logger S} (unload_all_modules : S → outcome (bool * S)) (exits : list (S → outcome S))
    (proc_cleanup : S → outcome S) (blocks : S → Z) (initial_blocks tui_linenum : Z) (str : text) (s : S) : outcome Z :=
  '(_, s) ← nfsim_log LOG_UI (tx "Script failed at line " ++ print_d tui_linenum ++ tx ": ") s;
  '(_, s) ← nfsim_log LOG_UI str s;
  '(ok, s) ← unload_all_modules s;
  _ ← (if ok : bool then s ← remove_builtin_modules exits s; check_allocations proc_cleanup blocks initial_blocks s else mret s);
  mret EXIT_SCRIPTFAIL.
Lemma script_fail_clean `{Logger S} unload exits proc_cleanup blocks initial tui_linenum str (s s1 s2 s3 s4 : S) b1 b2 :
  nfsim_log LOG_UI (tx "Script failed at line " ++ print_d tui_linenum ++ tx ": ") s = Ret (b1, s1) → nfsim_log LOG_UI str s1 = Ret (b2, s2) →
  unload s2 = Ret (true, s3) → (s ← remove_builtin_modules exits s3; proc_cleanup s) = Ret s4 →
  script_fail unload exits proc_cleanup blocks initial tui_linenum str s = if blocks s4 =? initial then Ret EXIT_SCRIPTFAIL else Barf "Resource leak".
Proof.
  intros E1 E2 E3 E4. unfold script_fail, check_allocations. rewrite E1, bind_ret, E2, bind_ret, E3, bind_ret.
  destruct (remove_builtin_modules exits s3); [|done..]. rewrite bind_ret in *. rewrite E4, bind_ret. by destruct (blocks s4 =? initial).
Qed.
End Run.

(** ** What getopt_long makes of the table and the string *)

(** Its documentation: a long option is found by its name and its val is returned; a short
    one is a character of the string, and the colons behind it say whether it takes an
    argument. *)
Definition getopt_long_name (opts : list long_option) (n : text) : option Z := l_val <$> List.find (λ o, streq n (l_name o)) opts.
Definition colons (s : text) : nat := strspn s (tx ":").
Fixpoint getopt_short (optstr : text) (c : ascii) : option nat :=
  match optstr with
  | [] => None
  | d :: rest => if ascii_eqb c d then Some (colons rest) else getopt_short rest c
  end.

(** A table as the files declare it: names and letters are different, letters come behind
    the digits, at most one argument; the codes of long options stay below '0'. *)
Record table_ok (copts : list cmdline_option) : Prop := TableOk {
  tb_few : zlen copts <= zero_char;
  tb_names : NoDup (map name copts);
  tb_vals : NoDup (filter (λ v, v ≠ 0) (map val copts));
  tb_letters : ∀ o, o ∈ copts → val o = 0 ∨ 64 <= val o < 128;
  tb_args : ∀ o, o ∈ copts → 0 <= has_arg o <= 1;
}.

(** ** Every option runs its function *)

Definition numbered (l : list cmdline_option) : list long_option := imap (λ i o, LongOption (name o) (has_arg o) (Z.of_nat i)) l.
Lemma numbered_snoc l o : numbered (l ++ [o]) = numbered l ++ [LongOption (name o) (has_arg o) (zlen l)].
Proof. unfold numbered. rewrite imap_app. cbn. unfold zlen. by rewrite Nat.add_0_r. Qed.
Lemma numbered_in l p : p ∈ numbered l → ∃ i o, l !! i = Some o ∧ p = LongOption (name o) (has_arg o) (Z.of_nat i).
Proof.
  intros [i Hi]%list_elem_of_lookup_1. unfold numbered in Hi. rewrite list_lookup_imap in Hi. destruct (l !! i) as [o|] eqn:E; [|done].
  injection Hi as <-. by exists i, o.
Qed.

Lemma options_loop_ok copts : ∀ pre, table_ok (pre ++ copts) → options_loop copts (zlen pre) (numbered pre) = Ret (numbered (pre ++ copts)).
Proof.
  induction copts as [|o copts IH]; intros pre T; cbn [options_loop]; [by rewrite app_nil_r|].
  pose proof (tb_args _ T o ltac:(set_solver)). rewrite (proj2 (Z.ltb_ge _ _)) by lia.
  assert (Hc : existsb (conflict o) (numbered pre) = false).
  { apply not_true_is_false. intros (p & Hp & Hcf)%existsb_exists. apply list_elem_of_In, numbered_in in Hp as (i & q & Hi & ->).
    unfold conflict in Hcf. cbn in Hcf. apply orb_true_iff in Hcf as [Hcf|Hcf].
    - apply andb_true_iff in Hcf as [Hv He]. apply Z.eqb_eq in He. destruct (tb_letters _ T o ltac:(set_solver)) as [Hz|Hz]; [by rewrite Hz in Hv|].
      apply lookup_lt_Some in Hi. pose proof (tb_few _ T) as Hf. unfold zlen, zero_char in Hf. rewrite length_app in Hf. lia.
    - apply streq_spec in Hcf. pose proof (tb_names _ T) as Hn. rewrite map_app in Hn. apply NoDup_app in Hn as (_ & Hn & _).
      apply (Hn (name o)); [rewrite Hcf; apply list_elem_of_fmap_2; by eapply list_elem_of_lookup_2|cbn; left]. }
  rewrite Hc, <-numbered_snoc. replace (zlen pre + 1) with (zlen (pre ++ [o])) by (by rewrite zlen_app).
  replace (pre ++ o :: copts) with ((pre ++ [o]) ++ copts) in * by (by rewrite <-app_assoc). by apply IH.
Qed.

(** What a letter becomes. *)
Definition shorts (o : cmdline_option) : text := if val o =? 0 then [] else chr (val o) :: replicate (Z.to_nat (has_arg o)) ":"%char.
Lemma short_text_ok copts o : table_ok copts → o ∈ copts → val o ≠ 0 → short_text o = Ret (shorts o) ∧ zlen (shorts o) <= 2.
Proof.
  intros T Ho Hv. pose proof (tb_args _ T o Ho) as Ha. unfold short_text, shorts. rewrite (proj2 (Z.eqb_neq _ _)) by done.
  assert (has_arg o = 0 ∨ has_arg o = 1) as [->| ->] by lia; split; done.
Qed.

Lemma optstr_loop_ok copts room : ∀ l out, (∀ o, o ∈ l → o ∈ copts) → table_ok copts → zlen out + 3 * zlen l < room →
  optstr_loop l room out = Ret (out ++ concat (map shorts l)).
Proof.
  induction l as [|o l IH]; intros out Hl T Hr; cbn [optstr_loop map concat]; [by rewrite app_nil_r|].
  assert (Hz : zlen (o :: l) = zlen l + 1) by (unfold zlen; cbn [length]; lia). pose proof (zlen_nonneg l).
  destruct (Z.eqb_spec (val o) 0) as [Hv|Hv].
  - rewrite IH by (try done; try lia; intros; apply Hl; by right). unfold shorts at 2. by rewrite (proj2 (Z.eqb_eq _ _) Hv).
  - destruct (short_text_ok copts o T (Hl o ltac:(left)) Hv) as [E Hs]. rewrite E, bind_ret, (proj2 (Z.ltb_lt _ _)) by lia.
    rewrite IH by (rewrite ?zlen_app; try done; try lia; intros; apply Hl; by right). by rewrite <-app_assoc.
Qed.

Lemma getopt_short_miss o c rest : c ≠ ":"%char → val o = 0 ∨ c ≠ chr (val o) → getopt_short (shorts o ++ rest) c = getopt_short rest c.
Proof.
  intros Hc Hv. unfold shorts. destruct (Z.eqb_spec (val o) 0) as [Hz|Hz]; [done|]. destruct Hv as [Hv|Hv]; [done|]. cbn [app getopt_short].
  assert (Hne : ∀ a b, a ≠ b → ascii_eqb a b = false) by (intros a b H; apply not_true_is_false; by rewrite ascii_eqb_spec).
  rewrite Hne by done. induction (Z.to_nat (has_arg o)) as [|n IH]; [done|]. cbn [replicate app getopt_short]. by rewrite Hne.
Qed.

Lemma shorts_hd l : (∀ o, o ∈ l → val o = 0 ∨ 64 <= val o < 128) → colons (concat (map shorts l)) = O.
Proof.
  intros Hl. apply strspn_0. induction l as [|o l IH]; cbn [map concat]; [by intros [?|?%not_elem_of_nil]%elem_of_cons|].
  unfold shorts at 1. destruct (Z.eqb_spec (val o) 0) as [Hz|Hz]; [apply IH; intros; apply Hl; by right|].
  destruct (Hl o ltac:(left)) as [?|Hv]; [done|]. cbn [app hd0]. intros [E|?%not_elem_of_nil]%elem_of_cons; [|done].
  apply (f_equal code) in E. rewrite code_chr in E by lia. change (code ":") with 58 in E. lia.
Qed.

Lemma colons_reps n rest : colons rest = O → colons (replicate n ":"%char ++ rest) = n.
Proof.
  intros Hr. unfold colons in *. rewrite strspn_app, Hr, length_replicate; [lia|]. apply Forall_replicate. by left.
Qed.

Lemma getopt_short_hit copts : ∀ l o, table_ok copts → (∀ q, q ∈ l → q ∈ copts) → NoDup (filter (λ v, v ≠ 0) (map val l)) →
  o ∈ l → val o ≠ 0 → getopt_short (concat (map shorts l)) (chr (val o)) = Some (Z.to_nat (has_arg o)).
Proof.
  intros l o T Hl Hn Ho Hv.
  assert (Hr : 64 <= val o < 128) by (destruct (tb_letters _ T o ltac:(set_solver)); [done|lia]).
  induction l as [|q l IH]; [by apply not_elem_of_nil in Ho|]. cbn [map concat].
  apply elem_of_cons in Ho as [<-|Ho].
  - unfold shorts at 1. rewrite (proj2 (Z.eqb_neq _ _)) by done. cbn [app getopt_short]. rewrite (proj2 (ascii_eqb_spec _ _)) by done.
    rewrite colons_reps; [done|]. apply shorts_hd. intros p Hp. apply (tb_letters _ T), Hl. by right.
  - cbn [map] in Hn. rewrite filter_cons in Hn. rewrite getopt_short_miss.
    + apply IH; [by intros p Hp; apply Hl; right| |done]. case_decide; [by apply NoDup_cons in Hn as [_ ?]|done].
    + intros E. apply (f_equal code) in E. rewrite code_chr in E by lia. change (code ":") with 58 in E. lia.
    + destruct (Z.eq_dec (val q) 0) as [|Hq]; [by left|right]. rewrite decide_True in Hn by done. apply NoDup_cons in Hn as [Hn _].
      assert (64 <= val q < 128) by (destruct (tb_letters _ T q (Hl q ltac:(left))); [done|lia]).
      intros E. apply (f_equal code) in E. rewrite !code_chr in E by lia. apply Hn. rewrite <-E. apply list_elem_of_filter. split; [done|].
      by apply list_elem_of_fmap_2.
Qed.
Lemma getopt_short_none copts : ∀ l v, table_ok copts → (∀ q, q ∈ l → q ∈ copts) → 64 <= v < 128 → v ∉ map val l →
  getopt_short (concat (map shorts l)) (chr v) = None.
Proof.
  intros l v T Hl Hv Hn. induction l as [|q l IH]; [done|]. cbn [map concat] in *. apply not_elem_of_cons in Hn as [Hq Hn].
  rewrite getopt_short_miss; [by apply IH; [intros p Hp; apply Hl; right|]| |].
  - intros E. apply (f_equal code) in E. rewrite code_chr in E by lia. change (code ":") with 58 in E. lia.
  - destruct (tb_letters _ T q (Hl q ltac:(left))) as [|Hr]; [by left|right]. intros E. apply (f_equal code) in E. rewrite !code_chr in E by lia. done.
Qed.

(** The name's code is the place in the table. *)
Lemma find_numbered l : ∀ k i o, NoDup (map name l) → l !! i = Some o →
  List.find (λ p, streq (name o) (l_name p)) (imap (λ i o, LongOption (name o) (has_arg o) (Z.of_nat (k + i))) l)
  = Some (LongOption (name o) (has_arg o) (Z.of_nat (k + i))).
Proof.
  induction l as [|q l IH]; intros k i o Hn Hi; [done|]. cbn [map] in Hn. apply NoDup_cons in Hn as [Hq Hn]. cbn [imap List.find l_name].
  destruct i as [|i]; cbn in Hi.
  - injection Hi as ->. by rewrite (proj2 (streq_spec _ _)).
  - destruct (streq (name o) (name q)) eqn:E.
    + apply streq_spec in E. exfalso. apply Hq. rewrite <-E. apply list_elem_of_fmap_2. by eapply list_elem_of_lookup_2.
    + specialize (IH (S k) i o Hn Hi). rewrite <-Nat.add_succ_comm. rewrite <-IH. f_equal. apply imap_ext. intros j x _. cbn. do 2 f_equal. lia.
Qed.
Lemma find_val o : ∀ l : list cmdline_option, NoDup (filter (λ v, v ≠ 0) (map val l)) → o ∈ l → val o ≠ 0 →
  List.find (λ q, val q =? val o) l = Some o.
Proof.
  induction l as [|q l IH]; intros Hn Ho Hv; [by apply not_elem_of_nil in Ho|]. cbn [List.find]. cbn [map] in Hn. rewrite filter_cons in Hn.
  destruct (Z.eqb_spec (val q) (val o)) as [E|E].
  - apply elem_of_cons in Ho as [<-|Ho]; [done|]. exfalso. rewrite decide_True in Hn by lia. apply NoDup_cons in Hn as [Hn _]. apply Hn.
    rewrite E. apply list_elem_of_filter. split; [done|]. by apply list_elem_of_fmap_2.
  - apply elem_of_cons in Ho as [->|Ho]; [done|]. apply IH; [|done..].
    case_decide; [by apply NoDup_cons in Hn as [_ ?]|done].
Qed.
Lemma find_val_none l v : v ∉ map val l → List.find (λ q, val q =? v) l = None.
Proof.
  induction l as [|q l IH]; intros Hn; [done|]. cbn [map] in Hn. apply not_elem_of_cons in Hn as [Hq Hn]. cbn [List.find].
  rewrite (proj2 (Z.eqb_neq _ _)) by done. by apply IH.
Qed.

(** C25: Every option runs its function: for a table as the files declare it (different
    names and letters, at most one argument, fewer options than the code of '0') the table
    and the string for getopt_long are made without an error, the code getopt_long finds for
    an option's long name and the one for its letter both lead back to that very option, the
    letter takes as many arguments as the option says, and a letter no option has is neither
    in the string nor found; so is the question mark getopt_long returns for it. *)
Theorem options_reach_functions copts :
  table_ok copts →
  ∃ opts optstr,
    get_cmdline_options copts = Ret opts ∧ get_cmdline_optstr copts = Ret optstr ∧
    (∀ o, o ∈ copts → ∃ c, getopt_long_name opts (name o) = Some c ∧ get_cmdline_option copts c = Ret (Some o)) ∧
    (∀ o, o ∈ copts → val o ≠ 0 →
      getopt_short optstr (chr (val o)) = Some (Z.to_nat (has_arg o)) ∧ get_cmdline_option copts (val o) = Ret (Some o)) ∧
    (∀ v, 64 <= v < 128 → v ∉ map val copts → getopt_short optstr (chr v) = None ∧ get_cmdline_option copts v = Ret None) ∧
    get_cmdline_option copts 63 = Ret None.
Proof.
  intros T. exists (numbered copts), (concat (map shorts copts)).
  assert (Hfind : ∀ v, 48 <= v → get_cmdline_option copts v = Ret (List.find (λ o, val o =? v) copts))
    by (intros v Hv; unfold get_cmdline_option, zero_char; by rewrite (proj2 (Z.ltb_ge _ _)) by lia).
  split_and!.
  - apply (options_loop_ok copts [] T).
  - unfold get_cmdline_optstr. rewrite (optstr_loop_ok copts) by (try done; unfold zlen; cbn; lia). done.
  - intros o [i Hi]%list_elem_of_lookup_1. exists (Z.of_nat i). unfold getopt_long_name, numbered. split.
    + pose proof (find_numbered copts 0 i o (tb_names _ T) Hi) as E. cbn [Nat.add] in E. by rewrite E.
    + unfold get_cmdline_option, zero_char. apply lookup_lt_Some in Hi as Hlt. pose proof (tb_few _ T) as Hf. unfold zlen, zero_char in Hf.
      rewrite (proj2 (Z.ltb_lt _ _)), (proj2 (Z.ltb_ge _ _)), Nat2Z.id, Hi by lia. done.
  - intros o Ho Hv. split; [by apply (getopt_short_hit copts copts o T (λ q Hq, Hq) (tb_vals _ T))|].
    destruct (tb_letters _ T o Ho) as [?|Hr]; [done|]. rewrite Hfind by lia. by rewrite (find_val o copts (tb_vals _ T) Ho Hv).
  - intros v Hv Hn. split; [by apply (getopt_short_none copts copts v T (λ q Hq, Hq))|]. rewrite Hfind by lia. by rewrite find_val_none.
  - rewrite Hfind by lia. rewrite find_val_none; [done|]. intros (o & E & Ho)%list_elem_of_fmap. destruct (tb_letters _ T o Ho); lia.
Qed.

(** Options of the program: long only, letter only in name, one with an argument. *)
Definition sample_options : list cmdline_option :=
  [CmdlineOption (tx "echo") 0 120 1; CmdlineOption (tx "failtest") 0 0 2; CmdlineOption (tx "failpath") 1 0 3; CmdlineOption (tx "version") 0 86 4;
   CmdlineOption (tx "file") 1 102 5].
Example sample_optstr : get_cmdline_optstr sample_options = Ret (tx "xVf:").
Proof. reflexivity. Qed.
(** A letter that two options have is not noticed: the copies' letters are overwritten by
    their numbers before they are compared. *)
Lemma conflict_not_noticed :
  get_cmdline_options [CmdlineOption (tx "quiet") 0 113 1; CmdlineOption (tx "queue") 0 113 2] = Ret [LongOption (tx "quiet") 0 0; LongOption (tx "queue") 0 1].
Proof. reflexivity. Qed.
(** An optional argument: the two colons and the end do not fit. *)
Lemma optional_argument_overruns : get_cmdline_optstr [CmdlineOption (tx "level") 2 108 1] = Fault "get_cmdline_optstr: write past tmpstr".
Proof. reflexivity. Qed.

Lemma options_reach_functions_witness :
  ∃ opts optstr, get_cmdline_options sample_options = Ret opts ∧ get_cmdline_optstr sample_options = Ret optstr ∧
    getopt_short optstr "f" = Some 1%nat.
Proof.
  assert (T : table_ok sample_options).
  { split; [vm_compute; discriminate|apply (bool_decide_unpack _); vm_compute; exact I..| |].
    - intros o Ho. assert (A : Forall (λ o, val o = 0 ∨ 64 <= val o < 128) sample_options) by (repeat constructor; cbn; lia).
      by apply (proj1 (Forall_forall _ _) A).
    - intros o Ho. assert (A : Forall (λ o, 0 <= has_arg o <= 1) sample_options) by (repeat constructor; cbn; lia).
      by apply (proj1 (Forall_forall _ _) A). }
  destruct (options_reach_functions sample_options T) as (opts & optstr & E1 & E2 & _ & Hs & _).
  exists opts, optstr. split; [exact E1|split; [exact E2|]].
  exact (proj1 (Hs (CmdlineOption (tx "file") 1 102 5) ltac:(by do 4 right; left) ltac:(discriminate))).
Defined.

(** ** The tables at the start *)

Section CoreInit.
Context (inet_aton : text → option Z) (garbage : in_ifaddr).

(** core_init before the hooks' lists are made empty. *)
Definition core_init (big : bool) (s : rstate) : outcome rstate :=
  '(lo, s) ← create_device big inet_aton garbage (tx "lo") [tx "127.0.0.1"; tx "8"; tx "127.255.255.255"] s;
  let s := RState (interfaces s) (routes s) (rcache s) (default 0 lo) (ifindex_counter s) (next_addr s) (notified s) in
  '(_, s) ← create_device big inet_aton garbage (tx "eth0") [tx "192.168.0.1"; tx "24"; tx "192.168.0.255"] s;
  '(_, s) ← create_device big inet_aton garbage (tx "eth1") [tx "192.168.1.1"; tx "24"; tx "192.168.1.255"] s;
  mret s.

(** No device, no route; the counter of interfaces starts at 1. *)
Definition no_tables : rstate := RState [] [] [] 0 1 1 [].

(** inet_aton reads dotted addresses; these are the ones it is given. *)
Definition reads_addresses (big : bool) : Prop := Forall (λ '(w, x), inet_aton w = Some (htonl big x))
  [(tx "127.0.0.1", 0x7f000001); (tx "127.255.255.255", 0x7fffffff); (tx "192.168.0.1", 0xc0a80001); (tx "192.168.0.255", 0xc0a800ff);
   (tx "192.168.1.1", 0xc0a80101); (tx "192.168.1.255", 0xc0a801ff)].

Lemma create_device_ok big nm a k b n m bc s : inet_aton a = Some n → inet_aton b = Some bc → mask_bits big k = Some m → streq k (tx "mask") = false →
  create_device big inet_aton garbage nm [a; k; b] s =
    (let d := NetDevice (next_addr s) (take IFNAMSIZ nm) (ifindex_counter s) ETH_HLEN (Some [InIfaddr n n m bc]) in
     let r := Ipv4Route (next_addr s + 1) (Z.land n m) m (next_addr s) n (Some (next_addr s)) true true in
     Ret (Some (next_addr s), RState (interfaces s ++ [d]) (routes s ++ [r]) (rcache s) (loopback_dev s) (ifindex_counter s + 1) (next_addr s + 2)
       (notified s ++ [(NETDEV_UP, n)]))).
Proof.
  intros Ha Hb Hm Hk. unfold create_device, set_device. rewrite Ha, Hk, Hm. unfold set_broadcast. rewrite Hb. cbn.
  unfold with_interfaces. cbn. by rewrite Z.add_simpl_r, <-Z.add_assoc.
Qed.

(** The tables it makes. *)
Definition start_device (big : bool) (a idx : Z) (nm : text) (n m bc : Z) : net_device :=
  NetDevice a nm idx ETH_HLEN (Some [InIfaddr (htonl big n) (htonl big n) (htonl big m) (htonl big bc)]).
Definition start_route (big : bool) (a dev n m : Z) : ipv4_route :=
  Ipv4Route a (htonl big (Z.land n m)) (htonl big m) dev (htonl big n) (Some dev) true true.
Definition start_tables (big : bool) : rstate :=
  RState [start_device big 1 1 (tx "lo") 0x7f000001 0xff000000 0x7fffffff; start_device big 3 2 (tx "eth0") 0xc0a80001 0xffffff00 0xc0a800ff;
          start_device big 5 3 (tx "eth1") 0xc0a80101 0xffffff00 0xc0a801ff]
    [start_route big 2 1 0x7f000001 0xff000000; start_route big 4 3 0xc0a80001 0xffffff00; start_route big 6 5 0xc0a80101 0xffffff00] [] 1 4 7
    [(NETDEV_UP, htonl big 0x7f000001); (NETDEV_UP, htonl big 0xc0a80001); (NETDEV_UP, htonl big 0xc0a80101)].
Lemma core_init_makes big : reads_addresses big → core_init big no_tables = Ret (start_tables big).
Proof.
  intros Hr. repeat (apply Forall_cons in Hr as [? Hr]). unfold core_init.
  erewrite create_device_ok by (eassumption || reflexivity). cbv zeta. rewrite bind_ret. cbv beta iota. cbn [default].
  erewrite create_device_ok by (eassumption || reflexivity). cbv zeta. rewrite bind_ret. cbv beta iota.
  erewrite create_device_ok by (eassumption || reflexivity). cbv zeta. rewrite bind_ret. cbv beta iota.
  clear. destruct big; vm_compute; reflexivity.
Qed.

(** ** Where the tables lead *)

(** The bytes of an address in the order of the machine: its leading bytes under a mask. *)
Lemma swapped x : htonl false x = ((byte_at x 0 * 256 + byte_at x 8) * 256 + byte_at x 16) * 256 + byte_at x 24.
Proof. rewrite <-swab32_bytes. unfold htonl, swab32, Endian.swab32. apply Z.lor_assoc. Qed.
Lemma land_high x m k n : 0 <= n → 0 <= k → m = Z.ones k * 2 ^ n → Z.land x m = (x / 2 ^ n) mod 2 ^ k * 2 ^ n.
Proof.
  intros Hn Hk ->. rewrite <-Z.land_ones, <-Z.shiftr_div_pow2, <-!Z.shiftl_mul_pow2 by done.
  apply Z.bits_inj'. intros i Hi. rewrite Z.land_spec, !Z.shiftl_spec by done. destruct (Z.lt_ge_cases i n).
  - rewrite !(Z.testbit_neg_r _ (i - n)) by lia. apply andb_false_r.
  - rewrite Z.land_spec, Z.shiftr_spec by lia. by replace (i - n + n) with i by lia.
Qed.
(** An address as its bytes. *)
Lemma four_bytes x : in_width 32 x → ∃ a b c d, x = ((a * 256 + b) * 256 + c) * 256 + d ∧ 0 <= a < 256 ∧ 0 <= b < 256 ∧ 0 <= c < 256 ∧ 0 <= d < 256.
Proof.
  unfold in_width. intros Hx. exists (x / 2 ^ 24), (x / 2 ^ 16 mod 256), (x / 2 ^ 8 mod 256), (x mod 256).
  change (2 ^ 24) with 16777216. change (2 ^ 16) with 65536. change (2 ^ 8) with 256. change (2 ^ 32) with 4294967296 in Hx.
  split_and!; Z.div_mod_to_equations; lia.
Qed.
Lemma swapped_bytes a b c d : 0 <= a < 256 → 0 <= b < 256 → 0 <= c < 256 → 0 <= d < 256 →
  htonl false (((a * 256 + b) * 256 + c) * 256 + d) = ((d * 256 + c) * 256 + b) * 256 + a.
Proof.
  intros. rewrite swapped. unfold byte_at. change (2 ^ 0) with 1. change (2 ^ 8) with 256. change (2 ^ 16) with 65536. change (2 ^ 24) with 16777216.
  assert (E : ∀ q q' r r', q = q' → r = r' → q * 256 + r = q' * 256 + r') by (by intros ???? -> ->).
  repeat apply E; Z.div_mod_to_equations; lia.
Qed.
Lemma htonl_eq big x y : in_width 32 x → in_width 32 y → (htonl big x =? htonl big y) = (x =? y).
Proof.
  intros (a & b & c & d & -> & Ha & Hb & Hc & Hd)%four_bytes (a' & b' & c' & d' & -> & Ha' & Hb' & Hc' & Hd')%four_bytes. destruct big; [done|].
  rewrite !swapped_bytes by done. apply eq_true_iff_eq. rewrite !Z.eqb_eq. lia.
Qed.
Lemma net_8 big x n : in_width 32 x → 0 <= n < 256 → (Z.land (htonl big x) (htonl big 0xff000000) =? htonl big (n * 2 ^ 24)) = (x / 2 ^ 24 =? n).
Proof.
  intros (a & b & c & d & -> & Ha & Hb & Hc & Hd)%four_bytes Hn. apply eq_true_iff_eq. rewrite !Z.eqb_eq. change (2 ^ 24) with 16777216. destruct big.
  - change (htonl true ?x) with x. rewrite (land_high _ _ 8 24) by done. change (2 ^ 24) with 16777216. change (2 ^ 8) with 256. Z.div_mod_to_equations. lia.
  - change (htonl false 0xff000000) with (Z.ones 8). replace (n * 16777216) with (((n * 256 + 0) * 256 + 0) * 256 + 0) by lia.
    rewrite !swapped_bytes by lia. rewrite Z.land_ones by done. change (2 ^ 8) with 256. Z.div_mod_to_equations. lia.
Qed.
Lemma low_part q r m : 0 <= r < m → (q * m + r) / m = q ∧ (q * m + r) mod m = r.
Proof. intros Hr. rewrite Z.div_add_l, (Z.div_small r), (Z.add_comm (q * m)), Z.mod_add, Z.mod_small by lia. lia. Qed.
Lemma net_24 big x n : in_width 32 x → 0 <= n < 2 ^ 24 → (Z.land (htonl big x) (htonl big 0xffffff00) =? htonl big (n * 256)) = (x / 256 =? n).
Proof.
  intros (a & b & c & d & -> & Ha & Hb & Hc & Hd)%four_bytes Hn. apply eq_true_iff_eq. rewrite !Z.eqb_eq.
  destruct (low_part ((a * 256 + b) * 256 + c) d 256 Hd) as [E1 _]. rewrite E1. change (2 ^ 24) with 16777216 in Hn. destruct big.
  - change (htonl true ?x) with x. rewrite (land_high _ _ 24 8) by done. change (2 ^ 24) with 16777216. change (2 ^ 8) with 256. rewrite E1, Z.mod_small by lia. lia.
  - assert (Hn' : in_width 32 (n * 256)) by (unfold in_width; lia). apply four_bytes in Hn' as (a' & b' & c' & d' & E & Ha' & Hb' & Hc' & Hd').
    assert (d' = 0) as -> by (clear -E Hd'; lia). change (htonl false 0xffffff00) with (Z.ones 24). rewrite E, !swapped_bytes by lia.
    rewrite Z.land_ones by done. change (2 ^ 24) with 16777216. replace (((d * 256 + c) * 256 + b) * 256 + a) with (d * 16777216 + ((c * 256 + b) * 256 + a)) by lia.
    destruct (low_part d ((c * 256 + b) * 256 + a) 16777216 ltac:(lia)) as [_ ->]. assert (n = (a' * 256 + b') * 256 + c') as -> by lia. clear -Ha Hb Hc Ha' Hb' Hc'. lia.
Qed.

(** The device and the source address for a destination: the host's own addresses and 127/8
    by loopback, 192.168.0/24 by eth0, 192.168.1/24 by eth1, nothing else. *)
Definition way (x : Z) : option (Z * Z) :=
  if (x =? 0x7f000001) || (x =? 0xc0a80001) || (x =? 0xc0a80101) then Some (1, 0)
  else if x / 2 ^ 24 =? 127 then Some (1, 0x7f000001)
  else if x / 256 =? 0xc0a800 then Some (3, 0xc0a80001)
  else if x / 256 =? 0xc0a801 then Some (5, 0xc0a80101)
  else None.
Definition way_taken (rt : rtable) : Z * Z := (dst_dev rt, rt_src rt).
Lemma start_ways big x : in_width 32 x →
  option_map way_taken <$> fresh_output (Flowi 0 0 (htonl big x) 0 0) (start_tables big) = Ret (option_map (λ '(d, a), (d, htonl big a)) (way x)).
Proof.
  intros Hx. assert (H0 : htonl big 0 = 0) by (by destruct big). unfold fresh_output, start_tables.
  cbn [id fl4_dst fl4_src iif oif interfaces local_dev existsb ip_ptr start_device default ifa_local]. rewrite !orb_false_r, !htonl_eq by done. unfold way.
  assert (Hown : @Ret (option (Z * Z)) (Some (1, 0)) = Ret (option_map (λ '(d, a), (d, htonl big a)) (Some (1, 0)))) by (cbn [option_map]; by rewrite H0).
  destruct (x =? 0x7f000001); [exact Hown|]. destruct (x =? 0xc0a80001); [exact Hown|]. destruct (x =? 0xc0a80101); [exact Hown|]. cbn [orb].
  unfold matches. cbn [routes find_route start_route live negb netmask network].
  change (Z.land 0x7f000001 0xff000000) with (127 * 2 ^ 24). change (Z.land 0xc0a80001 0xffffff00) with (0xc0a800 * 256). change (Z.land 0xc0a80101 0xffffff00) with (0xc0a801 * 256).
  rewrite net_8, !net_24 by done.
  destruct (x / 2 ^ 24 =? 127); [|destruct (x / 256 =? 0xc0a800); [|destruct (x / 256 =? 0xc0a801); [|done]]];
    rewrite bind_ret; cbn [Z.eqb]; unfold inet_select_addr, get_dev; cbn [interface list_find interfaces fmap option_fmap option_map of_option dev_addr start_device snd];
    repeat (rewrite ?decide_True, ?decide_False by done; cbn [option_map fmap option_fmap prod_map fst snd of_option]).
  all: cbn; unfold way_taken; cbn [dst_dev rt_src]; destruct (_ || _); reflexivity.
Qed.

(** C26: the simulator starts with tables that are in order: core_init makes loopback and two
    Ethernet devices; nothing dangles, and the cache is empty and so agrees with the tables.
    Of all destinations there are, it finds the way to just those of the devices' networks:
    the host's own addresses go by loopback, as do the others of 127/8, those of
    192.168.0/24 and 192.168.1/24 by their device, with the address of that device as the
    source; for any other there is none. *)
Theorem core_init_tables big : reads_addresses big → ∃ s,
  core_init big no_tables = Ret s ∧ tables_ok s ∧ rcache s = [] ∧ consistent s ∧ map dev_name (interfaces s) = [tx "lo"; tx "eth0"; tx "eth1"] ∧
  map dev_addr (interfaces s) = [1; 3; 5] ∧ loopback_dev s = 1 ∧
  ∀ x, in_width 32 x → option_map way_taken <$> fresh_output (Flowi 0 0 (htonl big x) 0 0) s = Ret (option_map (λ '(d, a), (d, htonl big a)) (way x)).
Proof.
  intros Hr. exists (start_tables big). split; [by apply core_init_makes|]. clear Hr.
  split_and!; [|reflexivity|by intros rt ?%not_elem_of_nil|reflexivity|reflexivity|reflexivity|apply start_ways].
  split; unfold start_tables; cbn [routes interfaces].
  - intros r Hin. repeat (apply elem_of_cons in Hin as [->|Hin]; [split; [done|by eexists]|]). by apply not_elem_of_nil in Hin.
  - intros d Hin. repeat (apply elem_of_cons in Hin as [->|Hin]; [done|]). by apply not_elem_of_nil in Hin.
Qed.
End CoreInit.

(** What talloc may leave in an address. *)
Definition lo_garbage : in_ifaddr := InIfaddr 5 6 7 8.
Definition start_aton (w : text) : option Z :=
  snd <$> List.find (λ p, streq w p.1) [(tx "127.0.0.1", 0x7f000001); (tx "127.255.255.255", 0x7fffffff); (tx "192.168.0.1", 0xc0a80001);
    (tx "192.168.0.255", 0xc0a800ff); (tx "192.168.1.1", 0xc0a80101); (tx "192.168.1.255", 0xc0a801ff)].
Definition start_aton_little (w : text) : option Z := htonl false <$> start_aton w.
Lemma core_init_tables_witness : ∃ s, core_init start_aton_little lo_garbage false no_tables = Ret s ∧ rcache s = [] ∧
  option_map way_taken <$> fresh_output (Flowi 0 0 (htonl false 0xc0a8014d) 0 0) s = Ret (Some (5, htonl false 0xc0a80101)) ∧
  option_map way_taken <$> fresh_output (Flowi 0 0 (htonl false 0x7f123456) 0 0) s = Ret (Some (1, htonl false 0x7f000001)) ∧
  option_map way_taken <$> fresh_output (Flowi 0 0 (htonl false 0x08080808) 0 0) s = Ret None.
Proof.
  destruct (core_init_tables start_aton_little lo_garbage false) as (s & E & _ & Hc & _ & _ & _ & _ & H); [by repeat constructor|].
  exists s. split; [exact E|]. split; [exact Hc|]. split; [|split].
  - exact (H 0xc0a8014d ltac:(unfold in_width; lia)).
  - exact (H 0x7f123456 ltac:(unfold in_width; lia)).
  - exact (H 0x08080808 ltac:(unfold in_width; lia)).
Defined.
