(* ===== verification/Program.v ===== *)
(** * message.c wait_for_output and tools/iptables.c: running a program

    The simulator starts a program and serves two streams until both are at their end: the
    program's output and its messages.  select says which can be read; the output goes to the
    log line by line.  How the program is started is in Fork.v; a message's handler is an
    argument: it may log (with strace it does), change any state and barf. *)

From Stdlib Require Import ZArith Lia.
From S2P Require Import Prelude CStr Mem Expect Log.

Definition OUTPUT_SIZE : Z := 1024.
(** [char buf[4096]] of run_command. *)
Definition COMMAND_BUF : Z := PRINTK_BUFSIZ.

(** What select returns; for the output also how many bytes a read would find. *)
Inductive selected := Interrupted | SelectFailed | Ready (io_ready : option Z) (msg_ready : bool).

Section Output.
Context {S M : Type} `{Logger S}.
(** One message; what it makes of the status. *)
Context (handle_userspace_message : M → Z → S → outcome (Z * S)).
(** The answer of each select, given which descriptors are waited for. *)
Context (select : nat → bool → bool → selected).
Context (waitpid : option Z).

(** io_fd and msg_fd: [None] is -1, or what is still to be read; then the number of selects
    so far and *status. *)
Record env := Env { io_fd : option text; msg_fd : option (list M); round : nat; status : Z }.
Definition is_open {A} (fd : option A) : bool := match fd with Some _ => true | None => false end.

(** [while (io_fd != -1 || msg_fd != -1)].  A read of 0 bytes is the end. *)
Fixpoint wait_loop (fuel : nat) (retry : Z) (e : env) (s : S) : outcome (option text * env * S) :=
  match fuel with O => Fault "wait_for_output: out of fuel" | Datatypes.S fuel =>
    if negb (is_open (io_fd e) || is_open (msg_fd e)) then mret (None, e, s) else
    match select (round e) (is_open (io_fd e)) (is_open (msg_fd e)) with
    | Interrupted => if retry + 1 <? 3 then wait_loop fuel (retry + 1) (Env (io_fd e) (msg_fd e) (round e + 1) (status e)) s else Barf "select"
    | SelectFailed => Barf "select"
    | Ready io_ready msg_ready =>
        let '(output, fd) :=
          match io_fd e, io_ready with
          | Some out, Some n => let n := Z.min n (OUTPUT_SIZE - 1) in if zlen (ztake n out) =? 0 then (None, None) else (Some (ztake n out), Some (zdrop n out))
          | fd, _ => (None, fd)
          end in
        match output with
        | Some t => mret (Some t, Env fd (msg_fd e) (round e + 1) (status e), s)
        | None =>
            match msg_fd e, msg_ready with
            | Some (m :: msgs), true =>
                '(st, s) ← handle_userspace_message m (status e) s; wait_loop fuel retry (Env fd (Some msgs) (round e + 1) st) s
            | Some [], true => wait_loop fuel retry (Env fd None (round e + 1) (status e)) s
            | mfd, _ => wait_loop fuel retry (Env fd mfd (round e + 1) (status e)) s
            end
        end
    end
  end.

Definition wait_for_output (fuel : nat) (e : env) (s : S) : outcome (option text * env * S) :=
  '(o, e, s) ← wait_loop fuel 0 e s;
  match o with
  | Some t => mret (Some t, e, s)
  | None => mret (None, Env (io_fd e) (msg_fd e) (round e) (if status e =? -1 then default (-1) waitpid else status e), s)
  end.

(** The characters before the first 0, which %s prints. *)
Definition string_of (t : text) : text := take (strcspn t [chr 0]) t.

Fixpoint log_output (fuel : nat) (buf : text) (e : env) (s : S) : outcome (Z * S) :=
  match fuel with O => Fault "run_command: out of fuel" | Datatypes.S fuel =>
    '(o, e, s) ← wait_for_output (Datatypes.S fuel) e s;
    match o with
    | Some output => '(buf, s) ← nfsim_log_partial LOG_USERSPACE buf COMMAND_BUF (string_of output) s; log_output fuel buf e s
    | None => mret (status e, s)
    end
  end.

Definition WIFEXITED (st : Z) : bool := Z.land st 0x7f =? 0.
Definition WEXITSTATUS (st : Z) : Z := Z.shiftr (Z.land st 0xff00) 8.
Definition exited_ok (st : Z) : bool := if st =? -1 then false else WIFEXITED st && (WEXITSTATUS st =? 0).

(** The program that is started. *)
Definition program_name (prefix : option text) (argv0 : text) : text := match prefix with Some p => p ++ tx "/" ++ argv0 | None => argv0 end.
Definition run_command (start_program : text → list text → S → outcome (text * list M * S)) (prefix : option text) (argv : list text) (s : S) : outcome (bool * S) :=
  name ← of_option "run_command: argv[0] is NULL" (program_name prefix <$> head argv);
  '(out, msgs, s) ← start_program name argv s;
  '(st, s) ← log_output (length out + length msgs + 3) [] (Env (Some out) (Some msgs) 0 (-1)) s;
  mret (exited_ok st, s).
End Output.

(** PATH with the places of iptables behind it. *)
Definition iptables_path (path : option text) : text := default (tx "(null)") path ++ tx ":/usr/local/sbin:/sbin:/usr/sbin".
Definition iptables_commands (have_ipv6 : bool) : list text :=
  [tx "iptables"; tx "iptables-save"; tx "iptables-restore"] ++
  if have_ipv6 then [tx "ip6tables"; tx "ip6tables-save"; tx "ip6tables-restore"] else [].

(** ** Every schedule is an order of the same events *)

(** select as documented, when no signal interrupts it: it returns when one of the
    descriptors it was given is ready, and then there is a byte to read or the end. *)
Definition select_ok (select : nat → bool → bool → selected) : Prop := ∀ n a b, a || b = true →
  ∃ io m, select n a b = Ready io m ∧ (is_Some io → a = true) ∧ (m = true → b = true) ∧ (is_Some io ∨ m = true) ∧ (∀ k, io = Some k → 1 <= k).

(** The unfinished line leaves room for what a read can bring. *)
Definition lines_short (cur out : text) : Prop := ∀ a b, out = a ++ b → zlen (split_lines a cur).2 <= COMMAND_BUF - OUTPUT_SIZE - 1.

(** What the simulator does for a program: it logs a line of its output, or handles a message. *)
Inductive event M := Line (t : text) | Message (m : M).
Arguments Line {M}. Arguments Message {M}.
Definition lines_of {M} (evs : list (event M)) : list text := omap (λ e, match e with Line t => Some t | Message _ => None end) evs.
Definition messages_of {M} (evs : list (event M)) : list M := omap (λ e, match e with Line _ => None | Message m => Some m end) evs.

Section Schedule.
Context {S M : Type} `{Logger S}.
Context (handle : M → Z → S → outcome (Z * S)).
Context (select : nat → bool → bool → selected) (Hsel : select_ok select).
Context (waitpid : option Z).
Implicit Types (out cur : text) (msgs : list M) (s : S) (evs : list (event M)).

Fixpoint run_events evs (st : Z) s : outcome (Z * S) :=
  match evs with
  | [] => mret (st, s)
  | Line t :: evs => '(_, s) ← nfsim_log LOG_USERSPACE t s; run_events evs st s
  | Message m :: evs => '(st, s) ← handle m st s; run_events evs st s
  end.
(** No order: the messages first. *)
Definition messages_first (lines : list text) msgs (st : Z) s : outcome (Z * S) :=
  '(st, s) ← run_events (Message <$> msgs) st s; s ← log_all LOG_USERSPACE lines s; mret (st, s).
(** A message and a line of output may change places. *)
Definition quiet : Prop := ∀ m st s t,
  ('(st, s) ← handle m st s; '(_, s) ← nfsim_log LOG_USERSPACE t s; mret (st, s)) = ('(_, s) ← nfsim_log LOG_USERSPACE t s; handle m st s).

Abbreviation wait := (wait_loop handle select).
Definition out_of (fd : option text) : text := default [] fd.
Definition msgs_of (fd : option (list M)) : list M := default [] fd.
Definition weight {A} (fd : option (list A)) : nat := match fd with Some x => Datatypes.S (length x) | None => O end.

Lemma run_events_app e1 e2 st s : run_events (e1 ++ e2) st s = ('(st, s) ← run_events e1 st s; run_events e2 st s).
Proof.
  revert st s. induction e1 as [|[t|m] e1 IH]; intros st s; [done|..]; cbn [app run_events].
  - destruct (nfsim_log _ t s) as [[b s1]| |]; [|done|done]. rewrite !bind_ret. apply IH.
  - destruct (handle m st s) as [[st1 s1]| |]; [|done|done]. rewrite !bind_ret. apply IH.
Qed.
Lemma run_lines lines st s : run_events (Line <$> lines) st s = (s ← log_all LOG_USERSPACE lines s; mret (st, s)).
Proof.
  revert s. induction lines as [|t lines IH]; intros s; [done|]. cbn [fmap list_fmap run_events log_all].
  destruct (nfsim_log _ t s) as [[b s1]| |]; [|done|done]. rewrite !bind_ret. apply IH.
Qed.
Lemma events_app evs1 evs2 : lines_of (evs1 ++ evs2) = lines_of evs1 ++ lines_of evs2 ∧ messages_of (evs1 ++ evs2) = messages_of evs1 ++ messages_of evs2.
Proof. split; apply omap_app. Qed.
Lemma events_plain (lines : list text) msgs : lines_of (Line (M := M) <$> lines) = lines ∧ messages_of (Line (M := M) <$> lines) = [] ∧
  lines_of (Message <$> msgs) = [] ∧ messages_of (Message <$> msgs) = msgs.
Proof. split_and!; [by induction lines; cbn; f_equal|by induction lines|by induction msgs|by induction msgs; cbn; f_equal]. Qed.

(** When messages are quiet only the two orders count. *)
Lemma line_back t msgs st s : quiet →
  ('(_, s) ← nfsim_log LOG_USERSPACE t s; run_events (Message <$> msgs) st s) =
  ('(st, s) ← run_events (Message <$> msgs) st s; '(_, s) ← nfsim_log LOG_USERSPACE t s; mret (st, s)).
Proof.
  intros Q. revert st s. induction msgs as [|m msgs IH]; intros st s; [done|]. cbn [fmap list_fmap run_events]. specialize (Q m st s t).
  destruct (handle m st s) as [[st1 s1]|e|e]; rewrite ?bind_ret in Q |- *.
  - rewrite <-IH. destruct (nfsim_log _ t s) as [[b s2]| |]; rewrite ?bind_ret in Q |- *; [rewrite <-Q|..].
    + by destruct (nfsim_log _ t s1) as [[b1 s3]| |].
    + by destruct (nfsim_log _ t s1) as [[b1 s3]| |].
    + by destruct (nfsim_log _ t s1) as [[b1 s3]| |].
  - destruct (nfsim_log _ t s) as [[b s2]| |]; rewrite ?bind_ret in Q |- *; [by rewrite <-Q|done..].
  - destruct (nfsim_log _ t s) as [[b s2]| |]; rewrite ?bind_ret in Q |- *; [by rewrite <-Q|done..].
Qed.
Lemma quiet_events evs st s : quiet → run_events evs st s = messages_first (lines_of evs) (messages_of evs) st s.
Proof.
  intros Q. revert st s. induction evs as [|[t|m] evs IH]; intros st s; [done|..]; cbn [run_events].
  - change (lines_of (Line t :: evs)) with (t :: lines_of evs). change (messages_of (Line t :: evs)) with (messages_of evs).
    pose proof (line_back t (messages_of evs) st s Q) as E. unfold messages_first in *.
    destruct (nfsim_log _ t s) as [[b s1]| |].
    + rewrite bind_ret in E |- *. rewrite IH, E. destruct (run_events _ st s) as [[st2 s2]| |]; [|done|done]. rewrite !bind_ret. cbn [log_all].
      by destruct (nfsim_log _ t s2) as [[b2 s3]| |].
    + destruct (run_events _ st s) as [[st2 s2]| |]; rewrite ?bind_ret in E |- *; [|done|done]. cbn [log_all].
      by destruct (nfsim_log _ t s2) as [[b2 s3]| |].
    + destruct (run_events _ st s) as [[st2 s2]| |]; rewrite ?bind_ret in E |- *; [|done|done]. cbn [log_all].
      by destruct (nfsim_log _ t s2) as [[b2 s3]| |].
  - change (lines_of (Message m :: evs)) with (lines_of evs). change (messages_of (Message m :: evs)) with (m :: messages_of evs).
    unfold messages_first. cbn [fmap list_fmap run_events]. destruct (handle m st s) as [[st1 s1]| |]; [|done|done]. rewrite !bind_ret. apply IH.
Qed.

(** One call: what it handles, whatever that comes to, and the piece of output it returns. *)
Definition output_taken (fo fo' : option text) (fm' : option (list M)) (o : option text) : Prop :=
  match o with
  | Some t => out_of fo = t ++ out_of fo' ∧ 1 <= zlen t <= OUTPUT_SIZE - 1 ∧ is_open fo' = true
  | None => out_of fo = [] ∧ msgs_of fm' = [] ∧ fo' = None ∧ fm' = None
  end.
Lemma wait_loop_ok : ∀ fuel retry fo fm n, (weight fo + weight fm < fuel)%nat →
  ∃ done o fo' fm' n', msgs_of fm = done ++ msgs_of fm' ∧ output_taken fo fo' fm' o ∧
    ∀ st s, wait fuel retry (Env fo fm n st) s = ('(st, s) ← run_events (Message <$> done) st s; mret (o, Env fo' fm' n' st, s)).
Proof using Hsel.
  induction fuel as [|fuel IH]; intros retry fo fm n Hf; [lia|]. cbn [wait_loop io_fd msg_fd round status].
  destruct (is_open fo || is_open fm) eqn:Eo; cbn [negb].
  2:{ destruct fo as [|], fm as [|]; try done. by exists [], None, None, None, n. }
  destruct (Hsel n _ _ Eo) as (io & m & -> & Hio & Hm & Hsome & Hk).
  set (rd := match fo, io with Some out, Some n => _ | fd, _ => _ end).
  assert (R : (∃ t out', rd = (Some t, Some out') ∧ out_of fo = t ++ out' ∧ 1 <= zlen t <= OUTPUT_SIZE - 1) ∨
              (∃ fd, rd = (None, fd) ∧ out_of fo = out_of fd ∧ (weight fd <= weight fo)%nat ∧ (is_Some io → (weight fd < weight fo)%nat))).
  { unfold rd. destruct fo as [out|]; [|destruct io; [by discriminate (Hio (mk_is_Some _ _ eq_refl))|right; exists None; split_and!; try done; by intros []]].
    destruct io as [j|]; [|right; exists (Some out); split_and!; try done; by intros []]. cbv zeta. specialize (Hk j eq_refl).
    assert (Hz : zlen (ztake (Z.min j (OUTPUT_SIZE - 1)) out) = Z.min (Z.min j (OUTPUT_SIZE - 1)) (zlen out)).
    { unfold ztake, zlen. rewrite length_take. unfold OUTPUT_SIZE. lia. }
    pose proof (zlen_nonneg out) as Hn. unfold OUTPUT_SIZE in *. destruct (Z.eqb_spec (zlen (ztake (Z.min j (1024 - 1)) out)) 0) as [E|E].
    - right. exists None. assert (out = []) as -> by (destruct out; [done|unfold zlen in *; cbn [length] in *; lia]). split_and!; cbn; lia || done.
    - left. do 2 eexists. split_and!; [reflexivity| |lia|lia]. cbn. unfold ztake, zdrop. by rewrite take_drop. }
  destruct R as [(t & out' & -> & Eout & Ht)|(fd & -> & Eout & Hw & Hlt)]; [by exists [], (Some t), (Some out'), fm, (n + 1)%nat|].
  assert (G : ∀ o fo' fm', output_taken fd fo' fm' o → output_taken fo fo' fm' o) by (by intros [t|]; unfold output_taken; rewrite Eout).
  destruct m.
  - destruct fm as [[|x msgs]|]; [| |by specialize (Hm eq_refl)].
    + destruct (IH retry fd None (n + 1)%nat) as (d & o & fo' & fm' & n' & Ed & Ho & E); [cbn in *; lia|]. exists d, o, fo', fm', n'. split_and!; [exact Ed|by apply G|exact E].
    + destruct (IH retry fd (Some msgs) (n + 1)%nat) as (d & o & fo' & fm' & n' & Ed & Ho & E); [cbn in *; lia|]. exists (x :: d), o, fo', fm', n'.
      split_and!; [cbn in *; by rewrite Ed|by apply G|]. intros st s. cbn [fmap list_fmap run_events].
      destruct (handle x st s) as [[st1 s1]| |]; [|done|done]. rewrite !bind_ret. apply E.
  - assert (Hs : is_Some io) by (by destruct Hsome). destruct (IH retry fd fm (n + 1)%nat) as (d & o & fo' & fm' & n' & Ed & Ho & E); [specialize (Hlt Hs); cbn in *; lia|].
    exists d, o, fo', fm', n'. split_and!; [exact Ed|by apply G|]. intros st s. rewrite <-E. by destruct fm as [[|]|].
Qed.

Lemma weight_le {A} (fd : option (list A)) : (weight fd <= Datatypes.S (length (default [] fd)))%nat.
Proof. destruct fd; cbn; lia. Qed.

Lemma string_of_id (t : text) : chr 0 ∉ t → string_of t = t.
Proof.
  intros Ht. unfold string_of. apply take_ge. induction t as [|c t IH]; [cbn; lia|]. apply not_elem_of_cons in Ht as [Hc Ht]. cbn [strcspn].
  destruct (mem c [chr 0]) eqn:E; [apply mem_spec, list_elem_of_singleton in E; congruence|]. cbn [length]. specialize (IH Ht). lia.
Qed.

Lemma log_output_ok : ∀ fuel cur fo fm n, (length (out_of fo) + length (msgs_of fm) + 2 < fuel)%nat →
  no_newline cur → chr 0 ∉ out_of fo → lines_short cur (out_of fo) →
  ∃ evs, lines_of evs = (split_lines (out_of fo) cur).1 ∧ messages_of evs = msgs_of fm ∧
    ∀ st s, log_output handle select waitpid fuel cur (Env fo fm n st) s =
      ('(st, s) ← run_events evs st s; mret (if st =? -1 then default (-1) waitpid else st, s)).
Proof using Hsel.
  induction fuel as [|fuel IH]; intros cur fo fm n Hf Hc Hz Hs; [lia|].
  pose proof (weight_le fo : (_ <= Datatypes.S (length (out_of fo)))%nat) as W1.
  pose proof (weight_le fm : (_ <= Datatypes.S (length (msgs_of fm)))%nat) as W2.
  destruct (wait_loop_ok (Datatypes.S fuel) 0 fo fm n) as (d & o & fo' & fm' & n' & Ed & Ho & E); [lia|].
  destruct (events_plain (split_lines (out_of fo) cur).1 d) as (_ & _ & P3 & P4). destruct o as [t|].
  - destruct Ho as (Eo & Ht & _). rewrite Eo in Hz. apply not_elem_of_app in Hz as [Hz1 Hz2].
    assert (Hfit : zlen cur + zlen t <= PRINTK_BUFSIZ - 2).
    { specialize (Hs [] _ eq_refl). cbn in Hs. unfold COMMAND_BUF, OUTPUT_SIZE in *. lia. }
    pose proof (split_lines_rest t cur Hc) as Hr.
    assert (Hs' : lines_short (split_lines t cur).2 (out_of fo')).
    { intros a b Eab. specialize (Hs (t ++ a) b). rewrite Eo, Eab, <-app_assoc in Hs. specialize (Hs eq_refl). rewrite split_lines_app in Hs.
      destruct (split_lines t cur) as [l1 r1]. cbn [snd]. by destruct (split_lines a r1). }
    destruct (IH (split_lines t cur).2 fo' fm' n') as (evs & El & Em & Ee); [|done..|].
    { rewrite Eo, Ed, !length_app in Hf. unfold zlen in Ht. lia. }
    destruct (events_plain (split_lines t cur).1 []) as (P1 & P2 & _).
    exists ((Message <$> d) ++ (Line <$> (split_lines t cur).1) ++ evs). destruct (events_app (Message <$> d) ((Line <$> (split_lines t cur).1) ++ evs)) as [-> ->].
    destruct (events_app (Line <$> (split_lines t cur).1) evs) as [-> ->]. rewrite P1, P2, P3, P4, El, Em. split_and!; [|done|].
    + rewrite Eo, split_lines_app. destruct (split_lines t cur) as [l1 r1]. cbn [fst snd]. by destruct (split_lines (out_of fo') r1).
    + intros st s. cbn [log_output]. unfold wait_for_output. rewrite E, !run_events_app. destruct (run_events _ st s) as [[st1 s1]| |]; [|done|done].
      rewrite !bind_ret, string_of_id by done. unfold COMMAND_BUF. rewrite partial_spec, run_events_app, run_lines by done.
      destruct (log_all _ _ s1) as [s2| |]; [|done|done]. rewrite !bind_ret. apply Ee.
  - destruct Ho as (Eo & Em & -> & ->). exists (Message <$> d). rewrite P3, P4, Eo, Ed, Em, app_nil_r. split_and!; [done..|].
    intros st s. cbn [log_output]. unfold wait_for_output. rewrite E. by destruct (run_events _ st s) as [[st1 s1]| |].
Qed.

(** C11: running a program comes to the same events however the program, the simulator and
    the descriptors are scheduled and the output is cut into reads.  Handling a message may
    log, change any state and barf.  run_command returns (or stops where a message or a log
    line does): it logs exactly the newline-terminated lines of the whole output, in order,
    and handles every message once, in order; only the order between lines and messages is
    the schedule's.  When handling a message commutes with logging a line (it does not log
    itself, as without strace) the schedule does not count at all.  The command succeeds
    when the status the program sent, or else that of the child, says it exited with 0.
    [out] and [msgs] are what the program writes and sends in this run, each message read
    whole; no signal comes, the output has no byte 0, and unfinished lines leave room in
    the buffer. *)
Theorem run_command_any_schedule start prefix a0 argv out msgs s s0 :
  start (program_name prefix a0) (a0 :: argv) s0 = Ret (out, msgs, s) → chr 0 ∉ out → lines_short [] out →
  let result (r : Z * S) := let '(st, s) := r in (exited_ok (if st =? -1 then default (-1) waitpid else st), s) in
  (∃ evs, lines_of evs = (split_lines out []).1 ∧ messages_of evs = msgs ∧
     run_command handle select waitpid start prefix (a0 :: argv) s0 = (r ← run_events evs (-1) s; mret (result r))) ∧
  (quiet → run_command handle select waitpid start prefix (a0 :: argv) s0 = (r ← messages_first (split_lines out []).1 msgs (-1) s; mret (result r))).
Proof using Hsel.
  intros Hst Hz Hs result. unfold run_command. cbn [head fmap option_fmap option_map of_option]. rewrite bind_ret, Hst, bind_ret.
  destruct (log_output_ok (length out + length msgs + 3) [] (Some out) (Some msgs) 0) as (evs & El & Em & E); [cbn; lia|by intros ?%not_elem_of_nil|done..|].
  cbn [out_of msgs_of default] in El, Em. rewrite E.
  assert (E' : ∀ x : outcome (Z * S), ('(st, s) ← ('(st, s) ← x; mret (if st =? -1 then default (-1) waitpid else st, s)); mret (exited_ok st, s)) = (r ← x; mret (result r)))
    by (by intros [[st1 s1]| |]).
  rewrite E'. split; [by exists evs|]. intros Q. rewrite (quiet_events evs) by done. by rewrite El, Em.
Qed.
End Schedule.

(** A program that writes two lines and the beginning of a third, makes two system calls,
    which strace logs, and exits with 0; descriptors become ready in turn, three bytes at a time. *)
Definition in_turn (n : nat) (a b : bool) : selected :=
  if a && (negb b || Nat.even n) then Ready (Some 3) false else Ready None b.
Definition at_end (n : nat) (a b : bool) : selected := if b then Ready None true else Ready (Some 1000) false.
Lemma in_turn_ok : select_ok in_turn.
Proof.
  intros n [] [] E; try done; unfold in_turn; cbn; [destruct (Nat.even n)| |]; do 2 eexists;
    (split; [reflexivity|]); (split; [try done; by intros []|]); (split; [done|]); (split; [|by intros k [= <-]]); (try by right); left; by eexists.
Qed.
Lemma at_end_ok : select_ok at_end.
Proof.
  intros n a [] E; unfold at_end; do 2 eexists; (split; [reflexivity|]); (split; [by destruct a || by intros []|]); (split; [done|]);
    (split; [|by intros k [= <-]]); (try by right); left; by eexists.
Qed.
Definition two_lines : text := tx "ok" ++ [chr 10] ++ tx "done" ++ [chr 10] ++ tx "cut".
Definition traced (strace : bool) (m : Z + text) (st : Z) (s : log_state) : outcome (Z * log_state) :=
  match m with
  | inl st => mret (st, s)
  | inr call => if strace then '(_, s) ← nfsim_log LOG_USERSPACE (tx "strace: " ++ call) s; mret (st, s) else mret (st, s)
  end.
Definition started (_ : text) (_ : list text) (s : log_state) : outcome (text * list (Z + text) * log_state) :=
  mret (two_lines, [inr (tx "getsockopt"); inr (tx "setsockopt"); inl 0], s).

Lemma lines_short_small cur out : zlen cur + zlen out <= COMMAND_BUF - OUTPUT_SIZE - 1 → lines_short cur out.
Proof.
  intros Hs a b ->. assert (G : zlen (split_lines a cur).2 <= zlen cur + zlen a).
  { clear. revert cur. induction a as [|c a IH]; intros cur; cbn [split_lines]; [cbn; unfold zlen; cbn; lia|]. unfold zlen in *. cbn [length].
    destruct (ascii_eqb c (chr 10)).
    - specialize (IH []). destruct (split_lines a []). cbn [snd length] in *. lia.
    - specialize (IH (cur ++ [c])). rewrite length_app in IH. cbn [length] in IH. lia. }
  rewrite zlen_app in Hs. pose proof (zlen_nonneg b). lia.
Qed.

Lemma quiet_untraced : quiet (traced false).
Proof. intros [st1|c] st s t; cbn [traced]; rewrite bind_ret; by destruct (nfsim_log LOG_USERSPACE t s) as [[b s1]| |]. Qed.
Lemma run_command_any_schedule_witness :
  let run strace select := run_command (traced strace) select None started (Some (tx "/opt")) [tx "iptables"; tx "-L"] log0 in
  let logged l := Ret (true, LogState (-1) true l (ExpectState [] [])) in
  run true in_turn = logged [tx "ok"; tx "strace: getsockopt"; tx "strace: setsockopt"; tx "done"] ∧
  run true at_end = logged [tx "strace: getsockopt"; tx "strace: setsockopt"; tx "ok"; tx "done"] ∧
  (∃ evs, lines_of evs = [tx "ok"; tx "done"] ∧ messages_of evs = [inr (tx "getsockopt"); inr (tx "setsockopt"); inl 0] ∧
     run true in_turn = (r ← run_events (traced true) evs (-1) log0; mret (exited_ok (if r.1 =? -1 then -1 else r.1), r.2))) ∧
  run false in_turn = logged [tx "ok"; tx "done"] ∧ run false at_end = logged [tx "ok"; tx "done"].
Proof.
  assert (Hz : chr 0 ∉ two_lines) by (by vm_compute; intros Hz; repeat (apply elem_of_cons in Hz as [|Hz]; [done|]); apply not_elem_of_nil in Hz).
  assert (Hs : lines_short [] two_lines) by (apply lines_short_small; vm_compute; discriminate).
  pose proof quiet_untraced as Hq.
  cbv zeta. split_and!; [vm_compute; reflexivity|vm_compute; reflexivity| | |].
  - destruct (run_command_any_schedule (traced true) in_turn in_turn_ok None started (Some (tx "/opt")) (tx "iptables") [tx "-L"] two_lines _ log0 log0 eq_refl Hz Hs)
      as [(evs & El & Em & E) _]. exists evs. split; [rewrite El; vm_compute; reflexivity|]. split; [exact Em|]. rewrite E. by destruct (run_events _ evs (-1) log0) as [[st1 s1]| |].
  - rewrite (proj2 (run_command_any_schedule (traced false) in_turn in_turn_ok None started (Some (tx "/opt")) (tx "iptables") [tx "-L"] two_lines _ log0 log0 eq_refl Hz Hs) Hq).
    vm_compute. reflexivity.
  - rewrite (proj2 (run_command_any_schedule (traced false) at_end at_end_ok None started (Some (tx "/opt")) (tx "iptables") [tx "-L"] two_lines _ log0 log0 eq_refl Hz Hs) Hq).
    vm_compute. reflexivity.
Defined.

(** The third interruption ends the simulator; and the beginning of a line is not logged. *)
Lemma interrupted_thrice : wait_loop (S := unit) (M := Z) (λ m st s, mret (st, s)) (λ _ _ _, Interrupted) 9 0 (Env (Some []) None 0 0) tt = Barf "select".
Proof. reflexivity. Qed.
