(* ===== verification/Tui.v ===== *)
(** * core/tui.c: command lines and scripts

    A line is cut into arguments, with `...` replaced by the escaped output of a
    shell command; the command's handler runs between the pre and post hooks.  The
    handlers and hooks of all components work on one state, [tui_state W]. *)

From Stdlib Require Import ZArith Lia.
From S2P Require Import Prelude CStr Mem Expect Log.

Definition TUI_MAX_ARGS : nat := 128.
Definition TUI_MAX_CMD_LEN : Z := 1024.

Record tui_state (W : Type) := TuiState {
  tui_linenum : Z;
  stop : bool;
  echoed : list text;
  world : W;
}.
Arguments TuiState {W}. Arguments tui_linenum {W}. Arguments stop {W}. Arguments echoed {W}. Arguments world {W}.

Definition with_world {W} (w : W) (s : tui_state W) : tui_state W :=
  TuiState (tui_linenum s) (stop s) (echoed s) w.

#[export] Instance tui_logger {W} `{Logger W} : Logger (tui_state W) := λ type line s,
  '(r, w) ← nfsim_log type line (world s); mret (r, with_world w s).

(** [script_fail] prints its message and exits. *)
Definition script_fail {A} (msg : text) : outcome A := Barf (String.string_of_list_ascii (tx "script_fail: " ++ msg)).

Section Tui.
Context {W : Type} `{LW : Logger W}.
Abbreviation st := (tui_state W).

Record command := Command {
  name : text;
  handler : list text → st → outcome (bool * st);
  helpfn : option (list text → st → outcome st);
}.
Record pre_post_hook := Hook {
  pre : option (text → st → outcome st);
  post : option (text → st → outcome (bool * st));
}.

(** Registration puts the new entry first. *)
Definition tui_register_command (cmd : text) h helpfn (commands : list command) : outcome (list command) :=
  if zlen cmd <? TUI_MAX_CMD_LEN then mret (Command cmd h helpfn :: commands)
  else Barf "assert: strlen(command) < TUI_MAX_CMD_LEN".
Definition tui_register_pre_post_hook pre post (hooks : list pre_post_hook) : list pre_post_hook := Hook pre post :: hooks.

Definition find_command (n : text) (commands : list command) : option command :=
  snd <$> list_find (λ c, n = name c) commands.
Definition tui_is_command (n : text) (commands : list command) : bool :=
  match find_command n commands with Some _ => true | None => false end.

Fixpoint do_pre_commands (cmd : text) (hooks : list pre_post_hook) (s : st) : outcome st :=
  match hooks with
  | [] => mret s
  | i :: hooks =>
      s ← (match pre i with Some f => f cmd s | None => mret s end);
      do_pre_commands cmd hooks s
  end.
Fixpoint do_post_commands (cmd : text) (hooks : list pre_post_hook) (ret : bool) (s : st) : outcome (bool * st) :=
  match hooks with
  | [] => mret (ret, s)
  | i :: hooks =>
      '(r, s) ← (match post i with Some f => f cmd s | None => mret (true, s) end);
      do_post_commands cmd hooks (if r : bool then ret else false) s
  end.

Definition tui_exit (argv : list text) (s : st) : outcome (bool * st) :=
  mret (true, TuiState (tui_linenum s) true (echoed s) (world s)).

Fixpoint log_numbered (i : Z) (argv : list text) (s : st) : outcome st :=
  match argv with
  | [] => mret s
  | a :: argv =>
      '(_, s) ← nfsim_log LOG_ALWAYS (tx "argv[" ++ print_d i ++ tx "]: " ++ [chr 34] ++ a ++ [chr 34]) s;
      log_numbered (i + 1) argv s
  end.
Definition tui_argtest (argv : list text) (s : st) : outcome (bool * st) :=
  s ← log_numbered 0 argv s; mret (true, s).

Definition tui_help (commands : list command) (argv : list text) (s : st) : outcome (bool * st) :=
  match argv with
  | [] => Fault "tui_help: argc is 0"
  | [_] =>
      '(_, s) ← nfsim_log LOG_ALWAYS (tx "Netfilter Simulator" ++ [chr 10] ++ tx "help is available on the folowing commands:") s;
      s ← log_all LOG_ALWAYS (map (λ c, chr 9 :: name c) (filter (λ c, is_Some (helpfn c)) commands)) s;
      mret (true, s)
  | _ :: ((a :: _) as rest) =>
      match find_command a commands with
      | None => '(_, s) ← nfsim_log LOG_ALWAYS (tx "No such command '" ++ a ++ tx "'") s; mret (false, s)
      | Some c =>
          match helpfn c with
          | None => '(_, s) ← nfsim_log LOG_ALWAYS (tx "No help for the '" ++ a ++ tx "' function") s; mret (false, s)
          | Some f => s ← f rest s; mret (true, s)
          end
      end
  end.

Definition tui_do_command (commands : list command) (hooks : list pre_post_hook) (abort : bool) (argv : list text) (s : st) :
    outcome (bool * st) :=
  match argv with
  | [] => Fault "tui_do_command: argv[0] is NULL"
  | a0 :: _ =>
      match find_command a0 commands with
      | Some cmd =>
          s ← do_pre_commands (name cmd) hooks s;
          '(ok, s) ← handler cmd argv s;
          '(ret, s) ← (if ok : bool then mret (true, s) else
            '(expected, s) ← nfsim_log LOG_UI (a0 ++ tx ": command failed") s;
            if negb expected && abort then script_fail (a0 ++ tx " failed") else mret (false, s));
          '(ok, s) ← do_post_commands (name cmd) hooks true s;
          mret (if ok : bool then ret else false, s)
      | None =>
          if abort then script_fail (a0 ++ tx " not found") else
          '(_, s) ← nfsim_log LOG_UI (a0 ++ tx ": command not found") s; mret (false, s)
      end
  end.

(** ** Backquotes *)

Definition hexbuf : text := tx "0123456789abcdef".
Definition hexdigit (n : Z) : ascii := char_at hexbuf (Z.to_nat n).

(** One byte of escape(). *)
Definition escape_char (c : ascii) : text :=
  if ascii_eqb c (chr 10) then tx "\n"
  else if ascii_eqb c (chr 13) then tx "\r"
  else if ascii_eqb c (chr 0) then tx "\0"
  else if ascii_eqb c (chr 9) then tx "\t"
  else if ascii_eqb c "\" then tx "\\"
  else if negb (Z.land (code c) 0x80 =? 0) || (Z.land (code c) 0xe0 =? 0) then
    tx "\x" ++ [hexdigit (Z.land (Z.shiftr (code c) 4) 0xf); hexdigit (Z.land (code c) 0xf)]
  else [c].

(** The escaped string must fit in the [src_len * 4 + 1] bytes allocated. *)
Definition escape (src : text) : outcome text :=
  let dest := src ≫= escape_char in
  if zlen dest <? zlen src * 4 + 1 then mret dest else Fault "escape: write past the end".

(** [popen]: the shell's output, [None] when it cannot be run or fails. *)
Context (extension_path : text) (popen : text → option text).

(** From behind the first backquote: the text to insert and the rest of the line
    behind the second.  The buffer doubles up to 2 MB; output that fills it fails. *)
Definition backquote (line : text) : outcome (text * text) :=
  match strchr line "`" with
  | None => script_fail (tx "no matching " ++ [chr 34; "`"%char; chr 34] ++ tx " found")
  | Some len =>
      let cmdstr := tx "PATH=" ++ extension_path ++ tx "; " ++ take len line in
      match popen cmdstr with
      | None => script_fail (tx "command '" ++ cmdstr ++ tx "' failed")
      | Some out =>
          if 2 * 1024 * 1024 <=? zlen out then script_fail (tx "command '" ++ cmdstr ++ tx "' output too long")
          else str ← escape out; mret (str, drop (S len) line)
      end
  end.

(** ** Lines *)

(** [argv[argc]] within the [TUI_MAX_ARGS + 1] entries. *)
Definition argv_index (argc : nat) : outcome unit :=
  if (argc <=? TUI_MAX_ARGS)%nat then mret () else Fault "argv: index out of bounds".

(** The loop over the line: [args] the arguments before [argv[argc]], [cur] that
    one; [None] for a comment line. *)
Fixpoint split_args (fuel : nat) (line : text) (args : list text) (cur : option text) :
    outcome (option (list text * option text)) :=
  match fuel, line with
  | _, [] => mret (Some (args, cur))
  | O, _ => Fault "split_args: out of fuel"
  | S fuel, c :: line =>
      if isspace c then
        _ ← argv_index (length args);
        match cur with
        | Some a => split_args fuel line (args ++ [a]) None
        | None => split_args fuel line args None
        end
      else if ascii_eqb c "`" then
        '(inside, line) ← backquote line;
        _ ← argv_index (length args);
        split_args fuel line args (Some (default [] cur ++ inside))
      else if bool_decide (args = [] ∧ cur = None) && ascii_eqb c "#" then mret None
      else
        _ ← argv_index (length args);
        split_args fuel line args (Some (default [] cur ++ [c]))
  end.

(** Run-time settings. *)
Context (commands : list command) (hooks : list pre_post_hook) (tui_echo_commands tui_abort_on_fail : bool).

Definition next_line (s : st) : st := TuiState (s32 (tui_linenum s + 1)) (stop s) (echoed s) (world s).

Definition echo_line (line : text) (s : st) : st :=
  if tui_echo_commands
  then TuiState (tui_linenum s) (stop s) (echoed s ++ [print_u (u32 (tui_linenum s)) ++ tx ":" ++ line]) (world s)
  else s.

Definition process_line (line : text) (s : st) : outcome st :=
  let s := echo_line line s in
  r ← split_args (length line) line [] None;
  match r with
  | None => mret (next_line s)
  | Some ([], None) => mret (next_line s)
  | Some (args, cur) =>
      _ ← argv_index (length args);
      argv ← (match cur with
              | Some a => _ ← argv_index (S (length args)); mret (args ++ [a])
              | None => mret args
              end);
      '(_, s) ← tui_do_command commands hooks tui_abort_on_fail argv s;
      mret (next_line s)
  end.

(** One line typed at the prompt. *)
Definition readline_process_line (line : option text) (s : st) : outcome st :=
  match line with
  | None => mret (TuiState (tui_linenum s) true (echoed s) (world s))
  | Some l => process_line l s
  end.

(** A script: [file] the bytes read; lines end at a newline or a NUL. *)
Fixpoint run_whole_file (fuel : nat) (file : text) (s : st) : outcome st :=
  match file, fuel with
  | [], _ => mret s
  | _, O => Fault "run_whole_file: out of fuel"
  | _, S fuel =>
      let len := strcspn file [chr 10; NUL] in
      s ← process_line (take len file) s;
      run_whole_file fuel (drop (S len) file) s
  end.

(** tui_run: the lines typed at the prompt until one stops it or the input ends, or a file. *)
Fixpoint prompt_loop (lines : list text) (s : st) : outcome st :=
  if stop s then mret s else
  match lines with
  | [] => readline_process_line None s
  | l :: lines => s ← readline_process_line (Some l) s; prompt_loop lines s
  end.
Definition tui_run (input : list text + text) (s : st) : outcome st :=
  match input with
  | inl lines => prompt_loop lines (TuiState (tui_linenum s) false (echoed s) (world s))
  | inr file => run_whole_file (length file) file s
  end.

(** ** What a script says *)

(** A word is made of plain characters and commands in backquotes. *)
Inductive piece := Plain (t : text) | Subst (cmd : text).
Definition word := list piece.

(** A comment, or words with what separates them. *)
Inductive sline :=
| Comment (indent t : text)
| Words (ws : list (text * word)) (trail : text).

Definition render_piece (p : piece) : text :=
  match p with Plain t => t | Subst c => "`"%char :: c ++ ["`"%char] end.
Definition render_word (w : word) : text := w ≫= render_piece.
Definition render_line (l : sline) : text :=
  match l with
  | Comment indent t => indent ++ "#"%char :: t
  | Words ws trail => (ws ≫= λ p, p.1 ++ render_word p.2) ++ trail
  end.
Definition render (ls : list sline) : text := ls ≫= λ l, render_line l ++ [chr 10].

Definition eval_piece (p : piece) : option text :=
  match p with
  | Plain t => Some t
  | Subst c => out ← popen (tx "PATH=" ++ extension_path ++ tx "; " ++ c);
      if 2 * 1024 * 1024 <=? zlen out then None else Some (out ≫= escape_char)
  end.
Definition eval_word (w : word) : option text := @concat ascii <$> mapM eval_piece w.

Definition eol (c : ascii) : bool := ascii_eqb c (chr 10) || ascii_eqb c NUL.
Definition wf_sep (t : text) : bool := forallb (λ c, isspace c && negb (eol c)) t.
Definition wf_piece (p : piece) : bool :=
  match p with
  | Plain t => negb (bool_decide (t = [])) && forallb (λ c, negb (isspace c) && negb (eol c) && negb (ascii_eqb c "`")) t
  | Subst c => forallb (λ c, negb (eol c) && negb (ascii_eqb c "`")) c
  end.
Definition wf_word (w : word) : bool := negb (bool_decide (w = [])) && forallb wf_piece w.
(** Words after the first have a separator before them; the first does not start a
    comment. *)
Definition wf_line (l : sline) : bool :=
  match l with
  | Comment indent t => wf_sep indent && forallb (λ c, negb (eol c)) t
  | Words ws trail =>
      wf_sep trail && forallb (λ p : text * word, wf_sep p.1 && wf_word p.2) ws &&
      forallb (λ p : text * word, negb (bool_decide (p.1 = []))) (tail ws) &&
      match ws with (_, Plain (c :: _) :: _) :: _ => negb (ascii_eqb c "#") | _ => true end
  end.

(** The command of a line, when its backquoted commands succeed. *)
Definition line_args (l : sline) : option (list text) :=
  match l with Comment _ _ => Some [] | Words ws _ => mapM (λ p : text * word, eval_word p.2) ws end.

Definition run_line (l : sline) (s : st) : outcome st :=
  let s := echo_line (render_line l) s in
  match line_args l with
  | None | Some [] => mret (next_line s)
  | Some argv => '(_, s) ← tui_do_command commands hooks tui_abort_on_fail argv s; mret (next_line s)
  end.
Fixpoint run_script (ls : list sline) (s : st) : outcome st :=
  match ls with
  | [] => mret s
  | l :: ls => s ← run_line l s; run_script ls s
  end.

(** ** Lemmas *)

Lemma strchr_bound t c n : strchr t c = Some n → c ≠ NUL → (n < length t)%nat.
Proof.
  intros Hn Hc. revert n Hn. induction t as [|d t IH]; intros n; simpl.
  - unfold ascii_eqb. by rewrite bool_decide_eq_false_2.
  - destruct (ascii_eqb c d); [intros [= <-]; lia|]. destruct (strchr t c); [|done]. intros [= <-]. specialize (IH _ eq_refl). lia.
Qed.

Lemma backquote_shorter line ins rest : backquote line = Ret (ins, rest) → (S (length rest) <= length line)%nat.
Proof.
  unfold backquote. destruct (strchr line "`") as [n|] eqn:E; [|done]. pose proof (strchr_bound _ _ _ E ltac:(done)).
  destruct (popen _); [|done]. destruct (_ <=? _); [done|]. intros Hr. inv_bind. rewrite length_drop. lia.
Qed.

(** Enough fuel is enough. *)
Lemma split_args_fuel : ∀ f1 f2 line args cur, (length line <= f1)%nat → (length line <= f2)%nat →
  split_args f1 line args cur = split_args f2 line args cur.
Proof.
  induction f1 as [|f1 IH]; intros f2 line args cur H1 H2; (destruct line as [|c line]; [by destruct f2|]); simpl in H1, H2; [lia|].
  destruct f2 as [|f2]; [lia|]. cbn [split_args]. destruct (isspace c).
  { destruct (argv_index _); [|done..]. rewrite !bind_ret. destruct cur; apply IH; lia. }
  destruct (ascii_eqb c "`").
  { destruct (backquote line) as [[ins rest]| |] eqn:E; [|done..]. rewrite !bind_ret.
    pose proof (backquote_shorter _ _ _ E). destruct (argv_index _); [|done..]. apply IH; lia. }
  destruct (_ && _); [done|]. destruct (argv_index _); [|done..]. apply IH; lia.
Qed.

(** The loop run to the end of the line. *)
Definition split (line : text) args cur := split_args (length line) line args cur.

Lemma split_cons c line args cur : split (c :: line) args cur =
  if isspace c then
    _ ← argv_index (length args);
    match cur with Some a => split line (args ++ [a]) None | None => split line args None end
  else if ascii_eqb c "`" then
    '(inside, line) ← backquote line; _ ← argv_index (length args); split line args (Some (default [] cur ++ inside))
  else if bool_decide (args = [] ∧ cur = None) && ascii_eqb c "#" then mret None
  else _ ← argv_index (length args); split line args (Some (default [] cur ++ [c])).
Proof.
  unfold split. cbn [length split_args]. destruct (isspace c); [done|]. destruct (ascii_eqb c "`"); [|done].
  destruct (backquote line) as [[ins rest]| |] eqn:E; [|done..]. rewrite !bind_ret.
  destruct (argv_index _); [|done..]. rewrite !bind_ret. apply split_args_fuel; [|lia].
  pose proof (backquote_shorter _ _ _ E). lia.
Qed.

Lemma argv_index_ok n : (n <= TUI_MAX_ARGS)%nat → argv_index n = Ret ().
Proof. intros. unfold argv_index. by rewrite (proj2 (Nat.leb_le _ _)). Qed.

Lemma split_sep ws line args cur : wf_sep ws = true → (length args + 1 <= TUI_MAX_ARGS)%nat →
  split (ws ++ line) args cur =
    match ws, cur with [], _ => split line args cur | _, Some a => split line (args ++ [a]) None | _, None => split line args None end.
Proof.
  intros Hws Hlen. assert (G : ∀ ws args, wf_sep ws = true → (length args <= TUI_MAX_ARGS)%nat →
    split (ws ++ line) args None = split line args None).
  { clear. induction ws as [|c ws IH]; intros args Hws Hlen; [done|]. cbn [app wf_sep forallb] in *.
    apply andb_true_iff in Hws as [[Hc _]%andb_true_iff Hws]. rewrite split_cons, Hc, argv_index_ok, bind_ret by done. by apply IH. }
  destruct ws as [|c ws]; [done|]. cbn [app wf_sep forallb] in *.
  apply andb_true_iff in Hws as [[Hc _]%andb_true_iff Hws]. rewrite split_cons, Hc, argv_index_ok, bind_ret by lia.
  destruct cur; apply G; rewrite ?length_app; simpl; (done || lia).
Qed.

Lemma split_plain t line args cur :
  forallb (λ c, negb (isspace c) && negb (eol c) && negb (ascii_eqb c "`")) t = true → (length args <= TUI_MAX_ARGS)%nat →
  t ≠ [] → (args ≠ [] ∨ is_Some cur ∨ hd0 t ≠ "#"%char) →
  split (t ++ line) args cur = split line args (Some (default [] cur ++ t)).
Proof.
  intros Ht Hlen. revert cur. induction t as [|c t IH]; intros cur Hne Hc; [done|]. cbn [app forallb] in *.
  apply andb_true_iff in Ht as [[[Hs _]%andb_true_iff Hb]%andb_true_iff Ht].
  apply negb_true_iff in Hs, Hb. rewrite split_cons, Hs, Hb.
  assert ((bool_decide (args = [] ∧ cur = None) && ascii_eqb c "#") = false) as ->.
  { apply andb_false_iff. destruct Hc as [Hc|[[a ->]|Hc]].
    - left. apply bool_decide_eq_false_2. tauto.
    - left. apply bool_decide_eq_false_2. intros [_ ?]. done.
    - right. by apply bool_decide_eq_false_2. }
  rewrite argv_index_ok, bind_ret by done. destruct t as [|c' t]; [done|].
  rewrite (IH Ht) by (done || (right; left; by eexists)). simpl. by rewrite <-app_assoc.
Qed.

Lemma escape_ok src : escape src = Ret (src ≫= escape_char).
Proof.
  unfold escape. rewrite (proj2 (Z.ltb_lt _ _)); [done|]. induction src as [|c src IH]; [by vm_compute|].
  change ((c :: src) ≫= escape_char) with (escape_char c ++ (src ≫= escape_char)). rewrite zlen_app.
  assert (zlen (escape_char c) <= 4) by (unfold escape_char; repeat (case_match; [by vm_compute|]); by vm_compute).
  unfold zlen in *. simpl. lia.
Qed.

Lemma strchr_app t c rest : c ∉ t → strchr (t ++ c :: rest) c = Some (length t).
Proof.
  induction t as [|d t IH]; intros Hc; simpl.
  - unfold ascii_eqb. by rewrite bool_decide_eq_true_2.
  - apply not_elem_of_cons in Hc as [Hd Hc]. unfold ascii_eqb. rewrite bool_decide_eq_false_2 by done. by rewrite IH.
Qed.

Lemma split_subst c ins line args cur : wf_piece (Subst c) = true → eval_piece (Subst c) = Some ins →
  (length args <= TUI_MAX_ARGS)%nat →
  split (render_piece (Subst c) ++ line) args cur = split line args (Some (default [] cur ++ ins)).
Proof.
  intros Hc He Hlen. cbn [render_piece app]. rewrite <-app_assoc. cbn [app]. rewrite split_cons.
  change (isspace "`") with false. change (ascii_eqb "`" "`") with true. cbv iota.
  assert (Hn : "`"%char ∉ c).
  { intros Hin. cbn [wf_piece] in Hc. rewrite forallb_forall in Hc. specialize (Hc _ (proj1 (list_elem_of_In _ _) Hin)).
    apply andb_true_iff in Hc as [_ Hc]. done. }
  unfold backquote. rewrite strchr_app by done. rewrite take_app_length. cbn [eval_piece] in He.
  destruct (popen _) as [out|]; [|done]. cbn [mbind option_bind] in He.
  destruct (_ <=? _); [done|]. injection He as <-. rewrite escape_ok, !bind_ret, argv_index_ok, bind_ret by done.
  replace (drop (S (length c)) (c ++ "`"%char :: line)) with line; [done|].
  replace (S (length c)) with (length c + 1)%nat by lia. by rewrite drop_app_add.
Qed.

Definition starts_comment (w : word) : bool :=
  match w with Plain (c :: _) :: _ => ascii_eqb c "#" | _ => false end.

Lemma split_pieces line args : (length args <= TUI_MAX_ARGS)%nat → ∀ w a t, forallb wf_piece w = true → eval_word w = Some t →
  split (render_word w ++ line) args (Some a) = split line args (Some (a ++ t)).
Proof.
  intros Hlen. induction w as [|p w IH]; intros a t Hw He; unfold eval_word in *; cbn [forallb mapM] in *.
  - injection He as <-. by rewrite app_nil_r.
  - apply andb_true_iff in Hw as [Hp Hw]. destruct (eval_piece p) as [t1|] eqn:E1; [|done]. cbn [mbind option_bind] in He.
    destruct (mapM eval_piece w) as [ts|] eqn:E2; [|done]. injection He as <-. cbn [concat].
    change (render_word (p :: w)) with (render_piece p ++ render_word w). rewrite <-app_assoc, (app_assoc a).
    destruct p as [t0|c].
    + injection E1 as <-. cbn [wf_piece] in Hp. apply andb_true_iff in Hp as [Hn Hp].
      cbn [render_piece]. rewrite split_plain; [|done|done| |right; left; by eexists].
      * by apply IH.
      * apply negb_true_iff in Hn. by apply bool_decide_eq_false in Hn.
    + rewrite (split_subst c t1) by done. by apply IH.
Qed.

Lemma split_word line args w t : wf_word w = true → eval_word w = Some t → (length args <= TUI_MAX_ARGS)%nat →
  (args ≠ [] ∨ starts_comment w = false) →
  split (render_word w ++ line) args None = split line args (Some t).
Proof.
  intros Hw He Hlen Hc. unfold wf_word in Hw. apply andb_true_iff in Hw as [Hne Hw].
  destruct w as [|p w]; [done|]. unfold eval_word in He. cbn [forallb mapM] in *.
  apply andb_true_iff in Hw as [Hp Hw]. destruct (eval_piece p) as [t1|] eqn:E1; [|done]. cbn [mbind option_bind] in He.
  destruct (mapM eval_piece w) as [ts|] eqn:E2; [|done]. injection He as <-. cbn [concat].
  assert (Hrest : ∀ a, split (render_word w ++ line) args (Some a) = split line args (Some (a ++ concat ts))).
  { intros a. apply split_pieces; [done..|]. unfold eval_word. by rewrite E2. }
  change (render_word (p :: w)) with (render_piece p ++ render_word w). rewrite <-app_assoc.
  destruct p as [t0|c].
  - injection E1 as <-. cbn [wf_piece] in Hp. apply andb_true_iff in Hp as [Hn Hp].
    apply negb_true_iff, bool_decide_eq_false in Hn. cbn [render_piece]. rewrite split_plain; [apply Hrest|done|done|done|].
    destruct Hc as [Hc|Hc]; [by left|right; right]. destruct t0; [done|]. simpl in *. by apply bool_decide_eq_false in Hc.
  - rewrite (split_subst c t1) by done. apply Hrest.
Qed.

(** The words of a line, behind what has been read of it. *)
Lemma split_words trail : wf_sep trail = true → ∀ ws args cur argv,
  forallb (λ p : text * word, wf_sep p.1 && wf_word p.2) ws = true →
  forallb (λ p : text * word, negb (bool_decide (p.1 = []))) ws = true →
  mapM (λ p : text * word, eval_word p.2) ws = Some argv →
  (length args + length argv + 1 <= TUI_MAX_ARGS)%nat → args ++ option_list cur ≠ [] →
  ∃ args' cur', split ((ws ≫= λ p, p.1 ++ render_word p.2) ++ trail) args cur = Ret (Some (args', cur')) ∧
    args' ++ option_list cur' = args ++ option_list cur ++ argv ∧ (length args' <= length args + length argv + 1)%nat.
Proof.
  intros Ht. induction ws as [|[sep w] ws IH]; intros args cur argv Hwf Hsep He Hlen Hne; cbn [forallb mapM fst snd] in *.
  - injection He as <-. simpl in Hlen. cbn [mbind list_bind app]. rewrite <-(app_nil_r trail).
    rewrite split_sep by (done || lia). rewrite (app_nil_r (option_list cur)).
    destruct trail as [|c0 trail]; [exists args, cur; simpl; split_and!; [done|done|lia]|].
    destruct cur as [a|]; [exists (args ++ [a]), None|exists args, None]; simpl; rewrite ?app_nil_r;
      (split_and!; [done|done|rewrite ?length_app; simpl; lia]).
  - apply andb_true_iff in Hwf as [[Hs Hw]%andb_true_iff Hwf]. apply andb_true_iff in Hsep as [Hn Hsep].
    apply negb_true_iff, bool_decide_eq_false in Hn. destruct (eval_word w) as [t|] eqn:Ew; [|done]. cbn [mbind option_bind] in He.
    destruct (mapM _ ws) as [ts|] eqn:Ews; [|done]. injection He as <-. cbn [length] in Hlen.
    change (((sep, w) :: ws) ≫= λ p, p.1 ++ render_word p.2) with ((sep ++ render_word w) ++ (ws ≫= λ p, p.1 ++ render_word p.2)).
    rewrite <-!app_assoc. rewrite split_sep by (done || lia). destruct sep as [|c0 sep]; [done|].
    assert (Hgo : ∀ args1, args1 ≠ [] → (length args1 <= length args + 1)%nat → args1 = args ++ option_list cur →
      ∃ args' cur', split (render_word w ++ (ws ≫= λ p, p.1 ++ render_word p.2) ++ trail) args1 None = Ret (Some (args', cur')) ∧
        args' ++ option_list cur' = args ++ option_list cur ++ t :: ts ∧ (length args' <= length args + S (length ts) + 1)%nat).
    { intros args1 Hne1 Hlen1 Heq. rewrite (split_word _ _ w t) by (done || lia || auto).
      destruct (IH args1 (Some t) ts) as (args' & cur' & E & Happ & Hl'); [done..|lia|by destruct args1|].
      exists args', cur'. split_and!; [done| |lia]. rewrite Happ, Heq, <-!app_assoc. done. }
    destruct cur as [a|]; simpl in *.
    + apply Hgo; [by destruct args|rewrite length_app; simpl; lia|done].
    + apply Hgo; [by rewrite app_nil_r in Hne|lia|by rewrite app_nil_r].
Qed.

Lemma split_line ws trail argv : wf_line (Words ws trail) = true → line_args (Words ws trail) = Some argv →
  (length argv < TUI_MAX_ARGS)%nat →
  ∃ args cur, split (render_line (Words ws trail)) [] None = Ret (Some (args, cur)) ∧
    args ++ option_list cur = argv ∧ (length args <= length argv)%nat.
Proof.
  intros Hwf He Hlen. cbn [wf_line line_args render_line] in *.
  apply andb_true_iff in Hwf as [[[Ht Hwf]%andb_true_iff Hsep]%andb_true_iff Hc].
  destruct ws as [|[sep w] ws]; cbn [forallb mapM tail fst snd] in *.
  - injection He as <-. cbn [mbind list_bind app]. rewrite <-(app_nil_r trail), split_sep by (done || simpl; lia).
    exists [], None. by destruct trail.
  - apply andb_true_iff in Hwf as [[Hs Hw]%andb_true_iff Hwf].
    destruct (eval_word w) as [t|] eqn:Ew; [|done]. cbn [mbind option_bind] in He.
    destruct (mapM _ ws) as [ts|] eqn:Ews; [|done]. injection He as <-. cbn [length] in Hlen.
    change (((sep, w) :: ws) ≫= λ p, p.1 ++ render_word p.2) with ((sep ++ render_word w) ++ (ws ≫= λ p, p.1 ++ render_word p.2)).
    rewrite <-!app_assoc. rewrite split_sep by (done || simpl; lia).
    assert (Hsc : starts_comment w = false).
    { unfold starts_comment. destruct w as [|[[|c0 t0]|c] w]; try done. by apply negb_true_iff in Hc. }
    replace (match sep with [] => _ | _ :: _ => _ end)
      with (split (render_word w ++ (ws ≫= λ p, p.1 ++ render_word p.2) ++ trail) [] None) by (by destruct sep).
    rewrite (split_word _ _ w t) by (done || (simpl; lia) || auto).
    destruct (split_words trail Ht ws [] (Some t) ts) as (args & cur & E & Happ & _); [done..|simpl; lia|done|].
    exists args, cur. split_and!; [done|done|].
    assert (length (args ++ option_list cur) = length (t :: ts)) as Hl by (by rewrite Happ).
    rewrite length_app in Hl. simpl in *. lia.
Qed.

Lemma process_line_spec l s argv : wf_line l = true → line_args l = Some argv → (length argv < TUI_MAX_ARGS)%nat →
  process_line (render_line l) s = run_line l s.
Proof.
  intros Hwf He Hlen. unfold run_line, process_line. rewrite He. destruct l as [indent t|ws trail].
  - injection He as <-. cbn [wf_line] in Hwf. apply andb_true_iff in Hwf as [Hs _].
    fold (split (render_line (Comment indent t)) [] None). cbn [render_line].
    rewrite split_sep by (done || simpl; lia).
    replace (match indent with [] => _ | _ :: _ => _ end) with (split ("#"%char :: t) [] None) by (by destruct indent).
    rewrite split_cons. done.
  - destruct (split_line ws trail argv Hwf He Hlen) as (args & cur & E & <- & Hl).
    fold (split (render_line (Words ws trail)) [] None). rewrite E, bind_ret.
    rewrite length_app in Hlen. destruct cur as [a|]; simpl in Hlen |- *.
    + rewrite !argv_index_ok by lia. rewrite !bind_ret.
      destruct args; simpl; [done|]. done.
    + rewrite app_nil_r. destruct args; [done|]. rewrite argv_index_ok by lia. done.
Qed.

Lemma eol_strcspn l rest : forallb (λ c, negb (eol c)) l = true → strcspn (l ++ chr 10 :: rest) [chr 10; NUL] = length l.
Proof.
  intros Hl. induction l as [|c l IH]; [done|]. cbn [app strcspn forallb length] in *.
  apply andb_true_iff in Hl as [Hc Hl]. apply negb_true_iff in Hc. unfold eol, ascii_eqb in Hc.
  apply orb_false_iff in Hc as [H1%bool_decide_eq_false H2%bool_decide_eq_false].
  unfold mem. rewrite bool_decide_eq_false_2 by set_solver. by rewrite IH.
Qed.

Lemma forallb_app_b {A} (f : A → bool) l1 l2 : forallb f (l1 ++ l2) = forallb f l1 && forallb f l2.
Proof. induction l1 as [|x l1 IH]; simpl; [done|]. by rewrite IH, andb_assoc. Qed.
Lemma forallb_impl {A} (f g : A → bool) l : (∀ x, f x = true → g x = true) → forallb f l = true → forallb g l = true.
Proof. intros Hi. induction l as [|x l IH]; simpl; [done|]. rewrite !andb_true_iff. intuition auto. Qed.

Lemma wf_line_no_eol l : wf_line l = true → forallb (λ c, negb (eol c)) (render_line l) = true.
Proof.
  assert (Hsep : ∀ t, wf_sep t = true → forallb (λ c, negb (eol c)) t = true).
  { intros t. apply forallb_impl. intros c Hc. by apply andb_true_iff in Hc as [_ Hc]. }
  assert (Hw : ∀ w, forallb wf_piece w = true → forallb (λ c, negb (eol c)) (render_word w) = true).
  { induction w as [|p w IH]; intros Hp; [done|]. cbn [forallb] in Hp. apply andb_true_iff in Hp as [Hp Hw].
    change (render_word (p :: w)) with (render_piece p ++ render_word w). rewrite forallb_app_b, IH, andb_true_r by done.
    destruct p as [t|c]; cbn [wf_piece render_piece] in *.
    - apply andb_true_iff in Hp as [_ Hp]. eapply forallb_impl; [|exact Hp]. intros d Hd. simpl in Hd. by destruct (eol d); destruct (isspace d).
    - cbn [forallb]. rewrite forallb_app_b. cbn [forallb]. change (eol "`") with false. simpl. rewrite andb_true_r.
      eapply forallb_impl; [|exact Hp]. intros d Hd. by apply andb_true_iff in Hd as [Hd _]. }
  destruct l as [indent t|ws trail]; cbn [wf_line render_line]; intros Hwf.
  - apply andb_true_iff in Hwf as [Hi Ht]. rewrite forallb_app_b. cbn [forallb]. rewrite Hsep by done. by rewrite Ht.
  - apply andb_true_iff in Hwf as [[[Ht Hwf]%andb_true_iff _]%andb_true_iff _]. rewrite forallb_app_b, (Hsep trail), andb_true_r by done.
    induction ws as [|[sep w] ws IH]; [done|]. cbn [forallb fst snd] in Hwf. apply andb_true_iff in Hwf as [[Hs Hww]%andb_true_iff Hwf].
    change (((sep, w) :: ws) ≫= λ p, p.1 ++ render_word p.2) with ((sep ++ render_word w) ++ (ws ≫= λ p, p.1 ++ render_word p.2)).
    unfold wf_word in Hww. apply andb_true_iff in Hww as [_ Hww]. rewrite !forallb_app_b, Hsep, Hw, IH by done. done.
Qed.

(** C15: a script runs as written: every line that is not blank or a comment is one
    command with the words of the line as arguments, a backquoted command standing for
    its escaped output inside its word, whatever blanks separate the words; lines are
    run in order and counted, comments and blank lines included. *)
Theorem script_runs_words (ls : list sline) (fuel : nat) (s : st) :
  forallb wf_line ls = true →
  Forall (λ l, ∃ argv, line_args l = Some argv ∧ (length argv < TUI_MAX_ARGS)%nat) ls → (length ls <= fuel)%nat →
  run_whole_file fuel (render ls) s = run_script ls s.
Proof.
  revert ls s. induction fuel as [|fuel IH]; intros ls s Hwf Hargs Hf; (destruct ls as [|l ls]; [done|]); simpl in Hf; [lia|].
  cbn [forallb] in Hwf. apply andb_true_iff in Hwf as [Hl Hwf]. apply Forall_cons in Hargs as [(argv & He & Hlen) Hargs].
  change (render (l :: ls)) with ((render_line l ++ [chr 10]) ++ render ls). rewrite <-app_assoc. cbn [app run_script].
  rewrite <-(process_line_spec l s argv) by done.
  assert (Hrun : run_whole_file (S fuel) (render_line l ++ chr 10 :: render ls) s =
    (s ← process_line (render_line l) s; run_whole_file fuel (render ls) s)).
  { assert (Hcut : strcspn (render_line l ++ chr 10 :: render ls) [chr 10; NUL] = length (render_line l))
      by (apply eol_strcspn; by apply wf_line_no_eol).
    assert (Hdrop : drop (S (length (render_line l))) (render_line l ++ chr 10 :: render ls) = render ls).
    { replace (S (length (render_line l))) with (length (render_line l) + 1)%nat by lia. by rewrite drop_app_add. }
    pose proof (take_app_length (render_line l) (chr 10 :: render ls)) as Htake.
    destruct (render_line l ++ chr 10 :: render ls) as [|c0 rest0] eqn:E; [by destruct (render_line l)|].
    cbn [run_whole_file]. by rewrite Hcut, Hdrop, Htake. }
  rewrite Hrun. destruct (process_line _ s) as [s1| |]; [|done..]. rewrite !bind_ret. apply IH; (done || lia).
Qed.
End Tui.

(** ** Concrete scripts *)

Definition demo_commands : list (@command log_state) :=
  [Command (tx "test") tui_argtest None; Command (tx "exit") tui_exit None].
Definition demo_popen (cmd : text) : option text :=
  if streq cmd (tx "PATH=/ext; hello you") then Some (tx "a b" ++ [chr 10]) else None.
Definition demo_state : tui_state log_state := TuiState 1 false [] (LogState (-1) true [] (ExpectState [] [])).
Definition demo_script : list sline :=
  [Comment (tx " ") (tx " a script"); Words [] (tx " ");
   Words [([], [Plain (tx "test")]); (tx "  ", [Plain (tx "x"); Subst (tx "hello you")])] (tx " ")].

Lemma script_runs_words_witness :
  run_whole_file (tx "/ext") demo_popen demo_commands [] false true 5
    (tx " # a script" ++ chr 10 :: tx " " ++ chr 10 :: tx "test  x`hello you` " ++ [chr 10]) demo_state =
  Ret (TuiState 4 false [] (LogState (-1) true
    [tx "argv[0]: " ++ [chr 34] ++ tx "test" ++ [chr 34]; tx "argv[1]: " ++ [chr 34] ++ tx "xa b\n" ++ [chr 34]] (ExpectState [] []))).
Proof.
  etransitivity; [apply (script_runs_words (tx "/ext") demo_popen demo_commands [] false true demo_script 5 demo_state)|].
  - by vm_compute.
  - repeat constructor; eexists; (split; [by vm_compute|vm_compute; lia]).
  - simpl; lia.
  - by vm_compute.
Defined.

(** [exit] sets a flag that only the interactive loop looks at. *)
Lemma exit_in_script :
  match run_whole_file (tx "/ext") demo_popen demo_commands [] false true 5 (tx "exit" ++ chr 10 :: tx "test" ++ [chr 10]) demo_state with
  | Ret s => stop s = true ∧ logstream (world s) ≠ []
  | _ => False
  end.
Proof. vm_compute. split; [done|discriminate]. Qed.

(** The argument vector has room for 128 arguments; nothing checks for more. *)
Lemma too_many_arguments :
  process_line (tx "/ext") demo_popen demo_commands [] false true (concat (replicate 129 (tx "x "))) demo_state =
    Fault "argv: index out of bounds".
Proof. by vm_compute. Qed.
