(* ===== verification/GenIp.v ===== *)
(** * tools/gen_ip.c, tools/gen_err.c: packets from command lines

    The headers are the bytes in memory: network byte order for the fields the code
    converts with htons/htonl, the byte order of the build for the checksums it
    stores as they are.  A parsing function that returns false or -1 yields [None]
    after it has logged why. *)

From Stdlib Require Import ZArith Lia.
From S2P Require Import Prelude CStr Mem Csum Skb Expect Log Tui.

(** [htons (x)] and [htonl (x)] in memory. *)
Definition be16 (x : Z) : list Z := [u8 (x / 256); u8 x].
Definition be32 (x : Z) : list Z := be16 (x / 65536) ++ be16 x.
(** [ntohs], [ntohl] of the bytes at an offset. *)
Definition ntohs_at (off : nat) (m : list Z) : Z := 256 * nth off m 0 + nth (S off) m 0.
Definition ntohl_at (off : nat) (m : list Z) : Z := 65536 * ntohs_at off m + ntohs_at (off + 2) m.

(** struct packet without the alignment pad: the union [u] is [RAW_DATA] bytes. *)
Record packet := Packet {
  h_dest : list Z;
  h_source : list Z;
  h_proto : Z;
  iph : list Z;
  u : list Z;
}.
Definition RAW_DATA : Z := 65536.
Definition zeros (n : Z) : list Z := replicate (Z.to_nat n) 0.

(** The protocol names gen_ip knows without /etc/protocols. *)
Definition IPPROTO_ICMP : Z := 1.
Definition IPPROTO_UDP : Z := 17.
Definition chain_protos : list (text * Z) :=
  [(tx "all", 0); (tx "tcp", IPPROTO_TCP); (tx "udp", IPPROTO_UDP); (tx "icmp", IPPROTO_ICMP)].

(** ** Numbers and addresses *)

(** [UINT_MAX], the code's -1, when [s] is no number in the range. *)
Definition string_to_number (s : text) (min max : Z) : Z :=
  let '(v, end_) := strtoul s 0 in
  let number := u32 v in
  if (end_ =? length s)%nat && negb (end_ =? 0)%nat then
    if (min <=? number) && (number <=? max) then number else u32 (-1)
  else u32 (-1).

(** In an [int], where -1 is negative. *)
Definition int_number (s : text) (min max : Z) : Z := s32 (string_to_number s min max).

Fixpoint proto_by_name (names : list (text * Z)) (s : text) : option Z :=
  match names with
  | [] => None
  | (n, v) :: names => if strcasecmp_eq s n then Some v else proto_by_name names s
  end.

(** The loop of dotted_to_addr over the first [n] bytes; [whole] is false when the
    19-byte copy has no terminator, where reading on is reading an uninitialised
    byte. *)
Fixpoint dotted_bytes (n : nat) (p : text) (whole : bool) : outcome (option (list Z)) :=
  match n with
  | O =>
      if negb whole then Fault "dotted_to_addr: buf is not terminated" else
      let v := int_number p 0 255 in mret (if v =? -1 then None else Some [v])
  | S n =>
      match strchr p "." with
      | None => if negb whole then Fault "dotted_to_addr: buf is not terminated" else mret None
      | Some q =>
          let v := int_number (take q p) 0 255 in
          if v =? -1 then mret None else
          r ← dotted_bytes n (drop (S q) p) whole;
          mret (option_map (cons v) r)
      end
  end.
Definition dotted_to_addr (dotted : text) : outcome (option (list Z)) :=
  dotted_bytes 3 (take 19 dotted) (length dotted <=? 18)%nat.

(** ** DATA *)

(** [sscanf (str, "%02x", &c)]: blanks, then at most two characters of a signed
    hexadecimal number. *)
Definition hexchar (str : text) : option Z :=
  let s := drop (strspn str (tx " " ++ (chr <$> [9; 10; 11; 12; 13]))) str in
  let neg := ascii_eqb (hd0 s) "-" in
  let s2 := if neg || ascii_eqb (hd0 s) "+" then take 1 (drop 1 s) else take 2 s in
  let '(v, n) := digits 16 s2 0 O in
  if (n =? 0)%nat || (ascii_eqb (hd0 s2) "0" && bool_decide (char_at s2 1 ∈ tx "xX")) then None
  else Some (u8 (if neg then - v else v)).

(** The bytes written, [None] for a bad escape.  After \x the index moves two
    characters on, whether or not they are there. *)
Fixpoint copy_printable (fuel : nat) (str : text) : outcome (option (list Z)) :=
  match fuel, str with
  | _, [] => mret (Some [])
  | O, _ => Fault "copy_printable: out of fuel"
  | S fuel, c :: str =>
      if ascii_eqb c "\" then
        let put b rest := (r ← copy_printable fuel rest; mret (option_map (cons b) r)) in
        match str with
        | [] => mret None
        | e :: str =>
            if ascii_eqb e "n" then put 10 str
            else if ascii_eqb e "r" then put 13 str
            else if ascii_eqb e "t" then put 9 str
            else if ascii_eqb e "0" then put 0 str
            else if ascii_eqb e "\" then put 92 str
            else if ascii_eqb e "x" then
              match hexchar str with
              | None => mret None
              | Some b => if (length str <? 2)%nat then Fault "copy_printable: read past the terminator" else put b (drop 2 str)
              end
            else mret None
        end
      else r ← copy_printable fuel str; mret (option_map (cons (code c)) r)
  end.

(** The words behind DATA, a blank between them. *)
Fixpoint copy_words (words : list text) : outcome (option (list Z)) :=
  match words with
  | [] => mret (Some [])
  | w :: ws =>
      a ← copy_printable (length w) w;
      match a, ws with
      | None, _ => mret None
      | Some a, [] => mret (Some a)
      | Some a, _ => r ← copy_words ws; mret (option_map (λ r, a ++ 32 :: r) r)
      end
  end.

Fixpoint data_length (words : list text) (first : bool) : outcome (option Z) :=
  match words with
  | [] => mret (Some 0)
  | w :: ws =>
      a ← copy_printable (length w) w;
      match a with
      | None => mret None
      | Some a => if 1024 <? zlen a then Fault "gen_ip_data_length: write past buf" else
          r ← data_length ws false; mret (option_map (λ n, zlen a + c_bool (negb first) + n) r)
      end
  end.
(** -1 on error. *)
Definition gen_ip_data_length (data : list text) : outcome Z :=
  r ← data_length data true; mret (default (-1) r).

(** ** MAC addresses *)

(** Byte [i] is at [3 * i]; strtol must stop two characters on. *)
Definition mac_byte (str : text) : option Z :=
  let '(v, n) := strtoul str 16 in
  if (n =? 2)%nat && (v <=? 255) then Some v else None.
Definition parse_mac (str : text) : option (list Z) :=
  if (length str =? 17)%nat then mapM (λ i, mac_byte (drop (3 * i) str)) [0; 1; 2; 3; 4; 5]%nat else None.

(** ** TCP fields *)

Definition TH_FIN : Z := 0x01.
Definition TH_SYN : Z := 0x02.
Definition TH_RST : Z := 0x04.
Definition TH_PSH : Z := 0x08.
Definition TH_ACK : Z := 0x10.
Definition TH_URG : Z := 0x20.
Definition TH_ECE : Z := 0x40.
Definition TH_CWR : Z := 0x80.
(** In the order parse_flags tries them. *)
Definition flag_names : list (text * Z) :=
  [(tx "SYN", TH_SYN); (tx "ACK", TH_ACK); (tx "RST", TH_RST); (tx "FIN", TH_FIN); (tx "CWR", TH_CWR);
   (tx "ECE", TH_ECE); (tx "PSH", TH_PSH); (tx "URG", TH_URG)].
Fixpoint flag_at (names : list (text * Z)) (s : text) : option Z :=
  match names with
  | [] => None
  | (n, v) :: names => if strstarts s n then Some v else flag_at names s
  end.
(** The flags, or what the error message shows. *)
Fixpoint parse_flags_loop (fuel : nat) (s : text) (flags : Z) : Z + text :=
  match fuel with
  | O => inr s
  | S fuel =>
      match flag_at flag_names s with
      | None => inr s
      | Some f =>
          let flags := Z.lor flags f in
          match drop 3 s with
          | [] => inl flags
          | c :: rest => if ascii_eqb c "/" then parse_flags_loop fuel rest flags else inr rest
          end
      end
  end.
Definition parse_flags (s : text) : Z + text :=
  if streq s (tx "NONE") then inl 0 else parse_flags_loop (S (length s)) s 0.

(** [strtok (opts, ",")] from start to end. *)
Fixpoint strtok_all (fuel : nat) (s : text) : list text :=
  match fuel with
  | O => []
  | S fuel =>
      let s := drop (strspn s [","%char]) s in
      match s with
      | [] => []
      | _ => let n := strcspn s [","%char] in take n s :: strtok_all fuel (drop (S n) s)
      end
  end.

(** [parse_tcpnumber]: the value is tested for being negative as an unsigned. *)
Definition parse_tcpnumber (number : text) : list Z := be32 (string_to_number number 0 (2 ^ 32 - 1)).

(** ** The parsers *)

(** A parsing function: it logs and may give up. *)
Definition parser (S A : Type) := S → outcome (option A * S).
#[export] Instance parser_ret {S} : MRet (parser S) := λ A a s, Ret (Some a, s).
#[export] Instance parser_bind {S} : MBind (parser S) := λ A B f m s,
  '(r, s) ← m s; match r with Some a => f a s | None => Ret (None, s) end.
Definition lift {S A} (m : outcome A) : parser S A := λ s, a ← m; Ret (Some a, s).
Definition reject {S A} : parser S A := λ s, Ret (None, s).

Lemma pbind_some {S A B} (m : parser S A) (f : A → parser S B) (s s' : S) a :
  m s = Ret (Some a, s') → (m ≫= f) s = f a s'.
Proof. intros E. unfold mbind, parser_bind. by rewrite E. Qed.
Lemma pbind_none {S A B} (m : parser S A) (f : A → parser S B) (s s' : S) :
  m s = Ret (None, s') → (m ≫= f) s = Ret (None, s').
Proof. intros E. unfold mbind, parser_bind. by rewrite E. Qed.
Lemma lift_ret {S A} (m : outcome A) a (s : S) : m = Ret a → lift m s = Ret (Some a, s).
Proof. by intros ->. Qed.

(** Follow a parser whose next step yields a value without touching the state. *)
Ltac pstep := erewrite pbind_some; [|first [reflexivity | apply lift_ret; reflexivity | eassumption]].

Section Parsers.
Context {S : Type} `{Logger S}.
Context (big : bool).
(** The address of the union in the local variable [packet]. *)
Context (u_addr : Z).

Definition complain {A} (msg : text) : parser S A := λ s, '(_, s) ← nfsim_log LOG_UI msg s; Ret (None, s).
Definition expect_some {A} (msg : text) (o : option A) : parser S A :=
  match o with Some a => mret a | None => complain msg end.

Definition null_text (a : option text) : text := default (tx "(null)") a.
Definition quoted (a : option text) : text := tx " `" ++ null_text a ++ tx "'".

(** [!arg || (v = string_to_number (arg, 0, max)) < 0] *)
Definition number_arg (what : text) (max : Z) (arg : option text) : parser S Z :=
  match arg with
  | None => complain (what ++ quoted None)
  | Some a => let v := int_number a 0 max in if v <? 0 then complain (what ++ quoted (Some a)) else mret v
  end.

Definition parse_protocol (s : text) : parser S Z :=
  let proto := int_number s 0 65535 in
  if negb (proto =? -1) then mret (u16 proto)
  else expect_some (tx "gen_ip: unknown protocol `" ++ s ++ tx "' specified") (proto_by_name chain_protos s).

Definition address_arg (what s : text) : parser S (list Z) :=
  a ← lift (dotted_to_addr s); expect_some (tx "Bad " ++ what ++ tx " address `" ++ s ++ tx "'") a.

Definition ip_header (tos ttl proto : Z) (saddr daddr : list Z) : list Z :=
  [0x45; u8 tos; 0; 0; 0; 0; 0; 0; u8 ttl; u8 proto; 0; 0] ++ saddr ++ daddr.

(** The data length and the header. *)
Definition parse_header (srcip dstip lenstr protocol : text) (tos ttl : Z) : parser S (Z * list Z) :=
  let len := int_number lenstr 0 65535 in
  if len <? 0 then complain (tx "gen_ip: bad length `" ++ lenstr ++ tx "' specified") else
  proto ← parse_protocol protocol;
  saddr ← address_arg (tx "src") srcip;
  daddr ← address_arg (tx "dst") dstip;
  mret (len, ip_header tos ttl proto saddr daddr).

(** [csum_partial (&packet->u, len, sum)] *)
Definition csum_u (m : list Z) (len sum : Z) : parser S Z := lift (csum_partial big u_addr m len sum).

Definition parse_icmp (datalen : Z) (m : list Z) (args : list text) : parser S (Z * list Z) :=
  type ← number_arg (tx "Bad icmp type:") 255 (args !! 0%nat);
  code ← number_arg (tx "Bad icmp code:") 255 (args !! 1%nat);
  rest ←
    (if (type =? 0) || (type =? 8) then
       id ← number_arg (tx "Bad icmp id:") 255 (args !! 2%nat);
       seq ← number_arg (tx "Bad icmp seq:") 255 (args !! 3%nat);
       match args !! 4%nat with
       | Some _ => complain (tx "Extra argument:" ++ quoted (args !! 3%nat))
       | None => mret (be16 id ++ be16 seq)
       end
     else if type =? 12 then
       param ← number_arg (tx "Bad param problem:") 255 (args !! 2%nat);
       mret (be32 (u32 (Z.shiftl param 24)))
     else match args !! 2%nat with
          | Some a => complain (tx "Extra argument:" ++ quoted (Some a))
          | None => mret (ztake 4 (zdrop 4 m))
          end);
  m ← lift (store 0 ([type; code; 0; 0] ++ rest) m);
  sum ← csum_u m (8 + datalen) 0;
  mret (8 + datalen, put16 big 2 (u16 (csum_fold sum)) m).

(** The DATA argument: copied behind the header, with a terminator. *)
Definition copy_data (off : Z) (words : list text) (m : list Z) : parser S (list Z) :=
  bs ← lift (copy_words words);
  match bs with
  | None => reject
  | Some bs => lift (store off (bs ++ [0]) m)
  end.

Definition pseudo_bytes (saddr daddr : list Z) (proto len : Z) : list Z :=
  saddr ++ daddr ++ [0; proto] ++ be16 len.

(** Transport checksum, stored at [off]. *)
Definition put_check (iph : list Z) (proto len : Z) (off : nat) (m : list Z) : parser S (list Z) :=
  p ← lift (csum_partial big 0 (pseudo_bytes (ztake 4 (zdrop 12 iph)) (ztake 4 (zdrop 16 iph)) proto len) 12 0);
  sum ← csum_u m len p;
  mret (put16 big off (u16 (csum_fold sum)) m).

Definition append_flag (flag : text) (dump_flags : option text) : option text := Some (default [] dump_flags ++ flag).

Definition parse_udp (iph : list Z) (datalen : Z) (m : list Z) (args : list text) (dump_flags : option text) :
    parser S (Z * list Z * option text) :=
  let udplen := u16 (8 + datalen) in
  spt ← number_arg (tx "Bad udp spt:") 65535 (args !! 0%nat);
  dpt ← number_arg (tx "Bad udp dpt:") 65535 (args !! 1%nat);
  '(m, dump_flags) ←
    (match args !! 2%nat with
     | None => mret (m, dump_flags)
     | Some a =>
         if streq a (tx "DATA") then
           m ← copy_data 8 (drop 3 args) m; mret (m, append_flag (tx "data") dump_flags)
         else complain (tx "Extra argument:" ++ quoted (args !! 3%nat))
     end);
  m ← lift (store 0 (be16 spt ++ be16 dpt ++ be16 udplen ++ [0; 0]) m);
  m ← put_check iph IPPROTO_UDP udplen 6 m;
  mret (udplen, m, dump_flags).

(** The header with its options; [doff] in bytes. *)
Definition parse_tcp_options (opts : text) : parser S (list Z) :=
  let toks := strtok_all (Datatypes.S (length opts)) opts in
  if (40 <? length toks)%nat then complain (tx "Too many TCP options: " ++ default [] (head toks))
  else if negb (length toks mod 4 =? 0)%nat then complain (tx "TCP options must pad to 4 bytes")
  else mret ((λ t, u8 (atoi t)) <$> toks).

(** An optional argument [NAME=value]: its value and the arguments behind it. *)
Definition take_opt (name : text) (args : list text) : option text * list text :=
  match args with
  | a :: rest => if strstarts a name then (Some (drop (length name) a), rest) else (None, args)
  | [] => (None, args)
  end.

Definition parse_tcp (iph : list Z) (datalen : Z) (m : list Z) (args : list text) (dump_flags : option text) :
    parser S (Z * list Z * option text) :=
  spt ← number_arg (tx "Bad tcp spt:") 65535 (args !! 0%nat);
  dpt ← number_arg (tx "Bad tcp dpt:") 65535 (args !! 1%nat);
  flagstr ← expect_some (tx "No tcp flags were set!") (args !! 2%nat);
  flags ← (match parse_flags flagstr with
           | inl f => mret f
           | inr rest => complain (tx "Bad tcp flags `" ++ rest ++ tx "'")
           end);
  let '(seqarg, args) := take_opt (tx "SEQ=") (drop 3 args) in
  let seq := match seqarg with Some a => parse_tcpnumber a | None => [0; 0; 0; 0] end in
  let '(ackarg, args) := take_opt (tx "ACK=") args in
  let ack_seq := match ackarg with Some a => parse_tcpnumber a | None => [0; 0; 0; 0] end in
  let '(winarg, args') := take_opt (tx "WIN=") args in
  window ← (match winarg with
            | Some a => let w := int_number a 0 65535 in
                if w <? 0 then complain (tx "Bad tcp window:" ++ quoted (head args)) else mret w
            | None => mret 0
            end);
  let '(optarg, args) := take_opt (tx "OPT=") args' in
  options ← (match optarg with Some a => parse_tcp_options a | None => mret [] end);
  let hlen := 20 + zlen options in
  (* seq, ack_seq, doff and the options are in place before the data is copied *)
  m ← lift (store 4 (seq ++ ack_seq ++ [16 * (hlen / 4); flags; 0; 0; 0; 0; 0; 0] ++ options) m);
  '(m, dump_flags) ←
    (match args with
     | [] => mret (m, dump_flags)
     | a :: words =>
         if streq a (tx "DATA") then
           m ← copy_data hlen words m; mret (m, append_flag (tx "data") dump_flags)
         else complain (tx "Extra argument:" ++ quoted (Some a))
     end);
  m ← lift (store 0 (be16 spt ++ be16 dpt) m);
  m ← lift (store 14 (be16 window ++ [0; 0; 0; 0]) m);
  let tcplen := u16 (hlen + datalen) in
  m ← put_check iph IPPROTO_TCP tcplen 16 m;
  mret (tcplen, m, dump_flags).

(** *** Options before the addresses *)

Record ip_opts := IpOpts {
  o_tos : Z; o_ttl : Z; o_df : bool; o_mf : bool; o_ce : bool;
  o_fragoff : Z; o_fraglen : Z;
  o_mac : list Z; o_flags : option text;
}.
Definition opts0 (dump_flags : option text) : ip_opts :=
  IpOpts 0 255 false false false 0 0 [0; 0; 0; 0; 0; 0] dump_flags.

(** [argc > 5 && strncmp (argv[1], name, strlen (name)) == 0]; [args] is [argv + 1]. *)
Definition option_arg (name : text) (args : list text) : option (text * list text) :=
  match args with
  | a :: rest => if (4 <? length args)%nat && strstarts a name then Some (drop (length name) a, rest) else None
  | [] => None
  end.
(** The same for a word: [strcmp]. *)
Definition option_word (name : text) (args : list text) : option (list text) :=
  match args with
  | a :: rest => if (4 <? length args)%nat && streq a name then Some rest else None
  | [] => None
  end.

Definition opt_frag (st : ip_opts * list text) : parser S (ip_opts * list text) :=
  let '(o, args) := st in
  match option_arg (tx "FRAG=") args with
  | None => mret st
  | Some (a, args) =>
      let fragoff := u16 (atoi a) in
      if (65528 <? fragoff) || negb (fragoff mod 8 =? 0) then complain (tx "`" ++ a ++ tx "' not >= 8, <= 65528, mod 8 = 0") else
      comma ← expect_some (tx "Need FRAG=<offset>,<length>") (strchr a ",");
      let fraglen := u16 (atoi (drop (Datatypes.S comma) a)) in
      if fraglen <? 1 then complain (tx "`" ++ drop (Datatypes.S comma) a ++ tx "' bad fraglen") else
      mret (IpOpts (o_tos o) (o_ttl o) (o_df o) (o_mf o) (o_ce o) fragoff fraglen (o_mac o) (o_flags o), args)
  end.

Definition opt_bits (st : ip_opts * list text) : ip_opts * list text :=
  let '(o, args) := st in
  let '(df, args) := match option_word (tx "DF") args with Some r => (true, r) | None => (o_df o, args) end in
  let '(mf, args) := match option_word (tx "MF") args with Some r => (true, r) | None => (o_mf o, args) end in
  let '(ce, args) := match option_word (tx "CE") args with Some r => (true, r) | None => (o_ce o, args) end in
  (IpOpts (o_tos o) (o_ttl o) df mf ce (o_fragoff o) (o_fraglen o) (o_mac o) (o_flags o), args).

Definition opt_mac (st : ip_opts * list text) : parser S (ip_opts * list text) :=
  let '(o, args) := st in
  match option_arg (tx "MAC=") args with
  | None => mret st
  | Some (a, args) =>
      mac ← expect_some (tx "Invalid mac address.") (parse_mac a);
      mret (IpOpts (o_tos o) (o_ttl o) (o_df o) (o_mf o) (o_ce o) (o_fragoff o) (o_fraglen o) mac (o_flags o), args)
  end.

Definition set_tos (tos : Z) (flag : text) (o : ip_opts) : ip_opts :=
  IpOpts tos (o_ttl o) (o_df o) (o_mf o) (o_ce o) (o_fragoff o) (o_fraglen o) (o_mac o) (append_flag flag (o_flags o)).

Definition opt_tos (st : ip_opts * list text) : parser S (ip_opts * list text) :=
  let '(o, args) := st in
  match option_arg (tx "TOS=") args with
  | None => mret st
  | Some (a, args) =>
      let tos := atoi a in
      if (tos <? 0) || (255 <? tos) then complain (tx "`" ++ a ++ tx "' not >= 0, <= 255")
      else mret (set_tos tos (tx "tos") o, args)
  end.

Definition IPT_DSCP_MAX : Z := 0x3f.
Definition opt_dscp (st : ip_opts * list text) : parser S (ip_opts * list text) :=
  let '(o, args) := st in
  match option_arg (tx "DSCP=") args with
  | None => mret st
  | Some (a, args) =>
      if match o_flags o with Some f => bool_decide (is_Some (strstr f (tx "tos"))) | None => false end
      then complain (tx "You can't use both 'TOS=' and 'DSCP='") else
      let tos := int_number a 0 IPT_DSCP_MAX in
      if tos =? -1 then complain (tx "`" ++ a ++ tx "' not >=0, <= 63")
      else mret (set_tos (Z.land (Z.shiftl tos 2) 0xfc) (tx "dscp") o, args)
  end.

Definition opt_ect (st : ip_opts * list text) : parser S (ip_opts * list text) :=
  let '(o, args) := st in
  match option_arg (tx "ECT=") args with
  | None => mret st
  | Some (a, args') =>
      let ect := int_number a 0 3 in
      if ect =? -1 then complain (tx "`" ++ drop 5 (default [] (head args)) ++ tx "' not >=0, <= 3")
      else mret (set_tos (Z.lor (o_tos o) ect) (tx "ect") o, args')
  end.

Definition opt_ttl (st : ip_opts * list text) : parser S (ip_opts * list text) :=
  let '(o, args) := st in
  match option_arg (tx "TTL=") args with
  | None => mret st
  | Some (a, args) =>
      let ttl := atoi a in
      if (ttl <? 0) || (255 <? ttl) then complain (tx "`" ++ a ++ tx "' not >= 0, <= 255")
      else mret (IpOpts (o_tos o) ttl (o_df o) (o_mf o) (o_ce o) (o_fragoff o) (o_fraglen o) (o_mac o)
                   (append_flag (tx "ttl") (o_flags o)), args)
  end.

Definition parse_options (dump_flags : option text) (args : list text) : parser S (ip_opts * list text) :=
  st ← opt_frag (opts0 dump_flags, args);
  st ← opt_mac (opt_bits st);
  st ← opt_tos st;
  st ← opt_dscp st;
  st ← opt_ect st;
  opt_ttl st.

(** *** The whole packet *)

Definition ETH_P_IP : Z := 0x0800.
Definition IP_DF : Z := 0x4000.
Definition IP_MF : Z := 0x2000.
Definition IP_CE : Z := 0x8000.
Definition put_be16 (off : nat) (v : Z) (m : list Z) : list Z := take off m ++ be16 v ++ drop (off + 2) m.

Definition or_frag (b : bool) (bit : Z) (iph : list Z) : list Z :=
  if b then put_be16 6 (Z.lor (ntohs_at 6 iph) bit) iph else iph.

Definition parse_transport (proto datalen : Z) (iph m : list Z) (rest : list text) (dump_flags : option text) :
    parser S (Z * list Z * option text) :=
  if proto =? IPPROTO_ICMP then '(len, m) ← parse_icmp datalen m rest; mret (len, m, dump_flags)
  else if proto =? IPPROTO_TCP then parse_tcp iph datalen m rest dump_flags
  else if proto =? IPPROTO_UDP then parse_udp iph datalen m rest dump_flags
  else match rest with [] => mret (datalen, m, dump_flags) | _ => complain (tx "Extra args for unknown protocol") end.

Definition parse_packet (argv : list text) (dump_flags : option text) : parser S (packet * option text) :=
  match argv with
  | _ :: ((_ :: _ :: _ :: _ :: _) as args) =>
      '(o, args) ← parse_options dump_flags args;
      match args with
      | src :: dst :: lenstr :: protocol :: rest =>
          '(datalen, iph) ← parse_header src dst lenstr protocol (o_tos o) (o_ttl o);
          '(len, m, dump_flags) ← parse_transport (nth 9 iph 0) datalen iph (zeros RAW_DATA) rest (o_flags o);
          let iph := put_be16 2 (20 + len) iph in
          '(iph, m) ←
            (if o_fraglen o =? 0 then mret (iph, m) else
               bs ← lift (slice (o_fragoff o) (o_fraglen o) m);
               m ← lift (store 0 bs m);
               mret (put_be16 6 (o_fragoff o / 8) (put_be16 2 (20 + o_fraglen o) iph), m));
          let iph := or_frag (o_ce o) IP_CE (or_frag (o_mf o) IP_MF (or_frag (o_df o) IP_DF iph)) in
          sum ← lift (csum_partial big (u_addr - 20) iph 20 0);
          mret (Packet (o_mac o) (o_mac o) ETH_P_IP (put16 big 10 (u16 (cnot 32 sum)) iph) m, dump_flags)
      | _ => lift (Fault "parse_packet: argv")
      end
  | _ => reject
  end.
End Parsers.

(** ** Sending *)

(** What the protocol core offers the tools. *)
Class Receiver (S : Type) := {
  nfsim_seq : S → Z;
  set_nfsim_seq : Z → S → S;
  interface_by_name : text → S → option Z;
  nf_rcv : sk_buff → S → outcome S;
  nf_rcv_local : sk_buff → S → outcome S;
}.

Definition OFF_EHDR : Z := 2.
Definition OFF_IPH : Z := 16.
Definition packet_bytes (p : packet) : list Z :=
  [0; 0] ++ h_dest p ++ h_source p ++ be16 (h_proto p) ++ iph p ++ u p.

Section Send.
Context {S : Type} `{Logger S} `{Receiver S}.
Context (fresh : Z → list Z) (linear_packets : bool) (big : bool) (u_addr : Z).
(** The generated help text. *)
Context (gen_ip_help gen_err_help : S → outcome S).

Definition send_packet (p : packet) (interface dump_flags : option text) (s : S) : outcome (bool * S) :=
  let bytes := packet_bytes p in
  let len := OFF_IPH + 4 * ihl (iph p) in
  data1 ← slice 0 len bytes;
  data2 ← slice len (OFF_IPH + ntohs_at 2 (iph p) - len) bytes;
  '(skb, seqno) ← nfsim_nonlinear_skb fresh linear_packets data1 data2 (nfsim_seq s);
  let s := set_nfsim_seq seqno s in
  _ ← nfsim_check_packet skb;
  let hd := hdr skb in
  let mk_hdr dev := SkbHdr dev (seq hd) (local_df hd) (csum hd) (ip_summed hd) (nfmark hd) (nfcache hd) (nfct hd) (nfctinfo hd)
    (dst hd) (option_map (map code) dump_flags) in
  let skb := SkBuff (mk_hdr (dev hd)) (sk skb) (destructor skb) (data skb + OFF_EHDR) (data skb + OFF_IPH) 0 (h_proto p) (pkt_type skb)
    (priority skb) (users skb) (cloned skb) (Skb.len skb) (mem skb) (data skb) (tail skb) (end_ skb) (extra skb) (tso_size skb) in
  match interface return outcome (bool * S) with
  | Some i =>
      match interface_by_name i s with
      | None => '(_, s) ← nfsim_log LOG_UI (tx "No interface '" ++ i ++ tx "'") s; mret (false, s)
      | Some d => s ← nf_rcv (with_hdr (mk_hdr d) skb) s; mret (true, s)
      end
  | None => s ← nf_rcv_local skb s; mret (true, s)
  end.

Definition gen_ip (argv : list text) (s : S) : outcome (bool * S) :=
  let '(interface, argv) :=
    match argv with
    | a0 :: a1 :: rest =>
        if (5 <? length argv)%nat && strstarts a1 (tx "IF=") then (Some (drop 3 a1), a1 :: rest) else (None, argv)
    | _ => (None, argv)
    end in
  '(r, s) ← parse_packet big u_addr argv None s;
  match r with
  | None => s ← gen_ip_help s; mret (false, s)
  | Some (p, dump_flags) => send_packet p interface dump_flags s
  end.

(** ** ICMP errors *)

(** [fresh_u]: the bytes of the uninitialised packet. *)
Definition create_icmp (fresh_u : list Z) (orig : packet) (origlen : Z) (srcip typestr codestr : text) : parser S packet :=
  let len := u16 (20 + 8 + origlen) in
  let tot_len := ntohs_at 2 (iph orig) in
  if tot_len <? origlen then
    complain (tx "gen_err len " ++ print_d origlen ++ tx " greater than packet " ++ print_u tot_len) else
  addr ← address_arg (tx "src") srcip;
  let iph0 := [0x45; 0] ++ be16 len ++ [0; 0; 0; 0; 255; IPPROTO_ICMP; 0; 0] ++ addr ++ take 4 (drop 12 (iph orig)) in
  sum ← lift (csum_partial big (u_addr - 20) iph0 20 0);
  let iph1 := put16 big 10 (u16 (cnot 32 sum)) iph0 in
  type ← expect_some (tx "Bad icmp type: `" ++ typestr ++ tx "'")
    (let v := int_number typestr 0 255 in if v <? 0 then None else Some v);
  code ← expect_some (tx "Bad icmp code: `" ++ codestr ++ tx "'")
    (let v := int_number codestr 0 255 in if v <? 0 then None else Some v);
  m ← lift (store 0 [type; code; 0; 0; 0; 0; 0; 0] fresh_u);
  bs ← lift (slice 0 origlen (iph orig ++ u orig));
  m ← lift (store 8 bs m);
  sum ← lift (csum_partial big u_addr m (ntohs_at 2 iph1 - 20) 0);
  mret (Packet [0; 0; 0; 0; 0; 0] [0; 0; 0; 0; 0; 0] ETH_P_IP iph1 (put16 big 2 (u16 (cnot 32 sum)) m)).

Definition gen_err (fresh_u : list Z) (argv : list text) (s : S) : outcome (bool * S) :=
  match argv with
  | [] => Fault "gen_err: argc is 0"
  | _ :: args =>
      let '(interface, args) :=
        match args with
        | a :: rest => if strstarts a (tx "IF=") then (Some (drop 3 a), rest) else (None, args)
        | [] => (None, args)
        end in
      let '(len, args) :=
        match args with
        | a :: rest => if strstarts a (tx "LEN=") then (int_number (drop 4 a) 0 65535, rest) else (28, args)
        | [] => (28, args)
        end in
      '(r, s) ← parse_packet big u_addr (drop 2 args) None s;
      match r, args with
      | Some (orig, dump_flags), srcip :: typestr :: codestr :: _ =>
          '(r, s) ← create_icmp fresh_u orig len srcip typestr codestr s;
          match r with
          | None => mret (false, s)
          | Some p => send_packet p interface dump_flags s
          end
      | _, _ => s ← gen_err_help s; mret (false, s)
      end
  end.
End Send.

(** ** Escaped data *)

Lemma copy_printable_char c fuel rest :
  copy_printable (S fuel) (escape_char c ++ rest) =
    (r ← copy_printable fuel rest; mret (option_map (cons (code c)) r)).
Proof. destruct c as [[] [] [] [] [] [] [] []]; reflexivity. Qed.

Lemma copy_printable_escape src : ∀ fuel, (length src <= fuel)%nat →
  copy_printable fuel (src ≫= escape_char) = Ret (Some (map code src)).
Proof.
  induction src as [|c src IH]; intros fuel Hf; [by destruct fuel|]. destruct fuel as [|fuel]; [simpl in Hf; lia|].
  change ((c :: src) ≫= escape_char) with (escape_char c ++ (src ≫= escape_char)).
  rewrite copy_printable_char, IH by (simpl in Hf; lia). done.
Qed.

Lemma length_escape src : (length src <= length (src ≫= escape_char))%nat.
Proof.
  induction src as [|c src IH]; [done|]. change ((c :: src) ≫= escape_char) with (escape_char c ++ (src ≫= escape_char)).
  rewrite length_app. assert (1 <= length (escape_char c))%nat by (unfold escape_char; repeat (case_match; [by apply (bool_decide_unpack _)|]); by apply (bool_decide_unpack _)).
  simpl. lia.
Qed.

(** C40: what a backquoted command prints reaches the packet unchanged: the escaped
    string of any bytes fits the space allocated for it, and gen_ip's DATA decodes it
    to those bytes. *)
Theorem escape_roundtrip (src : text) :
  ∃ str, escape src = Ret str ∧ copy_printable (length str) str = Ret (Some (map code src)).
Proof.
  exists (src ≫= escape_char). split; [apply escape_ok|]. apply copy_printable_escape, length_escape.
Qed.

(** A hexadecimal escape that the string ends in makes the scan step over the
    terminator. *)
Lemma copy_printable_overrun : copy_printable 3 (tx "\xf") = Fault "copy_printable: read past the terminator".
Proof. reflexivity. Qed.

(** [parse_tcpnumber] takes no number for 2^32 - 1. *)
Lemma tcpnumber_no_error : parse_tcpnumber (tx "junk") = [255; 255; 255; 255].
Proof. reflexivity. Qed.

(** The separators of a MAC address are not looked at. *)
Lemma mac_separators : parse_mac (tx "00x11y22z33-44.55") = Some [0; 0x11; 0x22; 0x33; 0x44; 0x55].
Proof. reflexivity. Qed.

(** gen_err takes a length that is no number for -1, which passes the test against
    the packet's length. *)
Lemma gen_err_bad_length :
  create_icmp false 0 (zeros 16) (Packet [] [] ETH_P_IP hdr20 (zeros 64)) (int_number (tx "junk") 0 65535) (tx "1.2.3.4") (tx "3") (tx "1") log0 =
    Fault "read outside the object".
Proof. vm_compute. reflexivity. Qed.
