(* ===== verification/Headers.v ===== *)
(** * core/ipv4/ipv4.h, kernelenv.h: the headers of packets as structs

    A struct is the bytes it takes in the memory of a machine of either byte order.  The bit
    fields of a header are declared twice, once for each order; the theorems say that both
    declarations put the same bytes on the wire, which are those GenIp.v builds. *)

From Stdlib Require Import ZArith Lia.
From S2P Require Import Prelude Csum Endian GenIp.

(** Bit fields with their widths in the order of the declaration.  A little-endian machine
    fills the unit from its low end, a big-endian one from its high end. *)
Abbreviation fields := (list (Z * Z)).
Fixpoint pack (fs : fields) : Z := match fs with [] => 0 | (w, v) :: fs => v mod 2 ^ w + 2 ^ w * pack fs end.
Definition bitfields (big : bool) (n : nat) (decl : fields) : list Z := bytes big n (pack (if big then rev decl else decl)).

Record iphdr := Iphdr { version : Z; ihl : Z; tos : Z; tot_len : Z; id : Z; frag_off : Z; ttl : Z; protocol : Z; ip_check : Z; saddr : Z; daddr : Z }.
Definition iphdr_bits (big : bool) (h : iphdr) : fields := if big then [(4, version h); (4, ihl h)] else [(4, ihl h); (4, version h)].
Definition iphdr_bytes (big : bool) (h : iphdr) : list Z :=
  bitfields big 1 (iphdr_bits big h) ++ bytes big 1 (tos h) ++ bytes big 2 (tot_len h) ++ bytes big 2 (id h) ++ bytes big 2 (frag_off h) ++
  bytes big 1 (ttl h) ++ bytes big 1 (protocol h) ++ bytes big 2 (ip_check h) ++ bytes big 4 (saddr h) ++ bytes big 4 (daddr h).

Record tcphdr := Tcphdr {
  tcp_source : Z; tcp_dest : Z; seq : Z; ack_seq : Z; res1 : Z; doff : Z;
  fin : Z; syn : Z; rst : Z; psh : Z; ack : Z; urg : Z; ece : Z; cwr : Z;
  window : Z; tcp_check : Z; urg_ptr : Z }.
Definition tcphdr_bits (big : bool) (h : tcphdr) : fields :=
  if big then [(4, doff h); (4, res1 h); (1, cwr h); (1, ece h); (1, urg h); (1, ack h); (1, psh h); (1, rst h); (1, syn h); (1, fin h)]
  else [(4, res1 h); (4, doff h); (1, fin h); (1, syn h); (1, rst h); (1, psh h); (1, ack h); (1, urg h); (1, ece h); (1, cwr h)].
Definition tcphdr_bytes (big : bool) (h : tcphdr) : list Z :=
  bytes big 2 (tcp_source h) ++ bytes big 2 (tcp_dest h) ++ bytes big 4 (seq h) ++ bytes big 4 (ack_seq h) ++ bitfields big 2 (tcphdr_bits big h) ++
  bytes big 2 (window h) ++ bytes big 2 (tcp_check h) ++ bytes big 2 (urg_ptr h).

(** The fourth word of the header, and what selects a flag in it. *)
Definition tcp_flag_word (big : bool) (tp : list Z) : Z := word big (take 4 (drop 12 tp)).
Definition TCP_FLAG_CWR (big : bool) : Z := htonl big 0x00800000.
Definition TCP_FLAG_ECE (big : bool) : Z := htonl big 0x00400000.
Definition TCP_FLAG_URG (big : bool) : Z := htonl big 0x00200000.
Definition TCP_FLAG_ACK (big : bool) : Z := htonl big 0x00100000.
Definition TCP_FLAG_PSH (big : bool) : Z := htonl big 0x00080000.
Definition TCP_FLAG_RST (big : bool) : Z := htonl big 0x00040000.
Definition TCP_FLAG_SYN (big : bool) : Z := htonl big 0x00020000.
Definition TCP_FLAG_FIN (big : bool) : Z := htonl big 0x00010000.
Definition TCP_RESERVED_BITS (big : bool) : Z := htonl big 0x0F000000.
Definition TCP_DATA_OFFSET (big : bool) : Z := htonl big 0xF0000000.

Record udphdr := Udphdr { udp_source : Z; udp_dest : Z; len : Z; udp_check : Z }.
Definition udphdr_bytes (big : bool) (h : udphdr) : list Z :=
  bytes big 2 (udp_source h) ++ bytes big 2 (udp_dest h) ++ bytes big 2 (len h) ++ bytes big 2 (udp_check h).

(** The union holds an echo, a gateway or an MTU. *)
Inductive icmp_un := Echo (id sequence : Z) | Gateway (gateway : Z) | FragMtu (unused mtu : Z).
Record icmphdr := Icmphdr { icmp_type : Z; icmp_code : Z; checksum : Z; un : icmp_un }.
Definition icmp_un_bytes (big : bool) (u : icmp_un) : list Z :=
  match u with Echo i s => bytes big 2 i ++ bytes big 2 s | Gateway g => bytes big 4 g | FragMtu x m => bytes big 2 x ++ bytes big 2 m end.
Definition icmphdr_bytes (big : bool) (h : icmphdr) : list Z :=
  bytes big 1 (icmp_type h) ++ bytes big 1 (icmp_code h) ++ bytes big 2 (checksum h) ++ icmp_un_bytes big (un h).

Record ip_auth_hdr := IpAuthHdr { ah_nexthdr : Z; hdrlen : Z; reserved : Z; ah_spi : Z; ah_seq_no : Z }.
Definition ip_auth_hdr_bytes (big : bool) (h : ip_auth_hdr) : list Z :=
  bytes big 1 (ah_nexthdr h) ++ bytes big 1 (hdrlen h) ++ bytes big 2 (reserved h) ++ bytes big 4 (ah_spi h) ++ bytes big 4 (ah_seq_no h).
Record ip_esp_hdr := IpEspHdr { esp_spi : Z; esp_seq_no : Z }.
Definition ip_esp_hdr_bytes (big : bool) (h : ip_esp_hdr) : list Z := bytes big 4 (esp_spi h) ++ bytes big 4 (esp_seq_no h).
Record ip_comp_hdr := IpCompHdr { comp_nexthdr : Z; comp_flags : Z; cpi : Z }.
Definition ip_comp_hdr_bytes (big : bool) (h : ip_comp_hdr) : list Z := bytes big 1 (comp_nexthdr h) ++ bytes big 1 (comp_flags h) ++ bytes big 2 (cpi h).

Record sctphdr := Sctphdr { sctp_source : Z; sctp_dest : Z; vtag : Z; sctp_checksum : Z }.
Definition sctphdr_bytes (big : bool) (h : sctphdr) : list Z :=
  bytes big 2 (sctp_source h) ++ bytes big 2 (sctp_dest h) ++ bytes big 4 (vtag h) ++ bytes big 4 (sctp_checksum h).
Record sctp_chunkhdr := SctpChunkhdr { chunk_type : Z; chunk_flags : Z; chunk_length : Z }.
Definition sctp_chunkhdr_bytes (big : bool) (h : sctp_chunkhdr) : list Z := bytes big 1 (chunk_type h) ++ bytes big 1 (chunk_flags h) ++ bytes big 2 (chunk_length h).
Record sctp_inithdr := SctpInithdr { init_tag : Z; a_rwnd : Z; num_outbound_streams : Z; num_inbound_streams : Z; initial_tsn : Z }.
Definition sctp_inithdr_bytes (big : bool) (h : sctp_inithdr) : list Z :=
  bytes big 4 (init_tag h) ++ bytes big 4 (a_rwnd h) ++ bytes big 2 (num_outbound_streams h) ++ bytes big 2 (num_inbound_streams h) ++ bytes big 4 (initial_tsn h).

Record ipv6hdr := Ipv6hdr { priority : Z; version6 : Z; flow_lbl : list Z; payload_len : Z; nexthdr : Z; hop_limit : Z; saddr6 : list Z; daddr6 : list Z }.
Definition ipv6hdr_bits (big : bool) (h : ipv6hdr) : fields := if big then [(4, version6 h); (4, priority h)] else [(4, priority h); (4, version6 h)].
Definition ipv6hdr_bytes (big : bool) (h : ipv6hdr) : list Z :=
  bitfields big 1 (ipv6hdr_bits big h) ++ flow_lbl h ++ bytes big 2 (payload_len h) ++ bytes big 1 (nexthdr h) ++ bytes big 1 (hop_limit h) ++ saddr6 h ++ daddr6 h.

Record ethhdr := Ethhdr { h_dest : list Z; h_source : list Z; h_proto : Z }.
Definition ethhdr_bytes (big : bool) (h : ethhdr) : list Z := h_dest h ++ h_source h ++ bytes big 2 (h_proto h).

(** ** On the wire *)

Lemma net16 big x : in_width 16 x → bytes big 2 (htons big x) = be16 x.
Proof. intros Hx. unfold htons. rewrite (be_in_memory _ _ _ (kernelenv_order big W16)) by done. done. Qed.
Lemma net32 big x : in_width 32 x → bytes big 4 (htonl big x) = be32 x.
Proof.
  intros Hx. unfold htonl. rewrite (be_in_memory _ _ _ (kernelenv_order big W32)) by done. cbn [size]. cbn [le_bytes rev app]. unfold be32, be16. cbn [app].
  rewrite !Z.div_div by lia. done.
Qed.
Lemma byte1 big x : in_width 8 x → bytes big 1 x = [x].
Proof. intros Hx. assert (u8 x = x) as E by (by apply wrap_small). destruct big; cbn; by rewrite E. Qed.

Definition width (fs : fields) : Z := foldr (λ f w, f.1 + w) 0 fs.
Lemma width_nonneg fs : Forall (λ f, 0 <= f.1) fs → 0 <= width fs.
Proof. induction 1 as [|[w v] fs Hw _ IH]; unfold width in *; cbn in *; [done|lia]. Qed.
Lemma pack_range fs : Forall (λ f, 0 <= f.1) fs → 0 <= pack fs < 2 ^ width fs.
Proof.
  induction 1 as [|[w v] fs Hw Hfs IH]; [done|]. cbn [pack width foldr fst] in *. fold (width fs). pose proof (width_nonneg _ Hfs).
  rewrite Z.pow_add_r by done. pose proof (Z.mod_pos_bound v (2 ^ w) ltac:(apply Z.pow_pos_nonneg; lia)). nia.
Qed.
Lemma pack_app a b : Forall (λ f, 0 <= f.1) a → pack (a ++ b) = pack a + 2 ^ width a * pack b.
Proof.
  induction 1 as [|[w v] fs Hw Hfs IH]; [cbn; lia|]. cbn [app pack width foldr fst] in *. rewrite IH. fold (width fs). pose proof (width_nonneg _ Hfs).
  rewrite Z.pow_add_r by done. lia.
Qed.

(** Two bytes of bit fields: which of them comes first in memory is the machine's affair, and
    so is the order of the fields. *)
Lemma bitfields_16 (big : bool) (a b : fields) decl : Forall (λ f, 0 <= f.1) a → Forall (λ f, 0 <= f.1) b → width a = 8 → width b = 8 →
  (if big then rev decl else decl) = (if big then a ++ b else b ++ a) → bitfields big 2 decl = [pack b; pack a].
Proof.
  intros Ha Hb Wa Wb E. unfold bitfields. rewrite E. pose proof (pack_range a Ha) as Ra. pose proof (pack_range b Hb) as Rb. rewrite Wa in Ra. rewrite Wb in Rb.
  destruct big; rewrite pack_app by done; unfold bytes; cbn [le_bytes rev app]; unfold wrap; rewrite ?Wa, ?Wb; change (2 ^ 8) with 256 in *.
  - rewrite (Z.mul_comm 256), Z.mod_add, Z.div_add, (Z.div_small (pack a)) by lia. by rewrite Z.add_0_l, !Z.mod_small by lia.
  - rewrite (Z.mul_comm 256), Z.mod_add, Z.div_add, (Z.div_small (pack b)) by lia. by rewrite Z.add_0_l, !Z.mod_small by lia.
Qed.
Lemma bitfields_8 (big : bool) hi lo : in_width 4 hi → in_width 4 lo →
  bitfields big 1 (if big then [(4, hi); (4, lo)] else [(4, lo); (4, hi)]) = [16 * hi + lo].
Proof.
  unfold in_width. intros Hh Hl. unfold bitfields.
  assert ((if big then rev (if big then [(4, hi); (4, lo)] else [(4, lo); (4, hi)]) else if big then [(4, hi); (4, lo)] else [(4, lo); (4, hi)]) = [(4, lo); (4, hi)]) as -> by (by destruct big).
  cbn [pack]. rewrite !Z.mod_small by done. rewrite byte1; [f_equal; lia|]. unfold in_width. lia.
Qed.

(** An IP header is what gen_ip makes of its fields. *)
Lemma iphdr_on_the_wire big t l p (sa da : list Z) : in_width 8 t → in_width 8 l → in_width 8 p →
  length sa = 4%nat → length da = 4%nat → Forall is_byte sa → Forall is_byte da →
  iphdr_bytes big (Iphdr 4 5 t 0 0 0 l p 0 (word big sa) (word big da)) = ip_header t l p sa da.
Proof.
  intros Ht Hl Hp H1 H2 B1 B2. unfold iphdr_bytes, iphdr_bits. cbn [version ihl tos tot_len id frag_off ttl protocol ip_check saddr daddr].
  rewrite bitfields_8 by done. assert (Hw : ∀ x : list Z, length x = 4%nat → Forall is_byte x → bytes big 4 (word big x) = x).
  { intros x Hn Hb. unfold bytes, word. destruct big.
    - rewrite <-Hn, <-(length_rev x), le_bytes_word by (by apply Forall_rev). apply rev_involutive.
    - rewrite <-Hn. by apply le_bytes_word. }
  rewrite !Hw by done. rewrite !byte1 by done. unfold ip_header, wrap. unfold in_width in *. rewrite !Z.mod_small by done. by destruct big.
Qed.

(** A TCP header whose longer fields were converted. *)
Definition tcp_flags (h : tcphdr) : fields := [(1, fin h); (1, syn h); (1, rst h); (1, psh h); (1, ack h); (1, urg h); (1, ece h); (1, cwr h)].
Definition tcphdr_net (big : bool) (h : tcphdr) : tcphdr :=
  Tcphdr (htons big (tcp_source h)) (htons big (tcp_dest h)) (htonl big (seq h)) (htonl big (ack_seq h)) (res1 h) (doff h)
    (fin h) (syn h) (rst h) (psh h) (ack h) (urg h) (ece h) (cwr h) (htons big (window h)) (htons big (tcp_check h)) (htons big (urg_ptr h)).
Definition tcphdr_ok (h : tcphdr) : Prop :=
  in_width 16 (tcp_source h) ∧ in_width 16 (tcp_dest h) ∧ in_width 32 (seq h) ∧ in_width 32 (ack_seq h) ∧ in_width 4 (res1 h) ∧ in_width 4 (doff h) ∧
  in_width 16 (window h) ∧ in_width 16 (tcp_check h) ∧ in_width 16 (urg_ptr h).
Lemma tcphdr_on_the_wire big h : tcphdr_ok h →
  tcphdr_bytes big (tcphdr_net big h) = be16 (tcp_source h) ++ be16 (tcp_dest h) ++ be32 (seq h) ++ be32 (ack_seq h) ++
    [16 * doff h + res1 h; pack (tcp_flags h)] ++ be16 (window h) ++ be16 (tcp_check h) ++ be16 (urg_ptr h).
Proof.
  intros (? & ? & ? & ? & Hr & Hd & ? & ? & ?).
  unfold tcphdr_bytes, tcphdr_net. cbn [tcp_source tcp_dest seq ack_seq window tcp_check urg_ptr]. rewrite !net16, !net32 by done. do 4 f_equal. f_equal.
  rewrite (bitfields_16 big (tcp_flags h) [(4, res1 h); (4, doff h)]); [|by repeat constructor..|done|done|by destruct big].
  f_equal. unfold in_width in *. cbn [pack]. rewrite !Z.mod_small by done. lia.
Qed.

(** ** Flags by the word they are in *)

Lemma land_bit x k : 0 <= k → (Z.land x (2 ^ k) =? 0) = negb (Z.testbit x k).
Proof.
  intros Hk. assert (Z.land x (2 ^ k) = Z.b2z (Z.testbit x k) * 2 ^ k) as ->.
  { apply Z.bits_inj'. intros n Hn. rewrite Z.land_spec, Z.pow2_bits_eqb, Z.mul_pow2_bits by lia. destruct (Z.eqb_spec k n) as [->|Hne].
    - rewrite Z.sub_diag, andb_true_r. by destruct (Z.testbit x n).
    - rewrite andb_false_r. destruct (Z.lt_ge_cases n k); [by rewrite Z.testbit_neg_r by lia|]. replace (n - k) with (Z.succ (n - k - 1)) by lia.
      by destruct (Z.testbit x k); cbn [Z.b2z]; [rewrite Z.bits_above_log2 by (cbn; lia)|rewrite Z.testbit_0_l]. }
  pose proof (Z.pow_pos_nonneg 2 k). destruct (Z.testbit x k); cbn [Z.b2z negb]; [apply Z.eqb_neq; lia|done].
Qed.
Lemma middle_bit k a b r j : 0 <= k → 0 <= a < 2 ^ k → 0 <= j < 8 → 0 <= b < 256 → Z.testbit (a + 2 ^ k * (b + 256 * r)) (k + j) = Z.testbit b j.
Proof.
  intros Hk Ha Hj Hb. replace (k + j) with (j + k) by lia. rewrite <-Z.div_pow2_bits by lia.
  rewrite (Z.mul_comm (2 ^ k)), Z.div_add, (Z.div_small a), Z.add_0_l by lia. change 256 with (2 ^ 8).
  rewrite <-(Z.mod_pow2_bits_low (b + 2 ^ 8 * r) 8 j) by lia. rewrite (Z.mul_comm (2 ^ 8)), Z.mod_add, Z.mod_small by lia. done.
Qed.
Lemma pack_bit_0 v fs : Z.testbit (pack ((1, v) :: fs)) 0 = Z.odd v.
Proof. cbn [pack]. change (2 ^ 1) with 2. rewrite Zmod_odd. rewrite Z.add_comm. destruct (Z.odd v); [apply (Z.testbit_0_r _ true)|apply (Z.testbit_0_r _ false)]. Qed.
Lemma pack_bit_succ v fs j : 0 <= j → Z.testbit (pack ((1, v) :: fs)) (j + 1) = Z.testbit (pack fs) j.
Proof.
  intros Hj. cbn [pack]. change (2 ^ 1) with 2. rewrite Zmod_odd, Z.add_comm, Z.add_1_r.
  destruct (Z.odd v); [by apply (Z.testbit_succ_r _ true)|by apply (Z.testbit_succ_r _ false)].
Qed.

Lemma pack_bit fs n v : Forall (λ f, f.1 = 1) fs → fs !! n = Some (1, v) → Z.testbit (pack fs) (Z.of_nat n) = Z.odd v.
Proof.
  revert n. induction fs as [|[w x] fs IH]; intros n Hw Hn; [done|]. apply Forall_cons in Hw as [Hw1 Hw]. cbn in Hw1. subst w.
  destruct n as [|n]; [injection Hn as ->; apply pack_bit_0|]. rewrite Nat2Z.inj_succ, <-Z.add_1_r, pack_bit_succ by lia. by apply IH.
Qed.

Lemma flag_word_bit (big : bool) (h : tcphdr) j : tcphdr_ok h → 0 <= j < 8 →
  Z.testbit (tcp_flag_word big (tcphdr_bytes big (tcphdr_net big h))) ((if big then 16 else 8) + j) = Z.testbit (pack (tcp_flags h)) j.
Proof.
  intros Hok Hj. rewrite tcphdr_on_the_wire by done. destruct Hok as (_ & _ & _ & _ & Hr & Hd & Hw & _). unfold in_width in *.
  pose proof (pack_range (tcp_flags h) ltac:(by repeat constructor)) as Hp. change (2 ^ width (tcp_flags h)) with 256 in Hp.
  unfold tcp_flag_word, be32, be16. cbn [app take drop]. unfold word, wrap. set (w1 := window h / 256 mod 2 ^ 8). set (w0 := window h mod 2 ^ 8).
  assert (0 <= w1 < 256) by (apply Z.mod_pos_bound; lia). assert (0 <= w0 < 256) by (apply Z.mod_pos_bound; lia).
  destruct big; cbn [rev app le_word].
  - rewrite <-(middle_bit 16 (w0 + 256 * w1) (pack (tcp_flags h)) (16 * doff h + res1 h) j) by lia. f_equal. lia.
  - rewrite <-(middle_bit 8 (16 * doff h + res1 h) (pack (tcp_flags h)) (w1 + 256 * w0) j) by lia. f_equal. lia.
Qed.

(** Each mask selects its flag, on machines of both orders. *)
Definition flag_masks : list ((tcphdr → Z) * (bool → Z)) :=
  [(fin, TCP_FLAG_FIN); (syn, TCP_FLAG_SYN); (rst, TCP_FLAG_RST); (psh, TCP_FLAG_PSH); (ack, TCP_FLAG_ACK); (urg, TCP_FLAG_URG); (ece, TCP_FLAG_ECE); (cwr, TCP_FLAG_CWR)].
Lemma tcp_flag_word_selects (big : bool) (h : tcphdr) : tcphdr_ok h →
  Forall (λ '(flag, mask), (Z.land (tcp_flag_word big (tcphdr_bytes big (tcphdr_net big h))) (mask big) =? 0) = negb (Z.odd (flag h))) flag_masks.
Proof.
  intros Hok. assert (Hj : ∀ n mask v, (n < 8)%nat → mask big = 2 ^ ((if big then 16 else 8) + Z.of_nat n) → tcp_flags h !! n = Some (1, v) →
    (Z.land (tcp_flag_word big (tcphdr_bytes big (tcphdr_net big h))) (mask big) =? 0) = negb (Z.odd v)).
  { intros n mask v Hn -> E. rewrite land_bit by (destruct big; lia). rewrite flag_word_bit by (done || lia). f_equal. apply pack_bit; [by repeat constructor|done]. }
  repeat (apply Forall_cons; split);
    [apply (Hj 0%nat)|apply (Hj 1%nat)|apply (Hj 2%nat)|apply (Hj 3%nat)|apply (Hj 4%nat)|apply (Hj 5%nat)|apply (Hj 6%nat)|apply (Hj 7%nat)|constructor];
    first [lia|by destruct big|reflexivity].
Qed.
