(* ===== verification/TcpSession.v ===== *)
(** * tools/tcpsession.c: TCP sessions as gen_ip commands

    tui_do_command is a parameter: it takes the words of a command and the state of
    everything else, of type [T], and tells whether the command succeeded.  The
    simulator has at most one session. *)

From Stdlib Require Import ZArith Lia.
From S2P Require Import Prelude CStr Mem GenIp.

Record tcp_endpoint := TcpEndpoint { interface : text; src : text; dst : text; spt : text; dpt : text; seq : Z; ack : Z }.
Record tcp_session := TcpSession { original : tcp_endpoint; reply : tcp_endpoint; lenchange : Z }.

(** seq += n, ack += n *)
Definition seq_add (n : Z) (e : tcp_endpoint) : tcp_endpoint := TcpEndpoint (interface e) (src e) (dst e) (spt e) (dpt e) (u32 (seq e + n)) (ack e).
Definition ack_add (n : Z) (e : tcp_endpoint) : tcp_endpoint := TcpEndpoint (interface e) (src e) (dst e) (spt e) (dpt e) (seq e) (u32 (ack e + n)).
(** The end that sends, [true] for the original direction, and the other one. *)
Definition sender (o : bool) (c : tcp_session) : tcp_endpoint := if o then original c else reply c.
Definition receiver (o : bool) (c : tcp_session) : tcp_endpoint := sender (negb o) c.
Definition advance (o : bool) (n m : Z) (c : tcp_session) : tcp_session :=
  if o then TcpSession (seq_add n (original c)) (ack_add m (reply c)) (lenchange c)
  else TcpSession (ack_add m (original c)) (seq_add n (reply c)) (lenchange c).
Definition with_lenchange (n : Z) (c : tcp_session) : tcp_session := TcpSession (original c) (reply c) n.

(** ** The two commands of a packet *)

Definition expect_words (out : tcp_endpoint) (len : Z) (flags : text) : list text :=
  [tx "expect"; tx "gen_ip"; tx "send:" ++ interface out;
   tx "{IPv4 " ++ dst out ++ tx " " ++ src out ++ tx " " ++ print_d len ++ tx " 6 " ++ dpt out ++ tx " " ++ spt out ++ tx " " ++ flags ++
   tx " SEQ=" ++ print_u (ack out) ++ tx " ACK=" ++ print_u (seq out) ++ tx "*}"].
Definition gen_ip_words (in' : tcp_endpoint) (len : Z) (flags : text) (win : option text) (data : list text) : list text :=
  [tx "gen_ip"; tx "IF=" ++ interface in'; src in'; dst in'; print_d len; tx "6"; spt in'; dpt in'; flags;
   tx "SEQ=" ++ print_u (seq in'); tx "ACK=" ++ print_u (ack in')] ++
  match win with Some w => [w] | None => [] end ++ match data with [] => [] | _ => tx "DATA" :: data end.

Section Session.
Context {T : Type} (tui_do_command : list text → T → outcome (bool * T)).

(** argv has 1024 elements, the null pointer included. *)
Definition tcp_send (o : bool) (len : Z) (flags : text) (win : option text) (data : list text) (c : tcp_session) (t : T) : outcome (bool * T) :=
  '(ok, t) ← tui_do_command (expect_words (receiver o c) (s32 (len + lenchange c)) flags) t;
  if negb (ok : bool) then mret (false, t) else
  let argv := gen_ip_words (sender o c) len flags win data in
  if 1024 <? zlen argv + 1 then Fault "tcp_send: write past argv" else tui_do_command argv t.

Definition SYN := tx "SYN".
Definition SYN_ACK := tx "SYN/ACK".
Definition ACK := tx "ACK".
Definition FIN_ACK := tx "FIN/ACK".
Definition RST := tx "RST".
Definition WIN : option text := Some (tx "WIN=512").

Definition open_session (src dst spt dpt rsrc rdst rspt rdpt : text) (t : T) : outcome (bool * option tcp_session * T) :=
  let c := TcpSession (TcpEndpoint (tx "eth0") src dst spt dpt 1000 2000) (TcpEndpoint (tx "eth1") rsrc rdst rspt rdpt 2000 1000) 0 in
  '(ok, t) ← tcp_send true 0 SYN WIN [] c t;
  if negb (ok : bool) then mret (false, None, t) else
  let c := advance true 1 1 c in
  '(ok, t) ← tcp_send false 0 SYN_ACK WIN [] c t;
  if negb (ok : bool) then mret (false, None, t) else
  let c := advance false 1 1 c in
  '(ok, t) ← tcp_send true 0 ACK WIN [] c t;
  if negb (ok : bool) then mret (false, None, t) else mret (true, Some c, t).

Definition send_data (o : bool) (data : list text) (c : tcp_session) (t : T) : outcome (bool * option tcp_session * T) :=
  len ← gen_ip_data_length data;
  let len := s32 len in
  '(ok, t) ← tcp_send o len ACK None data c t;
  if negb (ok : bool) then mret (false, Some c, t) else
  let c := with_lenchange 0 (advance o len (len + lenchange c) c) in
  '(ok, t) ← tcp_send (negb o) 0 ACK WIN [] c t;
  mret (ok, Some c, t).

Definition close_session (o : bool) (c : tcp_session) (t : T) : outcome (bool * option tcp_session * T) :=
  '(ok, t) ← tcp_send o 0 FIN_ACK None [] c t;
  if negb (ok : bool) then mret (false, Some c, t) else
  let c := advance o 1 1 c in
  '(ok, t) ← tcp_send (negb o) 0 FIN_ACK None [] c t;
  if negb (ok : bool) then mret (false, Some c, t) else
  let c := advance (negb o) 1 1 c in
  '(ok, t) ← tcp_send o 0 ACK None [] c t;
  if negb (ok : bool) then mret (false, Some c, t) else mret (true, None, t).

Definition reset_session (o : bool) (c : tcp_session) (t : T) : outcome (bool * option tcp_session * T) :=
  '(ok, t) ← tcp_send o 0 RST None [] c t;
  if negb (ok : bool) then mret (false, Some c, t) else mret (true, None, t).

(** "original" or "reply" *)
Definition direction (w : text) : option bool := if streq w (tx "original") then Some true else if streq w (tx "reply") then Some false else None.

Definition tcpsession (argv : list text) (curr : option tcp_session) (t : T) : outcome (bool * option tcp_session * T) :=
  let fail := mret (false, curr, t) in
  match argv with
  | [] | [_] => fail
  | _ :: cmd :: args =>
      if streq cmd (tx "OPEN") then
        match curr, args with
        | Some _, _ => fail
        | None, [a; b; c; d] => open_session a b c d b a d c t
        | None, [a; b; c; d; e; f; g; h] => open_session a b c d e f g h t
        | None, _ => fail
        end
      else if streq cmd (tx "DATA") then
        match curr, args with
        | Some c, w :: data => match direction w with Some o => send_data o data c t | None => fail end
        | _, _ => fail
        end
      else if streq cmd (tx "LENCHANGE") then
        match args with
        | [w] =>
            if atoi w =? 0 then fail else
            match curr with Some c => mret (true, Some (with_lenchange (atoi w) c), t) | None => Fault "LENCHANGE: no session" end
        | _ => fail
        end
      else if streq cmd (tx "CLOSE") then
        match curr, args with
        | Some c, [w] => match direction w with Some o => close_session o c t | None => fail end
        | _, _ => fail
        end
      else if streq cmd (tx "RESET") then
        match curr, args with
        | Some c, [w] => match direction w with Some o => reset_session o c t | None => fail end
        | _, _ => fail
        end
      else if streq cmd (tx "ABANDON") then
        match curr, args with Some _, [] => mret (true, None, t) | _, _ => fail end
      else fail
  end.

(** Commands one after the other, whether they succeed or not. *)
Fixpoint run (cmds : list (list text)) (curr : option tcp_session) (t : T) : outcome (option tcp_session * T) :=
  match cmds with
  | [] => mret (curr, t)
  | argv :: cmds => '(_, curr, t) ← tcpsession argv curr t; run cmds curr t
  end.
End Session.

(** ** What is expected is what is generated *)

(** Everything else as the commands that were run; [answer] is whatever they say. *)
Definition record (answer : list text → list (list text) → outcome bool) (argv : list text) (tr : list (list text)) : outcome (bool * list (list text)) :=
  ok ← answer argv tr; mret (ok, tr ++ [argv]).

(** The description of the packet that gen_ip makes of its words. *)
Definition pattern_of (argv : list text) : text :=
  match argv with
  | _ :: _ :: src :: dst :: len :: proto :: spt :: dpt :: flags :: seq :: ack :: _ =>
      tx "{IPv4 " ++ src ++ tx " " ++ dst ++ tx " " ++ len ++ tx " " ++ proto ++ tx " " ++ spt ++ tx " " ++ dpt ++ tx " " ++ flags ++ tx " " ++ seq ++ tx " " ++ ack ++ tx "*}"
  | _ => []
  end.
(** It comes in by one interface and is expected at the other. *)
Definition expects (e g : list text) : Prop := ∃ i o : text,
  e = [tx "expect"; tx "gen_ip"; tx "send:" ++ o; pattern_of g] ∧ take 2 g = [tx "gen_ip"; tx "IF=" ++ i] ∧
  (i = tx "eth0" ∧ o = tx "eth1" ∨ i = tx "eth1" ∧ o = tx "eth0").
(** Each gen_ip right behind its expectation; an expect that failed has none. *)
Inductive paired : list (list text) → Prop :=
| paired_nil : paired []
| paired_both tr e g : paired tr → expects e g → paired (tr ++ [e; g])
| paired_failed tr e g : paired tr → expects e g → paired (tr ++ [e]).

(** Both ends agree, and no change of length is expected. *)
Record agree (c : tcp_session) : Prop := Agree {
  ag_src : src (reply c) = dst (original c) ∧ dst (reply c) = src (original c);
  ag_port : spt (reply c) = dpt (original c) ∧ dpt (reply c) = spt (original c);
  ag_num : seq (reply c) = ack (original c) ∧ ack (reply c) = seq (original c);
  ag_if : interface (original c) = tx "eth0" ∧ interface (reply c) = tx "eth1";
  ag_len : lenchange c = 0;
}.

Lemma agree_advance o n c : agree c → agree (advance o n n c).
Proof. intros [[] [] [] [] ?]. destruct o; split; cbn; try done; split; congruence. Qed.

Lemma s32_s32 x : s32 (s32 x) = s32 x.
Proof.
  unfold signed. assert (wrap 32 (if wrap 32 x <? 2 ^ (32 - 1) then wrap 32 x else wrap 32 x - 2 ^ 32) = wrap 32 x) as E; [|by rewrite E].
  destruct (_ <? _); [by apply wrap_wrap|]. rewrite <-(wrap_wrap 32 ltac:(lia) x) at 2. unfold wrap. rewrite <-(Z_mod_plus_full (x mod 2 ^ 32 - 2 ^ 32) 1 (2 ^ 32)). f_equal. lia.
Qed.

Section Pairs.
Context (answer : list text → list (list text) → outcome bool).

Lemma tcp_send_paired o len flags win data c tr ok tr' : agree c → s32 len = len → paired tr →
  tcp_send (record answer) o len flags win data c tr = Ret (ok, tr') → paired tr'.
Proof using Type.
  intros [[Hs1 Hs2] [Hp1 Hp2] [Hn1 Hn2] [Hi1 Hi2] Hl] Hlen Hp. unfold tcp_send. rewrite Hl, Z.add_0_r, Hlen.
  set (e := expect_words _ _ _). set (g := gen_ip_words _ _ _ _ _). assert (He : expects e g).
  { unfold expects, e, g. destruct o; cbn [sender receiver negb]; unfold expect_words; [exists (tx "eth0"), (tx "eth1")|exists (tx "eth1"), (tx "eth0")];
      (split; [|split; [unfold gen_ip_words; cbn [take app]; congruence|tauto]]); unfold gen_ip_words; cbn [app pattern_of]; rewrite ?Hs1, ?Hs2, ?Hp1, ?Hp2, ?Hn1, ?Hn2, ?Hi1, ?Hi2;
      repeat f_equal; by rewrite <-?app_assoc. }
  unfold record at 1. intros ([ok1 tr1] & H1 & H2)%bind_Ret_inv. apply bind_Ret_inv in H1 as (a & _ & H1). injection H1 as <- <-. destruct a; cbn [negb] in H2.
  - destruct (1024 <? _); [done|]. unfold record in H2. apply bind_Ret_inv in H2 as (b & _ & H2). injection H2 as <- <-. rewrite <-app_assoc. by apply paired_both.
  - injection H2 as <- <-. by eapply paired_failed.
Qed.

Definition fine (curr : option tcp_session) (tr : list (list text)) : Prop := (∀ c, curr = Some c → agree c) ∧ paired tr.

(** A packet and what follows if it was sent. *)
Lemma send_then o len flags win data c tr (k : list (list text) → outcome (bool * option tcp_session * list (list text))) (r : list (list text) → outcome (bool * option tcp_session * list (list text))) ok curr' tr' :
  agree c → s32 len = len → paired tr →
  (∀ tr1, paired tr1 → k tr1 = Ret (ok, curr', tr') → fine curr' tr') → (∀ tr1, paired tr1 → r tr1 = Ret (ok, curr', tr') → fine curr' tr') →
  ('(b, t) ← tcp_send (record answer) o len flags win data c tr; if negb (b : bool) then r t else k t) = Ret (ok, curr', tr') → fine curr' tr'.
Proof using Type.
  intros Ha Hl Hp Hk Hr ([b t] & H1 & H2)%bind_Ret_inv. pose proof (tcp_send_paired _ _ _ _ _ _ _ _ _ Ha Hl Hp H1) as Ht. destruct b; cbn [negb] in H2; [by eapply Hk|by eapply Hr].
Qed.

Lemma fine_gone tr : paired tr → fine None tr.
Proof using Type. by split. Qed.
Lemma fine_some c tr : agree c → paired tr → fine (Some c) tr.
Proof using Type. split; [by intros ? [= <-]|done]. Qed.

Lemma ret_inj {A B C : Type} (a a' : A) (b b' : B) (c c' : C) : Ret (a, b, c) = Ret (a', b', c') → a = a' ∧ b = b' ∧ c = c'.
Proof using Type. intros H. by injection H. Qed.

Ltac packet := apply send_then; [repeat apply agree_advance; assumption|by rewrite ?s32_s32|assumption|intros ? ?|intros ? ? (_ & <- & <-)%ret_inj; first [by apply fine_gone|by apply fine_some; [repeat apply agree_advance|]]].

Lemma open_fine a b c d tr ok curr' tr' : paired tr → open_session (record answer) a b c d b a d c tr = Ret (ok, curr', tr') → fine curr' tr'.
Proof using Type.
  intros Hp. unfold open_session. set (s0 := TcpSession _ _ 0). assert (A : agree s0) by (by split). clearbody s0. cbv zeta.
  packet. packet. packet. intros (_ & <- & <-)%ret_inj. by apply fine_some; [repeat apply agree_advance|].
Qed.
Lemma close_fine o c tr ok curr' tr' : agree c → paired tr → close_session (record answer) o c tr = Ret (ok, curr', tr') → fine curr' tr'.
Proof using Type. intros A Hp. unfold close_session. cbv zeta. packet. packet. packet. intros (_ & <- & <-)%ret_inj. by apply fine_gone. Qed.
Lemma reset_fine o c tr ok curr' tr' : agree c → paired tr → reset_session (record answer) o c tr = Ret (ok, curr', tr') → fine curr' tr'.
Proof using Type. intros A Hp. unfold reset_session. packet. intros [= <- <- <-]. by apply fine_gone. Qed.
Lemma data_fine o data c tr ok curr' tr' : agree c → paired tr → send_data (record answer) o data c tr = Ret (ok, curr', tr') → fine curr' tr'.
Proof using Type.
  intros A Hp. unfold send_data. intros (len & _ & H)%bind_Ret_inv. revert H. cbv zeta. rewrite (ag_len c A), Z.add_0_r.
  packet. set (c' := with_lenchange 0 _). assert (A' : agree c').
  { pose proof (agree_advance o (s32 len) c A) as []. by split. }
  clearbody c'. intros ([b t] & H1 & H2)%bind_Ret_inv. injection H2 as <- <- <-. apply fine_some; [done|].
  by eapply (tcp_send_paired _ _ _ _ _ _ _ _ _ A'); [..|exact H1].
Qed.

(** No LENCHANGE, and no OPEN with the addresses of the other direction. *)
Definition plain (argv : list text) : Prop := nth 1 argv [] ≠ tx "LENCHANGE" ∧ (nth 1 argv [] = tx "OPEN" → length argv ≠ 10%nat).

Lemma tcpsession_fine argv curr tr ok curr' tr' : plain argv → fine curr tr → tcpsession (record answer) argv curr tr = Ret (ok, curr', tr') → fine curr' tr'.
Proof using Type.
  intros [Hl H10] F. pose proof F as [Ha Hp]. unfold tcpsession. assert (Hf : ∀ ok curr' tr', mret (false, curr, tr) = Ret (ok, curr', tr') → fine curr' tr') by (by intros ??? [= <- <- <-]).
  destruct argv as [|? [|cmd args]]; [apply Hf|apply Hf|]. cbn [nth] in Hl, H10. destruct (streq cmd (tx "OPEN")) eqn:Eo.
  { apply streq_spec in Eo. specialize (H10 Eo). destruct curr; [apply Hf|]. destruct args as [|a [|b [|c [|d [|e [|f [|g [|h [|]]]]]]]]]; try apply Hf; [by apply open_fine|done]. }
  destruct (streq cmd (tx "DATA")).
  { destruct curr as [c|]; [|apply Hf]. destruct args as [|w data]; [apply Hf|]. destruct (direction w); [|apply Hf]. apply data_fine; auto. }
  destruct (streq cmd (tx "LENCHANGE")) eqn:El; [by apply streq_spec in El|].
  destruct (streq cmd (tx "CLOSE")).
  { destruct curr as [c|]; [|apply Hf]. destruct args as [|w [|]]; try apply Hf. destruct (direction w); [|apply Hf]. apply close_fine; auto. }
  destruct (streq cmd (tx "RESET")).
  { destruct curr as [c|]; [|apply Hf]. destruct args as [|w [|]]; try apply Hf. destruct (direction w); [|apply Hf]. apply reset_fine; auto. }
  destruct (streq cmd (tx "ABANDON")); [|apply Hf]. destruct curr as [c|]; [|apply Hf]. destruct args; [|apply Hf]. intros [= <- <- <-]. by apply fine_gone.
Qed.
End Pairs.

(** C14: whatever commands are given, and whether they succeed or not, without LENCHANGE and
    without OPEN in its long form, with translated addresses, every packet is expected, right before gen_ip makes it, with
    just the addresses, ports, length, flags and numbers it is made with, at the other
    interface; the ends of the session agree about the numbers all along. *)
Theorem session_expects_what_it_sends answer cmds curr tr curr' tr' :
  Forall plain cmds → (∀ c, curr = Some c → agree c) → paired tr → run (record answer) cmds curr tr = Ret (curr', tr') →
  (∀ c, curr' = Some c → agree c) ∧ paired tr'.
Proof.
  intros Hc. revert curr tr. induction Hc as [|argv cmds Ha Hc IH]; intros curr tr A Hp; cbn [run]; [by intros [= <- <-]|].
  intros ([[ok c1] t1] & H1 & H2)%bind_Ret_inv. destruct (tcpsession_fine answer _ _ _ _ _ _ Ha (conj A Hp) H1). by eapply IH.
Qed.

(** ** A session *)

Module Talk.
Definition words (l : list string) : list text := map (λ s, tx s) l.
Definition yes (_ : list text) (_ : list (list text)) : outcome bool := Ret true.
Definition open := words ["tcpsession"; "OPEN"; "10.0.0.1"; "10.0.1.1"; "1024"; "80"].
Definition talk := [open; words ["tcpsession"; "DATA"; "original"; "hello"]; words ["tcpsession"; "DATA"; "reply"; "a"; "b"; "c"; "d"; "e"; "f"; "g"]; words ["tcpsession"; "CLOSE"; "reply"]].
(** The words of the commands that were run, each command as one line. *)
Definition lines (cmds : list (list text)) : outcome (list text) :=
  '(_, tr) ← run (record yes) cmds None []; mret (map (λ argv, concat (map (λ w, w ++ tx " ") argv)) tr).
End Talk.
Import Talk.

Lemma session_expects_what_it_sends_witness :
  (∃ tr, run (record yes) talk None [] = Ret (None, tr) ∧ length tr = 20%nat ∧ paired tr) ∧
  (ls ← lines (take 2 talk); Ret (drop 6 ls)) = Ret (words [
    "expect gen_ip send:eth1 {IPv4 10.0.0.1 10.0.1.1 5 6 1024 80 ACK SEQ=1001 ACK=2001*} ";
    "gen_ip IF=eth0 10.0.0.1 10.0.1.1 5 6 1024 80 ACK SEQ=1001 ACK=2001 DATA hello ";
    "expect gen_ip send:eth0 {IPv4 10.0.1.1 10.0.0.1 0 6 80 1024 ACK SEQ=2001 ACK=1006*} ";
    "gen_ip IF=eth1 10.0.1.1 10.0.0.1 0 6 80 1024 ACK SEQ=2001 ACK=1006 WIN=512 "]).
Proof.
  split; [|by vm_compute]. destruct (run (record yes) talk None []) as [[c tr]| |] eqn:E; [|exfalso; vm_compute in E; discriminate..].
  exists tr. assert (c = None) as -> by (vm_compute in E; congruence). split; [done|]. split; [vm_compute in E; injection E as <-; done|].
  eapply (session_expects_what_it_sends yes talk None [] None tr); [|done|constructor|exact E].
  repeat constructor; by vm_compute.
Defined.

(** ** What is wrong with it *)

(** LENCHANGE does not look whether there is a session. *)
Lemma lenchange_no_session : lines [words ["tcpsession"; "LENCHANGE"; "4"]] = Fault "LENCHANGE: no session".
Proof. by vm_compute. Qed.

(** Only DATA takes the change back: one that is followed by CLOSE is expected of all the
    three packets, though the help says the next packet. *)
Lemma lenchange_of_close :
  (ls ← lines [open; words ["tcpsession"; "LENCHANGE"; "4"]; words ["tcpsession"; "CLOSE"; "original"]]; Ret (omap (λ i, ls !! i) [6; 8; 10]%nat)) = Ret (words [
    "expect gen_ip send:eth1 {IPv4 10.0.0.1 10.0.1.1 4 6 1024 80 FIN/ACK SEQ=1001 ACK=2001*} ";
    "expect gen_ip send:eth0 {IPv4 10.0.1.1 10.0.0.1 4 6 80 1024 FIN/ACK SEQ=2001 ACK=1002*} ";
    "expect gen_ip send:eth1 {IPv4 10.0.0.1 10.0.1.1 4 6 1024 80 ACK SEQ=1002 ACK=2002*} "]).
Proof. by vm_compute. Qed.

(** argv is not overrun: the interpreter cuts commands at 128 words. *)
Lemma argv_fits c o len flags win data : zlen data <= 128 → zlen (gen_ip_words (sender o c) len flags win data) + 1 <= 1024.
Proof.
  intros Hd. unfold gen_ip_words. rewrite !zlen_app. change (zlen [_; _; _; _; _; _; _; _; _; _; _]) with 11.
  assert (zlen (match win with Some w => [w] | None => [] end) <= 1) by (destruct win; unfold zlen; simpl; lia).
  assert (zlen (match data with [] => [] | _ => tx "DATA" :: data end) <= 129) by (destruct data; unfold zlen in *; simpl length in *; lia). lia.
Qed.
