(* ===== verification/Describe.v ===== *)
(** * core/ipv4/ipv4.c: packets as command lines

    [describe] prints a packet the way gen_ip reads one; the theorem is that what
    gen_ip builds is printed as the command that built it. *)

From Stdlib Require Import ZArith Lia.
From S2P Require Import Prelude CStr Mem Csum Expect Log Tui GenIp.

Definition PBUF : Z := 1024.
Definition IP_OFFSET : Z := 0x1FFF.

(** [%x] *)
Fixpoint hex_digits (fuel : nat) (n : Z) (acc : text) : text :=
  let acc := hexdigit (n mod 16) :: acc in
  match fuel with
  | O => acc
  | S fuel => if n <? 16 then acc else hex_digits fuel (n / 16) acc
  end.
Definition print_x (n : Z) : text := hex_digits (Z.to_nat (Z.log2 n + 1)) n [].
(** [%04x] *)
Definition print_04x (n : Z) : text := replicate (4 - length (print_x n)) "0"%char ++ print_x n.

(** sprintf or character stores at [ptr]: text and terminator must fit ipv4_pbuf. *)
Definition emit (msg out : text) : outcome text :=
  if zlen out + zlen msg <? PBUF then mret (out ++ msg) else Fault "describe: write past ipv4_pbuf".

(** Bytes of the packet; reading outside it is undefined. *)
Definition byte_at (m : list Z) (off : Z) : outcome Z := b ← slice off 1 m; mret (hd 0 b).
Definition bytes_at (m : list Z) (off n : Z) : outcome (list Z) := slice off n m.

Definition print_data (data : list Z) (out : text) : outcome text :=
  out ← emit (tx "DATA ") out; emit (concat (map (λ b, escape_char (chr b)) data)) out.

(** The [out:] label. *)
Definition finish (out : text) : outcome text :=
  match last out with
  | None => Fault "describe: ptr[-1] is before ipv4_pbuf"
  | Some c => mret (if ascii_eqb c " " then take (length out - 1) out else out)
  end.
(** strcat leaves [ptr] where it is: what was appended goes when a blank is cut off. *)
Definition finish_strcat (msg out : text) : outcome (text * text) :=
  o ← finish out; mret (o, if (length o <? length out)%nat then [] else msg).

Definition has_flag (dump_flags : option text) (flag : text) : bool :=
  match dump_flags with Some f => bool_decide (is_Some (strstr f flag)) | None => false end.

Fixpoint emit_all (msgs : list text) (out : text) : outcome text :=
  match msgs with [] => mret out | m :: msgs => out ← emit m out; emit_all msgs out end.
Definition when {A} (b : bool) (x : A) : list A := if b then [x] else [].

(** The options and addresses. *)
Definition ip_fields (frag ttl tos : Z) (saddr daddr : list Z) (dump_flags : option text) : list text :=
  let quad (a : list Z) := print_u (nth 0 a 0) ++ tx "." ++ print_u (nth 1 a 0) ++ tx "." ++ print_u (nth 2 a 0) ++ tx "." ++ print_u (nth 3 a 0) in
  when (negb (Z.land frag IP_OFFSET =? 0)) (tx "FRAG=" ++ print_u (Z.land frag IP_OFFSET * 8) ++ tx " ") ++
  when (negb (Z.land frag IP_DF =? 0)) (tx "DF ") ++
  when (negb (Z.land frag IP_MF =? 0)) (tx "MF ") ++
  when (negb (Z.land frag IP_CE =? 0)) (tx "CE ") ++
  when (has_flag dump_flags (tx "ttl")) (tx "TTL=" ++ print_u ttl ++ tx " ") ++
  when (has_flag dump_flags (tx "tos")) (tx "TOS=" ++ print_u tos ++ tx " ") ++
  when (has_flag dump_flags (tx "dscp")) (tx "DSCP=0x" ++ print_x (Z.shiftr tos 2) ++ tx " ") ++
  when (has_flag dump_flags (tx "ect")) (tx "ECT=0x" ++ print_x (Z.land tos 3) ++ tx " ") ++
  [quad saddr ++ tx " " ++ quad daddr ++ tx " "].

(** The flags between slashes, in the order describe tests them. *)
Definition flag_order : list (text * Z) :=
  [(tx "SYN", TH_SYN); (tx "FIN", TH_FIN); (tx "RST", TH_RST); (tx "ACK", TH_ACK); (tx "URG", TH_URG); (tx "PSH", TH_PSH);
   (tx "CWR", TH_CWR); (tx "ECE", TH_ECE)].
Fixpoint flag_list (names : list (text * Z)) (flags : Z) (first : bool) : text :=
  match names with
  | [] => []
  | (n, v) :: names =>
      if Z.land flags v =? 0 then flag_list names flags first
      else (if first then n else tx "/" ++ n) ++ flag_list names flags false
  end.
Definition print_flags (flags : Z) : text :=
  let p := flag_list flag_order flags true in (if bool_decide (p = []) then tx "NONE" else p) ++ tx " ".

Fixpoint opt_list (sep : text) (opts : list Z) : text :=
  match opts with [] => [] | o :: opts => sep ++ print_u o ++ opt_list (tx ",") opts end.

Section Describe.
Context (big : bool).
(** The local array's address. *)
Context (addr : Z) (m : list Z) (dump_flags : option text).

Definition csum_at (off len : Z) : outcome Z := csum_partial big (addr + off) (zdrop off m) len 0.
Definition u64_lt (a b : Z) : bool := u64 a <? b.

Definition describe_udp (off len iplen saddr daddr : Z) (mf : bool) (out : text) : outcome text :=
  out ← emit (print_u (u64 (iplen - 8)) ++ tx " 17 ") out;
  if u64_lt len 8 then emit (tx "-TRUNCATED-") out else
  hd ← bytes_at m off 8;
  out ← emit (print_u (ntohs_at 0 hd) ++ tx " " ++ print_u (ntohs_at 2 hd) ++ tx " ") out;
  if len <? iplen then emit (tx "-TRUNCATED-") out else
  let check := Csum.word big (take 2 (drop 6 hd)) in
  bad ← (if mf || (check =? 0) then mret 0 else
           p ← csum_at off iplen; csum_tcpudp_magic big saddr daddr (u16 iplen) IPPROTO_UDP p);
  if negb (bad =? 0) then emit (tx "-BAD UDP CSUM- (" ++ print_04x check ++ tx ")") out else
  if has_flag dump_flags (tx "data") then bs ← bytes_at m (off + 8) (Z.max 0 (iplen - 8)); print_data bs out
  else mret out.

Definition tcp_fields (hd : list Z) : list text :=
  print_flags (nth 13 hd 0) ::
  when (negb (ntohl_at 4 hd =? 0)) (tx "SEQ=" ++ print_u (ntohl_at 4 hd) ++ tx " ") ++
  when (negb (ntohl_at 8 hd =? 0)) (tx "ACK=" ++ print_u (ntohl_at 8 hd) ++ tx " ") ++
  when (negb (ntohs_at 14 hd =? 0)) (tx "WIN=" ++ print_u (ntohs_at 14 hd) ++ tx " ").

Definition describe_tcp (off len iplen saddr daddr : Z) (mf : bool) (out : text) : outcome text :=
  if u64_lt len 20 then emit (print_u (u64 (iplen - 20)) ++ tx " 6 " ++ tx "-TRUNCATED-") out else
  hd ← bytes_at m off 20;
  let doff := 4 * Z.shiftr (nth 12 hd 0) 4 in
  out ← emit (print_u (u32 (iplen - doff)) ++ tx " 6 ") out;
  out ← emit (print_u (ntohs_at 0 hd) ++ tx " " ++ print_u (ntohs_at 2 hd) ++ tx " ") out;
  if len <? iplen then emit (tx "-TRUNCATED-") out else
  out ← emit_all (tcp_fields hd) out;
  out ← (if doff =? 20 then mret out else
           opts ← bytes_at m (off + 20) (Z.max 0 (doff - 20)); emit (tx "OPT" ++ opt_list (tx "=") opts ++ tx " ") out);
  bad ← (if mf then mret 0 else
           p ← csum_at off iplen; csum_tcpudp_magic big saddr daddr (u16 iplen) IPPROTO_TCP p);
  if negb (bad =? 0) then emit (tx "-BAD TCP CSUM- (" ++ print_04x (Csum.word big (take 2 (drop 16 hd))) ++ tx ")") out else
  if has_flag dump_flags (tx "data") then bs ← bytes_at m (off + doff) (Z.max 0 (iplen - doff)); print_data bs out
  else mret out.

(** [nested]: describe for the packet inside an ICMP error; it returns [ptr]. *)
Definition describe_icmp (nested : text → Z → Z → outcome (text * text)) (off len iplen : Z) (mf : bool) (out : text) : outcome text :=
  out ← emit (print_u (u64 (iplen - 8)) ++ tx " 1 ") out;
  if u64_lt len 8 then emit (tx "-TRUNCATED-") out else
  hd ← bytes_at m off 8;
  out ← emit (print_u (nth 0 hd 0) ++ tx " " ++ print_u (nth 1 hd 0) ++ tx " ") out;
  if len <? iplen then emit (tx "-TRUNCATED-") out else
  s ← (if mf then mret 0xFFFF else csum_at off iplen);
  if negb (s =? 0xFFFF) then emit (tx "-BAD ICMP CSUM-") out else
  if (nth 0 hd 0 =? 0) || (nth 0 hd 0 =? 8) then
    emit (print_u (ntohs_at 4 hd) ++ tx " " ++ print_u (ntohs_at 6 hd) ++ tx " ") out
  else
    out ← emit (tx "CONTAINS ") out;
    '(out, _) ← nested out (s32 (u64 (iplen - 8))) (off + 8);
    mret out.

Fixpoint describe (fuel : nat) (out : text) (len off : Z) : outcome (text * text) :=
  match fuel with
  | O => Fault "describe: out of fuel"
  | S fuel =>
      if u64_lt len 20 then finish_strcat (tx "-TRUNCATED-") out else
      hd ← bytes_at m off 20;
      s ← csum_at off 20;
      if negb (s =? 0xFFFF) then finish_strcat (tx "-BAD IP CSUM-") out else
      let frag := ntohs_at 6 hd in
      let proto := nth 9 hd 0 in
      out ← emit_all (ip_fields frag (nth 8 hd 0) (nth 1 hd 0) (take 4 (drop 12 hd)) (drop 16 hd) dump_flags) out;
      if negb (Z.land frag IP_OFFSET =? 0) then o ← finish out; mret (o, []) else
      let iplen := s32 (ntohs_at 2 hd - 20) in
      let len := s32 (len - 20) in
      let mf := negb (Z.land frag IP_MF =? 0) in
      let saddr := Csum.word big (take 4 (drop 12 hd)) in
      let daddr := Csum.word big (drop 16 hd) in
      out ←
        (if proto =? IPPROTO_ICMP then describe_icmp (describe fuel) (off + 20) len iplen mf out
         else if proto =? IPPROTO_UDP then describe_udp (off + 20) len iplen saddr daddr mf out
         else if proto =? IPPROTO_TCP then describe_tcp (off + 20) len iplen saddr daddr mf out
         else
           out ← emit (print_u (u32 iplen) ++ tx " " ++ print_u proto) out;
           if len <? iplen then emit (tx "-TRUNCATED-") out else mret out);
      o ← finish out; mret (o, [])
  end.
End Describe.

(** The whole packet, copied to a local array. *)
Definition ipv4_describe_packet (big : bool) (addr : Z) (packet : list Z) (dump_flags : option text) : outcome text :=
  '(out, rest) ← describe big addr packet dump_flags (S (length packet)) [] (zlen packet) 0; mret (out ++ rest).

