(* ===== verification/Hooks.v ===== *)
(** * core/core.c, tools/hook.c, tools/queue.c: netfilter hooks and the packet queue

    Registering hooks and socket options for a module, the call of one hook, the queue
    to user space and the commands on both.  What the kernel's netfilter code does with
    its table of hooks is an interface, [Registry], with the laws the wrappers rely on;
    so is [Fields], the extra fields of core/field.c. *)

From Stdlib Require Import ZArith Lia.
From S2P Require Import Prelude CStr Mem Csum Expect Log Skb Describe.

Definition NF_DROP : Z := 0.
Definition NF_ACCEPT : Z := 1.
Definition NF_STOLEN : Z := 2.
Definition NF_QUEUE : Z := 3.
Definition NF_REPEAT : Z := 4.
Definition NF_STOP : Z := 5.
Definition NF_MAX_VERDICT : Z := NF_STOP.
Definition PF_INET : Z := 2.

(** ** Verdicts by name *)

(** Five names for six elements: the last is a null pointer. *)
Definition nf_retval_str : list (option text) :=
  [Some (tx "NF_DROP"); Some (tx "NF_ACCEPT"); Some (tx "NF_STOLEN"); Some (tx "NF_QUEUE"); Some (tx "NF_REPEAT"); None].
Definition nf_retval (retval : Z) : option text :=
  if (0 <=? retval) && (retval <? zlen nf_retval_str) then default None (nf_retval_str !! Z.to_nat retval)
  else Some (tx "ERROR (" ++ print_d retval ++ tx ")").
Fixpoint find_verdict (i : Z) (names : list (option text)) (name : text) : outcome Z :=
  match names with
  | [] => mret (-1)
  | None :: _ => Fault "nf_retval_by_name: strcmp with a null pointer"
  | Some n :: names => if streq name n then mret i else find_verdict (i + 1) names name
  end.
Definition nf_retval_by_name (name : text) : outcome Z := find_verdict 0 nf_retval_str name.
(** [%s]: libc prints a null pointer as (null). *)
Definition print_s (s : option text) : text := default (tx "(null)") s.

Definition hook_names : list text :=
  map tx ["NF_IP_PRE_ROUTING"; "NF_IP_LOCAL_IN"; "NF_IP_FORWARD"; "NF_IP_LOCAL_OUT"; "NF_IP_POST_ROUTING"]%string.
(** nf_hooknames[PF_INET], filled in by core/ipv4; NF_MAX_HOOKS elements. *)
Definition nf_hooknames (hooknum : Z) : outcome (option text) :=
  if (0 <=? hooknum) && (hooknum <? 8) then mret (hook_names !! Z.to_nat hooknum) else Fault "nf_hooknames: out of range".

(** ** struct nf_hook_ops and its registration *)

(** [owner]: the name of the module, if the pointer is set. *)
Record nf_hook_ops := HookOps { hook : Z; owner : option text; pf : Z; hooknum : Z; priority : Z }.
Definition set_owner (m : option text) (o : nf_hook_ops) : nf_hook_ops := HookOps (hook o) m (pf o) (hooknum o) (priority o).
Definition HOOK_OPS_SIZE : Z := 48.

(** The table of hooks in the kernel, and its functions. *)
Class Registry (K : Type) := {
  __nf_register_hook : Z → nf_hook_ops → K → Z * K;
  __nf_unregister_hook : Z → K → K;
}.
(** The fields of structures that are not allocated. *)
Class Fields (K : Type) := {
  field_attach_static : Z → text → K → K;
  field_detach_all : Z → K → K;
}.

Section Wrappers.
Context {K : Type} `{RK : Registry K} `{FK : Fields K}.

Fixpoint __nf_unregister_hook_wrapper (reg : Z) (n : nat) (k : K) : K :=
  match n with
  | O => k
  | S n => __nf_unregister_hook_wrapper (reg + HOOK_OPS_SIZE) n (__nf_unregister_hook reg (field_detach_all reg k))
  end.

(** reg[0..i-1] is done; [ops]: the structures.  The test before a hook is registered
    looks at the owner of the first structure and compares the name of this one's. *)
Definition owner_checked (ops : list nf_hook_ops) (i : nat) (owner_ : option text) : outcome unit :=
  first ← of_option "reg[0]" (head ops); this ← of_option "reg[i]" (ops !! i);
  match owner first with
  | None => mret ()
  | Some _ => m ← of_option "owner of reg[i] is a null pointer" (owner this); n ← of_option "owner is a null pointer" owner_;
      if streq m n then mret () else Barf "nf_register_hook: owner"
  end.
Fixpoint register_loop (n i : nat) (reg : Z) (ops : list nf_hook_ops) (owner_ : option text) (location : text) (k : K) : outcome (Z * list nf_hook_ops * K) :=
  match n with
  | O => mret (0, ops, k)
  | S n =>
      _ ← owner_checked ops i owner_;
      o ← of_option "reg[i]" (ops !! i);
      let o := set_owner owner_ o in
      let ops := <[i := o]> ops in
      let a := reg + HOOK_OPS_SIZE * Z.of_nat i in
      let '(ret, k) := __nf_register_hook a o k in
      if ret =? 0 then register_loop n (S i) reg ops owner_ location (field_attach_static a location k)
      else mret (ret, ops, if (0 <? i)%nat then __nf_unregister_hook_wrapper reg i k else k)
  end.
(** The structures as they are left and the result, which is not set without any. *)
Definition __nf_register_hook_wrapper (reg : Z) (ops : list nf_hook_ops) (owner_ : option text) (location : text) (k : K) : outcome (Z * list nf_hook_ops * K) :=
  match ops with
  | [] => Fault "nf_register_hook: ret is not set"
  | _ => register_loop (length ops) 0 reg ops owner_ location k
  end.

(** struct nf_sockopt_ops as far as the wrappers look: its owner. *)
Context (__nf_register_sockopt : Z → K → Z * K) (__nf_unregister_sockopt : Z → K → K).
Definition EINTR : Z := 4.
(** [fail]: should_i_fail at this location. *)
Definition __nf_register_sockopt_wrapper (fail : bool) (reg : Z) (reg_owner owner_ : option text) (location : text) (k : K) : outcome (Z * K) :=
  _ ← (match reg_owner with Some m => n ← of_option "owner is a null pointer" owner_; if streq m n then mret () else Barf "nf_register_sockopt: owner" | None => mret () end);
  if fail then mret (- EINTR, k) else
  let '(ret, k) := __nf_register_sockopt reg k in
  mret (ret, if ret =? 0 then field_attach_static reg location k else k).
Definition __nf_unregister_sockopt_wrapper (reg : Z) (k : K) : K := __nf_unregister_sockopt reg (field_detach_all reg k).
End Wrappers.

(** What the wrappers rely on: a table of addresses, and for every address how many
    fields it has. *)
Class RegistryLaws (K : Type) `{Registry K} `{Fields K} := {
  table : K → gmap Z nf_hook_ops;
  notes : K → Z → nat;
  register_ok a o k : (__nf_register_hook a o k).1 = 0 → table k !! a = None → table (__nf_register_hook a o k).2 = <[a := o]> (table k);
  register_error a o k : (__nf_register_hook a o k).1 ≠ 0 → table (__nf_register_hook a o k).2 = table k;
  register_notes a o k b : notes (__nf_register_hook a o k).2 b = notes k b;
  unregister_table a k : table (__nf_unregister_hook a k) = delete a (table k);
  unregister_notes a k b : notes (__nf_unregister_hook a k) b = notes k b;
  attach_table a l k : table (field_attach_static a l k) = table k;
  attach_notes a l k b : notes (field_attach_static a l k) b = if decide (a = b) then S (notes k b) else notes k b;
  detach_table a k : table (field_detach_all a k) = table k;
  detach_notes a k b : notes (field_detach_all a k) b = if decide (a = b) then 0%nat else notes k b;
}.

(** ** The call of a hook, the queue *)

(** The item of a queued packet is a child of the packet. *)
Record nfsim_queueitem := QueueItem { q_skb : sk_buff; q_info : Z; q_id : Z }.
(** The queue and the next number; the hooks made by the command, newest first, by address. *)
Record core_state (V : Type) := CoreState { queueid : Z; nfsim_queue : list nfsim_queueitem; hooks : list (Z * nf_hook_ops); inner : V }.
Arguments CoreState {V}. Arguments queueid {V}. Arguments nfsim_queue {V}. Arguments hooks {V}. Arguments inner {V}.
Definition with_inner {V} (v : V) (c : core_state V) : core_state V := CoreState (queueid c) (nfsim_queue c) (hooks c) v.
Definition with_queue {V} (q : list nfsim_queueitem) (c : core_state V) : core_state V := CoreState (queueid c) q (hooks c) (inner c).
Definition with_hooks {V} (h : list (Z * nf_hook_ops)) (c : core_state V) : core_state V := CoreState (queueid c) (nfsim_queue c) h (inner c).
#[export] Instance core_logger {V} `{Logger V} : Logger (core_state V) := λ type line c,
  '(r, v) ← nfsim_log type line (inner c); mret (r, with_inner v c).

Definition CORE_PBUF : Z := 1024.
(** core.c's describe_packet: nothing when the log is told so; sprintf into its buffer. *)
Definition describe_packet (big : bool) (addr : Z) (on : bool) (s : sk_buff) : outcome text :=
  if negb on then mret [] else
  let out := if nfmark (hdr s) =? 0 then [] else tx " MARK " ++ print_u (nfmark (hdr s)) in
  bits ← skb_copy_bits s 0 (len s);
  match bits with
  | None => Barf "skb_copy_bits failed"
  | Some packet =>
      d ← ipv4_describe_packet big addr packet (option_map (map chr) (dump_flags (hdr s)));
      let out := out ++ tx " {IPv4 " ++ d ++ tx "}" in
      if zlen out <? CORE_PBUF then mret out else Fault "describe_packet: write past pbuf"
  end.

Section Core.
Context {V : Type} `{LV : Logger V} (big : bool) (addr : Z).
Abbreviation core := (core_state V).
(** log_describe_packets; should_i_fail at a location. *)
Context (log_describe_packets : core → bool) (should_i_fail : text → core → outcome (bool * core)).
(** The kernel's nf_reinject: whether the packet, and its item with it, is freed. *)
Context (nf_reinject : sk_buff → Z → Z → core → outcome (bool * core)).
(** The kernel's table of hooks and the fields; where the next hook is allocated. *)
Context (register : Z → nf_hook_ops → core → Z * core) (unregister detach : Z → core → core) (fresh : core → Z).

Definition describe (s : sk_buff) (c : core) : outcome text := describe_packet big addr (log_describe_packets c) s.

(** [f]: the hook; it may leave another packet. *)
Definition call_elem_hook (f : Z → sk_buff → option Z → option Z → core → outcome (Z * sk_buff * core)) (owner_ : option text)
    (hooknum : Z) (s : sk_buff) (indev outdev : option Z) (c : core) : outcome (Z * sk_buff * core) :=
  _ ← nfsim_check_packet s;
  '(fail, c) ← should_i_fail (tx "call_elem_hook:" ++ print_d (s32 hooknum)) c;
  if fail : bool then mret (NF_DROP, s, c) else
  '(ret, s, c) ← f hooknum s indev outdev c;
  n ← nf_hooknames hooknum;
  let line := tx "hook:" ++ print_s n ++ tx " " ++ default (tx "nfsim") owner_ ++ tx " " ++ print_s (nf_retval (s32 ret)) in
  d ← (if ret =? NF_STOLEN then mret [] else describe s c);
  '(_, c) ← nfsim_log LOG_HOOK (line ++ d) c;
  mret (ret, s, c).

(** The number of the queue is not used. *)
Definition enqueue_packet_to_queuenum (s : sk_buff) (info queuenum : Z) (c : core) : outcome (Z * core) :=
  let c := CoreState (s32 (queueid c + 1)) (nfsim_queue c ++ [QueueItem s info (queueid c)]) (hooks c) (inner c) in
  d ← describe s c; '(_, c) ← nfsim_log LOG_PACKET (tx "queue:added" ++ d) c; mret (0, c).
(** Before 2.6.14 there is one queue. *)
Definition enqueue_packet (s : sk_buff) (info : Z) (c : core) : outcome (Z * core) := enqueue_packet_to_queuenum s info 0 c.

(** ** The command queue *)

Fixpoint list_queue (q : list nfsim_queueitem) (c : core) : outcome core :=
  match q with
  | [] => mret c
  | i :: q => d ← describe (q_skb i) c; '(_, c) ← nfsim_log LOG_ALWAYS (print_d (q_id i) ++ tx ":" ++ d) c; list_queue q c
  end.
Definition inject (i : nfsim_queueitem) (verdict : Z) (c : core) : outcome (bool * core) :=
  '(freed, c) ← nf_reinject (q_skb i) (q_info i) verdict c;
  if freed : bool then Fault "list_del: the item was freed" else
  mret (true, with_queue (filter (λ j, q_id j ≠ q_id i) (nfsim_queue c)) c).
Definition queue (argv : list text) (c : core) : outcome (bool * core) :=
  let bad msg := '(_, c) ← nfsim_log LOG_ALWAYS msg c; mret (false, c) in
  match argv with
  | [] => Fault "queue: argv[1] behind the end"
  | [_] => c ← list_queue (nfsim_queue c) c; mret (false, c)
  | _ :: v :: rest =>
      match rest with
      | _ :: _ :: _ => mret (false, c)
      | _ =>
          verdict ← nf_retval_by_name v;
          if verdict <? 0 then bad (tx "Invalid verdict '" ++ v ++ tx "'") else
          match rest with
          | n :: _ =>
              match List.find (λ i, q_id i =? atoi n) (nfsim_queue c) with
              | Some i => inject i verdict c
              | None => bad (tx "No packet found in the queue matching number '" ++ print_d (atoi n) ++ tx "'")
              end
          | [] =>
              match nfsim_queue c with
              | i :: _ => inject i verdict c
              | [] => Fault "queue: the head of the list is taken for an item"
              end
          end
      end
  end.

(** ** The command hook *)

Definition HOOK_ACCEPT : Z := 1.
Definition HOOK_DROP : Z := 2.
Definition HOOK_QUEUE : Z := 3.
Definition hook_points : list (text * Z) :=
  [(tx "IP_PRE_ROUTING", 0); (tx "IP_POST_ROUTING", 4); (tx "IP_LOCAL_IN", 1); (tx "IP_LOCAL_OUT", 3); (tx "IP_FORWARD", 2)].
Definition hook_verdicts : list (text * Z) := [(tx "DROP", HOOK_DROP); (tx "ACCEPT", HOOK_ACCEPT); (tx "QUEUE", HOOK_QUEUE)].
Definition by_name (l : list (text * Z)) (n : text) : option Z := snd <$> List.find (λ p, streq n p.1) l.
Definition run_hook (h : Z) : Z := if h =? HOOK_ACCEPT then NF_ACCEPT else if h =? HOOK_DROP then NF_DROP else NF_QUEUE.
Definition print_hook (o : nf_hook_ops) : text :=
  (if hook o =? HOOK_ACCEPT then tx "ACCEPT" else if hook o =? HOOK_DROP then tx "DROP" else if hook o =? HOOK_QUEUE then tx "QUEUE" else tx "UNKNOWN")
  ++ tx " " ++ print_d (priority o) ++ tx " " ++
  (if negb (pf o =? PF_INET) then tx "Non-IPv4" else if hooknum o =? 0 then tx "IP_PRE_ROUTING" else if hooknum o =? 4 then tx "IP_PRE_ROUTING"
   else if hooknum o =? 2 then tx "IP_FORWARD" else if hooknum o =? 1 then tx "IP_LOCAL_IN" else if hooknum o =? 3 then tx "IP_LOCAL_OUT" else tx "UNKNOWN").
(** The hooks of the command belong to no module. *)
Definition hook_cmd (argv : list text) (c : core) : outcome (bool * core) :=
  let bad msg := '(_, c) ← nfsim_log LOG_ALWAYS msg c; mret (false, c) in
  match argv with
  | [_] => c ← log_all LOG_ALWAYS (map (λ l, print_hook l.2) (hooks c)) c; mret (true, c)
  | [_; point; prio; verdict] =>
      match by_name hook_points point with
      | None => bad (tx "Unknown hook " ++ point)
      | Some n =>
          match by_name hook_verdicts verdict with
          | None => bad (tx "Unknown verdict " ++ verdict)
          | Some h =>
              let a := fresh c in let o := HookOps h None PF_INET n (atoi prio) in
              mret (true, (register a o (with_hooks ((a, o) :: hooks c) c)).2)
          end
      end
  | _ => bad (tx "Bad hook command")
  end.
(** The hooks are allocated with talloc and given to free. *)
Definition hook_post_cleanup (cmd : text) (c : core) : outcome (bool * core) :=
  if negb (streq cmd (tx "gen_ip")) then mret (true, c) else
  match hooks c with
  | [] => mret (true, c)
  | (a, _) :: rest => let c := with_hooks rest (unregister a (detach a c)) in Fault "free: not the start of an allocation"
  end.
End Core.

(** ** All or nothing *)

Section AllOrNothing.
Context {K : Type} `{RL : RegistryLaws K}.

Definition address (reg : Z) (i : nat) : Z := reg + HOOK_OPS_SIZE * Z.of_nat i.
Lemma address_inj reg i j : address reg i = address reg j → i = j.
Proof. unfold address, HOOK_OPS_SIZE. lia. Qed.
Lemma address_S reg i : address (reg + HOOK_OPS_SIZE) i = address reg (S i).
Proof. unfold address, HOOK_OPS_SIZE. lia. Qed.

Lemma address_dec reg n a : (∃ i, (i < n)%nat ∧ a = address reg i) ∨ ∀ i, (i < n)%nat → a ≠ address reg i.
Proof.
  induction n as [|n [(i & ? & ->)|IH]]; [right; lia|left; exists i; split; [lia|done]|].
  destruct (decide (a = address reg n)) as [->|Hn]; [left; exists n; split; [lia|done]|]. right. intros i Hi. destruct (Nat.eq_dec i n) as [->|]; [done|apply IH; lia].
Qed.

(** What is known of address [a] in two states. *)
Definition same_at (k k' : K) (a : Z) : Prop := table k' !! a = table k !! a ∧ notes k' a = notes k a.
Definition unknown_at (k : K) (a : Z) : Prop := table k !! a = None ∧ notes k a = 0%nat.
Definition same_hooks (k k' : K) : Prop := ∀ a, same_at k k' a.

Lemma unregister_wrapper_spec reg n k a :
  ((∃ i, (i < n)%nat ∧ a = address reg i) → unknown_at (__nf_unregister_hook_wrapper reg n k) a)
  ∧ ((∀ i, (i < n)%nat → a ≠ address reg i) → same_at k (__nf_unregister_hook_wrapper reg n k) a).
Proof using RL.
  revert reg k. induction n as [|n IH]; intros reg k; [split; [intros (i & ? & _); lia|done]|].
  cbn [__nf_unregister_hook_wrapper]. set (k1 := __nf_unregister_hook reg (field_detach_all reg k)).
  assert (H1 : ∀ b, table k1 !! b = if decide (reg = b) then None else table k !! b)
    by (intros b; unfold k1; by rewrite unregister_table, detach_table, lookup_delete).
  assert (H2 : ∀ b, notes k1 b = if decide (reg = b) then 0%nat else notes k b) by (intros b; unfold k1; by rewrite unregister_notes, detach_notes).
  assert (Hreg : reg = address reg 0) by (unfold address; lia). destruct (IH (reg + HOOK_OPS_SIZE) k1) as [IHa IHb]. split.
  - intros (i & Hi & Ha). destruct i as [|i]; [|apply IHa; exists i; rewrite address_S; split; [lia|done]].
    rewrite <-Hreg in Ha. subst a. clear Hreg. unfold unknown_at. destruct IHb as [Ht Hn].
    { intros i _ Hi0. rewrite address_S in Hi0. unfold address, HOOK_OPS_SIZE in Hi0. lia. }
    rewrite Ht, Hn, H1, H2. by rewrite !decide_True.
  - intros Ha. destruct IHb as [Ht Hn]; [intros i Hi; rewrite address_S; apply Ha; lia|].
    unfold same_at. rewrite Ht, Hn, H1, H2. assert (reg ≠ a) by (rewrite Hreg; intros <-; apply (Ha O); lia || done). by rewrite !decide_False.
Qed.

(** The first [i] structures are registered, with a field each; the rest is as in [k0]. *)
Definition registered (k0 : K) (reg : Z) (ops : list nf_hook_ops) (i : nat) (k : K) : Prop :=
  (∀ j, (j < i)%nat → table k !! address reg j = ops !! j ∧ notes k (address reg j) = 1%nat)
  ∧ ∀ a, (∀ j, (j < i)%nat → a ≠ address reg j) → same_at k0 k a.

Lemma registered_next k0 reg ops i k o l : registered k0 reg ops i k → ops !! i = Some o → unknown_at k0 (address reg i) →
  (__nf_register_hook (address reg i) o k).1 = 0 →
  registered k0 reg ops (S i) (field_attach_static (address reg i) l (__nf_register_hook (address reg i) o k).2).
Proof using RL.
  intros [H1 H2] Ho [Hu1 Hu2] Hr. assert (Hne : ∀ j, (j < i)%nat → address reg i ≠ address reg j) by (intros j Hj E; apply address_inj in E; lia).
  destruct (H2 (address reg i) Hne) as [Ht Hn]. split.
  - intros j Hj. rewrite attach_table, attach_notes, register_notes, register_ok by (by rewrite ?Ht, ?Hu1). rewrite lookup_insert.
    destruct (decide (address reg i = address reg j)) as [E|E].
    + apply address_inj in E as <-. rewrite Hn, Hu2. by rewrite Ho.
    + apply H1. destruct (Nat.eq_dec j i) as [->|]; [done|lia].
  - intros a Ha. unfold same_at. rewrite attach_table, attach_notes, register_notes, register_ok by (by rewrite ?Ht, ?Hu1). rewrite lookup_insert.
    rewrite !decide_False by (intros E; apply (Ha i); [lia|done]). apply H2. intros j Hj. apply Ha. lia.
Qed.

Lemma registered_undone k0 reg ops i k : registered k0 reg ops i k → (∀ j, (j < i)%nat → unknown_at k0 (address reg j)) →
  same_hooks k0 (__nf_unregister_hook_wrapper reg i k).
Proof using RL.
  intros [_ H2] Hu a. destruct (unregister_wrapper_spec reg i k a) as [Ha Hb].
  destruct (address_dec reg i a) as [(j & Hj & ->)|Hne].
  - destruct (Ha ltac:(eauto)) as [Ht Hn], (Hu j Hj) as [Ht' Hn']. unfold same_at. by rewrite Ht, Hn, Ht', Hn'.
  - destruct (Hb Hne) as [Ht1 Hn1], (H2 a Hne) as [Ht2 Hn2]. unfold same_at. by rewrite Ht1, Hn1.
Qed.

(** The owners as the loop wants them: every structure behind the first names the module,
    the first one does or has none; without a module only the first one counts. *)
Definition owners_fine (m : option text) (ops : list nf_hook_ops) : Prop :=
  ∀ i o, ops !! i = Some o → owner o = m ∨ (i = 0%nat ∧ owner o = None) ∨ (m = None ∧ i ≠ 0%nat).

Lemma owners_fine_insert m ops i o : owners_fine m ops → owners_fine m (<[i := set_owner m o]> ops).
Proof. intros Ho j o' [(<- & <- & _)|(_ & Hj)]%list_lookup_insert_Some; [by left|by apply (Ho j)]. Qed.

Lemma owner_checked_fine m ops i : owners_fine m ops → (i < length ops)%nat → owner_checked ops i m = Ret tt.
Proof.
  intros Ho Hi. destruct (lookup_lt_is_Some_2 ops i Hi) as [o Ei]. destruct ops as [|f ops]; [done|].
  unfold owner_checked. cbn [head of_option]. rewrite bind_ret, Ei. cbn. destruct (owner f) as [mf|] eqn:Ef; [|done].
  assert (Em : m = Some mf) by (destruct (Ho 0%nat f eq_refl) as [?|[[_ ?]|[_ ?]]]; congruence).
  assert (Eo : owner o = Some mf).
  { destruct (Ho i o Ei) as [?|[[-> Hn]|[? _]]]; [congruence| |congruence]. cbn in Ei. injection Ei as ->. congruence. }
  rewrite Eo, Em. cbn. by rewrite (proj2 (streq_spec mf mf)).
Qed.

Lemma registered_ops k0 reg ops ops' i k : (∀ j, (j < i)%nat → ops' !! j = ops !! j) → registered k0 reg ops i k → registered k0 reg ops' i k.
Proof. intros He [H1 H2]. split; [|done]. intros j Hj. rewrite He by done. by apply H1. Qed.

(** What the kernel says to structures that are registered one after the other, up to the
    first that it refuses. *)
Fixpoint first_refusal (a : Z) (l : text) (ops : list nf_hook_ops) (k : K) : option Z :=
  match ops with
  | [] => None
  | o :: ops =>
      let '(ret, k) := __nf_register_hook a o k in
      if ret =? 0 then first_refusal (a + HOOK_OPS_SIZE) l ops (field_attach_static a l k) else Some ret
  end.
Lemma first_refusal_error a l ops k r : first_refusal a l ops k = Some r → r ≠ 0.
Proof.
  revert a k. induction ops as [|o ops IH]; intros a k; cbn [first_refusal]; [done|]. destruct (__nf_register_hook a o k) as [ret k1].
  destruct (Z.eqb_spec ret 0); [apply IH|]. by intros [= <-].
Qed.

Lemma register_loop_spec k0 reg m l n : ∀ i ops k, length ops = (i + n)%nat → owners_fine m ops →
  (∀ j, (j < length ops)%nat → unknown_at k0 (address reg j)) → registered k0 reg ops i k →
  ∃ r ops' k', register_loop n i reg ops m l k = Ret (r, ops', k') ∧
    r = default 0 (first_refusal (address reg i) l (map (set_owner m) (drop i ops)) k) ∧ (r = 0 → ops' = take i ops ++ map (set_owner m) (drop i ops) ∧ registered k0 reg ops' (length ops) k') ∧ (r ≠ 0 → same_hooks k0 k').
Proof using RL.
  induction n as [|n IH]; intros i ops k Hlen Ho Hu Hr; cbn [register_loop].
  { exists 0, ops, k. split; [done|]. split; [by rewrite drop_ge by lia|]. split; [|done]. intros _. rewrite Nat.add_0_r in Hlen. subst i. by rewrite firstn_all, skipn_all, app_nil_r. }
  rewrite owner_checked_fine, bind_ret by (done || lia). destruct (lookup_lt_is_Some_2 ops i ltac:(lia)) as [o Ei]. rewrite Ei. cbn [of_option]. rewrite bind_ret.
  set (o' := set_owner m o). set (ops1 := <[i := o']> ops). fold (address reg i).
  assert (Ei1 : ops1 !! i = Some o') by (apply list_lookup_insert_eq; lia).
  assert (Hr1 : registered k0 reg ops1 i k) by (eapply registered_ops; [|done]; intros j Hj; apply list_lookup_insert_ne; lia).
  assert (Hl1 : length ops1 = length ops) by apply length_insert.
  rewrite (drop_S ops o i Ei). cbn [map first_refusal]. fold o'.
  destruct (__nf_register_hook (address reg i) o' k) as [ret k1] eqn:Ek. destruct (Z.eqb_spec ret 0) as [->|Hret].
  - pose proof (registered_next k0 reg ops1 i k o' l Hr1 Ei1 (Hu i ltac:(lia))) as Hn. rewrite Ek in Hn. specialize (Hn eq_refl).
    destruct (IH (S i) ops1 (field_attach_static (address reg i) l k1)) as (r & ops' & k' & E & Hfr & H1 & H2); [lia|by apply owners_fine_insert|by rewrite Hl1|done|].
    exists r, ops', k'. split; [exact E|]. split.
    { rewrite Hfr. unfold ops1. rewrite drop_insert_lt by lia. unfold address. do 2 f_equal. unfold HOOK_OPS_SIZE. lia. }
    split; [|done]. intros Hr0. destruct (H1 Hr0) as [-> H1']. rewrite Hl1 in H1'.
    assert (Et : take (S i) ops1 ++ map (set_owner m) (drop (S i) ops1) = take i ops ++ o' :: map (set_owner m) (drop (S i) ops)).
    { unfold ops1. rewrite (take_S_r _ _ o') by done. rewrite take_insert_ge, drop_insert_lt by lia. by rewrite <-app_assoc. }
    rewrite Et in *. done.
  - eexists ret, ops1, _. split; [reflexivity|]. split; [done|]. split; [done|]. intros _.
    assert (Hf : registered k0 reg ops1 i k1).
    { pose proof (register_error (address reg i) o' k) as He. pose proof (register_notes (address reg i) o' k) as Hno. rewrite Ek in He, Hno. cbn in He, Hno.
      destruct Hr1 as [Ha Hb]. split; [intros j Hj|intros a Haj; unfold same_at]; rewrite He, Hno by done; [by apply Ha|by apply Hb]. }
    pose proof (registered_undone k0 reg ops1 i k1 Hf ltac:(intros; apply Hu; lia)) as Hs. by destruct i.
Qed.
End AllOrNothing.

(** C16: nf_register_hooks registers all hooks of a module or none.  With structures that the
    kernel does not know yet, all but the first naming the module as their owner, the call
    returns what the kernel says to the first structure it refuses when they are registered
    one after the other, and 0 exactly if it refuses none.  If it takes every one, all are in its table, owned by the module, each with one field
    that says where it was registered, and unregistering them leaves table and fields as
    they were; if it refuses one, its error is returned and table and fields are as before
    the call.  Nothing else changes in either case. *)
Theorem register_all_or_nothing {K} `{RL : RegistryLaws K} reg ops m location (k : K) :
  ops ≠ [] → owners_fine m ops → (∀ i, (i < length ops)%nat → unknown_at k (address reg i)) →
  let refused := first_refusal reg location (map (set_owner m) ops) k in
  ∃ r ops' k', __nf_register_hook_wrapper reg ops m location k = Ret (r, ops', k') ∧ r = default 0 refused ∧ (r = 0 ↔ refused = None) ∧
    (r = 0 → ops' = map (set_owner m) ops ∧ registered k reg ops' (length ops) k' ∧ same_hooks k (__nf_unregister_hook_wrapper reg (length ops) k')) ∧
    (r ≠ 0 → same_hooks k k').
Proof.
  intros Hne Ho Hu refused. destruct (register_loop_spec k reg m location (length ops) 0 ops k) as (r & ops' & k' & E & Hr & H1 & H2); try done.
  { split; [intros j Hj; exfalso; lia|]. intros a _. done. }
  assert (Er : r = default 0 refused) by (rewrite Hr; unfold refused, address; by rewrite Z.mul_0_r, Z.add_0_r).
  exists r, ops', k'. split_and!; [by destruct ops|exact Er| | |done].
  { rewrite Er. destruct refused as [e|] eqn:Ee; cbn; [|done]. apply first_refusal_error in Ee. by split. }
  intros Hr0. destruct (H1 Hr0) as [-> H3]. cbn [take drop app] in *. split_and!; [done..|].
  by eapply registered_undone.
Qed.

(** A table with room for [room] hooks. *)
Record toy := Toy { room : nat; toy_hooks : gmap Z nf_hook_ops; toy_notes : gmap Z nat }.
#[export] Instance toy_registry : Registry toy := {
  __nf_register_hook a o k := match room k with O => (-12, k) | S n => (0, Toy n (<[a := o]> (toy_hooks k)) (toy_notes k)) end;
  __nf_unregister_hook a k := Toy (S (room k)) (delete a (toy_hooks k)) (toy_notes k);
}.
#[export] Instance toy_fields : Fields toy := {
  field_attach_static a l k := Toy (room k) (toy_hooks k) (<[a := S (default O (toy_notes k !! a))]> (toy_notes k));
  field_detach_all a k := Toy (room k) (toy_hooks k) (delete a (toy_notes k));
}.
#[export] Instance toy_laws : RegistryLaws toy.
Proof.
  refine {| table := toy_hooks; notes := λ k a, default O (toy_notes k !! a) |}; intros; cbn in *.
  - by destruct (room k).
  - by destruct (room k).
  - by destruct (room k).
  - done.
  - done.
  - done.
  - rewrite lookup_insert. by case_decide as Hab; [subst b|].
  - done.
  - rewrite lookup_delete. by case_decide.
Defined.

Definition two_hooks : list nf_hook_ops := [HookOps 1 None PF_INET 0 (-100); HookOps 2 (Some (tx "nat")) PF_INET 4 100].
Lemma register_all_or_nothing_witness :
  (∃ ops' k', __nf_register_hook_wrapper 4096 two_hooks (Some (tx "nat")) (tx "here") (Toy 2 ∅ ∅) = Ret (0, ops', k') ∧
     registered (Toy 2 ∅ ∅) 4096 ops' 2 k' ∧ same_hooks (Toy 2 ∅ ∅) (__nf_unregister_hook_wrapper 4096 2 k')) ∧
  ∃ ops' k', __nf_register_hook_wrapper 4096 two_hooks (Some (tx "nat")) (tx "here") (Toy 1 ∅ ∅) = Ret (-12, ops', k') ∧ same_hooks (Toy 1 ∅ ∅) k'.
Proof.
  assert (Ho : owners_fine (Some (tx "nat")) two_hooks).
  { intros [|[|i]] o Hi; [injection Hi as <-; right; by left|injection Hi as <-; by left|done]. }
  split.
  - destruct (register_all_or_nothing 4096 two_hooks (Some (tx "nat")) (tx "here") (Toy 2 ∅ ∅)) as (r & ops' & k' & E & _ & _ & H1 & _); [done..|].
    vm_compute in E. injection E as <- <- <-. do 2 eexists. split; [reflexivity|]. destruct (H1 eq_refl) as (_ & H2 & H3). by split.
  - destruct (register_all_or_nothing 4096 two_hooks (Some (tx "nat")) (tx "here") (Toy 1 ∅ ∅)) as (r & ops' & k' & E & _ & _ & _ & H2); [done..|].
    vm_compute in E. injection E as <- <- <-. do 2 eexists. split; [reflexivity|]. by apply H2.
Defined.

(** A second structure without an owner is not given one: it is asked for its name. *)
Lemma second_owner_null {K} `{RegistryLaws K} reg o1 o2 m l (k : K) : owner o2 = None →
  (__nf_register_hook reg (set_owner (Some m) o1) k).1 = 0 → owner o1 = None →
  __nf_register_hook_wrapper reg [o1; o2] (Some m) l k = Fault "owner of reg[i] is a null pointer".
Proof.
  intros Ho2 Hr Ho1. cbn. rewrite Ho1. cbn. replace (reg + HOOK_OPS_SIZE * Z.of_nat 0) with reg by (unfold HOOK_OPS_SIZE; lia).
  destruct (__nf_register_hook _ _ _) as [r k1]. cbn in Hr. subst r. cbn. by rewrite Ho2.
Qed.


(** ** The commands *)

(** The verdicts with a name are read back from it. *)
Lemma verdict_names v n : 0 <= v < NF_STOP → nf_retval v = Some n → nf_retval_by_name n = Ret v.
Proof.
  intros Hv Hn. assert (v = 0 ∨ v = 1 ∨ v = 2 ∨ v = 3 ∨ v = 4) as [->|[->|[->|[->| ->]]]] by (unfold NF_STOP in Hv; lia); by injection Hn as <-.
Qed.

(** Any other name is compared with a null pointer. *)
Lemma unknown_verdict_crashes n : (∀ v, 0 <= v < NF_STOP → nf_retval v ≠ Some n) → nf_retval_by_name n = Fault "nf_retval_by_name: strcmp with a null pointer".
Proof.
  intros Hn. unfold nf_retval_by_name, nf_retval_str. cbn [find_verdict].
  assert (Hs : ∀ v m, 0 <= v < NF_STOP → nf_retval v = Some m → streq n m = false).
  { intros v m Hv Hm. destruct (streq n m) eqn:E; [|done]. apply streq_spec in E as ->. by destruct (Hn v Hv). }
  rewrite (Hs 0), (Hs 1), (Hs 2), (Hs 3), (Hs 4) by (done || (unfold NF_STOP; lia)). done.
Qed.
Lemma accept_on_an_empty_queue {V} `{Logger V} big addr on ri (c : core_state V) : nfsim_queue c = [] →
  queue big addr on ri [tx "queue"; tx "NF_ACCEPT"] c = Fault "queue: the head of the list is taken for an item".
Proof. intros Hq. unfold queue. change (nf_retval_by_name (tx "NF_ACCEPT")) with (Ret 1). rewrite bind_ret. cbn. by rewrite Hq. Qed.

(** A packet is asked for by its number; packets that the reinjection queues come behind. *)
Lemma queue_reinjects {V} `{Logger V} big addr on ri q v n verdict i before_ after_ new (c c' : core_state V) :
  nfsim_queue c = before_ ++ i :: after_ → NoDup (map q_id (nfsim_queue c)) → nf_retval_by_name v = Ret verdict → 0 <= verdict → atoi n = q_id i →
  ri (q_skb i) (q_info i) verdict c = Ret (false, c') → nfsim_queue c' = nfsim_queue c ++ new → q_id i ∉ map q_id new →
  queue big addr on ri [q; v; n] c = Ret (true, with_queue (before_ ++ after_ ++ new) c').
Proof.
  intros Hq Hn Hv Hv0 Ha Hr Hq' Hnew. unfold queue. rewrite Hv, bind_ret, (proj2 (Z.ltb_ge _ _) Hv0). cbv iota beta.
  rewrite Hq, map_app in Hn. apply NoDup_app in Hn as (Hn1 & Hn2 & Hn3). cbn in Hn2, Hn3. apply NoDup_cons in Hn3 as [Hn3 _].
  assert (Hne : ∀ j l, j ∈ l → q_id i ∉ map q_id l → q_id j ≠ q_id i) by (intros j l Hj Hi E; apply Hi; rewrite <-E; by apply list_elem_of_fmap_2).
  assert (Hb : q_id i ∉ map q_id before_) by (intros Hi; apply (Hn2 _ Hi); left).
  assert (Hf : List.find (λ j, q_id j =? atoi n) (nfsim_queue c) = Some i).
  { rewrite Hq, Ha. clear - Hb. induction before_ as [|j l IH]; cbn; [by rewrite Z.eqb_refl|].
    cbn in Hb. apply not_elem_of_cons in Hb as [Hj Hb]. rewrite (proj2 (Z.eqb_neq _ _)) by congruence. by apply IH. }
  rewrite Hf. unfold inject. rewrite Hr. cbn. do 2 f_equal. f_equal. rewrite Hq', Hq, !filter_app, filter_cons, decide_False by (intros E; by apply E).
  rewrite !filter_all by (apply Forall_forall; intros j Hj; by eapply Hne).
  by rewrite <-app_assoc.
Qed.

(** A hook made by the command is freed with free although talloc allocated it. *)
Lemma gen_ip_after_hook_crashes {V} `{LV : Logger V} register unregister detach fresh prio (c : core_state V) :
  (∀ a o c, hooks (register a o c).2 = hooks c) →
  ∃ c', hook_cmd register fresh [tx "hook"; tx "IP_FORWARD"; prio; tx "DROP"] c = Ret (true, c') ∧
    hook_post_cleanup unregister detach (tx "gen_ip") c' = Fault "free: not the start of an allocation".
Proof. intros Hr. eexists. split; [reflexivity|]. unfold hook_post_cleanup. cbn. by rewrite Hr. Qed.

Lemma post_routing_shown_as_pre prio : ∃ n, by_name hook_points (tx "IP_POST_ROUTING") = Some n ∧
  print_hook (HookOps HOOK_DROP None PF_INET n prio) = print_hook (HookOps HOOK_DROP None PF_INET 0 prio).
Proof. by exists 4. Qed.

(** What the help names and the command does not take. *)
Lemma help_names_others : Forall (λ n, by_name hook_points (tx n) = None) ["IP_INPUT"; "IP_OUTPUT"]%string ∧ Forall (λ n, by_name hook_verdicts (tx n) = None) ["STOLEN"; "REPEAT"]%string.
Proof. split; repeat constructor. Qed.
