(* ===== verification/Tools.v ===== *)
(** * tools/: the small commands

    echo, strace, version, config, info, proc and what ifconfig shows.  What other components keep (hooks, timers,
    the route cache, the tree of /proc) is an argument. *)

From Stdlib Require Import ZArith Lia.
From S2P Require Import Prelude CStr Mem Macros Log Route IpPath Proc Hooks.

Section Tools.
Context {S : Type} `{Logger S}.

(** ** echo.c *)

(** The words with a space between them. *)
Fixpoint echo_words (i : Z) (words : list text) (buffer : text) : text :=
  match words with
  | [] => buffer
  | w :: words => echo_words (i + 1) words (buffer ++ (if i =? 1 then [] else tx " ") ++ w)
  end.
Definition echo (argv : list text) (s : S) : outcome (bool * S) :=
  '(_, s) ← nfsim_log LOG_ALWAYS (echo_words 1 (tail argv) []) s; mret (true, s).

(** ** strace.c *)

(** The flag [strace]. *)
Definition parse_strace (help : S → outcome S) (argv : list text) (strace : bool) (s : S) : outcome (bool * bool * S) :=
  let usage := s ← help s; mret (false, strace, s) in
  match argv with
  | [_] => if strace then '(_, s) ← nfsim_log LOG_ALWAYS (tx "stracing already on!") s; mret (false, strace, s) else mret (true, true, s)
  | [_; a] =>
      if streq a (tx "off") then
        if negb strace then '(_, s) ← nfsim_log LOG_ALWAYS (tx "stracing already off!") s; mret (false, strace, s) else mret (true, false, s)
      else usage
  | _ => usage
  end.

(** ** version.c and config.c *)

Definition version (help : S → outcome S) (VERSION UTS_RELEASE : text) (argv : list text) (s : S) : outcome (bool * S) :=
  let both := '(_, s) ← nfsim_log LOG_UI (tx "nfsim version " ++ VERSION) s; '(_, s) ← nfsim_log LOG_UI (tx "kernel version " ++ UTS_RELEASE) s; mret (true, s) in
  match argv with
  | [_; a] => if streq a (tx "kernel") then '(_, s) ← nfsim_log LOG_ALWAYS UTS_RELEASE s; mret (true, s) else s ← help s; mret (false, s)
  | [_] => both
  | _ => s ← help s; mret (false, s)
  end.
Definition config_cmd (config_string : text) (argv : list text) (s : S) : outcome (bool * S) :=
  match argv with
  | [_] => '(_, s) ← nfsim_log LOG_ALWAYS config_string s; mret (true, s)
  | _ => '(_, s) ← nfsim_log LOG_ALWAYS (tx "Config: I HAVE NO OPTIONS!") s; mret (false, s)
  end.

(** ** info.c *)

Definition field_left (n : nat) (t : text) : text := t ++ replicate (n - length t) " "%char.
Definition field_right (n : nat) (t : text) : text := replicate (n - length t) " "%char ++ t.
(** The bytes of an address in memory, dotted: "%u.%u.%u.%u". *)
Definition print_quad (big : bool) (a : Z) : text :=
  match map print_d (NIPQUAD big a) with [] => [] | b :: bs => b ++ concat (map (λ b, tx "." ++ b) bs) end.

(** nf_hooks: the registered hooks by protocol and hook number, with the hooks' names. *)
Definition hook_line (i : Z) (hookname : option text) (o : nf_hook_ops) : text :=
  tx "hook(" ++ print_d i ++ tx ", " ++ field_left 18 (print_s hookname) ++ tx ") to " ++ default (tx "nfsim") (owner o).
Fixpoint hooks_from (i : Z) (nf_hooks : list (list (option text * list nf_hook_ops))) : list text :=
  match nf_hooks with
  | [] => []
  | p :: nf_hooks => concat (map (λ h, map (hook_line i h.1) h.2) p) ++ hooks_from (i + 1) nf_hooks
  end.
Definition hooks (nf_hooks : list (list (option text * list nf_hook_ops))) (s : S) : outcome (bool * S) :=
  s ← log_all LOG_ALWAYS (hooks_from 0 nf_hooks) s; mret (true, s).

Record nf_sockopt_ops := SockoptOps { so_pf : Z; get_optmin : Z; get_optmax : Z; set_optmin : Z; set_optmax : Z; so_owner : option text }.
Fixpoint sockopts (nf_sockopts : list nf_sockopt_ops) (s : S) : outcome (bool * S) :=
  match nf_sockopts with
  | [] => mret (true, s)
  | o :: rest =>
      name ← of_option "sockopts: owner is NULL" (so_owner o);
      let p x := field_right 2 (print_d x) in
      '(_, s) ← nfsim_log LOG_UI (tx "sockopt(pf=" ++ print_d (so_pf o) ++ tx "): get (" ++ p (get_optmin o) ++ tx "-" ++ p (get_optmax o) ++ tx "), set (" ++
        p (set_optmin o) ++ tx "-" ++ p (set_optmax o) ++ tx ") handled by " ++ name) s;
      sockopts rest s
  end.
Definition rcache_line (big : bool) (r : rtable) : text :=
  tx "dst: " ++ print_quad big (rt_dst r) ++ tx ", src: " ++ print_quad big (rt_src r) ++ tx ", iif: " ++ print_d (rt_iif r) ++ tx ", gw: " ++ print_quad big (rt_gateway r).
Definition rcaches (big : bool) (rcache : list rtable) (s : S) : outcome (bool * S) :=
  s ← log_all LOG_ALWAYS (map (rcache_line big) rcache) s; mret (true, s).
(** A timer as it is printed: when it expires, its owner and the function that made it. *)
Fixpoint timers (__timers : list (Z * option text * text)) (s : S) : outcome (bool * S) :=
  match __timers with
  | [] => mret (true, s)
  | (expires, owner, ownerfunction) :: rest =>
      name ← of_option "timers: owner is NULL" owner;
      '(_, s) ← nfsim_log LOG_ALWAYS (tx "At " ++ field_right 9 (print_d (s32 expires)) ++ tx ": " ++ name ++ tx ":" ++ ownerfunction ++ tx "()") s;
      timers rest s
  end.
Definition print_failpoints (failpoints : Z) (s : S) : outcome (bool * S) :=
  '(_, s) ← nfsim_log LOG_ALWAYS (tx "failpoints: " ++ print_d failpoints) s; mret (true, s).

Definition info (big : bool) (help : S → outcome S) nf_hooks nf_sockopts rcache __timers (failpoints : Z) (argv : list text) (s : S) : outcome (bool * S) :=
  match argv with
  | [] => Fault "info: argv[1] behind the end"
  | [_] => s ← help s; mret (false, s)
  | _ :: a :: _ =>
      if streq a (tx "hooks") then hooks nf_hooks s
      else if streq a (tx "sockopts") then sockopts nf_sockopts s
      else if streq a (tx "rcache") then rcaches big rcache s
      else if streq a (tx "timers") then timers __timers s
      else if streq a (tx "failpoints") then print_failpoints failpoints s
      else '(_, s) ← nfsim_log LOG_ALWAYS (tx "Unknown info command: " ++ a) s; mret (false, s)
  end.

(** ** proc.c *)

(** The name without the slash in front. *)
Definition shown_name (i : Proc.info) : text := match Proc.name i with c :: n => if ascii_eqb c "/" then n else c :: n | [] => [] end.
(** A directory, and below it, two columns further, what it holds. *)
Fixpoint proc_tree (e : entry) (i : Z) (s : S) : outcome S :=
  let tree_all := fix tree_all (sub : list entry) (s : S) : outcome S :=
    match sub with [] => mret s | c :: sub => s ← proc_tree c (i + 2) s; tree_all sub s end in
  match e with Entry d sub =>
    if 80 <=? i then Fault "proc_tree: assertion failed" else
    '(_, s) ← nfsim_log LOG_ALWAYS (replicate (Z.to_nat i) " "%char ++ tx "-" ++ shown_name d) s;
    tree_all sub s
  end.
Definition proc (help : S → outcome S) (cat : text → S → outcome (bool * S)) (write : text → list text → S → outcome (bool * S))
    (proc_root : entry) (argv : list text) (s : S) : outcome (bool * S) :=
  match argv with
  | [_] => s ← proc_tree proc_root 0 s; mret (true, s)
  | _ :: a :: rest =>
      if streq a (tx "cat") then match rest with [f] => cat f s | _ => s ← help s; mret (false, s) end
      else if streq a (tx "write") then match rest with f :: ((_ :: _) as args) => write f args s | _ => s ← help s; mret (false, s) end
      else mret (true, s)
  | [] => Fault "proc: argv[1] behind the end"
  end.

(** ** ifconfig.c, without arguments *)

(** What one device shows; a null ip_ptr is followed.  The counters are unsigned long. *)
Definition ifaddr_line (big : bool) (a : in_ifaddr) : text :=
  [chr 9] ++ tx "addr:  " ++ print_quad big (ifa_local a) ++ [chr 9] ++ tx "mask:  " ++ print_quad big (ifa_mask a) ++ [chr 9] ++ tx "bcast: " ++ print_quad big (ifa_broadcast a).
Definition counters (x : net_device_stats) : text :=
  [chr 9] ++ tx "RX packets: " ++ print_u (rxpackets x) ++ tx " bytes: " ++ print_u (rxbytes x) ++ [chr 10] ++
  [chr 9] ++ tx "TX packets: " ++ print_u (txpackets x) ++ tx " bytes: " ++ print_u (txbytes x) ++ [chr 10].
Definition ifshow (big : bool) (dev : net_device) (x : net_device_stats) (s : S) : outcome (bool * S) :=
  ifa_list ← of_option "ifshow: null ip_ptr" (ip_ptr dev);
  s ← log_all LOG_ALWAYS ([dev_name dev] ++ map (ifaddr_line big) ifa_list ++ [counters x]) s; mret (true, s).
Fixpoint ifshow_all (big : bool) (stats : Z → net_device_stats) (interfaces : list net_device) (s : S) : outcome S :=
  match interfaces with
  | [] => mret s
  | d :: ds => '(_, s) ← ifshow big d (stats (dev_addr d)) s; ifshow_all big stats ds s
  end.
End Tools.

(** ** What they print *)

Fixpoint joined (ws : list text) : text := match ws with [] => [] | [w] => w | w :: ws => w ++ tx " " ++ joined ws end.
Lemma echo_words_joined ws : echo_words 1 ws [] = joined ws.
Proof.
  assert (G : ∀ ws i buf, 1 < i → echo_words i ws buf = buf ++ concat (map (λ w, tx " " ++ w) ws)).
  { clear. induction ws as [|w ws IH]; intros i buf Hi; cbn [echo_words map concat]; [by rewrite app_nil_r|].
    rewrite (proj2 (Z.eqb_neq i 1)) by lia. rewrite IH by lia. by rewrite <-!app_assoc. }
  assert (J : ∀ w ws, joined (w :: ws) = w ++ concat (map (λ w, tx " " ++ w) ws)).
  { clear. intros w ws. revert w. induction ws as [|v ws IH]; intros w; [cbn; by rewrite app_nil_r|].
    change (joined (w :: v :: ws)) with (w ++ tx " " ++ joined (v :: ws)). rewrite IH. cbn [map concat]. by rewrite <-!app_assoc. }
  destruct ws as [|w ws]; [done|]. rewrite J. cbn [echo_words]. change (1 =? 1) with true. cbn [app]. by rewrite G by lia.
Qed.

Section Tree.
Context {S : Type} `{Logger S}.

(** The lines of the tree, and how deep it is. *)
Fixpoint tree_lines (i : Z) (e : entry) : list text :=
  match e with Entry d sub => (replicate (Z.to_nat i) " "%char ++ tx "-" ++ shown_name d) :: concat (map (tree_lines (i + 2)) sub) end.
Fixpoint depth (e : entry) : Z := match e with Entry _ sub => 1 + foldr (λ c m, Z.max (depth c) m) 0 sub end.

Lemma depth_pos e : 1 <= depth e.
Proof. destruct e as [d sub]. cbn. assert (0 <= foldr (λ c m, Z.max (depth c) m) 0 sub) by (induction sub; cbn; lia). lia. Qed.
Lemma depth_sub d sub c : c ∈ sub → depth c + 1 <= depth (Entry d sub).
Proof.
  intros Hc. cbn. assert (depth c <= foldr (λ c m, Z.max (depth c) m) 0 sub); [|lia].
  induction sub as [|x sub IH]; [by apply not_elem_of_nil in Hc|]. cbn [foldr]. apply elem_of_cons in Hc as [->|Hc]; [lia|]. specialize (IH Hc). lia.
Qed.

(** The command proc lists the tree: every entry once, each directory before what it
    holds, the name after two blanks for every level, for trees of at most forty levels;
    a tree with more levels stops the program at an assertion. *)
Theorem proc_tree_lists e : ∀ i s, 0 <= i →
  (i + 2 * (depth e - 1) < 80 → proc_tree e i s = log_all LOG_ALWAYS (tree_lines i e) s) ∧
  (80 <= i + 2 * (depth e - 1) → ∀ s', proc_tree e i s ≠ Ret s').
Proof.
  induction e as [d sub IH] using entry_ind'. intros i s Hi. cbn [proc_tree tree_lines log_all].
  set (tree_all := fix tree_all (sub : list entry) (s : S) : outcome S := match sub with [] => mret s | c :: sub => s ← proc_tree c (i + 2) s; tree_all sub s end).
  pose proof (depth_pos (Entry d sub)) as Hd. split.
  - intros Hb. rewrite (proj2 (Z.leb_gt _ _)) by lia.
    destruct (nfsim_log _ _ s) as [[b s1]| |]; [|done|done]. rewrite !bind_ret.
    assert (Hsub : ∀ c, c ∈ sub → i + 2 + 2 * (depth c - 1) < 80) by (intros c Hc; pose proof (depth_sub d sub c Hc); lia).
    clear Hb Hd s b. revert s1. induction sub as [|c sub IHs]; intros s1; [done|]. apply Forall_cons in IH as [IHc IH]. cbn [tree_all map concat].
    rewrite (proj1 (IHc (i + 2) s1 ltac:(lia))) by (apply Hsub; left). rewrite log_all_app.
    destruct (log_all _ (tree_lines (i + 2) c) s1) as [s2| |]; [|done|done]. rewrite !bind_ret. apply IHs; [done|]. intros; apply Hsub; by right.
  - intros Hb s'. destruct (Z.leb_spec 80 i) as [|Hi8]; [done|].
    destruct (nfsim_log _ _ s) as [[b s1]| |]; [|done|done]. rewrite !bind_ret. clear Hd s b.
    assert (Hdeep : ∃ c, c ∈ sub ∧ 80 <= i + 2 + 2 * (depth c - 1)).
    { cbn in Hb. clear IH tree_all. induction sub as [|c sub IHs]; cbn [foldr] in Hb; [lia|].
      destruct (Z.le_gt_cases 80 (i + 2 + 2 * (depth c - 1))) as [Hc|Hc]; [exists c; split; [by left|done]|].
      destruct IHs as (x & Hx & Hy); [lia|]. exists x. split; [by right|done]. }
    revert s1. clear Hb. induction sub as [|c sub IHs]; intros s1; [destruct Hdeep as (x & ?%not_elem_of_nil & _); done|].
    apply Forall_cons in IH as [IHc IH]. cbn [tree_all]. destruct (proc_tree c (i + 2) s1) as [s2| |] eqn:E; [|done|done]. rewrite bind_ret.
    destruct Hdeep as (x & [->|Hx]%elem_of_cons & Hy); [by destruct (proj2 (IHc (i + 2) s1 ltac:(lia)) Hy s2)|]. apply IHs; [done|]. by exists x.
Qed.
End Tree.

(** The hooks of a module without an owner are shown as the simulator's; a socket option
    without one stops the simulator. *)
Lemma sockopts_needs_owner : sockopts (H := log_nfsim_log) [SockoptOps 2 64 67 64 66 None] log0 = Fault "sockopts: owner is NULL".
Proof. reflexivity. Qed.
Example tree_of_proc :
  tree_lines 0 (Entry (Info 1 (tx "/proc") 5 0 ProcFileOperations None None None) [Entry (new_info 2 (tx "net") 3 0) [Entry (new_info 3 (tx "dev") 3 0) []]]) =
    [tx "-proc"; tx "  -net"; tx "    -dev"].
Proof. reflexivity. Qed.
