(* ===== verification/Command.v ===== *)
(** * gen_ip commands and what is logged about their packets

    An abstract command, the arguments gen_ip reads it from, and the packet it
    stands for.  Parsing the arguments gives that packet, and describing the packet
    gives the arguments back. *)

From Stdlib Require Import ZArith Lia.
From S2P Require Import Prelude CStr Mem Csum Expect Log Tui GenIp Describe.

(** ** Commands *)

Inductive l4 :=
| LUdp (spt dpt : Z)
| LTcp (spt dpt flags seq ack win : Z) (opts : list Z)
| LEcho (type code id seq : Z)
| LOther (proto : Z).

Record cmd := Cmd {
  c_df : bool; c_mf : bool; c_ce : bool;
  c_ttl : option Z;
  c_src : Z * Z * Z * Z;
  c_dst : Z * Z * Z * Z;
  c_len : Z;
  c_l4 : l4;
  (** The bytes of DATA. *)
  c_data : option text;
}.

Definition dotted (a : Z * Z * Z * Z) : text :=
  let '(a, b, c, d) := a in print_u a ++ tx "." ++ print_u b ++ tx "." ++ print_u c ++ tx "." ++ print_u d.
Definition quad (a : Z * Z * Z * Z) : list Z := let '(a, b, c, d) := a in [a; b; c; d].

Definition proto_of (l : l4) : Z :=
  match l with LUdp _ _ => 17 | LTcp _ _ _ _ _ _ _ => 6 | LEcho _ _ _ _ => 1 | LOther p => p end.
Definition flags_arg (flags : Z) : text :=
  let p := flag_list flag_order flags true in if bool_decide (p = []) then tx "NONE" else p.
Definition opts_arg (opts : list Z) : text := tx "OPT" ++ opt_list (tx "=") opts.

Definition l4_args (l : l4) : list text :=
  match l with
  | LUdp spt dpt => [print_u spt; print_u dpt]
  | LTcp spt dpt flags seq ack win opts =>
      [print_u spt; print_u dpt; flags_arg flags] ++
      when (negb (seq =? 0)) (tx "SEQ=" ++ print_u seq) ++ when (negb (ack =? 0)) (tx "ACK=" ++ print_u ack) ++
      when (negb (win =? 0)) (tx "WIN=" ++ print_u win) ++ when (negb (bool_decide (opts = []))) (opts_arg opts)
  | LEcho type code id seq => [print_u type; print_u code; print_u id; print_u seq]
  | LOther _ => []
  end.

Definition data_args (data : option text) : list text :=
  match data with Some d => [tx "DATA"; d ≫= escape_char] | None => [] end.

Definition opt_args (c : cmd) : list text :=
  when (c_df c) (tx "DF") ++ when (c_mf c) (tx "MF") ++ when (c_ce c) (tx "CE") ++
  match c_ttl c with Some t => [tx "TTL=" ++ print_u t] | None => [] end.
Definition main_args (c : cmd) : list text :=
  [dotted (c_src c); dotted (c_dst c); print_u (c_len c); print_u (proto_of (c_l4 c))] ++ l4_args (c_l4 c) ++ data_args (c_data c).
Definition cmd_args (c : cmd) : list text := opt_args c ++ main_args c.

(** What separates arguments on a command line and in the log. *)
Fixpoint join_args (ws : list text) : text :=
  match ws with [] => [] | [w] => w | w :: ws => w ++ " "%char :: join_args ws end.

(** ** Well-formed commands *)

Definition byte_quad (a : Z * Z * Z * Z) : Prop := Forall is_byte (quad a).
Definition header_len (l : l4) : Z :=
  match l with LUdp _ _ => 8 | LTcp _ _ _ _ _ _ opts => 20 + zlen opts | LEcho _ _ _ _ => 8 | LOther _ => 0 end.

Definition wf_l4 (l : l4) : Prop :=
  match l with
  | LUdp spt dpt => in_width 16 spt ∧ in_width 16 dpt
  | LTcp spt dpt flags seq ack win opts =>
      in_width 16 spt ∧ in_width 16 dpt ∧ is_byte flags ∧ in_width 32 seq ∧ in_width 32 ack ∧ in_width 16 win ∧
      Forall is_byte opts ∧ (length opts <= 40)%nat ∧ (length opts mod 4 = 0)%nat
  | LEcho type code id seq => (type = 0 ∨ type = 8) ∧ is_byte code ∧ is_byte id ∧ is_byte seq
  | LOther p => is_byte p ∧ p ≠ 1 ∧ p ≠ 6 ∧ p ≠ 17
  end.

(** DATA gives all the data of a UDP or TCP packet and does not end in a blank. *)
Definition wf_data (c : cmd) : Prop :=
  match c_data c with
  | None => True
  | Some d => zlen d = c_len c ∧ last d ≠ None ∧ last d ≠ Some " "%char ∧
      match c_l4 c with LUdp _ _ | LTcp _ _ _ _ _ _ _ => True | _ => False end
  end.

Record wf_cmd (c : cmd) : Prop := WfCmd {
  wf_ttl : ∀ t, c_ttl c = Some t → is_byte t;
  wf_src : byte_quad (c_src c);
  wf_dst : byte_quad (c_dst c);
  wf_len : 0 <= c_len c;
  wf_tot : 20 + header_len (c_l4 c) + c_len c < 2 ^ 16;
  wf_trans : wf_l4 (c_l4 c);
  wf_payload : wf_data c;
}.

(** ** The packet of a command *)

Definition seg_header (l : l4) (n : Z) : list Z :=
  match l with
  | LUdp spt dpt => be16 spt ++ be16 dpt ++ be16 (8 + n) ++ [0; 0]
  | LTcp spt dpt flags seq ack win opts =>
      be16 spt ++ be16 dpt ++ be32 seq ++ be32 ack ++ [4 * (20 + zlen opts); flags] ++ be16 win ++ [0; 0; 0; 0] ++ opts
  | LEcho type code id seq => [type; code; 0; 0] ++ be16 id ++ be16 seq
  | LOther _ => []
  end.
Definition check_off (l : l4) : nat :=
  match l with LUdp _ _ => 6 | LTcp _ _ _ _ _ _ _ => 16 | LEcho _ _ _ _ => 2 | LOther _ => 0 end.
Definition payload (c : cmd) : list Z := match c_data c with Some d => map code d | None => zeros (c_len c) end.
(** The segment before its checksum is filled in. *)
Definition seg0 (c : cmd) : list Z := seg_header (c_l4 c) (c_len c) ++ payload c.

(** ** Reading the numbers *)

Lemma int_number_print n max : 0 <= n <= max → max < 2 ^ 31 → int_number (print_u n) 0 max = n.
Proof.
  intros Hn Hm. unfold int_number, string_to_number. rewrite strtoul_print_u_end by (unfold ULONG_MAX; lia || by left).
  rewrite wrap_small by lia. rewrite Nat.eqb_refl.
  assert (Hne : length (print_u n) ≠ O) by (destruct (print_u_spec n ltac:(lia)) as (Hne & _); by destruct (print_u n)).
  rewrite (proj2 (Nat.eqb_neq _ _)) by done. rewrite (proj2 (Z.leb_le 0 n)), (proj2 (Z.leb_le n max)) by lia. cbn [andb negb].
  unfold signed. rewrite wrap_small by lia. by rewrite (proj2 (Z.ltb_lt _ _)) by lia.
Qed.

Lemma tcpnumber_print n : in_width 32 n → parse_tcpnumber (print_u n) = be32 n.
Proof.
  unfold in_width. intros Hn. unfold parse_tcpnumber, string_to_number.
  rewrite strtoul_print_u_end by (unfold ULONG_MAX; lia || by left). rewrite wrap_small by lia. rewrite Nat.eqb_refl.
  assert (Hne : length (print_u n) ≠ O) by (destruct (print_u_spec n ltac:(lia)) as (Hne & _); by destruct (print_u n)).
  rewrite (proj2 (Nat.eqb_neq _ _)) by done. rewrite (proj2 (Z.leb_le 0 n)), (proj2 (Z.leb_le n _)) by lia. done.
Qed.

Lemma print_byte_length n : is_byte n → (length (print_u n) <= 3)%nat.
Proof.
  unfold in_width. intros Hn. assert (Hc : forallb (λ k, (length (print_u (Z.of_nat k)) <=? 3)%nat) (seq 0 256) = true) by (by vm_compute).
  rewrite forallb_forall in Hc. specialize (Hc (Z.to_nat n)). rewrite Z2Nat.id in Hc by lia. apply Nat.leb_le, Hc.
  apply in_seq. lia.
Qed.

Lemma print_no c n : 0 <= n → isdigit c = false → c ∉ print_u n.
Proof.
  intros Hn Hc Hin. pose proof (print_u_digits n Hn) as HF. rewrite Forall_forall in HF. specialize (HF c Hin). congruence.
Qed.

Lemma dotted_to_addr_dotted a : byte_quad a → dotted_to_addr (dotted a) = Ret (Some (quad a)).
Proof.
  destruct a as [[[a b] c] d]. intros Hq. unfold byte_quad, quad in *.
  repeat match goal with H : Forall _ (_ :: _) |- _ => apply Forall_cons in H as [? H] end. unfold dotted_to_addr.
  assert (Hlen : (length (dotted (a, b, c, d)) <= 15)%nat).
  { unfold dotted. rewrite !length_app. repeat match goal with H : is_byte ?x |- _ => pose proof (print_byte_length x H); clear H end. simpl. lia. }
  rewrite take_ge by lia. rewrite (proj2 (Nat.leb_le _ 18)) by lia. unfold dotted.
  assert (Hstep : ∀ n x rest, is_byte x → dotted_bytes (S n) (print_u x ++ tx "." ++ rest) true =
    (r ← dotted_bytes n rest true; mret (option_map (cons x) r))).
  { intros n x rest Hx. unfold in_width in Hx. cbn [dotted_bytes]. change (tx "." ++ rest) with ("."%char :: rest).
    rewrite strchr_app by (apply print_no; [lia|done]). rewrite take_app_length.
    rewrite int_number_print by lia. rewrite (proj2 (Z.eqb_neq x (-1))) by lia.
    replace (S (length (print_u x))) with (length (print_u x) + 1)%nat by lia. rewrite drop_app_add. done. }
  rewrite !Hstep by done. cbn [dotted_bytes negb]. unfold in_width in *. rewrite int_number_print by lia.
  rewrite (proj2 (Z.eqb_neq d (-1))) by lia. done.
Qed.

(** ** Reading the options *)

Definition opts_of (c : cmd) : ip_opts :=
  IpOpts 0 (default 255 (c_ttl c)) (c_df c) (c_mf c) (c_ce c) 0 0 [0; 0; 0; 0; 0; 0]
    (match c_ttl c with Some _ => Some (tx "ttl") | None => None end).

Section Parse.
Context {S : Type} `{Logger S}.

Lemma digit_not_option c0 d e1 e2 e3 rest name : isdigit c0 = true → isdigit (hd0 name) = false → name ≠ [] →
  option_arg name ((c0 :: d) :: e1 :: e2 :: e3 :: rest) = None ∧ option_word name ((c0 :: d) :: e1 :: e2 :: e3 :: rest) = None.
Proof.
  intros Hc Hn Hne. destruct name as [|n name]; [done|]. simpl in Hn.
  assert (n ≠ c0) by congruence. unfold option_arg, option_word, strstarts, streq, ascii_eqb.
  rewrite !bool_decide_eq_false_2 by congruence. rewrite !andb_false_r. done.
Qed.

Lemma dotted_hd a : byte_quad a → ∃ c0 d, dotted a = c0 :: d ∧ isdigit c0 = true.
Proof.
  destruct a as [[[a b] c] d]. intros Hq. apply Forall_cons in Hq as [Ha _]. unfold in_width in Ha.
  pose proof (print_u_digits a ltac:(lia)) as HF. destruct (print_u_spec a ltac:(lia)) as (Hne & _).
  unfold dotted. destruct (print_u a) as [|c0 p]; [done|]. apply Forall_cons in HF as [Hc _]. eauto.
Qed.

Lemma strstarts_app a b : strstarts (a ++ b) a = true.
Proof. induction a as [|x a IH]; [by destruct b|]. simpl. unfold ascii_eqb. rewrite bool_decide_eq_true_2 by done. exact IH. Qed.

Lemma opt_ttl_arg t o e1 e2 e3 e4 rest (s : S) : is_byte t →
  opt_ttl (o, (tx "TTL=" ++ print_u t) :: e1 :: e2 :: e3 :: e4 :: rest) s =
    Ret (Some (IpOpts (o_tos o) t (o_df o) (o_mf o) (o_ce o) (o_fragoff o) (o_fraglen o) (o_mac o)
      (append_flag (tx "ttl") (o_flags o)), e1 :: e2 :: e3 :: e4 :: rest), s).
Proof.
  intros Ht. unfold in_width in Ht. unfold opt_ttl, option_arg. rewrite strstarts_app. cbn [length Nat.ltb Nat.leb andb].
  change (drop (length (tx "TTL=")) (tx "TTL=" ++ print_u t)) with (print_u t). rewrite atoi_print_u by lia.
  rewrite (proj2 (Z.ltb_ge t 0)), (proj2 (Z.ltb_ge 255 t)) by lia. done.
Qed.

(** The stages behind DF, MF and CE. *)
Definition late_options (st : ip_opts * list text) : parser S (ip_opts * list text) :=
  st ← opt_mac st; st ← opt_tos st; st ← opt_dscp st; st ← opt_ect st; opt_ttl st.

Lemma late_options_none o args (s : S) :
  option_arg (tx "MAC=") args = None → option_arg (tx "TOS=") args = None → option_arg (tx "DSCP=") args = None →
  option_arg (tx "ECT=") args = None → late_options (o, args) s = opt_ttl (o, args) s.
Proof.
  intros H1 H2 H3 H4. unfold late_options.
  erewrite pbind_some; [|unfold opt_mac; rewrite H1; reflexivity].
  erewrite pbind_some; [|unfold opt_tos; rewrite H2; reflexivity].
  erewrite pbind_some; [|unfold opt_dscp; rewrite H3; reflexivity].
  erewrite pbind_some; [|unfold opt_ect; rewrite H4; reflexivity]. done.
Qed.

Lemma late_options_cmd o ttl A c0 d e1 e2 e3 rest (s : S) :
  (∀ t, ttl = Some t → is_byte t) → A = (c0 :: d) :: e1 :: e2 :: e3 :: rest → isdigit c0 = true →
  late_options (o, match ttl with Some t => [tx "TTL=" ++ print_u t] | None => [] end ++ A) s =
    Ret (Some (match ttl with
               | Some t => IpOpts (o_tos o) t (o_df o) (o_mf o) (o_ce o) (o_fragoff o) (o_fraglen o) (o_mac o)
                   (append_flag (tx "ttl") (o_flags o))
               | None => o
               end, A), s).
Proof.
  intros Ht -> Hc. destruct ttl as [t|].
  - rewrite late_options_none by reflexivity. cbn [app]. rewrite opt_ttl_arg by auto. done.
  - cbn [app]. rewrite late_options_none by (apply digit_not_option; done).
    unfold opt_ttl. rewrite (proj1 (digit_not_option c0 d e1 e2 e3 rest (tx "TTL=") Hc eq_refl ltac:(done))). done.
Qed.

Lemma option_word_miss name b w tl : w ≠ name → option_word name tl = None → option_word name (when b w ++ tl) = None.
Proof.
  intros Hw Ht. destruct b; [|done]. unfold option_word, streq. cbn [when app].
  by rewrite bool_decide_eq_false_2, andb_false_r.
Qed.

Lemma option_word_step name b tl : (4 <= length tl)%nat → option_word name tl = None →
  match option_word name (when b name ++ tl) with Some r => (true, r) | None => (false, when b name ++ tl) end = (b, tl).
Proof.
  intros Hl Ht. destruct b; cbn [when app]; [|by rewrite Ht]. unfold option_word, streq.
  rewrite bool_decide_eq_true_2 by done. by rewrite (proj2 (Nat.ltb_lt 4 (length (name :: tl)))) by (simpl; lia).
Qed.

Lemma parse_options_cmd c e1 e2 e3 rest (s : S) : wf_cmd c →
  parse_options None (opt_args c ++ dotted (c_src c) :: e1 :: e2 :: e3 :: rest) s =
    Ret (Some (opts_of c, dotted (c_src c) :: e1 :: e2 :: e3 :: rest), s).
Proof.
  intros Hwf. destruct (dotted_hd (c_src c) (wf_src _ Hwf)) as (c0 & d & -> & Hc0).
  pose proof (wf_ttl _ Hwf) as Httl. destruct c as [df mf ce ttl src dst n l data]. cbn [c_ttl c_df c_mf c_ce] in *.
  unfold opts_of, opt_args, parse_options. cbn [c_ttl c_df c_mf c_ce]. clear Hwf.
  set (A := (c0 :: d) :: e1 :: e2 :: e3 :: rest).
  set (T := match ttl with Some t => [tx "TTL=" ++ print_u t] | None => [] end).
  rewrite <-!app_assoc.
  assert (HT : ∀ name, name ∈ [tx "DF"; tx "MF"; tx "CE"] → option_word name (T ++ A) = None).
  { intros name Hn. destruct ttl as [t|]; subst T; cbn [app].
    - unfold option_word. cbn [app]. unfold streq. rewrite bool_decide_eq_false_2; [by rewrite andb_false_r|].
      intros E. rewrite <-E in Hn. by repeat (apply elem_of_cons in Hn as [Hn|Hn]; [discriminate Hn|]); apply not_elem_of_nil in Hn.
    - repeat (apply elem_of_cons in Hn as [->|Hn]; [by apply digit_not_option|]). by apply not_elem_of_nil in Hn. }
  assert (HF : option_arg (tx "FRAG=") (T ++ A) = None).
  { destruct ttl as [t|]; subst T; cbn [app]; [done|]. by apply digit_not_option. }
  assert (Hlen : (4 <=? length (T ++ A))%nat = true) by (subst T A; destruct ttl; done).
  erewrite pbind_some; [|unfold opt_frag; replace (option_arg (tx "FRAG=") _) with (@None (text * list text)); [reflexivity|]].
  2: { destruct df, mf, ce; cbn [when app]; try done; unfold option_arg; cbn [strstarts]; by rewrite andb_false_r. }
  assert (Hbits : opt_bits (opts0 None, when df (tx "DF") ++ when mf (tx "MF") ++ when ce (tx "CE") ++ T ++ A) =
    (IpOpts 0 255 df mf ce 0 0 [0; 0; 0; 0; 0; 0] None, T ++ A)).
  { unfold opt_bits. cbn [opts0 o_df o_mf o_ce o_tos o_ttl o_fragoff o_fraglen o_mac o_flags].
    assert (Hl : ∀ b (w : text) tl, (4 <= length tl)%nat → (4 <= length (when b w ++ tl))%nat) by (intros [] w tl; simpl; lia).
    apply Nat.leb_le in Hlen.
    assert (M : option_word (tx "MF") (when ce (tx "CE") ++ T ++ A) = None) by (apply option_word_miss; [done|apply HT; set_solver]).
    assert (D : option_word (tx "DF") (when mf (tx "MF") ++ when ce (tx "CE") ++ T ++ A) = None)
      by (apply option_word_miss; [done|]; apply option_word_miss; [done|apply HT; set_solver]).
    rewrite (option_word_step (tx "DF") df) by auto. rewrite (option_word_step (tx "MF") mf) by auto.
    rewrite (option_word_step (tx "CE") ce) by (auto; apply HT; set_solver). done. }
  rewrite Hbits. fold (late_options (IpOpts 0 255 df mf ce 0 0 [0; 0; 0; 0; 0; 0] None, T ++ A)).
  change (late_options (IpOpts 0 255 df mf ce 0 0 [0; 0; 0; 0; 0; 0] None, T ++ A) s =
    Ret (Some (IpOpts 0 (default 255 ttl) df mf ce 0 0 [0; 0; 0; 0; 0; 0]
      (match ttl with Some _ => Some (tx "ttl") | None => None end), A), s)).
  subst T. rewrite (late_options_cmd _ ttl A c0 d e1 e2 e3 rest) by (done || auto). by destruct ttl.
Qed.
End Parse.

(** ** Checksums *)

(** The value that makes a segment with a zero checksum field sum to all ones
    together with [H]. *)
Definition check_value (big : bool) (seg : list Z) (H : Z) : Z := 65535 - fold16 (ref_sum big seg + H).

Lemma check_value_range big seg H : 0 <= check_value big seg H <= 65535.
Proof. unfold check_value. pose proof (fold16_range (ref_sum big seg + H)). lia. Qed.

Lemma ref_sum_filled big off seg c : Nat.Even off → (off + 2 <= length seg)%nat → 0 <= c <= 65535 → get16 big off seg = 0 →
  ref_sum big (put16 big off c seg) = ref_sum big seg + c.
Proof. intros He Hl Hc Hg. rewrite ref_sum_put16 by done. rewrite (ref_sum_at big off seg), Hg by done. lia. Qed.

Lemma filled_sums big off seg H : Forall is_byte seg → 0 <= H → Nat.Even off → (off + 2 <= length seg)%nat → get16 big off seg = 0 →
  fold16 (ref_sum big (put16 big off (check_value big seg H) seg) + H) = 65535.
Proof.
  intros HF HH He Hl Hg. rewrite ref_sum_filled by (try apply check_value_range; done). unfold check_value.
  replace (ref_sum big seg + (65535 - fold16 (ref_sum big seg + H)) + H)
    with (ref_sum big seg + H + (65535 - fold16 (ref_sum big seg + H))) by lia.
  apply fold16_complement. pose proof (ref_sum_nonneg big seg HF). lia.
Qed.

Lemma be16_bytes x : Forall is_byte (be16 x).
Proof. unfold be16. repeat constructor; apply wrap_range; lia. Qed.
Lemma pseudo_bytes_bytes sb db proto n : Forall is_byte sb → Forall is_byte db → is_byte proto →
  Forall is_byte (pseudo_bytes sb db proto n).
Proof.
  intros. unfold pseudo_bytes. apply Forall_app; split; [done|]. apply Forall_app; split; [done|].
  constructor; [unfold in_width; lia|]. constructor; [done|]. apply be16_bytes.
Qed.

(** The pseudo header of the stack is the one of gen_ip. *)
Lemma pseudo_header_eq big sb db proto n : length sb = 4%nat → length db = 4%nat → Forall is_byte sb → Forall is_byte db →
  is_byte proto → 0 <= n < 2 ^ 16 →
  pseudo_header big (Csum.word big sb) (Csum.word big db) n proto = pseudo_bytes sb db proto n.
Proof.
  assert (Hw : ∀ l, length l = 4%nat → Forall is_byte l → bytes big 4 (u32 (Csum.word big l)) = l).
  { intros l Hl HF. destruct (word4_oc big l Hl HF) as [_ Hr]. rewrite wrap_small by lia.
    assert (G : ∀ l, length l = 4%nat → Forall is_byte l → le_bytes 4 (le_word l) = l).
    { clear. intros l Hl HF. destruct l as [|a [|b [|c [|d [|]]]]]; try done.
      repeat match goal with H : Forall _ (_ :: _) |- _ => apply Forall_cons in H as [? H] end. unfold in_width in *.
      assert (Hm : ∀ b x, 0 <= b < 2 ^ 8 → (b + 256 * x) mod 2 ^ 8 = b ∧ (b + 256 * x) / 256 = x).
      { intros y x Hy. change (2 ^ 8) with 256 in *. split; zlia. }
      cbn [le_bytes le_word]. unfold wrap.
      rewrite (proj1 (Hm a _ ltac:(done))), (proj2 (Hm a _ ltac:(done))).
      rewrite (proj1 (Hm b _ ltac:(done))), (proj2 (Hm b _ ltac:(done))).
      rewrite (proj1 (Hm c _ ltac:(done))), (proj2 (Hm c _ ltac:(done))).
      by rewrite (proj1 (Hm d _ ltac:(done))). }
    unfold bytes, Csum.word. destruct big; [|by apply G].
    rewrite G by (try apply Forall_rev; try rewrite length_rev; done). apply rev_involutive. }
  intros Hs Hd HFs HFd Hp Hn. unfold pseudo_header, pseudo_bytes. rewrite !Hw by done.
  unfold in_width in Hp. rewrite (wrap_small 8), (wrap_small 16) by lia. do 3 f_equal. unfold be16, htons, bytes, swab16.
  destruct big.
  - cbn [le_bytes rev app]. done.
  - cbn [le_bytes]. change 0xff with (Z.ones 8). rewrite Z.land_ones, Z.shiftl_mul_pow2, Z.shiftr_div_pow2 by lia.
    assert (Z.land n 0xff00 / 2 ^ 8 = n / 256) as ->.
    { rewrite <-Z.shiftr_div_pow2, Z.shiftr_land by lia. change (Z.shiftr 0xff00 8) with (Z.ones 8).
      rewrite Z.land_ones, Z.shiftr_div_pow2 by lia. apply Z.mod_small. zlia. }
    assert (Z.lor (n mod 2 ^ 8 * 2 ^ 8) (n / 256) = n / 256 + n mod 256 * 2 ^ 8) as ->.
    { rewrite Z.lor_comm, <-Z.shiftl_mul_pow2 by lia. change (2 ^ 8) with 256. rewrite lor_shiftl_add by (change (2 ^ 8) with 256; zlia). done. }
    unfold wrap. change (2 ^ 8) with 256.
    assert (Hq : 0 <= n / 256 < 256) by zlia. assert (Hr : 0 <= n mod 256 < 256) by (apply Z.mod_pos_bound; lia).
    rewrite (Z.mod_small (n / 256)) by lia. set (q := n / 256) in *. set (r := n mod 256) in *. clearbody q r.
    assert ((q + r * 256) / 256 = r) as -> by zlia. assert ((q + r * 256) mod 256 = q) as -> by zlia.
    by rewrite Z.mod_small by lia.
Qed.

Section PutCheck.
Context {S : Type} `{Logger S} (big : bool) (u_addr : Z).

(** A sum gen_ip takes over the front of the union. *)
Lemma csum_u_prefix seg tl sum (s : S) : Forall is_byte seg → Z.of_nat (length seg) <= 2 ^ 17 →
  supported big u_addr (zlen seg) → 0 <= sum < 2 ^ 32 →
  ∃ r, csum_u big u_addr (seg ++ tl) (zlen seg) sum s = Ret (Some r, s) ∧ 0 <= r < 2 ^ 32 ∧ oc r (ref_sum big seg + sum).
Proof.
  intros HF Hl Hs Hsum. destruct (csum_partial_oc big u_addr seg sum HF Hl Hs Hsum) as (r & E & Hr & Ho).
  exists r. split; [|done]. unfold csum_u. apply lift_ret. by apply csum_partial_app.
Qed.

Lemma put_check_ok sb db pre proto n off seg tl (s : S) :
  Forall is_byte seg → zlen seg = n → n < 2 ^ 16 → supported big u_addr n → length pre = 12%nat → length sb = 4%nat → length db = 4%nat →
  Forall is_byte sb → Forall is_byte db → is_byte proto → (off + 2 <= length seg)%nat →
  put_check big u_addr (pre ++ sb ++ db) proto n off (seg ++ tl) s =
    Ret (Some (put16 big off (check_value big seg (ref_sum big (pseudo_bytes sb db proto n))) seg ++ tl), s).
Proof.
  intros HF Hn Hn16 Hsup Hpre Hsb Hdb HFs HFd Hp Hoff. unfold put_check.
  assert (ztake 4 (zdrop 12 (pre ++ sb ++ db)) = sb) as ->.
  { unfold ztake, zdrop. change (Z.to_nat 12) with 12%nat. rewrite drop_app_length' by done. by rewrite take_app_length'. }
  assert (ztake 4 (zdrop 16 (pre ++ sb ++ db)) = db) as ->.
  { unfold ztake, zdrop. change (Z.to_nat 16) with 16%nat. rewrite app_assoc, drop_app_length' by (rewrite length_app; lia).
    apply take_ge. rewrite Hdb. done. }
  pose proof (pseudo_bytes_bytes sb db proto n HFs HFd Hp) as HFp.
  assert (Hlp : length (pseudo_bytes sb db proto n) = 12%nat) by (unfold pseudo_bytes; rewrite !length_app, Hsb, Hdb; done).
  set (P := pseudo_bytes sb db proto n) in *.
  assert (Hcp : csum_partial big 0 P 12 0 = Ret (fold16 (ref_sum big P))).
  { change 12 with (Z.of_nat 12). rewrite <-Hlp. apply csum_partial_0; [done|rewrite Hlp; lia|]. rewrite Hlp. by right. }
  erewrite pbind_some; [|apply lift_ret; exact Hcp].
  pose proof (fold16_range (ref_sum big P)) as Hr. unfold zlen in Hn.
  destruct (csum_u_prefix seg tl (fold16 (ref_sum big P)) s HF) as (r & E & Hr2 & Ho); [lia|by rewrite <-Hn in Hsup|lia|].
  unfold zlen in E. rewrite Hn in E. erewrite pbind_some by exact E. cbn [mret parser_ret]. unfold parser_ret. do 3 f_equal.
  rewrite csum_fold_u16 by done.
  assert (HH : fold16 r = fold16 (ref_sum big seg + ref_sum big P)).
  { rewrite (fold16_oc _ _ Ho). apply fold16_oc. apply oc_add; [apply oc_refl; by apply ref_sum_nonneg|].
    symmetry. apply oc_fold16. by apply ref_sum_nonneg. }
  rewrite HH. unfold check_value, put16. rewrite take_app_le, drop_app_le by lia. by rewrite <-!app_assoc.
Qed.
End PutCheck.

(** ** Building the segment *)

Lemma zeros_app a b : 0 <= a → 0 <= b → zeros (a + b) = zeros a ++ zeros b.
Proof. intros. unfold zeros. rewrite Z2Nat.inj_add by lia. apply replicate_add. Qed.
Lemma zlen_zeros n : 0 <= n → zlen (zeros n) = n.
Proof. intros. unfold zlen, zeros. rewrite length_replicate. lia. Qed.
Lemma zeros_bytes n : Forall is_byte (zeros n).
Proof. apply Forall_replicate. unfold in_width. lia. Qed.

Lemma store_mid {A} (a b b0 tl : list A) : zlen b = zlen b0 → store (zlen a) b (a ++ b0 ++ tl) = Ret (a ++ b ++ tl).
Proof.
  intros Hl. unfold store, in_object. rewrite !zlen_app. pose proof (zlen_nonneg a). pose proof (zlen_nonneg b). pose proof (zlen_nonneg tl).
  rewrite (proj2 (Z.leb_le 0 _)), (proj2 (Z.leb_le 0 _)), (proj2 (Z.leb_le _ _)) by lia. cbn [andb].
  rewrite ztake_app_le, ztake_all by lia. do 2 f_equal. f_equal. rewrite Hl.
  rewrite zdrop_app_ge by (pose proof (zlen_nonneg b0); lia). replace (zlen a + zlen b0 - zlen a) with (zlen b0) by lia.
  rewrite zdrop_app_ge by lia. by rewrite Z.sub_diag, zdrop_0 by lia.
Qed.
Lemma store_front {A} (b b0 tl : list A) : zlen b = zlen b0 → store 0 b (b0 ++ tl) = Ret (b ++ tl).
Proof. intros Hl. apply (store_mid [] b b0 tl Hl). Qed.

Lemma zlen_map {A B} (f : A → B) l : zlen (map f l) = zlen l.
Proof. unfold zlen. by rewrite length_map. Qed.
Lemma map_code_bytes d : Forall is_byte (map code d).
Proof. apply Forall_forall. intros x Hx. apply list_elem_of_fmap in Hx as (c & -> & _). apply code_range. Qed.

Section Transport.
Context {S : Type} `{Logger S} (big : bool) (u_addr : Z).

Lemma number_arg_print what max n (l : list text) (i : nat) (s : S) : l !! i = Some (print_u n) → 0 <= n <= max → max < 2 ^ 31 →
  number_arg what max (l !! i) s = Ret (Some n, s).
Proof.
  intros -> Hn Hm. unfold number_arg. rewrite int_number_print by done. by rewrite (proj2 (Z.ltb_ge n 0)) by lia.
Qed.

(** DATA lands behind the header. *)
Lemma copy_data_ok pre d (s : S) : zlen pre + zlen d < RAW_DATA →
  copy_data (zlen pre) [d ≫= escape_char] (pre ++ zeros (RAW_DATA - zlen pre)) s =
    Ret (Some (pre ++ (map code d ++ [0]) ++ zeros (RAW_DATA - zlen pre - zlen d - 1)), s).
Proof.
  intros Hd. unfold copy_data. cbn [copy_words]. rewrite copy_printable_escape by apply length_escape. rewrite bind_ret.
  erewrite pbind_some by (apply lift_ret; reflexivity). apply lift_ret. pose proof (zlen_nonneg d).
  replace (RAW_DATA - zlen pre) with ((zlen d + 1) + (RAW_DATA - zlen pre - zlen d - 1)) at 1 by lia.
  rewrite (zeros_app (zlen d + 1)) by lia. apply store_mid. rewrite zlen_app, zlen_map, zlen_zeros by lia. done.
Qed.

Lemma payload_len c : 0 <= c_len c → match c_data c with Some d => zlen d = c_len c | None => True end →
  zlen (payload c) = c_len c.
Proof. intros Hl Hd. unfold payload. destruct (c_data c); [by rewrite zlen_map|by apply zlen_zeros]. Qed.
Lemma payload_bytes c : Forall is_byte (payload c).
Proof. unfold payload. destruct (c_data c); [apply map_code_bytes|apply zeros_bytes]. Qed.

Lemma wf_data_len c : wf_data c → match c_data c with Some d => zlen d = c_len c | None => True end.
Proof. unfold wf_data. destruct (c_data c); [tauto|done]. Qed.

(** The check field of every kind of segment. *)
Definition pseudo_sum (c : cmd) : Z :=
  match c_l4 c with
  | LUdp _ _ | LTcp _ _ _ _ _ _ _ =>
      ref_sum big (pseudo_bytes (quad (c_src c)) (quad (c_dst c)) (proto_of (c_l4 c)) (header_len (c_l4 c) + c_len c))
  | _ => 0
  end.
Definition seg (c : cmd) : list Z :=
  match c_l4 c with
  | LOther _ => payload c
  | l => put16 big (check_off l) (check_value big (seg0 c) (pseudo_sum c)) (seg0 c)
  end.
Definition data_flags (c : cmd) (fl : option text) : option text :=
  match c_data c with Some _ => append_flag (tx "data") fl | None => fl end.

Lemma seg_header_len l n : wf_l4 l → zlen (seg_header l n) = header_len l.
Proof.
  intros Hwf. destruct l; simpl in Hwf |- *; unfold be32, be16; rewrite ?zlen_app; try done.
  unfold zlen; simpl; lia.
Qed.
Lemma seg_header_bytes l n : wf_l4 l → Forall is_byte (seg_header l n).
Proof.
  assert (Hz : is_byte 0) by (unfold in_width; lia).
  intros Hwf. destruct l as [spt dpt|spt dpt flags sq ack win opts|type code id sq|p];
    cbn [seg_header]; unfold be32; cbn [wf_l4] in Hwf; [..|constructor].
  - repeat (apply Forall_app_2; [apply be16_bytes|]). by repeat constructor.
  - destruct Hwf as (_ & _ & Hf & _ & _ & _ & Ho & Hl & _).
    assert (Hd : is_byte (4 * (20 + zlen opts))) by (unfold in_width, zlen; lia).
    rewrite !Forall_app, !Forall_cons. split_and!; first [apply be16_bytes | done].
  - destruct Hwf as (Ht & Hc & _ & _).
    assert (is_byte type) by (destruct Ht as [-> | ->]; unfold in_width; lia).
    rewrite !Forall_app, !Forall_cons. split_and!; first [apply be16_bytes | done].
Qed.
End Transport.
