(* ===== verification/CmdParse.v ===== *)
(** * gen_ip commands: parsing

    The packet [parse_packet] builds from the arguments of a command. *)

From Stdlib Require Import ZArith Lia.
From S2P Require Import Prelude CStr Mem Csum Expect Log Tui GenIp Describe Command.

Lemma u8_small x : is_byte x → u8 x = x.
Proof. intros H. by apply wrap_small. Qed.

(** The IP header, still without its checksum. *)
Definition frag_bits (c : cmd) : Z := (if c_df c then IP_DF else 0) + (if c_mf c then IP_MF else 0) + (if c_ce c then IP_CE else 0).
Definition tot_len (c : cmd) : Z := 20 + header_len (c_l4 c) + c_len c.
Definition iph0 (c : cmd) : list Z :=
  [0x45; 0] ++ be16 (tot_len c) ++ [0; 0] ++ be16 (frag_bits c) ++ [default 255 (c_ttl c); proto_of (c_l4 c); 0; 0] ++
  quad (c_src c) ++ quad (c_dst c).
Definition iph_of (big : bool) (c : cmd) : list Z := put16 big 10 (check_value big (iph0 c) 0) (iph0 c).

Lemma put16_app big off v l tl : (off + 2 <= length l)%nat → put16 big off v (l ++ tl) = put16 big off v l ++ tl.
Proof. intros Hl. unfold put16. rewrite take_app_le, drop_app_le by lia. by rewrite <-!app_assoc. Qed.

Section Parse.
Context {S : Type} `{Logger S} (big : bool) (u_addr : Z).

Lemma header_len_nonneg l : 0 <= header_len l.
Proof. destruct l as [|? ? ? ? ? ? opts| |]; simpl; [|pose proof (zlen_nonneg opts)|..]; lia. Qed.

Lemma proto_byte l : wf_l4 l → is_byte (proto_of l).
Proof. destruct l; simpl; try (intros _; unfold in_width; lia). tauto. Qed.

Lemma parse_header_cmd c ttl (s : S) : wf_cmd c → is_byte ttl →
  parse_header (dotted (c_src c)) (dotted (c_dst c)) (print_u (c_len c)) (print_u (proto_of (c_l4 c))) 0 ttl s =
    Ret (Some (c_len c, ip_header 0 ttl (proto_of (c_l4 c)) (quad (c_src c)) (quad (c_dst c))), s).
Proof.
  intros [_ Hs Hd Hl Ht Hw _] Httl. pose proof (header_len_nonneg (c_l4 c)).
  pose proof (proto_byte _ Hw) as Hp. unfold in_width in Hp. unfold parse_header.
  rewrite int_number_print by lia. rewrite (proj2 (Z.ltb_ge _ 0)) by lia.
  erewrite pbind_some; [|unfold parse_protocol; rewrite int_number_print by lia;
    rewrite (proj2 (Z.eqb_neq _ _)) by lia; cbn [negb]; rewrite wrap_small by lia; reflexivity].
  erewrite pbind_some; [|unfold address_arg; erewrite pbind_some by (apply lift_ret, dotted_to_addr_dotted, Hs); reflexivity].
  erewrite pbind_some; [|unfold address_arg; erewrite pbind_some by (apply lift_ret, dotted_to_addr_dotted, Hd); reflexivity].
  done.
Qed.

(** DATA, or nothing, behind the other arguments. *)
Lemma wf_len_bounds c : wf_cmd c → 0 <= c_len c ∧ header_len (c_l4 c) + c_len c < RAW_DATA - 1.
Proof. intros [_ _ _ Hl Ht _ _]. unfold RAW_DATA. change (2 ^ 16) with 65536 in Ht. lia. Qed.

Lemma data_copied c pre (s : S) fl : wf_cmd c → zlen pre = header_len (c_l4 c) →
  ∃ tl, (match data_args (c_data c) with
   | [] => mret (pre ++ zeros (RAW_DATA - zlen pre), fl)
   | a :: words =>
       if streq a (tx "DATA") then
         m ← copy_data (zlen pre) words (pre ++ zeros (RAW_DATA - zlen pre)); mret (m, append_flag (tx "data") fl)
       else complain (tx "Extra argument:" ++ quoted (Some a))
   end) s = Ret (Some (pre ++ payload c ++ tl, data_flags c fl), s).
Proof.
  intros Hwf Hhl. pose proof (wf_len_bounds c Hwf) as [Hl0 Hl]. pose proof (header_len_nonneg (c_l4 c)).
  pose proof (wf_data_len c (wf_payload c Hwf)) as Hd. unfold payload, data_flags.
  destruct (c_data c) as [d|]; cbn [data_args].
  - change (streq (tx "DATA") (tx "DATA")) with true. cbv iota.
    exists (0 :: zeros (RAW_DATA - zlen pre - zlen d - 1)).
    erewrite pbind_some by (apply copy_data_ok; lia). by rewrite <-app_assoc.
  - exists (zeros (RAW_DATA - zlen pre - c_len c)).
    replace (zeros (RAW_DATA - zlen pre)) with (zeros (c_len c) ++ zeros (RAW_DATA - zlen pre - c_len c)); [done|].
    rewrite <-zeros_app by lia. f_equal. lia.
Qed.

Lemma seg0_bytes c : wf_cmd c → Forall is_byte (seg0 c).
Proof. intros Hwf. apply Forall_app_2; [apply seg_header_bytes, Hwf|apply payload_bytes]. Qed.
Lemma seg0_len c : wf_cmd c → zlen (seg0 c) = header_len (c_l4 c) + c_len c.
Proof.
  intros Hwf. unfold seg0. rewrite zlen_app, seg_header_len by apply Hwf.
  rewrite payload_len; [done|apply (wf_len c Hwf)|apply wf_data_len, Hwf].
Qed.
Lemma check_off_fits c : wf_cmd c → (∀ p, c_l4 c ≠ LOther p) → (check_off (c_l4 c) + 2 <= length (seg0 c))%nat.
Proof.
  intros Hwf Hn. pose proof (seg0_len c Hwf) as Hl. pose proof (wf_len c Hwf). unfold zlen in Hl.
  destruct (c_l4 c) as [|? ? ? ? ? ? opts| |p] eqn:E; simpl in *; [lia|pose proof (zlen_nonneg opts); lia|lia|by destruct (Hn p)].
Qed.

Lemma quad_length a : length (quad a) = 4%nat.
Proof. by destruct a as [[[]]]. Qed.

Lemma put_check_cmd c pre tl (s : S) : wf_cmd c → length pre = 12%nat →
  match c_l4 c with LUdp _ _ | LTcp _ _ _ _ _ _ _ => True | _ => False end →
  supported big u_addr (header_len (c_l4 c) + c_len c) →
  put_check big u_addr (pre ++ quad (c_src c) ++ quad (c_dst c)) (proto_of (c_l4 c)) (header_len (c_l4 c) + c_len c)
    (check_off (c_l4 c)) (seg0 c ++ tl) s = Ret (Some (seg big c ++ tl), s).
Proof.
  intros Hwf Hpre Hk Hsup. pose proof (wf_tot c Hwf). pose proof (header_len_nonneg (c_l4 c)). pose proof (wf_len c Hwf).
  rewrite put_check_ok; try done; try apply quad_length.
  - unfold seg, pseudo_sum. by destruct (c_l4 c).
  - by apply seg0_bytes.
  - by apply seg0_len.
  - lia.
  - apply Hwf.
  - apply Hwf.
  - apply proto_byte, Hwf.
  - apply check_off_fits; [done|]. intros p E. by rewrite E in Hk.
Qed.

(** *** UDP *)
Lemma parse_udp_cmd c spt dpt pre fl (s : S) : wf_cmd c → c_l4 c = LUdp spt dpt → length pre = 12%nat →
  supported big u_addr (8 + c_len c) →
  ∃ tl, parse_udp big u_addr (pre ++ quad (c_src c) ++ quad (c_dst c)) (c_len c) (zeros RAW_DATA)
      (l4_args (c_l4 c) ++ data_args (c_data c)) fl s = Ret (Some (8 + c_len c, seg big c ++ tl, data_flags c fl), s).
Proof.
  intros Hwf El Hpre Hsup. pose proof (put_check_cmd c pre) as Hput. rewrite El in Hput.
  pose proof (wf_trans c Hwf) as Ht. rewrite El in Ht. destruct Ht as [Hs Hd]. unfold in_width in Hs, Hd.
  pose proof (wf_tot c Hwf) as Htot. pose proof (wf_len c Hwf). 
  destruct (data_copied c (zeros 8) s fl Hwf) as [tl Hdata]; [by rewrite El|].
  rewrite El in *. cbn [header_len check_off proto_of l4_args] in *. exists tl. unfold parse_udp. rewrite wrap_small by lia. cbv zeta.
  erewrite pbind_some by (eapply number_arg_print; [reflexivity|lia|lia]).
  erewrite pbind_some by (eapply number_arg_print; [reflexivity|lia|lia]).
  erewrite pbind_some.
  2: { etransitivity; [|exact Hdata]. by destruct (c_data c). }
  cbv beta iota.
  erewrite pbind_some; [|apply lift_ret, store_front; done].
  erewrite pbind_some; [|etransitivity; [|apply (Hput tl s Hwf Hpre I Hsup)]].
  - done.
  - unfold seg0. rewrite El. cbn [seg_header]. by rewrite <-!app_assoc.
Qed.

(** *** ICMP echo *)
Lemma parse_icmp_cmd c type code id sq (s : S) : wf_cmd c → c_l4 c = LEcho type code id sq →
  supported big u_addr (8 + c_len c) →
  ∃ tl, parse_icmp big u_addr (c_len c) (zeros RAW_DATA) (l4_args (c_l4 c) ++ data_args (c_data c)) s =
    Ret (Some (8 + c_len c, seg big c ++ tl), s).
Proof.
  intros Hwf El Hsup. pose proof (wf_trans c Hwf) as Ht. rewrite El in Ht. destruct Ht as (Ht & Hc & Hi & Hq).
  unfold in_width in Hc, Hi, Hq. pose proof (seg0_bytes c Hwf) as HF. pose proof (seg0_len c Hwf) as Hlen.
  pose proof (wf_tot c Hwf) as Htot. pose proof (wf_len c Hwf). 
  pose proof (wf_payload c Hwf) as Hnd. unfold wf_data in Hnd. rewrite El in *.
  destruct (c_data c) as [d|] eqn:Ed; [tauto|]. clear Hnd. cbn [header_len l4_args data_args app] in *.
  assert (Hm : zeros RAW_DATA = zeros 8 ++ payload c ++ zeros (RAW_DATA - 8 - c_len c)).
  { unfold payload. rewrite Ed, <-!zeros_app by (unfold RAW_DATA; lia). f_equal. lia. }
  set (tl := zeros (RAW_DATA - 8 - c_len c)) in *. exists tl. unfold parse_icmp. rewrite Hm.
  assert (Htype : 0 <= type <= 255) by lia.
  erewrite pbind_some by (eapply number_arg_print; [reflexivity|lia|lia]).
  erewrite pbind_some by (eapply number_arg_print; [reflexivity|lia|lia]).
  erewrite pbind_some; [|replace ((type =? 0) || (type =? 8)) with true by (by destruct Ht as [-> | ->]); cbv iota;
    erewrite pbind_some by (eapply number_arg_print; [reflexivity|lia|lia]);
    erewrite pbind_some by (eapply number_arg_print; [reflexivity|lia|lia]); reflexivity].
  erewrite pbind_some; [|apply lift_ret; apply store_front; done].
  destruct (csum_u_prefix big u_addr (seg0 c) tl 0 s HF) as (r & E & Hr & Ho); [unfold zlen in Hlen; lia|by rewrite Hlen|lia|].
  rewrite Hlen in E. erewrite pbind_some; [|etransitivity; [|exact E]].
  2: { unfold seg0. rewrite El. cbn [seg_header]. by rewrite <-!app_assoc. }
  cbn [mret]. unfold parser_ret. do 4 f_equal. rewrite csum_fold_u16, (fold16_oc _ _ Ho) by done.
  unfold seg. rewrite El. cbn [check_off]. unfold pseudo_sum. rewrite El. fold (check_value big (seg0 c) 0).
  assert (Hs0 : seg0 c = [type; code; 0; 0] ++ be16 id ++ be16 sq ++ payload c) by (unfold seg0; by rewrite El).
  rewrite <-put16_app by (pose proof (check_off_fits c Hwf ltac:(rewrite El; done)) as Hc2; rewrite El in Hc2; exact Hc2).
  rewrite Hs0, <-!app_assoc. done.
Qed.

(** *** TCP *)
Lemma parse_flags_arg f : is_byte f → parse_flags (flags_arg f) = inl f.
Proof.
  assert (Hall : forallb (λ n, match parse_flags (flags_arg (Z.of_nat n)) with inl g => g =? Z.of_nat n | inr _ => false end)
    (List.seq 0 256) = true) by (vm_compute; reflexivity).
  unfold in_width. intros Hf. rewrite forallb_forall in Hall. specialize (Hall (Z.to_nat f)).
  rewrite Z2Nat.id in Hall by lia. rewrite List.in_seq in Hall. specialize (Hall ltac:(lia)).
  destruct (parse_flags (flags_arg f)) as [g|]; [|by discriminate Hall]. f_equal. by apply Z.eqb_eq.
Qed.

Lemma no_comma o : 0 <= o → Forall (.∉ [","%char]) (print_u o).
Proof.
  intros Ho. eapply Forall_impl; [apply print_u_digits, Ho|]. cbv beta. intros c Hc Hin.
  apply list_elem_of_singleton in Hin as ->. by vm_compute in Hc.
Qed.
Lemma print_u_cons o : 0 <= o → ∃ c t, print_u o = c :: t ∧ c ∉ [","%char].
Proof.
  intros Ho. pose proof (no_comma o Ho) as HF. destruct (print_u_spec o Ho) as (Hne & _).
  destruct (print_u o) as [|c t]; [done|]. apply Forall_cons in HF as [Hc _]. eauto.
Qed.

Lemma strcspn_all s r : Forall (.∉ r) s → strcspn s r = length s.
Proof. induction 1 as [|c s Hc Hs IH]; [done|]. cbn [strcspn]. rewrite (proj2 (mem_false c r)) by done. by rewrite IH. Qed.

Lemma strtok_opts opts : ∀ o fuel, 0 <= o → Forall is_byte opts →
  (length (print_u o ++ opt_list (tx ",") opts) < fuel)%nat →
  strtok_all fuel (print_u o ++ opt_list (tx ",") opts) = map print_u (o :: opts).
Proof.
  induction opts as [|p opts IH]; intros o fuel Ho HF Hf; (destruct fuel as [|fuel]; [lia|]);
    destruct (print_u_cons o Ho) as (c & t & E & Hc); cbn [strtok_all opt_list].
  - rewrite app_nil_r, strspn_0 by (by rewrite E). rewrite drop_0.
    rewrite strcspn_all by (by apply no_comma). rewrite E at 1. rewrite take_ge, drop_ge by lia. by destruct fuel.
  - apply Forall_cons in HF as [Hp HF].
    change (tx "," ++ print_u p ++ opt_list (tx ",") opts) with (","%char :: (print_u p ++ opt_list (tx ",") opts)).
    rewrite strspn_0 by (by rewrite E). rewrite drop_0, strcspn_app by (by apply no_comma || apply list_elem_of_here).
    rewrite E at 1. cbn [app]. rewrite take_app_length.
    replace (Datatypes.S (length (print_u o))) with (length (print_u o) + 1)%nat by lia. rewrite drop_app_add. cbn [drop]. rewrite drop_0.
    rewrite IH; [done|unfold in_width in Hp; lia|done|]. cbn [opt_list] in Hf. rewrite !length_app in Hf.
    change (length (tx ",")) with 1%nat in Hf. rewrite length_app. lia.
Qed.

Lemma parse_tcp_options_arg opts (s : S) : opts ≠ [] → Forall is_byte opts → (length opts <= 40)%nat → (length opts mod 4 = 0)%nat →
  parse_tcp_options (drop 4 (opts_arg opts)) s = Ret (Some opts, s).
Proof.
  intros Hne HF Hl Hm. destruct opts as [|o opts]; [done|].
  change (drop 4 (opts_arg (o :: opts))) with (print_u o ++ opt_list (tx ",") opts).
  pose proof HF as HF'. apply Forall_cons in HF' as [Ho HF']. unfold in_width in Ho.
  unfold parse_tcp_options. rewrite strtok_opts by (done || lia). rewrite length_map.
  rewrite (proj2 (Nat.ltb_ge 40 _)) by done. rewrite (proj2 (Nat.eqb_eq _ _)) by done. cbn [negb].
  apply (f_equal (λ l, Ret (Some l, s))). rewrite <-(map_id (o :: opts)) at 2. change (map print_u (o :: opts)) with (print_u <$> o :: opts).
  rewrite <-list_fmap_compose. apply list_fmap_ext. intros i x Hx. pose proof (Forall_lookup_1 _ _ _ _ HF Hx) as Hb.
  unfold in_width in Hb. cbn. rewrite atoi_print_u by lia. by apply u8_small.
Qed.

(** An optional argument that is there or not. *)
Lemma take_opt_when name b v tl : take_opt name tl = (None, tl) →
  take_opt name (when b (name ++ v) ++ tl) = (if b then Some v else None, tl).
Proof.
  intros Ht. destruct b; [|exact Ht]. cbn [when app take_opt]. by rewrite strstarts_app, drop_app_length.
Qed.
Lemma take_opt_miss name b w tl : strstarts w name = false → take_opt name tl = (None, tl) →
  take_opt name (when b w ++ tl) = (None, when b w ++ tl).
Proof. intros Hw Ht. destruct b; [|exact Ht]. cbn [when app take_opt]. by rewrite Hw. Qed.
Lemma take_opt_data name d : strstarts (tx "DATA") name = false → take_opt name (data_args d) = (None, data_args d).
Proof. destruct d; [|done]. intros Hn. cbn [data_args take_opt]. by rewrite Hn. Qed.

Lemma strstarts_front w x name : length name = length w → strstarts (w ++ x) name = strstarts w name.
Proof.
  revert name. induction w as [|c w IH]; intros [|n name] Hl; try done; [by destruct x|].
  cbn [app strstarts]. by rewrite IH by (by injection Hl).
Qed.

Lemma tcp_optional d seq ack win opts :
  let args3 := when (negb (bool_decide (opts = []))) (opts_arg opts) ++ data_args d in
  let args2 := when (negb (win =? 0)) (tx "WIN=" ++ print_u win) ++ args3 in
  let args1 := when (negb (ack =? 0)) (tx "ACK=" ++ print_u ack) ++ args2 in
  take_opt (tx "SEQ=") (when (negb (seq =? 0)) (tx "SEQ=" ++ print_u seq) ++ args1) =
    (if negb (seq =? 0) then Some (print_u seq) else None, args1) ∧
  take_opt (tx "ACK=") args1 = (if negb (ack =? 0) then Some (print_u ack) else None, args2) ∧
  take_opt (tx "WIN=") args2 = (if negb (win =? 0) then Some (print_u win) else None, args3) ∧
  take_opt (tx "OPT=") args3 = (if negb (bool_decide (opts = [])) then Some (drop 4 (opts_arg opts)) else None, data_args d).
Proof.
  intros args3 args2 args1.
  assert (Ho : ∀ name, strstarts (tx "OPT=") name = false → length name = 4%nat → strstarts (tx "DATA") name = false →
    take_opt name args3 = (None, args3)).
  { intros name Hn Hl Hd. unfold args3. destruct opts as [|o opts]; [by apply take_opt_data|].
    apply take_opt_miss; [|by apply take_opt_data]. change (opts_arg (o :: opts)) with (tx "OPT=" ++ (print_u o ++ opt_list (tx ",") opts)).
    by rewrite strstarts_front by done. }
  assert (Hopt : take_opt (tx "OPT=") args3 = (if negb (bool_decide (opts = [])) then Some (drop 4 (opts_arg opts)) else None, data_args d)).
  { unfold args3. destruct opts as [|o opts]; [by apply take_opt_data|]. rewrite bool_decide_eq_false_2 by done.
    apply (take_opt_when (tx "OPT=") true (print_u o ++ opt_list (tx ",") opts)). by apply take_opt_data. }
  assert (Hwin : ∀ name, strstarts (tx "WIN=" ++ print_u win) name = false → take_opt name args3 = (None, args3) →
    take_opt name args2 = (None, args2)) by (intros; by apply take_opt_miss).
  split_and!; [| | |exact Hopt].
  - apply take_opt_when. apply take_opt_miss; [done|]. apply Hwin; [done|]. by apply Ho.
  - apply take_opt_when. apply Hwin; [done|]. by apply Ho.
  - apply take_opt_when. by apply Ho.
Qed.

Lemma tcp_number_or n : in_width 32 n →
  match (if negb (n =? 0) then Some (print_u n) else None) with Some a => parse_tcpnumber a | None => [0; 0; 0; 0] end = be32 n.
Proof. intros Hn. destruct (Z.eqb_spec n 0) as [->|]; [done|]. by apply tcpnumber_print. Qed.

Lemma parse_tcp_cmd c spt dpt flags sq ack win opts pre fl (s : S) : wf_cmd c → c_l4 c = LTcp spt dpt flags sq ack win opts →
  length pre = 12%nat → supported big u_addr (20 + zlen opts + c_len c) →
  ∃ tl, parse_tcp big u_addr (pre ++ quad (c_src c) ++ quad (c_dst c)) (c_len c) (zeros RAW_DATA)
      (l4_args (c_l4 c) ++ data_args (c_data c)) fl s =
    Ret (Some (20 + zlen opts + c_len c, seg big c ++ tl, data_flags c fl), s).
Proof.
  intros Hwf El Hpre Hsup. pose proof (put_check_cmd c pre) as Hput. rewrite El in Hput.
  pose proof (wf_trans c Hwf) as Ht. rewrite El in Ht.
  destruct Ht as (Hspt & Hdpt & Hfl & Hsq & Hack & Hwin & HF & Hl40 & Hm4).
  pose proof (wf_tot c Hwf) as Htot. pose proof (wf_len c Hwf). pose proof (zlen_nonneg opts) as Hon.
  assert (Hdoff : 16 * ((20 + zlen opts) / 4) = 4 * (20 + zlen opts)).
  { apply (f_equal Z.of_nat) in Hm4. rewrite Nat2Z.inj_mod in Hm4. unfold zlen. zlia. }
  set (hdr := be32 sq ++ be32 ack ++ [4 * (20 + zlen opts); flags; 0; 0; 0; 0; 0; 0] ++ opts).
  assert (Hhdr : zlen hdr = 16 + zlen opts) .
  { unfold hdr. rewrite !zlen_app. change (zlen (be32 sq)) with 4. change (zlen (be32 ack)) with 4. change (zlen [_; _; _; _; _; _; _; _]) with 8. lia. }
  assert (Hzp : zlen (zeros 4 ++ hdr) = 20 + zlen opts) by (rewrite zlen_app, Hhdr, zlen_zeros by lia; lia).
  destruct (data_copied c (zeros 4 ++ hdr) s fl Hwf) as [tl Hdata]; [by rewrite El|].
  rewrite El in *. cbn [header_len check_off proto_of l4_args] in *. unfold in_width in Hspt, Hdpt, Hwin. exists tl. unfold parse_tcp.
  rewrite <-!app_assoc. cbn [app].
  erewrite pbind_some by (eapply number_arg_print; [reflexivity|lia|lia]).
  erewrite pbind_some by (eapply number_arg_print; [reflexivity|lia|lia]).
  erewrite pbind_some by reflexivity.
  erewrite pbind_some by (rewrite parse_flags_arg by done; reflexivity).
  destruct (tcp_optional (c_data c) sq ack win opts) as (E1 & E2 & E3 & E4). cbn [drop].
  rewrite drop_0, E1, E2, E3. cbv beta iota. rewrite !tcp_number_or by done.
  erewrite (pbind_some _ _ s s win).
  2: { destruct (Z.eqb_spec win 0) as [->|]; [reflexivity|]. cbn [negb]. rewrite int_number_print by lia. cbv zeta.
       by rewrite (proj2 (Z.ltb_ge win 0)) by lia. }
  rewrite E4. cbv beta iota.
  erewrite (pbind_some _ _ s s opts).
  2: { case_bool_decide as Ho; cbn [negb]; [by subst opts|]. by apply parse_tcp_options_arg. }
  rewrite Hdoff. fold hdr.
  assert (Hz : zeros RAW_DATA = zeros 4 ++ zeros (16 + zlen opts) ++ zeros (RAW_DATA - 20 - zlen opts)).
  { rewrite <-!zeros_app by (unfold RAW_DATA, zlen; lia). f_equal. lia. }
  erewrite pbind_some.
  2: { apply lift_ret. rewrite Hz. apply (store_mid (zeros 4) hdr (zeros (16 + zlen opts))). rewrite Hhdr, zlen_zeros by lia. done. }
  erewrite pbind_some.
  2: { etransitivity; [|exact Hdata]. rewrite Hzp, <-app_assoc. replace (RAW_DATA - (20 + zlen opts)) with (RAW_DATA - 20 - zlen opts) by lia.
       by destruct (c_data c). }
  cbv beta iota. rewrite <-app_assoc.
  erewrite pbind_some; [|apply lift_ret, store_front; done].
  unfold hdr. rewrite <-!app_assoc.
  assert (Hmem : ∀ x, be16 spt ++ be16 dpt ++ be32 sq ++ be32 ack ++ [4 * (20 + zlen opts); flags; 0; 0; 0; 0; 0; 0] ++ x =
    (be16 spt ++ be16 dpt ++ be32 sq ++ be32 ack ++ [4 * (20 + zlen opts); flags]) ++ zeros 6 ++ x) by (intros x; by rewrite <-!app_assoc).
  erewrite pbind_some; [|apply lift_ret; rewrite Hmem; apply (store_mid (be16 spt ++ be16 dpt ++ be32 sq ++ be32 ack ++ [4 * (20 + zlen opts); flags]) (be16 win ++ [0; 0; 0; 0]) (zeros 6)); done].
  rewrite wrap_small by lia. cbv zeta.
  erewrite pbind_some; [|etransitivity; [|apply (Hput tl s Hwf Hpre I Hsup)]].
  - done.
  - unfold seg0. rewrite El. cbn [seg_header]. by rewrite <-!app_assoc.
Qed.

(** *** The packet *)

Lemma parse_transport_cmd c pre fl (s : S) : wf_cmd c → length pre = 12%nat → supported big u_addr (header_len (c_l4 c) + c_len c) →
  ∃ tl, parse_transport big u_addr (proto_of (c_l4 c)) (c_len c) (pre ++ quad (c_src c) ++ quad (c_dst c)) (zeros RAW_DATA)
      (l4_args (c_l4 c) ++ data_args (c_data c)) fl s =
    Ret (Some (header_len (c_l4 c) + c_len c, seg big c ++ tl, data_flags c fl), s).
Proof.
  intros Hwf Hpre Hsup. pose proof (wf_trans c Hwf) as Ht. pose proof (wf_payload c Hwf) as Hd. unfold wf_data in Hd.
  unfold parse_transport. destruct (c_l4 c) as [spt dpt|spt dpt flags sq ack win opts|type code id sq|p] eqn:El.
  - destruct (parse_udp_cmd c spt dpt pre fl s Hwf El Hpre Hsup) as [tl E]. exists tl. rewrite El in E. exact E.
  - destruct (parse_tcp_cmd c spt dpt flags sq ack win opts pre fl s Hwf El Hpre Hsup) as [tl E]. exists tl. rewrite El in E. exact E.
  - destruct (parse_icmp_cmd c type code id sq s Hwf El Hsup) as [tl E]. exists tl. rewrite El in E.
    change (proto_of (LEcho type code id sq) =? IPPROTO_ICMP) with true. cbv iota. erewrite pbind_some by exact E. cbv beta iota.
    unfold data_flags. destruct (c_data c); [tauto|done].
  - destruct Ht as (_ & H1 & H6 & H17). cbn [proto_of]. unfold IPPROTO_ICMP, IPPROTO_TCP, IPPROTO_UDP.
    rewrite (proj2 (Z.eqb_neq p 1)), (proj2 (Z.eqb_neq p 6)), (proj2 (Z.eqb_neq p 17)) by done. unfold data_flags, seg, payload. rewrite El.
    destruct (c_data c) as [d|]; [tauto|]. exists (zeros (RAW_DATA - c_len c)).
    pose proof (wf_len c Hwf). pose proof (wf_tot c Hwf) as Htot. rewrite El in Htot. cbn [header_len] in Htot.
    rewrite <-zeros_app by (unfold RAW_DATA; lia). replace (c_len c + (RAW_DATA - c_len c)) with RAW_DATA by lia. done.
Qed.

Definition dump_of (c : cmd) : option text := data_flags c (match c_ttl c with Some _ => Some (tx "ttl") | None => None end).

Lemma cmd_args_shape c : ∃ w x y z r, cmd_args c = w :: x :: y :: z :: r.
Proof.
  unfold cmd_args, opt_args, main_args. generalize (l4_args (c_l4 c) ++ data_args (c_data c)). intros l.
  destruct (c_df c), (c_mf c), (c_ce c), (c_ttl c); cbn [when app]; eauto 6.
Qed.

Lemma u16_cnot x : 0 <= x <= 65535 → u16 (cnot 32 x) = 65535 - x.
Proof.
  intros Hx. rewrite cnot_sub by lia. unfold wrap.
  replace (2 ^ 32 - 1 - x) with (65535 - x + 65535 * 2 ^ 16) by lia. rewrite Z_mod_plus_full. apply Z.mod_small. lia.
Qed.

Lemma iph0_bytes c : wf_cmd c → Forall is_byte (iph0 c).
Proof.
  intros Hwf. pose proof (proto_byte _ (wf_trans c Hwf)) as Hp. pose proof (wf_src c Hwf) as Hs. pose proof (wf_dst c Hwf) as Hd.
  assert (Htt : is_byte (default 255 (c_ttl c))).
  { pose proof (wf_ttl c Hwf) as Ht. destruct (c_ttl c) as [t|]; cbn; [by apply Ht|by unfold in_width]. }
  assert (Hz : is_byte 0 ∧ is_byte 0x45) by (unfold in_width; lia). destruct Hz as [H0 H45]. unfold iph0.
  rewrite !Forall_app, !Forall_cons. split_and!; first [apply be16_bytes | done].
Qed.
Lemma iph0_length c : length (iph0 c) = 20%nat.
Proof. unfold iph0. rewrite !length_app, !quad_length. done. Qed.

Lemma parse_packet_cmd a0 c (s : S) : wf_cmd c → supported big u_addr (header_len (c_l4 c) + c_len c) →
  ∃ tl, parse_packet big u_addr (a0 :: cmd_args c) None s =
    Ret (Some (Packet [0; 0; 0; 0; 0; 0] [0; 0; 0; 0; 0; 0] ETH_P_IP (iph_of big c) (seg big c ++ tl), dump_of c), s).
Proof.
  intros Hwf Hsup. destruct (cmd_args_shape c) as (w & x & y & z & r & E). unfold parse_packet. rewrite E, <-E. clear w x y z r E.
  assert (Httl : is_byte (o_ttl (opts_of c))).
  { pose proof (wf_ttl c Hwf) as Ht. unfold opts_of. cbn [o_ttl]. destruct (c_ttl c) as [t|]; cbn; [by apply Ht|by unfold in_width]. }
  unfold cmd_args, main_args. cbn [app].
  erewrite pbind_some by (by apply parse_options_cmd). cbv beta iota.
  erewrite pbind_some by (by apply parse_header_cmd). cbv beta iota.
  pose proof (proto_byte _ (wf_trans c Hwf)) as Hp. unfold ip_header. rewrite !u8_small by (try done; by unfold in_width).
  destruct (parse_transport_cmd c [0x45; 0; 0; 0; 0; 0; 0; 0; o_ttl (opts_of c); proto_of (c_l4 c); 0; 0] (o_flags (opts_of c)) s
    Hwf eq_refl Hsup) as [tl Et].
  exists tl. cbn [nth app] in Et |- *. erewrite pbind_some by exact Et. cbv beta iota.
  erewrite pbind_some by reflexivity. cbv beta iota zeta.
  match goal with |- context [csum_partial big (u_addr - 20) ?i 20 0] => assert (Ei : i = iph0 c) end.
  { unfold iph0, tot_len, frag_bits, opts_of. cbn [o_df o_mf o_ce o_ttl]. rewrite Z.add_assoc.
    destruct (c_df c), (c_mf c), (c_ce c); reflexivity. }
  rewrite Ei. pose proof (iph0_length c) as Hl20.
  erewrite pbind_some.
  2: { apply lift_ret. change 20 with (Z.of_nat 20). rewrite <-Hl20. apply csum_partial_0; [by apply iph0_bytes|by rewrite Hl20|].
       rewrite Hl20. destruct Hsup as [->|[Hu _]]; [by left|]. right. split; [|done]. by rewrite Z.even_sub, Hu. }
  rewrite u16_cnot by apply fold16_range. unfold iph_of, check_value. rewrite Z.add_0_r. done.
Qed.
End Parse.
