(* ===== verification/CmdDescribe.v ===== *)
(** * gen_ip commands: the description of their packets

    [describe] prints the packet of a command as the command's arguments. *)

From Stdlib Require Import ZArith Lia.
From S2P Require Import Prelude CStr Mem Csum Expect Log Tui GenIp Describe Command CmdParse.

(** Arguments as describe prints them, each with a blank behind it. *)
Definition spaced (ws : list text) : text := concat (map (λ w, w ++ tx " ") ws).

Lemma spaced_app a b : spaced (a ++ b) = spaced a ++ spaced b.
Proof. unfold spaced. by rewrite map_app, concat_app. Qed.
Lemma spaced_cons w ws : spaced (w :: ws) = w ++ tx " " ++ spaced ws.
Proof. unfold spaced. cbn [map concat]. by rewrite <-app_assoc. Qed.
Lemma spaced_join ws : ws ≠ [] → spaced ws = join_args ws ++ tx " ".
Proof.
  induction ws as [|w ws IH]; [done|]. intros _. destruct ws as [|w' ws]; [by unfold spaced; simpl; rewrite app_nil_r|].
  change (spaced (w :: w' :: ws)) with ((w ++ tx " ") ++ spaced (w' :: ws)). rewrite IH by done.
  change (join_args (w :: w' :: ws)) with (w ++ " "%char :: join_args (w' :: ws)). by rewrite <-!app_assoc.
Qed.
Lemma join_app a b : a ≠ [] → b ≠ [] → join_args (a ++ b) = spaced a ++ join_args b.
Proof.
  intros Ha Hb. induction a as [|w a IH]; [done|]. destruct a as [|w' a].
  - destruct b as [|x b]; [done|]. unfold spaced. cbn [app map concat join_args]. by rewrite app_nil_r, <-app_assoc.
  - change (spaced (w :: w' :: a)) with ((w ++ tx " ") ++ spaced (w' :: a)). rewrite <-!app_assoc, <-IH by done. done.
Qed.

Section Emit.
Implicit Types out msg rest : text.

Lemma emit_fits msg rest out : zlen (out ++ msg ++ rest) < PBUF →
  emit msg out = Ret (out ++ msg) ∧ zlen ((out ++ msg) ++ rest) < PBUF.
Proof.
  rewrite !zlen_app. intros Hf. pose proof (zlen_nonneg rest). unfold emit. rewrite (proj2 (Z.ltb_lt _ _)) by lia. split; [done|lia].
Qed.

Lemma emit_all_fits msgs : ∀ rest out, zlen (out ++ concat msgs ++ rest) < PBUF →
  emit_all msgs out = Ret (out ++ concat msgs) ∧ zlen ((out ++ concat msgs) ++ rest) < PBUF.
Proof.
  induction msgs as [|m msgs IH]; intros rest out Hf; cbn [emit_all concat] in *; [by rewrite app_nil_r|].
  rewrite <-app_assoc in Hf. destruct (emit_fits _ _ _ Hf) as [-> Hf2]. rewrite bind_ret.
  destruct (IH _ _ Hf2) as [-> Hf3]. by rewrite !app_assoc in *.
Qed.

Lemma finish_blank out : finish (out ++ tx " ") = Ret out.
Proof.
  unfold finish. change (tx " ") with [" "%char]. rewrite last_snoc. cbv iota beta.
  change (ascii_eqb " " " ") with true. cbv iota. rewrite length_app. cbn [length]. rewrite Nat.add_sub. by rewrite take_app_length.
Qed.
Lemma finish_plain out c : last out = Some c → c ≠ " "%char → finish out = Ret out.
Proof. intros Hl Hc. unfold finish. rewrite Hl. unfold ascii_eqb. by rewrite bool_decide_eq_false_2. Qed.
End Emit.

Lemma ntohs_be16 x : in_width 16 x → 256 * u8 (x / 256) + u8 x = x.
Proof. unfold in_width, wrap. change (2 ^ 16) with 65536. change (2 ^ 8) with 256. intros Hx. zlia. Qed.

Lemma has_flags c : has_flag (dump_of c) (tx "ttl") = (if c_ttl c then true else false) ∧
  has_flag (dump_of c) (tx "data") = (if c_data c then true else false) ∧
  has_flag (dump_of c) (tx "tos") = false ∧ has_flag (dump_of c) (tx "dscp") = false ∧ has_flag (dump_of c) (tx "ect") = false.
Proof. unfold dump_of, data_flags. destruct (c_ttl c), (c_data c); vm_compute; auto. Qed.

Lemma ip_fields_cmd c : concat (ip_fields (frag_bits c) (default 255 (c_ttl c)) 0 (quad (c_src c)) (quad (c_dst c)) (dump_of c)) =
  spaced (opt_args c ++ [dotted (c_src c); dotted (c_dst c)]).
Proof.
  unfold ip_fields. destruct (has_flags c) as (-> & _ & -> & -> & ->). unfold opt_args, frag_bits, spaced.
  destruct (c_src c) as [[[]]], (c_dst c) as [[[]]].
  destruct (c_df c), (c_mf c), (c_ce c), (c_ttl c);
    repeat match goal with |- context [negb (?x =? 0)] => let v := eval vm_compute in (negb (x =? 0)) in change (negb (x =? 0)) with v end;
    cbn [when app concat map default quad nth]; unfold dotted, id; rewrite <-?app_assoc, ?app_nil_r; reflexivity.
Qed.

(** What describe reads of the IP header. *)
Lemma iph_reads big c : wf_cmd c →
  ntohs_at 6 (iph_of big c) = frag_bits c ∧ ntohs_at 2 (iph_of big c) = tot_len c ∧
  nth 8 (iph_of big c) 0 = default 255 (c_ttl c) ∧ nth 1 (iph_of big c) 0 = 0 ∧ nth 9 (iph_of big c) 0 = proto_of (c_l4 c) ∧
  take 4 (drop 12 (iph_of big c)) = quad (c_src c) ∧ drop 16 (iph_of big c) = quad (c_dst c).
Proof.
  intros Hwf. assert (Hf : in_width 16 (frag_bits c)) by (unfold frag_bits, in_width, IP_DF, IP_MF, IP_CE; destruct (c_df c), (c_mf c), (c_ce c); lia).
  assert (Ht : in_width 16 (tot_len c)).
  { unfold in_width, tot_len. pose proof (wf_tot c Hwf). pose proof (wf_len c Hwf). pose proof (header_len_nonneg (c_l4 c)). lia. }
  unfold iph_of. generalize (check_value big (iph0 c) 0). intros v. unfold iph0, put16.
  pose proof (length_bytes big 2 v) as Hb. destruct (bytes big 2 v) as [|b0 [|b1 [|]]]; try done. clear Hb.
  unfold be16. destruct (c_src c) as [[[s0 s1] s2] s3], (c_dst c) as [[[d0 d1] d2] d3].
  apply ntohs_be16 in Hf, Ht. split_and!; [exact Hf|exact Ht|reflexivity..].
Qed.

(** ** The packet in memory *)

Section Packet.
Context (big : bool) (c : cmd) (Hwf : wf_cmd c).

Definition packet_of : list Z := iph_of big c ++ seg big c.
Definition iplen_of : Z := header_len (c_l4 c) + c_len c.

Lemma iph_of_length : length (iph_of big c) = 20%nat.
Proof using. unfold iph_of. rewrite length_put16; rewrite iph0_length; [done|lia]. Qed.
Lemma iph_of_bytes : Forall is_byte (iph_of big c).
Proof using Hwf. by apply put16_bytes, iph0_bytes. Qed.

Definition has_check (l : l4) : Prop := match l with LOther _ => False | _ => True end.
(** The header with its checksum. *)
Definition seg_hdr : list Z := put16 big (check_off (c_l4 c)) (check_value big (seg0 c) (pseudo_sum big c)) (seg_header (c_l4 c) (c_len c)).

Lemma check_off_in : has_check (c_l4 c) → (check_off (c_l4 c) + 2 <= length (seg_header (c_l4 c) (c_len c)))%nat.
Proof using Hwf.
  intros Hc. pose proof (seg_header_len (c_l4 c) (c_len c) (wf_trans c Hwf)) as Hl. unfold zlen in Hl.
  destruct (c_l4 c) as [|? ? ? ? ? ? opts| |p]; simpl in *; [lia|pose proof (zlen_nonneg opts); lia|lia|done].
Qed.
Lemma seg_put : has_check (c_l4 c) → seg big c = put16 big (check_off (c_l4 c)) (check_value big (seg0 c) (pseudo_sum big c)) (seg0 c).
Proof using. unfold seg. by destruct (c_l4 c). Qed.
Lemma seg_split : has_check (c_l4 c) → seg big c = seg_hdr ++ payload c.
Proof using Hwf. intros Hc. rewrite seg_put by done. unfold seg0. by rewrite put16_app by (by apply check_off_in). Qed.
Lemma seg_hdr_len : has_check (c_l4 c) → zlen seg_hdr = header_len (c_l4 c).
Proof using Hwf.
  intros Hc. unfold seg_hdr, zlen. rewrite length_put16 by (by apply check_off_in).
  apply (seg_header_len _ (c_len c)), Hwf.
Qed.
Lemma payload_length : zlen (payload c) = c_len c.
Proof using Hwf. apply payload_len; [apply (wf_len c Hwf)|apply wf_data_len, Hwf]. Qed.
Lemma seg_len : zlen (seg big c) = iplen_of.
Proof using Hwf.
  unfold iplen_of. destruct (c_l4 c) eqn:El; [rewrite <-El, seg_split, zlen_app, seg_hdr_len, payload_length by (by rewrite El); done..|].
  unfold seg. rewrite El. cbn [header_len]. by rewrite payload_length.
Qed.
Lemma seg_bytes : Forall is_byte (seg big c).
Proof using Hwf.
  unfold seg. pose proof (seg0_bytes c Hwf). destruct (c_l4 c); try by apply put16_bytes. apply payload_bytes.
Qed.
Lemma iplen_bounds : 0 <= iplen_of < 2 ^ 16 - 20.
Proof using Hwf. unfold iplen_of. pose proof (wf_tot c Hwf). pose proof (wf_len c Hwf). pose proof (header_len_nonneg (c_l4 c)). lia. Qed.
Lemma packet_len : zlen packet_of = 20 + iplen_of.
Proof using Hwf. unfold packet_of. rewrite zlen_app, seg_len. unfold zlen. by rewrite iph_of_length. Qed.

Lemma read_iph : bytes_at packet_of 0 20 = Ret (iph_of big c).
Proof using Hwf.
  unfold bytes_at. rewrite slice_ret by (rewrite ?packet_len; pose proof iplen_bounds; lia).
  rewrite zdrop_0 by done. unfold packet_of. rewrite ztake_app_le by (unfold zlen; by rewrite iph_of_length).
  rewrite ztake_all; [done|]. unfold zlen. by rewrite iph_of_length.
Qed.
Lemma read_seg off n : 0 <= off → 0 <= n → off + n <= iplen_of → bytes_at packet_of (20 + off) n = Ret (ztake n (zdrop off (seg big c))).
Proof using Hwf.
  intros Ho Hn Hl. unfold bytes_at. rewrite slice_ret by (rewrite ?packet_len; lia). unfold packet_of.
  rewrite zdrop_app_ge by (unfold zlen; rewrite iph_of_length; lia). unfold zlen. rewrite iph_of_length. do 3 f_equal. lia.
Qed.
Lemma read_hdr n : has_check (c_l4 c) → 0 <= n <= header_len (c_l4 c) → bytes_at packet_of 20 n = Ret (ztake n seg_hdr).
Proof using Hwf.
  intros Hc Hn. pose proof (wf_len c Hwf). change 20 with (20 + 0). rewrite (read_seg 0 n) by (unfold iplen_of; lia). rewrite zdrop_0 by done.
  rewrite seg_split by done. by rewrite ztake_app_le by (rewrite seg_hdr_len by done; lia).
Qed.
Lemma read_payload : has_check (c_l4 c) → bytes_at packet_of (20 + header_len (c_l4 c)) (Z.max 0 (iplen_of - header_len (c_l4 c))) = Ret (payload c).
Proof using Hwf.
  intros Hc. pose proof (wf_len c Hwf). pose proof (header_len_nonneg (c_l4 c)). unfold iplen_of.
  rewrite read_seg by (unfold iplen_of; lia). rewrite seg_split by done. rewrite <-seg_hdr_len by done.
  rewrite zdrop_app_ge, Z.sub_diag, zdrop_0 by lia. rewrite ztake_all; [done|]. rewrite payload_length. lia.
Qed.

(** ** The checksums verify *)
Lemma check_field_zero : has_check (c_l4 c) → get16 big (check_off (c_l4 c)) (seg0 c) = 0 ∧ Nat.Even (check_off (c_l4 c)).
Proof using.
  unfold seg0, get16. destruct (c_l4 c); simpl check_off; intros Hc; try done; (split; [by destruct big|]).
  - by exists 3%nat.
  - by exists 8%nat.
  - by exists 1%nat.
Qed.

Lemma pseudo_sum_nonneg : 0 <= pseudo_sum big c.
Proof using Hwf.
  unfold pseudo_sum. pose proof (proto_byte _ (wf_trans c Hwf)).
  destruct (c_l4 c); try lia; apply ref_sum_nonneg, pseudo_bytes_bytes; try done; [apply (wf_src c Hwf)|apply (wf_dst c Hwf)|apply (wf_src c Hwf)|apply (wf_dst c Hwf)].
Qed.

Lemma seg_sums : has_check (c_l4 c) → fold16 (ref_sum big (seg big c) + pseudo_sum big c) = 65535.
Proof using Hwf.
  intros Hc. rewrite seg_put by done. destruct (check_field_zero Hc) as [Hz He]. apply filled_sums; try done.
  - by apply seg0_bytes.
  - apply pseudo_sum_nonneg.
  - apply check_off_fits; [done|]. intros p E. by rewrite E in Hc.
Qed.

(** The transport checksum as the stack computes it. *)
Lemma transport_verifies proto : has_check (c_l4 c) → proto = proto_of (c_l4 c) → proto ≠ 1 →
  csum_tcpudp_magic big (Csum.word big (quad (c_src c))) (Csum.word big (quad (c_dst c))) (u16 iplen_of) proto
    (fold16 (ref_sum big (seg big c))) = Ret 0.
Proof using Hwf.
  intros Hc -> Hp1. pose proof (fold16_range (ref_sum big (seg big c))). pose proof iplen_bounds.
  pose proof (ref_sum_nonneg big _ seg_bytes) as Hn. pose proof pseudo_sum_nonneg as Hpn.
  rewrite csum_tcpudp_magic_fold16 by lia. rewrite wrap_small by lia. f_equal.
  rewrite pseudo_header_eq; try apply quad_length; [|apply (wf_src c Hwf)|apply (wf_dst c Hwf)|apply proto_byte, Hwf|lia].
  assert (Hps : ref_sum big (pseudo_bytes (quad (c_src c)) (quad (c_dst c)) (proto_of (c_l4 c)) iplen_of) = pseudo_sum big c).
  { unfold pseudo_sum, iplen_of. destruct (c_l4 c); done. }
  rewrite Hps. enough (fold16 (pseudo_sum big c + fold16 (ref_sum big (seg big c))) = 65535) by lia.
  rewrite <-(seg_sums Hc), Z.add_comm. symmetry.
  apply fold16_oc, oc_add; [by apply oc_fold16|by apply oc_refl].
Qed.
Lemma icmp_verifies type code id sq : c_l4 c = LEcho type code id sq → fold16 (ref_sum big (seg big c)) = 0xFFFF.
Proof using Hwf.
  intros El. assert (Hc : has_check (c_l4 c)) by (by rewrite El). pose proof (seg_sums Hc) as Hs. unfold pseudo_sum in Hs.
  rewrite El in Hs. by rewrite Z.add_0_r in Hs.
Qed.

Context (addr : Z) (Hsup : supported big addr (header_len (c_l4 c) + c_len c)).

Lemma supported_off n k : Z.even n = true → Z.even k = true → supported big (addr + n) k.
Proof using Hsup.
  intros Hn Hk. destruct Hsup as [->|[Ha _]]; [by left|]. right. split; [|done]. by rewrite Z.even_add, Ha, Hn.
Qed.

Lemma csum_iph : csum_at big addr packet_of 0 20 = Ret 0xFFFF.
Proof using Hwf Hsup.
  unfold csum_at. rewrite zdrop_0 by done. unfold packet_of. apply csum_partial_app.
  change 20 with (Z.of_nat 20). rewrite <-iph_of_length. rewrite csum_partial_0.
  - f_equal. rewrite <-(Z.add_0_r (ref_sum big (iph_of big c))). unfold iph_of.
    apply filled_sums; [by apply iph0_bytes|done|by exists 5%nat|rewrite iph0_length; lia|].
    unfold get16, iph0. destruct (c_src c) as [[[]]], (c_dst c) as [[[]]]. by destruct big.
  - apply iph_of_bytes.
  - rewrite iph_of_length. lia.
  - rewrite iph_of_length. by apply supported_off.
Qed.

Lemma csum_seg : csum_at big addr packet_of 20 iplen_of = Ret (fold16 (ref_sum big (seg big c))).
Proof using Hwf Hsup.
  unfold csum_at, packet_of. rewrite zdrop_app_ge by (unfold zlen; by rewrite iph_of_length).
  unfold zlen at 1. rewrite iph_of_length, zdrop_0 by done.
  pose proof seg_len as Hl. pose proof iplen_bounds as Hb. unfold zlen in Hl. rewrite <-Hl. apply csum_partial_0.
  - apply seg_bytes.
  - lia.
  - rewrite Hl. destruct Hsup as [->|[Ha He]]; [by left|]. right. unfold iplen_of. split; [|done]. by rewrite Z.even_add, Ha.
Qed.

End Packet.

(** ** What is printed *)

Definition data_text (c : cmd) : text := match c_data c with Some d => tx "DATA " ++ (d ≫= escape_char) | None => [] end.
Definition head_args (c : cmd) : list text :=
  opt_args c ++ [dotted (c_src c); dotted (c_dst c)] ++ [print_u (c_len c); print_u (proto_of (c_l4 c))] ++ l4_args (c_l4 c).
Lemma cmd_args_head c : cmd_args c = head_args c ++ data_args (c_data c).
Proof. unfold cmd_args, main_args, head_args. by rewrite <-!app_assoc. Qed.

Lemma escape_char_last x : x ≠ " "%char → ∃ y, last (escape_char x) = Some y ∧ y ≠ " "%char.
Proof. destruct x as [[] [] [] [] [] [] [] []]; intros Hx; first [by destruct Hx | (eexists; split; [reflexivity|done])]. Qed.

Lemma escaped_last d x : last d = Some x → x ≠ " "%char → ∃ y, last (d ≫= escape_char) = Some y ∧ y ≠ " "%char.
Proof.
  intros Hl Hx. apply last_Some in Hl as [l ->]. rewrite bind_app. destruct (escape_char_last x Hx) as (y & Hy & Hn).
  exists y. split; [|done]. rewrite last_app. change ([x] ≫= escape_char) with (escape_char x ++ []). by rewrite app_nil_r, Hy.
Qed.

Lemma finish_args c : wf_cmd c → finish (spaced (head_args c) ++ data_text c) = Ret (join_args (cmd_args c)).
Proof.
  intros Hwf. assert (Hne : head_args c ≠ []) by (unfold head_args; by destruct (opt_args c)).
  rewrite cmd_args_head. pose proof (wf_payload c Hwf) as Hd. unfold wf_data in Hd. unfold data_text.
  destruct (c_data c) as [d|]; cbn [data_args].
  - destruct Hd as (_ & Hl & Hb & _). destruct (last d) as [x|] eqn:Ex; [|done].
    destruct (escaped_last d x Ex) as (y & Hy & Hn); [congruence|].
    rewrite join_app by done. erewrite finish_plain; [|by rewrite !last_app, Hy|done]. cbn [join_args]. done.
  - rewrite !app_nil_r, spaced_join by done. apply finish_blank.
Qed.

Lemma print_data_text d out : zlen (out ++ tx "DATA " ++ (d ≫= escape_char)) < PBUF →
  print_data (map code d) out = Ret (out ++ tx "DATA " ++ (d ≫= escape_char)).
Proof.
  intros Hf. unfold print_data. destruct (emit_fits _ _ _ Hf) as [-> Hf2]. rewrite bind_ret.
  assert (concat (map (λ b, escape_char (chr b)) (map code d)) = (d ≫= escape_char)) as ->.
  { clear. induction d as [|x d IH]; [done|]. cbn [map concat]. by rewrite IH, chr_code. }
  rewrite <-(app_nil_r (d ≫= escape_char)) in Hf2. destruct (emit_fits _ _ _ Hf2) as [-> _]. by rewrite <-app_assoc.
Qed.

Lemma u64_lt_small a b : 0 <= b → b <= a < 2 ^ 64 → u64_lt a b = false.
Proof. intros Hb Ha. unfold u64_lt. rewrite wrap_small by lia. apply Z.ltb_ge. lia. Qed.

Lemma spaced_ports n k a b : spaced ([n; k] ++ [a; b]) = (n ++ tx " " ++ k ++ tx " ") ++ (a ++ tx " " ++ b ++ tx " ").
Proof. unfold spaced. cbn [map concat app]. by rewrite <-!app_assoc. Qed.

(** What describe reads of a TCP header. *)
Lemma tcp_reads (big : bool) v spt dpt flags sq ack win opts : wf_l4 (LTcp spt dpt flags sq ack win opts) →
  let hd := take 20 (put16 big 16 v (seg_header (LTcp spt dpt flags sq ack win opts) 0)) in
  ntohs_at 0 hd = spt ∧ ntohs_at 2 hd = dpt ∧ 4 * Z.shiftr (nth 12 hd 0) 4 = 20 + zlen opts ∧ nth 13 hd 0 = flags ∧
  ntohl_at 4 hd = sq ∧ ntohl_at 8 hd = ack ∧ ntohs_at 14 hd = win.
Proof.
  intros (Hspt & Hdpt & Hfl & Hsq & Hack & Hwin & HF & Hl40 & Hm4) hd. apply (f_equal Z.of_nat) in Hm4. rewrite Nat2Z.inj_mod in Hm4.
  assert (H32 : ∀ x, in_width 32 x → 65536 * (256 * u8 (x / 65536 / 256) + u8 (x / 65536)) + (256 * u8 (x / 256) + u8 x) = x).
  { intros x Hx. unfold in_width in Hx. rewrite (ntohs_be16 (x / 65536)) by (unfold in_width; zlia). unfold wrap. change (2 ^ 8) with 256. zlia. }
  assert (Hhd : hd = be16 spt ++ be16 dpt ++ be32 sq ++ be32 ack ++ [4 * (20 + zlen opts); flags] ++ be16 win ++ bytes big 2 v ++ [0; 0]).
  { unfold hd, put16. cbn [seg_header]. pose proof (length_bytes big 2 v) as Hbl. by destruct (bytes big 2 v) as [|b0 [|b1 [|]]]. }
  rewrite Hhd. split_and!; try (by apply ntohs_be16); try (by apply H32); [|done].
  change (nth 12 _ 0) with (4 * (20 + zlen opts)). rewrite Z.shiftr_div_pow2 by done. change (2 ^ 4) with 16. unfold zlen. zlia.
Qed.

Lemma tcp_opts (big : bool) v spt dpt flags sq ack win opts :
  drop 20 (put16 big 16 v (seg_header (LTcp spt dpt flags sq ack win opts) 0)) = opts.
Proof.
  unfold put16. cbn [seg_header]. pose proof (length_bytes big 2 v) as Hbl. by destruct (bytes big 2 v) as [|b0 [|b1 [|]]].
Qed.

Lemma tcp_fields_args (hd : list Z) flags sq ack win : nth 13 hd 0 = flags → ntohl_at 4 hd = sq → ntohl_at 8 hd = ack → ntohs_at 14 hd = win →
  concat (tcp_fields hd) = spaced ([flags_arg flags] ++ when (negb (sq =? 0)) (tx "SEQ=" ++ print_u sq) ++
    when (negb (ack =? 0)) (tx "ACK=" ++ print_u ack) ++ when (negb (win =? 0)) (tx "WIN=" ++ print_u win)).
Proof.
  intros <- <- <- <-. unfold tcp_fields. rewrite !spaced_app. cbn [concat]. f_equal; [unfold spaced; cbn [map concat]; by rewrite app_nil_r|].
  rewrite !concat_app. repeat f_equal; destruct (negb _); cbn [when concat]; unfold spaced; cbn [map concat]; by rewrite <-?app_assoc, ?app_nil_r.
Qed.

Section Print.
Context (big : bool) (c : cmd) (Hwf : wf_cmd c) (addr : Z) (Hsup : supported big addr (header_len (c_l4 c) + c_len c)).
Let m := packet_of big c.
Let saddr := Csum.word big (quad (c_src c)).
Let daddr := Csum.word big (quad (c_dst c)).
Implicit Types out : text.

(** The data, when the dump flags ask for it. *)
Lemma data_printed out off n : zlen (out ++ data_text c) < PBUF → has_check (c_l4 c) →
  off = 20 + header_len (c_l4 c) → n = Z.max 0 (iplen_of c - header_len (c_l4 c)) →
  (if has_flag (dump_of c) (tx "data") then bs ← bytes_at m off n; print_data bs out else mret out) = Ret (out ++ data_text c).
Proof.
  intros Hf Hc -> ->. destruct (has_flags c) as (_ & -> & _). unfold data_text in *. pose proof (read_payload big c Hwf Hc) as Hr.
  destruct (c_data c) as [d|] eqn:Ed; [|by rewrite app_nil_r]. unfold m. rewrite Hr, bind_ret.
  unfold payload. rewrite Ed. by apply print_data_text.
Qed.

Lemma describe_udp_cmd spt dpt mf out : c_l4 c = LUdp spt dpt →
  zlen (out ++ spaced ([print_u (c_len c); tx "17"] ++ l4_args (c_l4 c)) ++ data_text c) < PBUF →
  describe_udp big addr m (dump_of c) 20 (iplen_of c) (iplen_of c) saddr daddr mf out =
    Ret (out ++ spaced ([print_u (c_len c); tx "17"] ++ l4_args (c_l4 c)) ++ data_text c).
Proof.
  intros El Hf. assert (Hc : has_check (c_l4 c)) by (by rewrite El). pose proof (iplen_bounds c Hwf) as Hb.
  pose proof (wf_trans c Hwf) as Ht. pose proof (wf_len c Hwf) as Hl0.
  pose proof (csum_seg big c Hwf addr Hsup) as Hcs. pose proof (transport_verifies big c Hwf IPPROTO_UDP Hc) as Hv.
  pose proof (read_hdr big c Hwf 8 Hc) as Hr. pose proof (seg_hdr_len big c Hwf Hc) as Hl. pose proof (data_printed) as Hdp.
  assert (Hi : iplen_of c = 8 + c_len c) by (unfold iplen_of; by rewrite El). unfold seg_hdr in *.
  rewrite El in *. cbn [header_len proto_of check_off seg_header l4_args wf_l4] in *. destruct Ht as [Hspt Hdpt].
  rewrite spaced_ports, <-app_assoc in Hf |- *.
  unfold describe_udp. replace (u64 (iplen_of c - 8)) with (c_len c) by (rewrite Hi, wrap_small; lia).
  change (tx " 17 ") with (tx " " ++ tx "17" ++ tx " ").
  destruct (emit_fits _ _ _ Hf) as [-> Hf2]. rewrite bind_ret, u64_lt_small by lia. unfold m. rewrite Hr, bind_ret by lia.
  rewrite ztake_all by lia. generalize dependent (check_value big (seg0 c) (pseudo_sum big c)). intros v Hr Hl.
  assert (ntohs_at 0 (put16 big 6 v (be16 spt ++ be16 dpt ++ be16 (8 + c_len c) ++ [0; 0])) = spt) as -> by (by apply ntohs_be16).
  assert (ntohs_at 2 (put16 big 6 v (be16 spt ++ be16 dpt ++ be16 (8 + c_len c) ++ [0; 0])) = dpt) as -> by (by apply ntohs_be16).
  destruct (emit_fits _ _ _ Hf2) as [-> Hf3]. rewrite bind_ret, Z.ltb_irrefl.
  unfold saddr, daddr. rewrite Hcs, bind_ret, Hv by done.
  replace (if mf || _ then mret 0 else Ret 0) with (@Ret Z 0) by (by destruct (mf || _)).
  rewrite bind_ret. cbn [negb Z.eqb]. rewrite (Hdp _ _ _ Hf3) by (done || lia). by rewrite <-!app_assoc.
Qed.

Lemma describe_icmp_cmd type code id sq nested mf out : c_l4 c = LEcho type code id sq →
  zlen (out ++ spaced ([print_u (c_len c); tx "1"] ++ l4_args (c_l4 c)) ++ data_text c) < PBUF →
  describe_icmp big addr m nested 20 (iplen_of c) (iplen_of c) mf out =
    Ret (out ++ spaced ([print_u (c_len c); tx "1"] ++ l4_args (c_l4 c)) ++ data_text c).
Proof.
  intros El Hf. assert (Hc : has_check (c_l4 c)) by (by rewrite El). pose proof (iplen_bounds c Hwf) as Hb.
  pose proof (wf_trans c Hwf) as Ht. pose proof (wf_len c Hwf) as Hl0. pose proof (wf_payload c Hwf) as Hd. unfold wf_data in Hd.
  pose proof (csum_seg big c Hwf addr Hsup) as Hcs. rewrite (icmp_verifies big c Hwf _ _ _ _ El) in Hcs.
  pose proof (read_hdr big c Hwf 8 Hc) as Hr. pose proof (seg_hdr_len big c Hwf Hc) as Hl.
  assert (Hi : iplen_of c = 8 + c_len c) by (unfold iplen_of; by rewrite El). unfold seg_hdr in *.
  rewrite El in *. cbn [header_len proto_of check_off seg_header l4_args wf_l4] in *. destruct Ht as (Ht & Hcd & Hid & Hsq).
  assert (data_text c = []) as Hdt by (unfold data_text; destruct (c_data c); tauto). rewrite Hdt, app_nil_r in *.
  assert (Hsp : spaced ([print_u (c_len c); tx "1"] ++ [print_u type; print_u code; print_u id; print_u sq]) =
    (print_u (c_len c) ++ tx " " ++ tx "1" ++ tx " ") ++ (print_u type ++ tx " " ++ print_u code ++ tx " ") ++
    (print_u id ++ tx " " ++ print_u sq ++ tx " ") ++ []).
  { unfold spaced. cbn [map concat app]. by rewrite <-!app_assoc. }
  rewrite Hsp in Hf |- *.
  unfold describe_icmp. replace (u64 (iplen_of c - 8)) with (c_len c) by (rewrite Hi, wrap_small; lia).
  change (tx " 1 ") with (tx " " ++ tx "1" ++ tx " ").
  destruct (emit_fits _ _ _ Hf) as [-> Hf2]. rewrite bind_ret, u64_lt_small by lia. unfold m. rewrite Hr, bind_ret by lia.
  rewrite ztake_all by lia. generalize dependent (check_value big (seg0 c) (pseudo_sum big c)). intros v Hr Hl.
  change (put16 big 2 v ([type; code; 0; 0] ++ be16 id ++ be16 sq)) with ([type; code] ++ bytes big 2 v ++ be16 id ++ be16 sq) in *.
  cbn [nth app]. destruct (emit_fits _ _ _ Hf2) as [-> Hf3]. rewrite bind_ret, Z.ltb_irrefl.
  replace (if mf then mret 0xFFFF else _) with (@Ret Z 0xFFFF) by (by destruct mf).
  rewrite bind_ret. cbn [negb Z.eqb Pos.eqb]. replace ((type =? 0) || (type =? 8)) with true by (by destruct Ht as [-> | ->]).
  pose proof (length_bytes big 2 v) as Hbl. destruct (bytes big 2 v) as [|b0 [|b1 [|]]]; try done. cbn [app].
  assert (Hn : ∀ x y, ntohs_at 4 (type :: code :: b0 :: b1 :: be16 x ++ be16 y) = 256 * u8 (x / 256) + u8 x ∧
    ntohs_at 6 (type :: code :: b0 :: b1 :: be16 x ++ be16 y) = 256 * u8 (y / 256) + u8 y) by done.
  destruct (Hn id sq) as [-> ->]. rewrite !ntohs_be16 by (unfold in_width in *; lia).
  destruct (emit_fits _ _ _ Hf3) as [-> _]. by rewrite <-!app_assoc, app_nil_r.
Qed.

Lemma describe_tcp_cmd spt dpt flags sq ack win opts mf out : c_l4 c = LTcp spt dpt flags sq ack win opts →
  zlen (out ++ spaced ([print_u (c_len c); tx "6"] ++ l4_args (c_l4 c)) ++ data_text c) < PBUF →
  describe_tcp big addr m (dump_of c) 20 (iplen_of c) (iplen_of c) saddr daddr mf out =
    Ret (out ++ spaced ([print_u (c_len c); tx "6"] ++ l4_args (c_l4 c)) ++ data_text c).
Proof.
  intros El Hf. assert (Hc : has_check (c_l4 c)) by (by rewrite El). pose proof (iplen_bounds c Hwf) as Hb.
  pose proof (wf_trans c Hwf) as Ht. pose proof (wf_len c Hwf) as Hl0.
  pose proof (csum_seg big c Hwf addr Hsup) as Hcs. pose proof (transport_verifies big c Hwf IPPROTO_TCP Hc) as Hv.
  pose proof (read_hdr big c Hwf 20 Hc) as Hr. pose proof (seg_hdr_len big c Hwf Hc) as Hl. pose proof (data_printed) as Hdp.
  pose proof (read_seg big c Hwf 20) as Hopts. rewrite (seg_split big c Hwf Hc) in Hopts.
  assert (Hi : iplen_of c = 20 + zlen opts + c_len c) by (unfold iplen_of; by rewrite El). unfold seg_hdr in *.
  rewrite El in *. pose proof (zlen_nonneg opts) as Hon. cbn [header_len proto_of check_off] in *.
  assert (Hsp : spaced ([print_u (c_len c); tx "6"] ++ l4_args (LTcp spt dpt flags sq ack win opts)) =
    (print_u (c_len c) ++ tx " " ++ tx "6" ++ tx " ") ++ (print_u spt ++ tx " " ++ print_u dpt ++ tx " ") ++
    spaced ([flags_arg flags] ++ when (negb (sq =? 0)) (tx "SEQ=" ++ print_u sq) ++
      when (negb (ack =? 0)) (tx "ACK=" ++ print_u ack) ++ when (negb (win =? 0)) (tx "WIN=" ++ print_u win)) ++
    spaced (when (negb (bool_decide (opts = []))) (opts_arg opts))).
  { cbn [l4_args]. rewrite !spaced_app, !spaced_cons, <-!app_assoc. done. }
  rewrite Hsp in Hf |- *. clear Hsp.
  set (X := print_u (c_len c) ++ tx " " ++ tx "6" ++ tx " ") in *. set (Y := print_u spt ++ _) in *.
  set (F := spaced ([flags_arg flags] ++ _)) in *. set (O := spaced (when _ _)) in *. rewrite <-!app_assoc in Hf |- *.
  destruct (tcp_reads big (check_value big (seg0 c) (pseudo_sum big c)) _ _ _ _ _ _ _ Ht) as (R0 & R2 & R12 & R13 & R4 & R8 & R14).
  pose proof (tcp_opts big (check_value big (seg0 c) (pseudo_sum big c)) spt dpt flags sq ack win opts) as Rop.
  set (shdr := put16 big 16 (check_value big (seg0 c) (pseudo_sum big c)) (seg_header (LTcp spt dpt flags sq ack win opts) (c_len c))) in *.
  change (put16 big 16 _ (seg_header _ 0)) with shdr in *. set (hd := take 20 shdr) in *.
  unfold describe_tcp. rewrite u64_lt_small by lia. unfold m. rewrite Hr by lia. rewrite bind_ret.
  change (ztake 20 shdr) with hd. cbv zeta. rewrite R12.
  replace (u32 (iplen_of c - (20 + zlen opts))) with (c_len c) by (rewrite Hi, wrap_small; lia).
  change (print_u (c_len c) ++ tx " 6 ") with X. destruct (emit_fits _ _ _ Hf) as [-> Hf2]. rewrite bind_ret, R0, R2.
  change (print_u spt ++ _) with Y. destruct (emit_fits _ _ _ Hf2) as [-> Hf3]. rewrite bind_ret, Z.ltb_irrefl.
  pose proof (tcp_fields_args hd _ _ _ _ R13 R4 R8 R14) as HF. fold F in HF.
  rewrite <-HF in Hf3. destruct (emit_all_fits _ _ _ Hf3) as [-> Hf4]. rewrite HF in *. rewrite bind_ret.
  match goal with |- (?b ≫= _) = _ => assert (E : b = Ret (((out ++ X) ++ Y) ++ F ++ O)) end; [|rewrite E, bind_ret].
  2: { unfold saddr, daddr. rewrite Hcs, bind_ret, Hv by done.
    replace (if mf then mret 0 else Ret 0) with (@Ret Z 0) by (by destruct mf).
    rewrite bind_ret. cbn [negb Z.eqb]. rewrite (app_assoc (_ ++ Y)). unfold m in Hdp.
    rewrite Hdp; [by rewrite <-!app_assoc|by rewrite <-!app_assoc in *|done|lia|lia]. }
  destruct (Z.eqb_spec (20 + zlen opts) 20) as [Hz|Hz].
  - assert (opts = []) as Ho by (destruct opts; [done|unfold zlen in Hz; simpl in Hz; lia]).
    assert (O = []) as -> by (unfold O; by rewrite Ho). by rewrite app_nil_r.
  - assert (opts ≠ []) as Ho by (intros ->; by apply Hz).
    assert (O = tx "OPT" ++ opt_list (tx "=") opts ++ tx " ") as EO.
    { unfold O. rewrite bool_decide_eq_false_2 by done. unfold opts_arg, spaced. cbn [negb when map concat]. by rewrite app_nil_r, <-app_assoc. }
    replace (Z.max 0 (20 + zlen opts - 20)) with (zlen opts) by lia. rewrite Hopts by lia. rewrite bind_ret.
    rewrite zdrop_app_le by lia. unfold zdrop. change (Z.to_nat 20) with 20%nat. rewrite Rop, ztake_app_le, ztake_all by lia.
    rewrite <-EO. destruct (emit_fits _ _ _ Hf4) as [-> _]. by rewrite <-!app_assoc.
Qed.

Lemma printed_fits : zlen (join_args (cmd_args c)) + 1 < PBUF → zlen (spaced (head_args c) ++ data_text c) < PBUF.
Proof.
  assert (Hne : head_args c ≠ []) by (unfold head_args; by destruct (opt_args c)).
  rewrite cmd_args_head. unfold data_text. destruct (c_data c) as [d|]; cbn [data_args].
  - rewrite join_app by done. change (join_args [tx "DATA"; d ≫= escape_char]) with (tx "DATA " ++ (d ≫= escape_char)). lia.
  - rewrite !app_nil_r, spaced_join by done. rewrite zlen_app. change (zlen (tx " ")) with 1. lia.
Qed.

Lemma spaced_head : spaced (head_args c) =
  spaced (opt_args c ++ [dotted (c_src c); dotted (c_dst c)]) ++ spaced ([print_u (c_len c); print_u (proto_of (c_l4 c))] ++ l4_args (c_l4 c)).
Proof. unfold head_args. by rewrite app_assoc, spaced_app. Qed.

(** The last number is not followed by a blank. *)
Lemma digits_last n : 0 <= n → ∃ y, last (print_u n) = Some y ∧ y ≠ " "%char.
Proof.
  intros Hn. pose proof (print_u_digits n Hn) as HF. destruct (print_u_spec n Hn) as (Hne & _).
  destruct (last (print_u n)) as [y|] eqn:E; [|by apply last_None in E]. exists y. split; [done|]. intros ->.
  apply last_Some in E as [l E]. rewrite E in HF. apply Forall_app in HF as [_ HF]. by apply Forall_cons in HF as [HF _].
Qed.

Lemma describe_cmd fuel : zlen (join_args (cmd_args c)) + 1 < PBUF →
  describe big addr m (dump_of c) (S fuel) [] (zlen m) 0 = Ret (join_args (cmd_args c), []).
Proof.
  intros Hfit. pose proof (printed_fits Hfit) as Hf. pose proof (finish_args c Hwf) as Hfin. rewrite spaced_head in Hf, Hfin.
  pose proof (iplen_bounds c Hwf) as Hb. pose proof (packet_len big c Hwf) as Hm.
  destruct (iph_reads big c Hwf) as (R6 & R2 & R8 & R1 & R9 & Rs & Rd).
  cbn [describe]. rewrite u64_lt_small by (fold m in Hm; lia). unfold m. rewrite (read_iph big c Hwf), bind_ret.
  rewrite (csum_iph big c Hwf addr Hsup), bind_ret. cbn [negb Z.eqb Pos.eqb]. rewrite R6, R8, R1, R9, Rs, Rd.
  pose proof (emit_all_fits (ip_fields (frag_bits c) (default 255 (c_ttl c)) 0 (quad (c_src c)) (quad (c_dst c)) (dump_of c))
    (spaced ([print_u (c_len c); print_u (proto_of (c_l4 c))] ++ l4_args (c_l4 c)) ++ data_text c) []) as He.
  rewrite ip_fields_cmd in He. cbn [app] in He. rewrite <-app_assoc in Hf. destruct (He Hf) as [-> _]. rewrite bind_ret.
  replace (negb (Z.land (frag_bits c) IP_OFFSET =? 0)) with false by (unfold frag_bits; by destruct (c_df c), (c_mf c), (c_ce c)).
  cbv zeta. rewrite R2. unfold tot_len.
  replace (s32 (20 + header_len (c_l4 c) + c_len c - 20)) with (iplen_of c)
    by (unfold iplen_of, signed; unfold iplen_of in Hb; rewrite wrap_small by lia; rewrite (proj2 (Z.ltb_lt _ _)) by lia; lia).
  replace (s32 (zlen (packet_of big c) - 20)) with (iplen_of c)
    by (rewrite Hm; unfold signed; rewrite wrap_small by lia; rewrite (proj2 (Z.ltb_lt _ _)) by lia; lia).
  set (out := spaced (opt_args c ++ _)) in *. set (mf := negb (Z.land (frag_bits c) IP_MF =? 0)).
  assert (Hmf : Z.land (frag_bits c) IP_MF = if c_mf c then IP_MF else 0) by (unfold frag_bits; by destruct (c_df c), (c_mf c), (c_ce c)).
  rewrite <-!app_assoc in Hfin. pose proof (wf_trans c Hwf) as Ht.
  pose proof describe_udp_cmd as Hudp. pose proof describe_tcp_cmd as Htcp. pose proof describe_icmp_cmd as Hicmp.
  destruct (c_l4 c) as [spt dpt|spt dpt flags sq ack win opts|type code id sq|p] eqn:El; cbn [proto_of] in *;
    unfold IPPROTO_ICMP, IPPROTO_UDP, IPPROTO_TCP in *.
  - cbn [Z.eqb Pos.eqb]. unfold m, saddr, daddr in Hudp. erewrite Hudp; [|reflexivity|exact Hf]. rewrite bind_ret. change (tx "17") with (print_u 17). by rewrite Hfin.
  - cbn [Z.eqb Pos.eqb]. unfold m, saddr, daddr in Htcp. erewrite Htcp; [|reflexivity|exact Hf]. rewrite bind_ret. change (tx "6") with (print_u 6). by rewrite Hfin.
  - cbn [Z.eqb Pos.eqb]. unfold m in Hicmp. erewrite Hicmp; [|reflexivity|exact Hf]. rewrite bind_ret. change (tx "1") with (print_u 1). by rewrite Hfin.
  - cbn [wf_l4] in Ht. destruct Ht as (Hp & H1 & H6 & H17). rewrite (proj2 (Z.eqb_neq p 1)), (proj2 (Z.eqb_neq p 6)), (proj2 (Z.eqb_neq p 17)) by done.
    assert (Hi : iplen_of c = c_len c) by (unfold iplen_of; rewrite El; cbn [header_len]; lia).
    assert (Hdt : data_text c = []).
    { pose proof (wf_payload c Hwf) as Hd. unfold wf_data in Hd. rewrite El in Hd. unfold data_text. destruct (c_data c); tauto. }
    rewrite Hdt in Hf, Hfin.
    assert (Hsp : spaced ([print_u (c_len c); print_u p] ++ l4_args (LOther p)) = (print_u (c_len c) ++ tx " " ++ print_u p) ++ tx " ").
    { cbn [l4_args app]. rewrite !spaced_cons. change (spaced []) with (@nil ascii). by rewrite <-!app_assoc, app_nil_r. }
    rewrite Hsp, app_nil_r in *. rewrite app_assoc, finish_blank in Hfin. injection Hfin as <-.
    rewrite wrap_small, Hi by lia. destruct (emit_fits _ _ _ Hf) as [-> _]. rewrite bind_ret, Z.ltb_irrefl, bind_ret.
    unfold in_width in Hp. destruct (digits_last p ltac:(lia)) as (y & Hy & Hny).
    erewrite finish_plain; [done| |exact Hny]. by rewrite !last_app, Hy.
Qed.
End Print.

(** C2: gen_ip and the packet log agree: for a command with the protocol arguments of
    UDP, TCP (flags, sequence numbers, window, options), ICMP echo or another
    protocol, with DF, MF, CE, TTL and DATA, gen_ip builds a packet, says nothing,
    and the description of that packet with the dump flags gen_ip attached is the
    argument line itself; so what the log shows can be given to gen_ip again, and a
    script can expect the line it sent.  The checksums are those of the supported
    alignments, and the line must fit the buffer of the log. *)
Theorem gen_ip_describe {S : Type} `{Logger S} (big : bool) (u_addr addr : Z) (a0 : text) (c : cmd) (s : S) :
  wf_cmd c → supported big u_addr (header_len (c_l4 c) + c_len c) → supported big addr (header_len (c_l4 c) + c_len c) →
  zlen (join_args (cmd_args c)) + 1 < PBUF →
  ∃ p dump_flags, parse_packet big u_addr (a0 :: cmd_args c) None s = Ret (Some (p, dump_flags), s) ∧
    ipv4_describe_packet big addr (iph p ++ ztake (ntohs_at 2 (iph p) - 20) (u p)) dump_flags = Ret (join_args (cmd_args c)).
Proof.
  intros Hwf Hu Ha Hfit. destruct (parse_packet_cmd big u_addr a0 c s Hwf Hu) as [tl E].
  exists (Packet [0; 0; 0; 0; 0; 0] [0; 0; 0; 0; 0; 0] ETH_P_IP (iph_of big c) (seg big c ++ tl)), (dump_of c). split; [exact E|].
  destruct (iph_reads big c Hwf) as (_ & R2 & _). cbn [iph u]. rewrite R2.
  replace (tot_len c - 20) with (zlen (seg big c)) by (rewrite seg_len by done; unfold tot_len, iplen_of; lia).
  rewrite ztake_app_le, ztake_all by lia. unfold ipv4_describe_packet.
  rewrite (describe_cmd big c Hwf addr Ha _ Hfit), bind_ret. cbn [mret outcome_ret]. by rewrite app_nil_r.
Qed.

Definition syn_ack : cmd :=
  Cmd true false false (Some 64) (192, 168, 0, 2) (192, 168, 1, 2) 4
    (LTcp 1025 80 (Z.lor TH_SYN TH_ACK) 1000 4294967295 65535 [2; 4; 5; 180]) (Some (tx "a" ++ [chr 10; chr 200] ++ tx "z")).

Lemma gen_ip_describe_witness :
  join_args (cmd_args syn_ack) = tx "DF TTL=64 192.168.0.2 192.168.1.2 4 6 1025 80 SYN/ACK SEQ=1000 ACK=4294967295 WIN=65535 OPT=2,4,5,180 DATA a\n\xc8z" ∧
  ∃ p dump_flags, parse_packet false 4096 (tx "gen_ip" :: cmd_args syn_ack) None log0 = Ret (Some (p, dump_flags), log0) ∧
    ipv4_describe_packet false 8192 (iph p ++ ztake (ntohs_at 2 (iph p) - 20) (u p)) dump_flags = Ret (join_args (cmd_args syn_ack)).
Proof.
  split; [vm_compute; reflexivity|]. apply (gen_ip_describe false 4096 8192 (tx "gen_ip") syn_ack log0).
  - constructor; [intros t [= <-]; by unfold in_width|by repeat constructor..|done|done| |]; cbn.
    + unfold in_width. repeat split; try lia; try by repeat constructor.
    + repeat split; done.
  - right. split; vm_compute; reflexivity.
  - right. split; vm_compute; reflexivity.
  - vm_compute. reflexivity.
Defined.

(** What is logged about the packet of a command, and what gen_ip logs about a command. *)
Definition logged_as (ws : list text) : outcome text :=
  '(r, _) ← parse_packet false 0 (tx "gen_ip" :: ws) None log0;
  match r with
  | Some (p, fl) => ipv4_describe_packet false 0 (iph p ++ ztake (ntohs_at 2 (iph p) - 20) (u p)) fl
  | None => Barf "rejected"
  end.
Definition rejected_with (ws : list text) : outcome (list text) :=
  '(r, s) ← parse_packet false 0 (tx "gen_ip" :: ws) None log0;
  match r with Some _ => Barf "accepted" | None => mret (logstream s) end.

(** TTL is printed before TOS and read after it. *)
Lemma ttl_before_tos :
  logged_as [tx "TOS=4"; tx "TTL=3"; tx "1.2.3.4"; tx "5.6.7.8"; tx "2"; tx "17"; tx "1"; tx "2"] =
    Ret (join_args [tx "TTL=3"; tx "TOS=4"; tx "1.2.3.4"; tx "5.6.7.8"; tx "2"; tx "17"; tx "1"; tx "2"]) ∧
  rejected_with [tx "TTL=3"; tx "TOS=4"; tx "1.2.3.4"; tx "5.6.7.8"; tx "2"; tx "17"; tx "1"; tx "2"] =
    Ret [tx "gen_ip: bad length `5.6.7.8' specified"].
Proof. vm_compute. split; reflexivity. Qed.

(** A fragment is printed without its length, which gen_ip asks for. *)
Lemma frag_without_length :
  logged_as [tx "FRAG=8,4"; tx "1.2.3.4"; tx "5.6.7.8"; tx "20"; tx "17"; tx "1"; tx "2"] = Ret (tx "FRAG=8 1.2.3.4 5.6.7.8") ∧
  rejected_with [tx "FRAG=8"; tx "1.2.3.4"; tx "5.6.7.8"; tx "4"; tx "17"] = Ret [tx "Need FRAG=<offset>,<length>"].
Proof. vm_compute. split; reflexivity. Qed.

(** A packet that is cut short inside the IP header: only the blank before the
    buffer decides what describe prints, and that byte is not its own. *)
Lemma truncated_reads_before : ipv4_describe_packet false 0 [0x45; 0; 0; 20] None = Fault "describe: ptr[-1] is before ipv4_pbuf".
Proof. reflexivity. Qed.
